(* ===== verification/_CoqProject ===== *)
-Q . S2P
Prelude.v
GoStr.v
GoPath.v
GoTime.v
GoFs.v
GoHash.v
GoBase64.v
GoTree.v
GoGlob.v
GoTreeFacts.v
TreeWalk.v
TreeMove.v
TtlCache.v
SftpPool.v
SftpClient.v
SshSession.v
Upgrade.v
Etcd.v
EtcdWatch.v
EtcdCallers.v
EtcdWatchRun.v
WebSocket.v
Sse.v
Relay.v
Filer.v
FilerTree.v
FilerRelease.v
Archive.v
Strutil.v
JsonlFilter.v
JsonlReader.v
JsonlRetain.v
JsonlStore.v
JsonlAsync.v
JsonlRoundtrip.v
GoText.v
Command.v
Request.v
Certify.v
Psutil.v
GoFloat.v
GoCsv.v
GpuHelper.v
GpuApple.v
Gpu.v
Logman.v
Quit.v
Dborm.v
CloudAlibaba.v
CloudCloudflare.v
CloudTencent.v
GoMd5.v
Secure.v
HttpStatic.v
HttpEngine.v
