(* ===== verification/Prelude.v ===== *)
(** * libgo: a verification development for the Go helper library

    The repository is a collection of packages that a server program uses side by
    side; no package is the main program.  This development models the ones with
    state, concurrency or data formats of their own, in one file per component,
    each definition named after the Go function it translates.

    ** The parts of the library and where they are modelled

    - Ground: this file (byte strings, machine integers, errors, results, panics,
      the state monad, automation), [GoStr] and [GoText] ([strings], [strconv], [bytes]),
      [GoPath] ([path], [path/filepath]), [GoTime] (instants, zones with summer
      time, calendar dates), [GoFs] (files with modes, and system calls that fail by a script),
      [GoHash] (SHA-256 and hexadecimal), [GoMd5], [GoBase64], [GoFloat] (binary64
      numbers, rounded exactly), [GoCsv] ([encoding/csv]); [GoTree] (a file system with
      directories and symbolic links, paths resolved as Linux does), [GoTreeFacts]
      (which nodes each call can change, whatever fails), [TreeWalk] (which nodes a
      walk visits), [TreeMove] (removing and renaming subtrees), [GoGlob] (patterns of paths).
      They model the standard library as far as the packages call it.
    - [src/jsonl], an append-only log of JSON lines in one file per day:
      [JsonlFilter] (names, [filter.go]), [JsonlReader] ([reader.go]),
      [JsonlRetain] ([retain.go], over [GoGlob]), [JsonlStore] ([store.go]: the [bufio.Writer],
      the rotation at midnight, [Close]), [JsonlAsync] (the background worker of
      [store.go] as a step relation) and [JsonlRoundtrip] (writer and reader
      together).
    - [src/ttlcache]: [TtlCache], against an abstract cache, and as interleaved
      critical sections.
    - [src/webssh]: [SftpPool] (the connection pool: critical sections as functions,
      goroutines as a step relation), [SftpClient] (every method of
      [sftp_client.go], and [ssh_client.go], over the class [Remote] of the SSH and
      SFTP libraries), [SshSession] ([session.go]).
    - [src/upgrade]: [Upgrade], the update of the running binary over [GoFs].
    - [src/etcd]: [Etcd] ([client.go], over the class [Network], run alone),
      [EtcdCallers] (any number of callers of [do] at once), [EtcdWatch]
      ([watch.go]: one connection over a scripted stream, then the reconnection
      loop over the outcomes of connections) and [EtcdWatchRun] (both over the client).
    - [src/websocket]: [WebSocket], over the class [Ws] of the gorilla library,
      whose documented laws are the class [WsLaws].
    - [src/filer]: [Filer] (every operation; writing, appending, saving),
      [FilerTree] (moving, listing, measuring), [FilerRelease] (releasing an embedded
      tree; any sequence of operations), over [GoTree].
    - [src/archive]: [Archive] ([zip.go] and [tar.gz.go]), over [GoTree] and [Filer].
    - [src/relay]: [Relay], the goroutines of [Bridge] as a step relation.
    - [src/httpd]: [Sse], the writer of [sse.go] against what a browser receives;
      [HttpStatic] ([static.go], [recovery.go]); [HttpEngine] ([engine.go], and [Server]
      up to the start), over [Logman]; [Quit] (the options of [server.go], and its server
      in the life of the process).
    - [src/signal], with [Fatal] of [src/logman] and the server: [Quit], the goroutine of
      [OnQuit], the main one, the signals and the connections as a step relation whose
      steps carry the goroutine that takes them; a callback begins and, if it is one that
      returns, returns, and a connection may be taken over by its handler.
    - [src/logman]: [Logman], over what it uses of [log/slog] and over [GoTree].
    - [src/dborm]: [Dborm], over [Logman].
    - [src/gpu]: [GpuHelper] ([helper.go]), [GpuApple] ([apple.go]) and [Gpu] (the
      collectors and [GetGPUStats]), over [GoTree], [GoGlob], [GoCsv] and [GoFloat].
    - [src/cloud]: [CloudAlibaba], [CloudTencent], and [CloudCloudflare] over [Request].
    - [src/secure]: [Secure], over [GoMd5] and the classes [Bcrypt] and [Des3].
    - [src/command]: [Command] ([exec.go], [shell.go]), scripts as files of [GoTree].
    - [src/request]: [Request], over the maps of headers that callers share with it.
    - [src/certify]: [Certify], programs over the calls made of the ACME client, the
      DNS provider, the cache and the clock (the class [World]).
    - [src/psutil]: [Psutil] (addresses, cloud identity, summary, details), over [Request].
    - [src/strutil]: [Strutil].

    ** How code becomes definitions

    A function without effects is a function.  A method with effects is a
    computation in [State S], where [S] is the receiver with the part of the
    outside world it touches.  A Go [error] is an [error] inside [result], a panic
    is the outcome [Panic], and a value that wraps ([%w]) is [EWrap], so that
    [errors.Is] can be decided; other texts of error messages are kept where they
    are constant.  Where goroutines share state, the critical sections between lock
    and unlock are functions, and an inductive step relation interleaves them.
    System calls take their success or failure from a list of faults, so that a
    theorem over all lists covers every failure.  Third-party code is a class or a
    variable, with what it documents as named laws; an etcd server, the authority and the
    DNS provider of a certificate, and the handler that downloads an update, may answer
    whatever they like.  A time zone is an offset at every instant; a theorem that needs
    days to begin at their midnight says so by [GoTime.zone_regular], which holds for fixed
    offsets and for zones such as New York's.  Integers are [Z] with
    [i64] and [u64] at the operations that can wrap.

    ** What the theorems show

    - The log keeps what it is given: [JsonlStore.Close_writes_log] (after [Close]
      the files are their old contents and the appended records, by day, in order),
      [JsonlStore.files_append_only], [JsonlAsync.async_Close_complete] and
      [async_Close_terminates] (every interleaving of the worker),
      [JsonlRoundtrip.Append_DecodeSince_roundtrip] (in zones whose days are regular).
    - The readers agree: [JsonlReader.tailLines_last],
      [tailLines_reverse_of_ScanFile], [DecodeSinceSampled_spec],
      [DecodeTailDays_newest]; retention: [JsonlRetain.CleanOlderThan_days]
      (which files go, and which others can, for names without pattern characters).
    - Shared state under interleaving: [TtlCache.Get_sequential], [Get_hit_sound];
      [SftpPool.pool_ownership], [getConn_terminates];
      [SftpClient.pooled_error_invalidates], [Download_private], [DirSize_sum].
    - Failure atomicity: [Upgrade.commitBinary_safe], [Apply_safe]
      (what the handler downloaded, wherever it put it, or the old binary),
      [parseChecksum_spec]; [SshSession.ConnectWithOptions_closes].
    - Files and trees: [Archive.Unzip_contained] (no archive writes outside its
      directory), [Unzip_extracts], [Zip_Unzip_roundtrip], [UntarFile_first];
      [Filer.Write_Append_Read], [Append_keeps], [save_load]; [FilerTree.Move_moves],
      [DirSize_total], [List_spec]; [FilerRelease.ReleaseEmbedFS_spec],
      [ReleaseEmbedFS_cleans_up], [filer_calls_safe].
    - Streams and protocols: [Sse.serve_receive] (a browser receives the events of the
      successful calls); [Relay.Bridge_forwards], [Bridge_terminates];
      [WebSocket.Read_stream], [matchOrigin_spec],
      [SshSession.resize_reader_stream]; [Etcd.Put_Get_roundtrip], [do_bounded],
      [do_refreshes_token], [endpoint_fair]; [EtcdWatch.watchOnce_delivers],
      [Watch_no_busy_loop], [Watch_backoff].  Many callers of one etcd client:
      [EtcdCallers.one_refresh] (whatever the server answers, a token is asked for only for
      want of one or after a refusal of the last), [callers_return] (no schedule blocks),
      [alone_do] (the steps are those of [Etcd.do]).  A watch and its client:
      [EtcdWatchRun.Watch_run_pace] (never two connections in a row without a wait, even
      when every token is refused).
    - The end of the process: [Quit.quit_complete] (every callback registered before the
      signal, once, in order, and no connection of the server left), [quit_ends] (with
      callbacks that return, the goroutine of the signal ends the process by its own steps),
      [blocked_callback] (with one that does not, it never does).
    - Reports and formats: [GpuHelper.readCSVRecords_table],
      [normalizePCIAddress_canonical], [parseUint64Bytes_exact];
      [GpuApple.parseIORegGPUs_roundtrip]; [Gpu.collectNvidiaSMI_reports],
      [GetGPUStats_reads].
    - Clients of other services: [CloudCloudflare.Request_sends],
      [CloudAlibaba.solveEndpoint_cached], [CloudTencent.getSDKError_line];
      [Dborm.OrderSafe_spec], [Trace_writes]; [Logman.FileWriter_stays];
      [HttpEngine.Engine_once], [HttpStatic.StaticServe_spec]; [Secure.Des3_roundtrip],
      [BcryptVerify_hash].
    - Certificates: [Certify.getCertDNS01_records] (every record published answers an
      authorization of the order with the account key, every challenge accepted has its
      record, and records are deleted again), [saveCert_loadCert], [getSingleCert_events],
      [challenge_name].
    - Requests, scripts and totals: [Request.typed_request_sends], [SaveStream_saves];
      [Command.RunScript_runs_file], [GetShell_allowed], [fixLineEnding_uniform];
      [Psutil.Detail_disk_totals], [PublicAddress_keeps].
    - Behaviours that a caller should know, each proved on the model:
      [TtlCache.Get_race_deletes_fresh], [SftpPool.Close_race_leak],
      [evict_closes_in_use], [SftpClient.pooled_error_misses_key],
      [Move_into_directory_fails], [SshSession.malformed_resize_zero],
      [Upgrade.Check_null_panics], [WebSocket.ReadTimeout_absolute],
      [Cors_reflects_any_origin], [JsonlRetain.CleanOlderThan_unused_sep],
      [CleanOlderThan_meta], [JsonlReader.days_SaoPaulo], [days_Apia_for_ever],
      [JsonlRoundtrip.Append_buffered_not_on_disk], [Strutil.Dedent_flattens],
      [Archive.Unzip_skips_dotdot_names], [Zip_ignores_close_error],
      [Sse.WriteEvent_injection], [FilerTree.Move_deletes_first],
      [DirSize_counts_links], [Request.shared_headers_keep_type],
      [Command.RunScript_leaks_file], [RunScript_empty_panics],
      [Certify.getCertDNS01_silent_failure], [Psutil.Detail_panics],
      [Logman.WithContext_shared], [replaceAttr_overwrites_time];
      [Quit.Server_cuts_connections], [Fatal_calls_twice];
      [CloudAlibaba.Request_ignores_Endpoint], [Gpu.empty_address],
      [HttpStatic.StaticServe_prefix_unreachable], [HttpEngine.WithDebug_ignored],
      [Dborm.dsn_password].

    ** Fuel and bounds

    Only loops whose number of turns the code does not bound have fuel.
    [WebSocket.Read_fuel] turns once per empty message: [Read_stream] gives fuel
    that suffices, [fuel_for], computed from the messages still to come.
    [JsonlReader.tail_loop] is bounded by the length of the file, since each turn
    moves the offset back.  [JsonlReader.daysInRange] has a turn for every twelve hours,
    enough where the zone is regular ([days_loop_enough]); elsewhere the code itself can
    turn for ever.  [Etcd.do_loop] is the loop [range 2] of the code.
    The fuel of [GoGlob] is the length of the pattern: [parse_pattern_enough],
    [class_ranges_enough] and [glob_from_enough] say that more makes no difference, as does
    [CloudTencent.remove_ids_enough].  The blocks of [GoHash] and [GoMd5] are fewer than
    the bytes.  [GoTree.resolve] follows at most forty links, as Linux does; the walks of a tree
    have its depth as fuel, and the number of its nodes is always enough.  The
    byte limits of the code (64 KiB chunks and scanner buffers) are kept.

    ** What is not modelled

    Every package is modelled.  Left out are: the time that passes between steps, beyond
    the durations the code names; memory exhaustion; the texts of wrapped errors of other
    libraries; contexts that are cancelled, but where [EtcdWatch] polls them;
    log messages, except where a package's purpose is to write them.  Third-party code and
    the generators of randomness are variables or classes.  What would be one call of a
    library or a constant stays out: the JSON form of [psutil.SummaryStat], the file of
    [filer] for Windows, constructors of empty structures.
    The theorems on trees are for absolute clean paths and trees without symbolic
    links; the definitions are for all. *)

From stdpp Require Export base tactics list list_numbers gmap strings.
From Stdlib Require Export ZArith Lia Ascii.
From Stdlib Require Import String.

(** The automation database of the development. *)
Create HintDb golib.

Declare Scope go_scope.
Delimit Scope go_scope with go.

(** ** Byte strings

    A Go [string] and a Go [[]byte] are both finite sequences of bytes. *)

Abbreviation bytes := (list ascii).

Definition lit (s : string) : bytes := list_ascii_of_string s.

Notation "$ s" := (lit s%string) (at level 1, s at level 0, format "$ s") : go_scope.
Open Scope go_scope.

(** The code of a byte, between 0 and 255. *)
Definition code (c : ascii) : Z := Z.of_N (N_of_ascii c).

Definition chr (z : Z) : ascii := ascii_of_N (Z.to_N z).

Lemma code_range c : (0 <= code c < 256)%Z.
Proof.
  unfold code. pose proof (N_ascii_bounded c). lia.
Qed.

Lemma chr_code c : chr (code c) = c.
Proof. unfold chr, code. rewrite N2Z.id. apply ascii_N_embedding. Qed.

Lemma code_chr z : (0 <= z < 256)%Z -> code (chr z) = z.
Proof.
  intros Hz. unfold chr, code. rewrite N_ascii_embedding by lia. lia.
Qed.

Lemma code_inj c d : code c = code d -> c = d.
Proof. intros H. rewrite <- (chr_code c), <- (chr_code d). by f_equal. Qed.

#[export] Hint Resolve code_range : golib.

Definition nl : ascii := "010"%char.
Definition cr : ascii := "013"%char.

(** ** Machine integers

    Go's [int] and [int64] are 64-bit two's complement, [uint64] is modular. *)

Definition i64 (z : Z) : Z := ((z + 2 ^ 63) mod 2 ^ 64 - 2 ^ 63)%Z.
Definition u64 (z : Z) : Z := (z mod 2 ^ 64)%Z.

Definition in_i64 (z : Z) : Prop := (- 2 ^ 63 <= z < 2 ^ 63)%Z.
Definition in_u64 (z : Z) : Prop := (0 <= z < 2 ^ 64)%Z.

#[export] Instance in_i64_dec z : Decision (in_i64 z).
Proof. unfold in_i64. apply _. Defined.
#[export] Instance in_u64_dec z : Decision (in_u64 z).
Proof. unfold in_u64. apply _. Defined.

Lemma i64_id z : in_i64 z -> i64 z = z.
Proof. unfold in_i64, i64. intros H. rewrite Z.mod_small; lia. Qed.

Lemma i64_range z : in_i64 (i64 z).
Proof.
  unfold in_i64, i64. pose proof (Z.mod_pos_bound (z + 2 ^ 63) (2 ^ 64) ltac:(lia)). lia.
Qed.

Lemma u64_id z : in_u64 z -> u64 z = z.
Proof. unfold in_u64, u64. intros H. apply Z.mod_small. lia. Qed.

Lemma u64_range z : in_u64 (u64 z).
Proof. unfold in_u64, u64. apply Z.mod_pos_bound. lia. Qed.

#[export] Hint Resolve i64_range u64_range : golib.

(** ** Errors and outcomes

    An [error] value keeps what the code distinguishes: a fresh message
    ([errors.New], [fmt.Errorf] without a wrapped operand), the error value of a
    package-level variable, named by its message, a message wrapped around a
    cause ([fmt.Errorf] with [%w]), the operating-system conditions
    that [os.IsNotExist] and [os.IsExist] recognise, and any other error of the
    environment, by number. *)

Inductive error :=
  | ENew (msg : bytes)
  | ESentinel (msg : bytes)
  | EWrap (msg : bytes) (cause : error)
  | ENotExist
  | EExist
  | EOther (n : nat).

#[export] Instance error_eq_dec : EqDecision error.
Proof. solve_decision. Defined.

(** [errors.Is]: the chain of wrapped causes is searched. *)
Fixpoint errors_Is (e target : error) : bool :=
  bool_decide (e = target) ||
  match e with
  | EWrap _ c => errors_Is c target
  | _ => false
  end.

(** What a call that may panic yields. *)
Inductive outcome (A : Type) :=
  | Ret (a : A)
  | Panic.
Arguments Ret {A} a.
Arguments Panic {A}.

#[export] Instance outcome_eq_dec `{EqDecision A} : EqDecision (outcome A).
Proof. solve_decision. Defined.

(** Go's [(T, error)] result, where exactly one of the two is meaningful. *)
Inductive result (A : Type) :=
  | Ok (a : A)
  | Err (e : error).
Arguments Ok {A} a.
Arguments Err {A} e.

#[export] Instance result_eq_dec `{EqDecision A} : EqDecision (result A).
Proof. solve_decision. Defined.

Definition is_ok {A} (r : result A) : bool :=
  match r with Ok _ => true | Err _ => false end.

#[export] Instance result_ret : MRet result := @Ok.
#[export] Instance result_bind : MBind result :=
  fun A B f r => match r with Ok a => f a | Err e => Err e end.

(** ** The state monad

    Code that reads and writes shared state is a function from the state to a
    value and the new state. *)

Definition State (S A : Type) : Type := S -> A * S.

#[export] Instance State_ret S : MRet (State S) := fun A a s => (a, s).
#[export] Instance State_bind S : MBind (State S) :=
  fun A B f m s => let '(a, s') := m s in f a s'.

Definition get {S} : State S S := fun s => (s, s).
Definition put {S} (s' : S) : State S unit := fun _ => (tt, s').
Definition modify {S} (f : S -> S) : State S unit := fun s => (tt, f s).
Definition gets {S A} (f : S -> A) : State S A := fun s => (f s, s).

(** Two computations are the same when they agree on every state. *)
Definition st_eq {S A} (m1 m2 : State S A) : Prop := forall s, m1 s = m2 s.

#[export] Instance st_eq_equivalence S A : Equivalence (@st_eq S A).
Proof.
  split; unfold st_eq.
  - intros m s. done.
  - intros m1 m2 H s. by rewrite H.
  - intros m1 m2 m3 H1 H2 s. by rewrite H1.
Qed.

Lemma st_bind_ret_l {S A B} (a : A) (f : A -> State S B) : st_eq (mret a ≫= f) (f a).
Proof. intros s. reflexivity. Qed.

Lemma st_bind_ret_r {S A} (m : State S A) : st_eq (m ≫= mret) m.
Proof. intros s. unfold mbind, State_bind. by destruct (m s). Qed.

Lemma st_bind_run {S A B} (m : State S A) (f : A -> State S B) s a s' :
  m s = (a, s') -> (m ≫= f) s = f a s'.
Proof. intros H. unfold mbind, State_bind. by rewrite H. Qed.

Lemma st_bind_assoc {S A B C} (m : State S A) (f : A -> State S B) (g : B -> State S C) :
  st_eq ((m ≫= f) ≫= g) (m ≫= fun a => f a ≫= g).
Proof. intros s. unfold mbind, State_bind. by destruct (m s). Qed.

#[export] Instance st_bind_proper S A B :
  Proper (pointwise_relation A (@st_eq S B) ==> @st_eq S A ==> @st_eq S B)
    (@mbind (State S) _ A B).
Proof.
  intros f g Hfg m1 m2 Hm s. unfold mbind, State_bind.
  rewrite Hm. destruct (m2 s) as [a s']. apply Hfg.
Qed.

(** Running a list of operations one after the other. *)
Fixpoint st_mapM {S A B} (f : A -> State S B) (l : list A) : State S (list B) :=
  match l with
  | [] => mret []
  | x :: l' => y ← f x; ys ← st_mapM f l'; mret (y :: ys)
  end.

(** Early return: the rest of a function runs when the call gave no error. *)
Definition try_bind {S A B : Type} (m : State S (result A)) (f : A -> State S (result B))
    : State S (result B) :=
  r ← m;
  match r with
  | Ok a => f a
  | Err e => mret (Err e)
  end.

Notation "x ←? m ; k" := (try_bind m (fun x => k))
  (at level 20, m at level 100, k at level 200, only parsing) : go_scope.

Lemma try_bind_ok {S A B : Type} (m : State S (result A)) (f : A -> State S (result B)) s a s' :
  m s = (Ok a, s') -> try_bind m f s = f a s'.
Proof. intros H. unfold try_bind, mbind, State_bind. by rewrite H. Qed.

Lemma try_bind_err {S A B : Type} (m : State S (result A)) (f : A -> State S (result B)) s e s' :
  m s = (Err e, s') -> try_bind m f s = (Err e, s').
Proof. intros H. unfold try_bind, mbind, State_bind. by rewrite H. Qed.
