(* ===== verification/GoStr.v ===== *)
(** * The string functions of the Go standard library that the code calls

    Packages [strings], [strconv] and [bytes], on byte strings.  Case mapping
    and trimming are the ASCII parts; the one caller that meets non-ASCII input
    ([strutil]) states the rest itself. *)

From S2P Require Import Prelude.

(** ** Prefixes and suffixes *)

Fixpoint strip_prefix (p s : bytes) : option bytes :=
  match p, s with
  | [], _ => Some s
  | x :: p', y :: s' => if decide (x = y) then strip_prefix p' s' else None
  | _ :: _, [] => None
  end.

Definition HasPrefix (s p : bytes) : bool :=
  match strip_prefix p s with Some _ => true | None => false end.

Definition TrimPrefix (s p : bytes) : bytes := default s (strip_prefix p s).

Definition strip_suffix (p s : bytes) : option bytes :=
  reverse <$> strip_prefix (reverse p) (reverse s).

Definition HasSuffix (s p : bytes) : bool :=
  match strip_suffix p s with Some _ => true | None => false end.

Definition TrimSuffix (s p : bytes) : bytes := default s (strip_suffix p s).

Lemma strip_prefix_Some p s r : strip_prefix p s = Some r <-> s = p ++ r.
Proof.
  revert s. induction p as [|x p IH]; intros s; simpl.
  - split; congruence.
  - destruct s as [|y s]; [split; congruence|].
    case_decide; subst.
    + rewrite IH. split; [intros ->; done | by intros [= ->]].
    + split; [done | intros [= -> _]; done].
Qed.

Lemma strip_prefix_app p r : strip_prefix p (p ++ r) = Some r.
Proof. by apply strip_prefix_Some. Qed.

Lemma strip_suffix_Some p s r : strip_suffix p s = Some r <-> s = r ++ p.
Proof.
  unfold strip_suffix. rewrite fmap_Some. split.
  - intros (r' & H & ->). apply strip_prefix_Some in H.
    rewrite <- (reverse_involutive s), H, reverse_app, reverse_involutive. done.
  - intros ->. exists (reverse r). rewrite reverse_app, strip_prefix_app.
    by rewrite reverse_involutive.
Qed.

Lemma strip_suffix_app r p : strip_suffix p (r ++ p) = Some r.
Proof. by apply strip_suffix_Some. Qed.

Lemma HasPrefix_spec s p : HasPrefix s p = true <-> exists r, s = p ++ r.
Proof.
  unfold HasPrefix. destruct (strip_prefix p s) as [r|] eqn:E.
  - apply strip_prefix_Some in E. split; eauto.
  - split; [done|]. intros [r Hr]. apply strip_prefix_Some in Hr. congruence.
Qed.

Lemma HasSuffix_spec s p : HasSuffix s p = true <-> exists r, s = r ++ p.
Proof.
  unfold HasSuffix. destruct (strip_suffix p s) as [r|] eqn:E.
  - apply strip_suffix_Some in E. split; eauto.
  - split; [done|]. intros [r Hr]. apply strip_suffix_Some in Hr. congruence.
Qed.

Lemma TrimPrefix_app p r : TrimPrefix (p ++ r) p = r.
Proof. unfold TrimPrefix. by rewrite strip_prefix_app. Qed.

Lemma TrimSuffix_app r p : TrimSuffix (r ++ p) p = r.
Proof. unfold TrimSuffix. by rewrite strip_suffix_app. Qed.

#[export] Hint Resolve strip_prefix_app strip_suffix_app : golib.

(** ** Searching *)

Fixpoint Contains (s sub : bytes) : bool :=
  HasPrefix s sub || match s with [] => false | _ :: s' => Contains s' sub end.

Lemma Contains_app_r s t sub : Contains t sub = true -> Contains (s ++ t) sub = true.
Proof.
  intros H. induction s as [|c s IH]; [done|]. cbn [app Contains]. rewrite IH. apply orb_true_r.
Qed.

(** ** Splitting and joining *)

(** [strings.Split(s, sep)] for a one-byte separator. *)
Fixpoint Split (s : bytes) (sep : ascii) : list bytes :=
  match s with
  | [] => [[]]
  | x :: s' =>
      match Split s' sep with
      | [] => [[]]
      | w :: ws => if decide (x = sep) then [] :: w :: ws else (x :: w) :: ws
      end
  end.

Fixpoint Join (ws : list bytes) (sep : bytes) : bytes :=
  match ws with
  | [] => []
  | [w] => w
  | w :: ws' => w ++ sep ++ Join ws' sep
  end.

Lemma Split_nonempty s sep : Split s sep <> [].
Proof.
  destruct s as [|x s]; simpl; [done|].
  destruct (Split s sep); [done|]. by case_decide.
Qed.

Lemma Split_cons_sep s sep : Split (sep :: s) sep = [] :: Split s sep.
Proof.
  simpl. pose proof (Split_nonempty s sep). destruct (Split s sep); [done|].
  by rewrite decide_True.
Qed.

Lemma Split_no_sep s sep : sep ∉ s -> Split s sep = [s].
Proof.
  induction s as [|x s IH]; intros H; simpl; [done|].
  rewrite IH by set_solver. rewrite decide_False; [done|].
  intros ->. apply H. set_solver.
Qed.

Lemma Split_app s t sep : sep ∉ s -> Split (s ++ sep :: t) sep = s :: Split t sep.
Proof.
  induction s as [|x s IH]; intros H.
  - apply Split_cons_sep.
  - change ((x :: s) ++ sep :: t) with (x :: (s ++ sep :: t)). simpl.
    rewrite IH by set_solver. rewrite decide_False; [done|].
    intros ->. apply H. set_solver.
Qed.

Lemma Split_elem s sep w : w ∈ Split s sep -> sep ∉ w.
Proof.
  revert w. induction s as [|x s IH]; intros w; simpl.
  - intros ->%list_elem_of_singleton. set_solver.
  - pose proof (Split_nonempty s sep). destruct (Split s sep) as [|v ws]; [done|].
    case_decide as Hx; intros [->|Hin]%elem_of_cons.
    + set_solver.
    + by apply IH.
    + intros [->|Hv]%elem_of_cons; [done|]. revert Hv. apply IH. set_solver.
    + apply IH. set_solver.
Qed.

(** A string is rebuilt by joining its parts. *)
Lemma Join_Split s sep : Join (Split s sep) [sep] = s.
Proof.
  induction s as [|x s IH]; simpl; [done|].
  pose proof (Split_nonempty s sep). destruct (Split s sep) as [|w ws]; [done|].
  case_decide as Hx.
  - rewrite Hx. simpl. rewrite <- IH. by destruct ws.
  - rewrite <- IH. by destruct ws.
Qed.

(** Parts without the separator are recovered from their join. *)
Lemma Split_Join ws sep :
  ws <> [] -> Forall (fun w => sep ∉ w) ws -> Split (Join ws [sep]) sep = ws.
Proof.
  intros Hne H. induction H as [|w ws Hw Hws IH]; [done|].
  destruct ws as [|v ws].
  - by apply Split_no_sep.
  - change (Join (w :: v :: ws) [sep]) with (w ++ sep :: Join (v :: ws) [sep]).
    rewrite Split_app by done. f_equal. by apply IH.
Qed.

(** [strings.SplitN(s, sep, 2)] for a one-byte separator: cut at the first
    occurrence. *)
Fixpoint cut (s : bytes) (sep : ascii) : option (bytes * bytes) :=
  match s with
  | [] => None
  | x :: s' =>
      if decide (x = sep) then Some ([], s')
      else match cut s' sep with
           | Some (a, b) => Some (x :: a, b)
           | None => None
           end
  end.

Lemma cut_Some s sep a b : cut s sep = Some (a, b) <-> s = a ++ sep :: b /\ sep ∉ a.
Proof.
  revert a b. induction s as [|x s IH]; intros a b; simpl.
  { split; [done | intros [H _]; by destruct a]. }
  case_decide as Hx; [subst x|].
  - split; [intros [= <- <-]; split; [done | apply not_elem_of_nil]|].
    intros [H Hs]. destruct a as [|y a]; [by injection H as ->|].
    injection H as <- _. by destruct Hs; left.
  - destruct (cut s sep) as [[a' b']|] eqn:E; split.
    + intros [= <- <-]. destruct (proj1 (IH a' b') eq_refl) as [-> Ha].
      split; [done|]. by rewrite not_elem_of_cons.
    + intros [H Hs]. destruct a as [|y a]; [by injection H|].
      injection H as -> H. rewrite not_elem_of_cons in Hs.
      assert (Some (a', b') = Some (a, b)) as [= -> ->] by (apply IH; naive_solver).
      done.
    + done.
    + intros [H Hs]. destruct a as [|y a]; [by injection H|].
      injection H as -> H. rewrite not_elem_of_cons in Hs.
      assert (None = Some (a, b)) by (apply IH; naive_solver). done.
Qed.

Lemma cut_None s sep : cut s sep = None <-> sep ∉ s.
Proof.
  induction s as [|x s IH]; simpl; [by split; [intros _; apply not_elem_of_nil|]|].
  rewrite not_elem_of_cons. case_decide; subst; [naive_solver|].
  destruct (cut s sep) as [[a b]|]; naive_solver.
Qed.

(** ** Trimming and case *)

Fixpoint TrimLeft (s cutset : bytes) : bytes :=
  match s with
  | [] => []
  | x :: s' => if decide (x ∈ cutset) then TrimLeft s' cutset else s
  end.

Definition TrimRight (s cutset : bytes) : bytes := reverse (TrimLeft (reverse s) cutset).

Definition white : bytes :=
  [" "; "009"; "010"; "011"; "012"; "013"]%char.

Definition TrimSpace (s : bytes) : bytes := TrimRight (TrimLeft s white) white.

Definition is_upper (c : ascii) : bool := (65 <=? code c)%Z && (code c <=? 90)%Z.
Definition is_lower (c : ascii) : bool := (97 <=? code c)%Z && (code c <=? 122)%Z.
Definition lower1 (c : ascii) : ascii := if is_upper c then chr (code c + 32) else c.
Definition upper1 (c : ascii) : ascii := if is_lower c then chr (code c - 32) else c.
Definition ToLower (s : bytes) : bytes := map lower1 s.
Definition ToUpper (s : bytes) : bytes := map upper1 s.

Lemma TrimLeft_spec s cutset :
  exists p, s = p ++ TrimLeft s cutset /\ Forall (fun c => c ∈ cutset) p /\
    forall c r, TrimLeft s cutset = c :: r -> c ∉ cutset.
Proof.
  induction s as [|x s (p & Hs & Hp & Hc)]; simpl.
  { exists []. done. }
  case_decide.
  - exists (x :: p). split; [by rewrite Hs at 1|]. split; [by constructor | done].
  - exists []. split; [done|]. split; [constructor|]. by intros c r [= <- _].
Qed.

Lemma TrimLeft_id s cutset :
  (forall c r, s = c :: r -> c ∉ cutset) -> TrimLeft s cutset = s.
Proof.
  destruct s as [|x s]; intros H; simpl; [done|].
  rewrite decide_False; [done | by eapply H].
Qed.

(** ** Byte-wise order of strings *)

Fixpoint str_ltb (a b : bytes) : bool :=
  match a, b with
  | _, [] => false
  | [], _ :: _ => true
  | x :: a', y :: b' =>
      if (code x <? code y)%Z then true
      else if (code y <? code x)%Z then false else str_ltb a' b'
  end.

Lemma str_ltb_irrefl a : str_ltb a a = false.
Proof. induction a as [|x a IH]; simpl; [done|]. by rewrite Z.ltb_irrefl. Qed.

Lemma str_ltb_app_same p a b : str_ltb (p ++ a) (p ++ b) = str_ltb a b.
Proof. induction p as [|x p IH]; simpl; [done|]. by rewrite Z.ltb_irrefl. Qed.

Lemma str_ltb_app_lt a b c d :
  length a = length b -> str_ltb a b = true -> str_ltb (a ++ c) (b ++ d) = true.
Proof.
  revert b. induction a as [|x a IH]; intros [|y b]; simpl; try done.
  intros [= Hl]. destruct (code x <? code y)%Z; [done|].
  destruct (code y <? code x)%Z; [done|]. by apply IH.
Qed.

Lemma str_ltb_asym a b : str_ltb a b = true -> str_ltb b a = false.
Proof.
  revert b. induction a as [|x a IH]; intros [|y b]; simpl; try done.
  destruct (Z.ltb_spec (code x) (code y)), (Z.ltb_spec (code y) (code x));
    try done; try lia. apply IH.
Qed.

(** ** Decimal numbers *)

Definition digit (n : Z) : ascii := chr (48 + n).
Definition is_digit (c : ascii) : bool := (48 <=? code c)%Z && (code c <=? 57)%Z.
Definition digit_val (c : ascii) : Z := (code c - 48)%Z.

(** [w] decimal digits of [n], most significant first. *)
Fixpoint dec_digits (w : nat) (n : Z) : bytes :=
  match w with
  | O => []
  | S w' => dec_digits w' (n / 10)%Z ++ [digit (n mod 10)]
  end.

Lemma length_dec_digits w n : length (dec_digits w n) = w.
Proof. revert n. induction w; intros n; simpl; [done|]. rewrite length_app, IHw. simpl. lia. Qed.

Lemma code_digit n : (0 <= n < 10)%Z -> code (digit n) = (48 + n)%Z.
Proof. intros H. unfold digit. apply code_chr. lia. Qed.

(** The fixed-width form is ordered as the numbers are. *)
Lemma dec_digits_lt w a b :
  (0 <= a < b)%Z -> (b < 10 ^ Z.of_nat w)%Z ->
  str_ltb (dec_digits w a) (dec_digits w b) = true.
Proof.
  revert a b. induction w as [|w IH]; intros a b Hab Hb; [simpl in *; lia|].
  cbn [dec_digits]. rewrite Nat2Z.inj_succ, Z.pow_succ_r in Hb by lia.
  pose proof (Z.mod_pos_bound a 10 ltac:(lia)).
  pose proof (Z.mod_pos_bound b 10 ltac:(lia)).
  destruct (decide (a / 10 = b / 10)%Z) as [E|E].
  - rewrite E, str_ltb_app_same. simpl.
    pose proof (Z.div_mod a 10 ltac:(lia)). pose proof (Z.div_mod b 10 ltac:(lia)).
    rewrite !code_digit by lia. rewrite (proj2 (Z.ltb_lt _ _)) by lia. done.
  - apply str_ltb_app_lt; [by rewrite !length_dec_digits|].
    pose proof (Z.div_le_mono a b 10 ltac:(lia) ltac:(lia)).
    apply IH; [split; [apply Z.div_pos; lia | lia]|]. apply Z.div_lt_upper_bound; lia.
Qed.

Lemma dec_digits_inj w a b :
  (0 <= a < 10 ^ Z.of_nat w)%Z -> (0 <= b < 10 ^ Z.of_nat w)%Z ->
  dec_digits w a = dec_digits w b -> a = b.
Proof.
  intros Ha Hb E. destruct (Z.lt_trichotomy a b) as [H|[H|H]]; [|done|].
  - pose proof (dec_digits_lt w a b ltac:(lia) ltac:(lia)) as L.
    by rewrite E, str_ltb_irrefl in L.
  - pose proof (dec_digits_lt w b a ltac:(lia) ltac:(lia)) as L.
    by rewrite E, str_ltb_irrefl in L.
Qed.

(** [strconv.Atoi]: an optional sign, then decimal digits; a value outside the
    64-bit range is an error. *)
Fixpoint parse_digits (acc : Z) (s : bytes) : option Z :=
  match s with
  | [] => Some acc
  | c :: s' => if is_digit c then parse_digits (10 * acc + digit_val c) s' else None
  end.

Definition parse_nat (s : bytes) : option Z :=
  match s with [] => None | _ => parse_digits 0 s end.

Definition Atoi (s : bytes) : option Z :=
  let signed :=
    match s with
    | "-"%char :: r => Z.opp <$> parse_nat r
    | "+"%char :: r => parse_nat r
    | _ => parse_nat s
    end in
  match signed with
  | Some z => if decide (in_i64 z) then Some z else None
  | None => None
  end.

Lemma Atoi_range s z : Atoi s = Some z -> in_i64 z.
Proof. unfold Atoi. repeat case_match; congruence. Qed.

Example Atoi_1 : Atoi ($"-42") = Some (-42)%Z. Proof. reflexivity. Qed.
Example Atoi_2 : Atoi ($"9223372036854775808") = None. Proof. reflexivity. Qed.

(** [strconv.Itoa]; the magnitude bounds the number of digits. *)
Fixpoint itoa_digits (fuel : nat) (n : Z) (acc : bytes) : bytes :=
  match fuel with
  | O => acc
  | S fuel' =>
      let acc := digit (n mod 10) :: acc in
      if (n <? 10)%Z then acc else itoa_digits fuel' (n / 10)%Z acc
  end.

Definition Itoa (n : Z) : bytes :=
  let fuel := S (Z.to_nat (Z.log2 (Z.abs n))) in
  if (n <? 0)%Z then "-"%char :: itoa_digits fuel (- n)%Z [] else itoa_digits fuel n [].

Example Itoa_1 : Itoa 401 = $"401". Proof. reflexivity. Qed.
Example Itoa_2 : Itoa (-70) = $"-70". Proof. reflexivity. Qed.
