(* ===== verification/GoPath.v ===== *)
(** * The part of [path/filepath] (Unix) that the code uses

    [Clean], [Join], [Base], [Dir], [IsAbs] and [Ext].  [Clean] is defined on the
    slash-separated components with an explicit stack, innermost first. *)

From S2P Require Import Prelude GoStr.

Definition slash : ascii := "/"%char.
Definition dot : bytes := $".".
Definition dotdot : bytes := $"..".

Definition IsAbs (p : bytes) : bool :=
  match p with
  | c :: _ => bool_decide (c = slash)
  | [] => false
  end.

(** One component is pushed on the stack of those kept so far. *)
Definition clean_step (rooted : bool) (stack : list bytes) (c : bytes) : list bytes :=
  if bool_decide (c = []) || bool_decide (c = dot) then stack
  else if bool_decide (c = dotdot) then
    match stack with
    | [] => if rooted then [] else [dotdot]
    | x :: r => if bool_decide (x = dotdot) then dotdot :: stack else r
    end
  else c :: stack.

Definition clean_stack (rooted : bool) (cs : list bytes) : list bytes :=
  fold_left (clean_step rooted) cs [].

Definition render (rooted : bool) (stack : list bytes) : bytes :=
  let body := Join (reverse stack) [slash] in
  if rooted then slash :: body
  else if bool_decide (body = []) then dot else body.

Definition Clean (p : bytes) : bytes :=
  match p with
  | [] => dot
  | _ => render (IsAbs p) (clean_stack (IsAbs p) (Split p slash))
  end.

(** [filepath.Join]: from the first non-empty element on. *)
Fixpoint JoinPath (elems : list bytes) : bytes :=
  match elems with
  | [] => []
  | [] :: r => JoinPath r
  | _ => Clean (Join elems [slash])
  end.

Definition Base (p : bytes) : bytes :=
  match p with
  | [] => dot
  | _ =>
      match reverse (Split (TrimRight p [slash]) slash) with
      | [] :: _ | [] => [slash]
      | w :: _ => w
      end
  end.

(** [filepath.Dir]: what precedes the last slash, cleaned. *)
Definition Dir (p : bytes) : bytes :=
  match reverse (Split p slash) with
  | [] | [_] => Clean []
  | _ :: r => Clean (Join (reverse r) [slash] ++ [slash])
  end.

(** The extension: from the last dot of the last component. *)
Fixpoint ext_rev (r acc : bytes) : bytes :=
  match r with
  | [] => []
  | c :: r' =>
      if bool_decide (c = slash) then []
      else if bool_decide (c = "."%char) then "."%char :: acc
      else ext_rev r' (c :: acc)
  end.

Definition Ext (p : bytes) : bytes := ext_rev (reverse p) [].

Example clean_1 : Clean ($"a/../../b//c/.") = $"../b/c". Proof. reflexivity. Qed.
Example clean_2 : Clean ($"/../a") = $"/a". Proof. reflexivity. Qed.
Example clean_3 : Clean ($"a/..") = $".". Proof. reflexivity. Qed.
Example join_1 : JoinPath [$"/var/log"; $"app.jsonl"] = $"/var/log/app.jsonl". Proof. reflexivity. Qed.
Example join_2 : JoinPath [[]; $"a"] = $"a". Proof. reflexivity. Qed.
Example base_1 : Base ($"/a/b//") = $"b". Proof. reflexivity. Qed.
Example base_2 : Base ($"///") = $"/". Proof. reflexivity. Qed.
Example dir_1 : Dir ($"/a/b") = $"/a". Proof. reflexivity. Qed.
Example dir_2 : Dir ($"a") = $".". Proof. reflexivity. Qed.
Example dir_3 : Dir ($"/a") = $"/". Proof. reflexivity. Qed.
Example ext_1 : Ext ($"/a.b/c.tar.gz") = $".gz". Proof. reflexivity. Qed.
Example ext_2 : Ext ($"/a.b/c") = []. Proof. reflexivity. Qed.

(** ** Plain names *)

(** A file name: one component that [Clean] keeps. *)
Definition plain (n : bytes) : Prop := n <> [] /\ n <> dot /\ n <> dotdot /\ slash ∉ n.

#[export] Instance plain_dec n : Decision (plain n).
Proof. unfold plain. apply _. Defined.

Lemma clean_step_plain rooted stack n : plain n -> clean_step rooted stack n = n :: stack.
Proof.
  intros (H1 & H2 & H3 & _). unfold clean_step.
  by rewrite !bool_decide_eq_false_2 by done.
Qed.

Lemma Split_app_gen a b sep :
  Split (a ++ sep :: b) sep = Split a sep ++ Split b sep.
Proof.
  induction a as [|x a IH].
  - simpl. pose proof (Split_nonempty b sep). destruct (Split b sep); [done|].
    by rewrite decide_True.
  - change ((x :: a) ++ sep :: b) with (x :: (a ++ sep :: b)). simpl. rewrite IH.
    pose proof (Split_nonempty a sep). destruct (Split a sep) as [|w ws]; [done|].
    simpl. by case_decide.
Qed.

Lemma clean_stack_plain rooted cs n :
  plain n -> clean_stack rooted (cs ++ [n]) = n :: clean_stack rooted cs.
Proof.
  intros H. unfold clean_stack. rewrite fold_left_app. simpl. by apply clean_step_plain.
Qed.

(** The components on the stack are never empty and contain no slash. *)
Definition comp_ok (c : bytes) : Prop := c <> [] /\ slash ∉ c.

Lemma plain_comp_ok n : plain n -> comp_ok n.
Proof. by intros (? & _ & _ & ?). Qed.

Lemma clean_step_ok rooted stack c :
  Forall comp_ok stack -> slash ∉ c -> Forall comp_ok (clean_step rooted stack c).
Proof.
  intros Hs Hc. unfold clean_step.
  assert (comp_ok dotdot) as Hdd by (split; [done | by compute_done]).
  destruct (bool_decide_reflect (c = [])); [done|].
  destruct (bool_decide (c = dot)); [done|]. simpl.
  destruct (bool_decide (c = dotdot)); [|by constructor].
  destruct stack as [|x r]; [destruct rooted; [done | by apply Forall_singleton]|].
  destruct (bool_decide (x = dotdot)); [by constructor | by inversion Hs].
Qed.

Lemma clean_stack_ok rooted cs :
  Forall (fun c => slash ∉ c) cs -> Forall comp_ok (clean_stack rooted cs).
Proof.
  intros Hcs. unfold clean_stack.
  assert (Forall comp_ok []) as Hnil by constructor.
  revert Hnil. generalize ([] : list bytes).
  induction Hcs as [|c cs Hc Hcs IH]; intros st Hst; simpl; [done|].
  by apply IH, clean_step_ok.
Qed.

Lemma Join_nonempty ws : Forall comp_ok ws -> ws <> [] -> Join ws [slash] <> [].
Proof.
  intros H Hne. destruct H as [|w ws [Hw _] _]; [done|].
  destruct w as [|c w]; [done|]. by destruct ws.
Qed.

Lemma reverse_nil_iff {A} (l : list A) : reverse l = [] <-> l = [].
Proof.
  split; [|by intros ->]. intros H. by rewrite <- (reverse_involutive l), H.
Qed.

(** Cleaned paths with the same rootedness are equal only if their stacks are. *)
Lemma render_inj rooted s1 s2 :
  Forall comp_ok s1 -> Forall comp_ok s2 -> s1 <> [] -> s2 <> [] ->
  render rooted s1 = render rooted s2 -> s1 = s2.
Proof.
  intros H1 H2 N1 N2 E.
  assert (Join (reverse s1) [slash] = Join (reverse s2) [slash]) as E'.
  { unfold render in E. destruct rooted; [congruence|].
    rewrite !bool_decide_eq_false_2 in E; [done| |];
      apply Join_nonempty; rewrite ?Forall_reverse; try done;
      by rewrite reverse_nil_iff. }
  apply (f_equal (fun s => Split s slash)) in E'.
  rewrite !Split_Join in E'.
  - by apply (inj reverse).
  - by rewrite reverse_nil_iff.
  - rewrite Forall_reverse. eapply Forall_impl; [exact H2 | by intros ? []].
  - by rewrite reverse_nil_iff.
  - rewrite Forall_reverse. eapply Forall_impl; [exact H1 | by intros ? []].
Qed.

(** Joining a directory and a plain name pushes the name on the directory's stack. *)
Lemma JoinPath_plain dir n :
  plain n ->
  JoinPath [dir; n] =
  render (IsAbs dir) (n :: clean_stack (IsAbs dir) (Split dir slash)).
Proof.
  intros Hn. pose proof Hn as (Hn1 & Hn2 & Hn3 & Hn4).
  destruct dir as [|c dir].
  - destruct n as [|x n]; [done|].
    change (JoinPath [[]; x :: n]) with (Clean (x :: n)). unfold Clean.
    assert (IsAbs (x :: n) = false) as ->.
    { simpl. apply bool_decide_eq_false_2. intros ->. apply Hn4. by left. }
    rewrite Split_no_sep by done. simpl IsAbs. simpl Split.
    unfold clean_stack. simpl fold_left. by rewrite clean_step_plain.
  - change (JoinPath [c :: dir; n]) with (Clean ((c :: dir) ++ slash :: n)).
    unfold Clean. simpl ((c :: dir) ++ _). cbv iota.
    change (c :: dir ++ slash :: n) with ((c :: dir) ++ slash :: n).
    rewrite Split_app_gen, (Split_no_sep n) by done.
    change (IsAbs ((c :: dir) ++ slash :: n)) with (IsAbs (c :: dir)).
    by rewrite clean_stack_plain.
Qed.

Lemma dir_stack_ok dir rooted : Forall comp_ok (clean_stack rooted (Split dir slash)).
Proof.
  apply clean_stack_ok, Forall_forall. intros w Hw. by apply Split_elem in Hw.
Qed.

Lemma JoinPath_inj dir n1 n2 :
  plain n1 -> plain n2 -> JoinPath [dir; n1] = JoinPath [dir; n2] -> n1 = n2.
Proof.
  intros H1 H2. rewrite !JoinPath_plain by done. intros E.
  apply render_inj in E; [congruence| | | done | done];
    constructor; auto using plain_comp_ok, dir_stack_ok.
Qed.

(** [Base] recovers the name. *)
Lemma TrimRight_id s cutset :
  (forall r c, s = r ++ [c] -> c ∉ cutset) -> TrimRight s cutset = s.
Proof.
  intros H. unfold TrimRight. rewrite TrimLeft_id; [apply reverse_involutive|].
  intros c r E. apply (H (reverse r)). rewrite <- (reverse_involutive s), E.
  by rewrite reverse_cons.
Qed.

Lemma Join_snoc ws w sep : ws <> [] -> Join (ws ++ [w]) sep = Join ws sep ++ sep ++ w.
Proof.
  induction ws as [|v ws IH]; [done|]. intros _. destruct ws as [|v' ws].
  - done.
  - change (Join ((v :: v' :: ws) ++ [w]) sep)
      with (v ++ sep ++ Join ((v' :: ws) ++ [w]) sep).
    rewrite IH by done. simpl. by rewrite <- !app_assoc.
Qed.

Lemma Base_last n s :
  plain n -> s = n \/ (exists p, s = p ++ slash :: n) -> Base s = n.
Proof.
  intros (H1 & _ & _ & H4) Hs.
  assert (exists p0, reverse (Split s slash) = n :: p0) as [p0 Hp0].
  { destruct Hs as [->|[p ->]].
    - rewrite Split_no_sep by done. by exists [].
    - rewrite Split_app_gen, (Split_no_sep n) by done. rewrite reverse_app. simpl.
      by eexists. }
  destruct n as [|c n _] using rev_ind; [done|].
  assert (TrimRight s [slash] = s) as HT.
  { apply TrimRight_id. intros r d Hd ->%list_elem_of_singleton. apply H4.
    assert (last s = Some c) as Hl
      by (destruct Hs as [->|[p ->]]; [by rewrite last_snoc |
          change (slash :: n ++ [c]) with ((slash :: n) ++ [c]);
          by rewrite app_assoc, last_snoc]).
    rewrite Hd, last_snoc in Hl. injection Hl as <-. set_solver. }
  unfold Base. rewrite HT, Hp0.
  destruct s as [|c0 s]; [by destruct Hs as [?|[[|??] ?]]; destruct n|].
  by destruct n.
Qed.

Lemma Base_JoinPath dir n : plain n -> Base (JoinPath [dir; n]) = n.
Proof.
  intros Hn. rewrite JoinPath_plain by done. apply Base_last; [done|].
  unfold render. rewrite reverse_cons.
  set (st := clean_stack (IsAbs dir) (Split dir slash)).
  assert (n <> []) as Hne by apply Hn.
  destruct (decide (reverse st = [])) as [E|E].
  - rewrite E. simpl. destruct (IsAbs dir); [right; by exists []|].
    rewrite bool_decide_eq_false_2 by done. by left.
  - rewrite Join_snoc by done. destruct (IsAbs dir).
    + right. by exists (slash :: Join (reverse st) [slash]).
    + rewrite bool_decide_eq_false_2.
      * right. by exists (Join (reverse st) [slash]).
      * intros Hn'. apply app_eq_nil in Hn' as [_ Hn']. by apply app_eq_nil in Hn' as [? _].
Qed.

(** ** Relative paths *)

(** The components of a cleaned path. *)
Definition comps (p : bytes) : list bytes :=
  List.filter (fun c => negb (bool_decide (c = []))) (Split p slash).

Fixpoint strip_common (b t : list bytes) : list bytes * list bytes :=
  match b, t with
  | x :: b', y :: t' => if bool_decide (x = y) then strip_common b' t' else (b, t)
  | _, _ => (b, t)
  end.

(** [filepath.Rel]: up from the base and down to the target; none when the base goes up
    by an unknown number of directories. *)
Definition Rel (basepath targpath : bytes) : result bytes :=
  let base := Clean basepath in
  let targ := Clean targpath in
  if bool_decide (targ = base) then Ok dot
  else
    let base := if bool_decide (base = dot) then [] else base in
    let '(bs, ts) := strip_common (comps base) (comps targ) in
    if negb (bool_decide (IsAbs base = IsAbs targ)) || bool_decide (head bs = Some dotdot)
    then Err (ENew ($"Rel: can't make " ++ targpath ++ $" relative to " ++ basepath))
    else Ok (Join (map (fun _ => dotdot) bs ++ ts) [slash]).

Example rel_1 : Rel ($"/a/b") ($"/a/b/c/d") = Ok ($"c/d"). Proof. reflexivity. Qed.
Example rel_2 : Rel ($"/a/b") ($"/a/c") = Ok ($"../c"). Proof. reflexivity. Qed.
Example rel_3 : Rel ($".") ($"a/b") = Ok ($"a/b"). Proof. reflexivity. Qed.
Example rel_4 : Rel ($"..") ($"a") = Err (ENew ($"Rel: can't make a relative to ..")). Proof. reflexivity. Qed.

(** ** Absolute paths by their components *)

Definition abs (q : list bytes) : bytes := slash :: Join q [slash].

Lemma IsAbs_abs q : IsAbs (abs q) = true.
Proof. done. Qed.

Lemma plain_no_slash q : Forall plain q -> Forall (fun c => slash ∉ c) q.
Proof. intros H. eapply Forall_impl; [exact H|]. by intros ? (_ & _ & _ & ?). Qed.

Lemma Split_abs q : Forall plain q -> q <> [] -> Split (abs q) slash = [] :: q.
Proof.
  intros Hq Hne. unfold abs. rewrite Split_cons_sep, Split_Join; auto using plain_no_slash.
Qed.

Lemma comps_abs q : Forall plain q -> comps (abs q) = q.
Proof.
  intros Hq. unfold comps. destruct (decide (q = [])) as [->|Hne]; [done|].
  rewrite Split_abs by done. simpl. clear Hne. induction Hq as [|c q Hc _ IH]; [done|].
  simpl. rewrite bool_decide_eq_false_2 by apply Hc. simpl. by rewrite IH.
Qed.

Lemma clean_stack_app rooted a b :
  clean_stack rooted (a ++ b) = fold_left (clean_step rooted) b (clean_stack rooted a).
Proof. unfold clean_stack. apply fold_left_app. Qed.

Lemma clean_fold_plain rooted q st :
  Forall plain q -> fold_left (clean_step rooted) q st = reverse q ++ st.
Proof.
  intros Hq. revert st. induction Hq as [|c q Hc _ IH]; intros st; [done|].
  cbn [fold_left]. rewrite clean_step_plain by done. rewrite IH, reverse_cons, <- app_assoc. done.
Qed.

(** What is left on the stack of a rooted path: plain names only. *)
Lemma clean_step_rooted_plain st c :
  Forall plain st -> slash ∉ c -> Forall plain (clean_step true st c).
Proof.
  intros Hst Hc. unfold clean_step.
  destruct (bool_decide_reflect (c = [])); [done|].
  destruct (bool_decide_reflect (c = dot)); [done|]. simpl.
  destruct (bool_decide_reflect (c = dotdot)).
  - destruct Hst as [|x st Hx Hst]; [done|]. by rewrite bool_decide_eq_false_2 by apply Hx.
  - by constructor.
Qed.

Lemma clean_fold_rooted_plain cs st :
  Forall plain st -> Forall (fun c => slash ∉ c) cs ->
  Forall plain (fold_left (clean_step true) cs st).
Proof.
  intros Hst Hcs. revert st Hst. induction Hcs as [|c cs Hc _ IH]; intros st Hst; [done|].
  cbn [fold_left]. by apply IH, clean_step_rooted_plain.
Qed.

Lemma Clean_abs q : Forall plain q -> Clean (abs q) = abs q.
Proof.
  intros Hq. unfold Clean, abs at 1. fold (abs q). rewrite IsAbs_abs.
  destruct (decide (q = [])) as [->|Hne]; [done|].
  rewrite Split_abs by done. unfold clean_stack. cbn [fold_left].
  change (clean_step true [] []) with ([] : list bytes).
  rewrite clean_fold_plain by done. unfold render, abs. by rewrite app_nil_r, reverse_involutive.
Qed.

(** The names that a path leads to from a directory. *)
Definition walk_names (q : list bytes) (p : bytes) : list bytes :=
  reverse (fold_left (clean_step true) (Split p slash) (reverse q)).

Lemma walk_names_plain q p : Forall plain q -> Forall plain (walk_names q p).
Proof.
  intros Hq. unfold walk_names. apply Forall_reverse, clean_fold_rooted_plain.
  - by apply Forall_reverse.
  - apply Forall_forall. intros c Hc. by eapply Split_elem.
Qed.

(** Joining to an absolute directory. *)
Lemma JoinPath_abs q p : Forall plain q -> JoinPath [abs q; p] = abs (walk_names q p).
Proof.
  intros Hq. change (JoinPath [abs q; p]) with (Clean (abs q ++ slash :: p)).
  unfold Clean, abs at 1. cbn [app]. change (slash :: Join q [slash] ++ slash :: p) with (abs q ++ slash :: p).
  change (IsAbs (abs q ++ slash :: p)) with true.
  rewrite Split_app_gen, clean_stack_app.
  assert (clean_stack true (Split (abs q) slash) = reverse q) as ->.
  { destruct (decide (q = [])) as [->|Hne]; [done|]. rewrite Split_abs by done.
    unfold clean_stack. cbn [fold_left]. change (clean_step true [] []) with ([] : list bytes).
    by rewrite clean_fold_plain, app_nil_r by done. }
  unfold render, abs, walk_names. done.
Qed.

Lemma walk_names_rel q r :
  Forall plain q -> Forall plain r -> r <> [] -> walk_names q (Join r [slash]) = q ++ r.
Proof.
  intros Hq Hr Hne. unfold walk_names. rewrite Split_Join by auto using plain_no_slash.
  rewrite clean_fold_plain by done. by rewrite reverse_app, !reverse_involutive.
Qed.

(** [Rel] between absolute paths. *)
Lemma strip_common_spec b t :
  let '(bs, ts) := strip_common b t in exists c, b = c ++ bs /\ t = c ++ ts.
Proof.
  revert t. induction b as [|x b IH]; intros [|y t]; simpl; try by exists [].
  case_bool_decide as E; [|by exists []]. subst y. specialize (IH t).
  destruct (strip_common b t) as [bs ts]. destruct IH as (c & -> & ->). by exists (x :: c).
Qed.

Lemma strip_common_app b t : strip_common b (b ++ t) = ([], t).
Proof.
  induction b as [|x b IH]; [by destruct t|]. simpl. by rewrite bool_decide_eq_true_2.
Qed.

Lemma abs_inj q1 q2 : Forall plain q1 -> Forall plain q2 -> abs q1 = abs q2 -> q1 = q2.
Proof. intros H1 H2 E. by rewrite <- (comps_abs q1), <- (comps_abs q2), E. Qed.

Lemma Rel_abs b t :
  Forall plain b -> Forall plain t -> b <> t ->
  exists bs ts, Rel (abs b) (abs t) = Ok (Join (map (fun _ => dotdot) bs ++ ts) [slash]) /\
    exists c, b = c ++ bs /\ t = c ++ ts.
Proof.
  intros Hb Ht Hne. unfold Rel. rewrite !Clean_abs by done.
  rewrite bool_decide_eq_false_2 by (intros E; apply Hne; symmetry; by apply abs_inj).
  rewrite (bool_decide_eq_false_2 (abs b = dot)) by done. rewrite !comps_abs by done.
  pose proof (strip_common_spec b t) as Hs. destruct (strip_common b t) as [bs ts].
  exists bs, ts. destruct Hs as (c & -> & ->). split; [|by exists c].
  rewrite !IsAbs_abs. rewrite bool_decide_eq_true_2 by done. simpl.
  rewrite bool_decide_eq_false_2; [done|].
  intros Hh. destruct bs as [|x bs]; [done|]. injection Hh as ->.
  apply Forall_app in Hb as [_ Hb]. apply Forall_cons in Hb as [(_ & _ & Hd & _) _]. done.
Qed.

(** A relative path that does not start with two dots goes down only. *)
Lemma Rel_abs_down b t r :
  Forall plain b -> Forall plain t ->
  Rel (abs b) (abs t) = Ok r -> HasPrefix r dotdot = false -> exists ts, t = b ++ ts.
Proof.
  intros Hb Ht HR Hp. destruct (decide (b = t)) as [->|Hne]; [exists []; by rewrite app_nil_r|].
  destruct (Rel_abs b t Hb Ht Hne) as (bs & ts & HR' & c & -> & ->).
  rewrite HR' in HR. injection HR as <-. destruct bs as [|x bs]; [exists ts; by rewrite app_nil_r|].
  exfalso. cbn [map app] in Hp.
  destruct (map (fun _ => dotdot) bs ++ ts); by cbn in Hp.
Qed.

Lemma Rel_abs_app b ts :
  Forall plain b -> Forall plain ts -> ts <> [] ->
  Rel (abs b) (abs (b ++ ts)) = Ok (Join ts [slash]).
Proof.
  intros Hb Ht Hne. unfold Rel. rewrite !Clean_abs by (try done; by apply Forall_app).
  rewrite bool_decide_eq_false_2.
  2: { intros E. apply abs_inj in E; [|by apply Forall_app|done].
       apply (f_equal length) in E. rewrite length_app in E. destruct ts; [done|simpl in E; lia]. }
  rewrite (bool_decide_eq_false_2 (abs b = dot)) by done.
  rewrite !comps_abs by (try done; by apply Forall_app). by rewrite strip_common_app.
Qed.

Lemma Dir_abs q n : Forall plain q -> plain n -> Dir (abs (q ++ [n])) = abs q.
Proof.
  intros Hq Hn. unfold Dir. rewrite Split_abs; [| |by destruct q].
  2: { apply Forall_app. split; [done|]. by apply Forall_singleton. }
  change ([] :: q ++ [n]) with (([] :: q) ++ [n]). rewrite reverse_snoc.
  destruct (reverse ([] :: q)) as [|x l] eqn:E; [by apply (proj1 (reverse_nil_iff _)) in E|].
  rewrite <- E.
  rewrite reverse_involutive. destruct (decide (q = [])) as [->|Hne]; [done|].
  assert (Join ([] :: q) [slash] = abs q) as -> by by destruct q.
  change (Clean (abs q ++ [slash])) with (JoinPath [abs q; []]).
  rewrite JoinPath_abs by done. unfold walk_names. cbn [Split fold_left].
  change (clean_step true (reverse q) []) with (reverse q). by rewrite reverse_involutive.
Qed.

(** ** Relative clean paths *)

Lemma IsAbs_rel ws : Forall plain ws -> IsAbs (Join ws [slash]) = false.
Proof.
  intros Hws. destruct Hws as [|x ws (Hx & _ & _ & Hs) _]; [done|]. destruct x as [|a x]; [done|].
  assert (a <> slash) by (intros ->; apply Hs; by left).
  destruct ws; simpl; by apply bool_decide_eq_false_2.
Qed.

Lemma Clean_rel ws : Forall plain ws -> ws <> [] -> Clean (Join ws [slash]) = Join ws [slash].
Proof.
  intros Hws Hne. assert (Forall comp_ok ws) as Hok by (eapply Forall_impl; [exact Hws|apply plain_comp_ok]).
  pose proof (Join_nonempty ws Hok Hne) as Hj.
  unfold Clean. rewrite (IsAbs_rel ws) by done. destruct (Join ws [slash]) as [|a s] eqn:E; [done|]. rewrite <- E.
  rewrite Split_Join by auto using plain_no_slash. unfold clean_stack, render.
  rewrite clean_fold_plain, app_nil_r, reverse_involutive by done.
  rewrite bool_decide_eq_false_2; [done|]. by rewrite E.
Qed.

Lemma comps_rel ws : Forall plain ws -> comps (Join ws [slash]) = ws.
Proof.
  intros Hws. destruct (decide (ws = [])) as [->|Hne]; [done|]. unfold comps.
  rewrite Split_Join by auto using plain_no_slash.
  induction Hws as [|x ws (Hx & _) Hws IH]; [done|]. cbn [List.filter].
  rewrite bool_decide_eq_false_2 by done. cbn [negb]. f_equal.
  destruct (decide (ws = [])) as [->|Hne']; [done|]. by apply IH.
Qed.

Lemma Join_ne_dot ws : Forall plain ws -> Join ws [slash] <> dot.
Proof.
  intros Hws E. pose proof (comps_rel ws Hws) as Hc. rewrite E in Hc. change (comps dot) with [dot] in Hc.
  subst ws. apply Forall_cons in Hws as [(_ & Hd & _) _]. done.
Qed.

Lemma Rel_rel_app b ts :
  Forall plain (b ++ ts) -> b <> [] ->
  Rel (Join b [slash]) (Join (b ++ ts) [slash]) = Ok (if decide (ts = []) then dot else Join ts [slash]).
Proof.
  intros Hp Hne. pose proof Hp as [Hb Hts]%Forall_app. unfold Rel.
  rewrite !Clean_rel by (try done; by destruct b).
  destruct (decide (ts = [])) as [->|Ht].
  - by rewrite app_nil_r, bool_decide_eq_true_2.
  - rewrite bool_decide_eq_false_2.
    2: { intros E. apply (f_equal comps) in E. rewrite !comps_rel in E by done.
         apply (f_equal length) in E. rewrite length_app in E. destruct ts; [done|simpl in E; lia]. }
    rewrite (bool_decide_eq_false_2 (Join b [slash] = dot)) by by apply Join_ne_dot.
    rewrite !comps_rel, strip_common_app, !IsAbs_rel by done. by rewrite bool_decide_eq_true_2.
Qed.

Lemma Base_abs p c : plain c -> Base (abs (p ++ [c])) = c.
Proof.
  intros Hc. apply Base_last; [done|]. right. destruct (decide (p = [])) as [->|Hne]; [by exists []|].
  exists (abs p). unfold abs. by rewrite Join_snoc.
Qed.

(** ** Names in a clean directory *)

(** A stack of [Clean]: some [..] at the bottom, unless rooted, and plain names. *)
Definition normal (rooted : bool) (st : list bytes) : Prop :=
  exists k ps, reverse st = repeat dotdot k ++ ps /\ Forall plain ps /\ (rooted = true -> k = 0).

Lemma dotdot_not_plain : ~ plain dotdot.
Proof. by intros (_ & _ & ? & _). Qed.

Lemma repeat_snoc {A} (x : A) k : repeat x k ++ [x] = repeat x (S k).
Proof. induction k as [|k IH]; [done|]. cbn. by rewrite IH. Qed.

Lemma clean_step_normal rooted st c : normal rooted st -> slash ∉ c -> normal rooted (clean_step rooted st c).
Proof.
  intros (k & ps & E & Hps & Hk) Hc. unfold clean_step.
  destruct (bool_decide_reflect (c = [])); [by exists k, ps|]. destruct (bool_decide_reflect (c = dot)); [by exists k, ps|].
  cbn [orb]. destruct (bool_decide_reflect (c = dotdot)) as [->|Hdd]; cycle 1.
  { exists k, (ps ++ [c]). rewrite reverse_cons, E, app_assoc. split; [done|]. split; [|done].
    apply Forall_app. split; [done|]. by apply Forall_singleton. }
  destruct st as [|x r].
  { destruct rooted; [exists 0, []|exists 1, []]; by repeat split. }
  rewrite reverse_cons in E. destruct ps as [|p ps _] using rev_ind.
  - rewrite app_nil_r in E. destruct k as [|k]; [by destruct (reverse r)|].
    rewrite <- repeat_snoc in E. apply app_inj_tail in E as [E ->]. rewrite bool_decide_eq_true_2 by done.
    destruct rooted; [by specialize (Hk eq_refl)|]. exists (S (S k)), []. split; [|done].
    rewrite !reverse_cons, E, !repeat_snoc. by rewrite app_nil_r.
  - rewrite app_assoc in E. apply app_inj_tail in E as [E ->]. apply Forall_app in Hps as [Hps Hp]. apply Forall_cons in Hp as [Hp _].
    rewrite bool_decide_eq_false_2 by (intros ->; by apply dotdot_not_plain). by exists k, ps.
Qed.

Lemma clean_stack_normal rooted cs : Forall (fun c => slash ∉ c) cs -> normal rooted (clean_stack rooted cs).
Proof.
  intros Hcs. unfold clean_stack. assert (normal rooted []) as Hn by (exists 0, []; by repeat split).
  revert Hn. generalize ([] : list bytes). induction Hcs as [|c cs Hc _ IH]; intros st Hst; [done|].
  cbn [fold_left]. by apply IH, clean_step_normal.
Qed.

Lemma reverse_repeat {A} (x : A) k : reverse (repeat x k) = repeat x k.
Proof. induction k as [|k IH]; [done|]. cbn [repeat]. by rewrite reverse_cons, IH, repeat_snoc. Qed.

Lemma clean_dotdots k : clean_stack false (repeat dotdot k) = repeat dotdot k.
Proof.
  induction k as [|k IH]; [done|]. rewrite <- repeat_snoc at 1. rewrite clean_stack_app, IH. by destruct k.
Qed.

(** Cleaning the components of a clean path again changes nothing. *)
Lemma clean_stack_again rooted st : normal rooted st -> clean_stack rooted (reverse st) = st.
Proof.
  intros (k & ps & E & Hps & Hk). rewrite E, clean_stack_app, clean_fold_plain by done.
  rewrite <- (reverse_involutive st), E, reverse_app, reverse_repeat. f_equal.
  destruct rooted; [by rewrite Hk by done|]. apply clean_dotdots.
Qed.

(** What the names of a directory follow. *)
Definition dir_prefix (dir : bytes) : bytes :=
  if bool_decide (dir = dot) then [] else if bool_decide (dir = [slash]) then [slash] else dir ++ [slash].

Definition root_prefix (rooted : bool) : bytes := if rooted then [slash] else [].

Lemma Clean_render dir : Clean dir = render (IsAbs dir) (clean_stack (IsAbs dir) (Split dir slash)).
Proof. by destruct dir. Qed.

Lemma dir_normal dir rooted : normal rooted (clean_stack rooted (Split dir slash)).
Proof. apply clean_stack_normal, Forall_forall. intros w Hw. by apply Split_elem in Hw. Qed.

Lemma normal_Join_ne_dot rooted st : normal rooted st -> Join (reverse st) [slash] <> dot.
Proof.
  intros (k & ps & E & Hps & Hk) Hd. rewrite E in Hd. apply (f_equal (fun s => Split s slash)) in Hd.
  destruct (decide (repeat dotdot k ++ ps = [])) as [En|Hne]; [by rewrite En in Hd|].
  rewrite Split_Join in Hd; [|done|].
  - destruct k as [|k]; [|destruct k; done]. cbn in Hd. subst ps. apply Forall_cons in Hps as [(_ & ? & _) _]. done.
  - apply Forall_app. split; [|by apply plain_no_slash]. apply Forall_forall. intros c Hc.
    apply list_elem_of_In, repeat_spec in Hc as ->. by apply (bool_decide_unpack _).
Qed.

(** A rendered stack and the names that follow it. *)
Lemma render_prefix rooted st :
  normal rooted st -> Forall comp_ok st ->
  dir_prefix (render rooted st) = root_prefix rooted ++ match st with [] => [] | _ => Join (reverse st) [slash] ++ [slash] end.
Proof.
  intros Hn Hok. unfold dir_prefix, render, root_prefix. pose proof (normal_Join_ne_dot _ _ Hn) as Hd.
  destruct st as [|c st']; [by destruct rooted|]. set (st := c :: st') in *.
  assert (Join (reverse st) [slash] <> []) as Hne.
  { apply Join_nonempty; [by rewrite Forall_reverse|]. by rewrite reverse_nil_iff. }
  destruct rooted.
  - rewrite bool_decide_eq_false_2 by (destruct (Join _ _); intros [=]; done).
    rewrite bool_decide_eq_false_2 by (destruct (Join _ _); intros [=]; done). done.
  - rewrite (bool_decide_eq_false_2 (Join _ _ = [])) by done. rewrite bool_decide_eq_false_2 by done.
    rewrite bool_decide_eq_false_2; [done|]. intros E.
    assert (slash ∈ [slash]) as Hin by by left. rewrite <- E in Hin.
    destruct (reverse st) as [|w ws] eqn:Er; [done|]. assert (comp_ok w) as [Hw Hws].
    { rewrite <- Forall_reverse, Er in Hok. by inversion Hok. }
    destruct w as [|x w]; [done|]. destruct ws; cbn in E; injection E as -> E; apply Hws; by left.
Qed.

Lemma JoinPath_prefix dir n : plain n -> JoinPath [dir; n] = dir_prefix (Clean dir) ++ n.
Proof.
  intros Hn. rewrite JoinPath_plain, Clean_render by done. set (st := clean_stack _ _).
  rewrite render_prefix by (apply dir_normal || apply dir_stack_ok). unfold render, root_prefix.
  assert (Join (reverse (n :: st)) [slash] = match st with [] => [] | _ => Join (reverse st) [slash] ++ [slash] end ++ n) as ->.
  { rewrite reverse_cons. destruct st as [|c st'] eqn:E; [done|]. rewrite Join_snoc by (by rewrite reverse_nil_iff).
    by rewrite <- app_assoc. }
  destruct (IsAbs dir); [done|]. rewrite bool_decide_eq_false_2; [done|]. intros [_ En]%app_eq_nil. by destruct Hn.
Qed.

Lemma Clean_rendered b st : normal b st -> Forall comp_ok st -> Clean (render b st) = render b st.
Proof.
  intros Hn Hok. destruct (decide (st = [])) as [->|Hne]; [by destruct b|].
  assert (reverse st <> []) as Hr by by rewrite reverse_nil_iff.
  assert (Forall (fun w => slash ∉ w) (reverse st)) as Hs.
  { rewrite Forall_reverse. eapply Forall_impl; [exact Hok|by intros ? []]. }
  assert (Join (reverse st) [slash] <> []) as Hj by (apply Join_nonempty; by rewrite ?Forall_reverse).
  rewrite (Clean_render (render b st)). destruct b.
  - change (render true st) with (slash :: Join (reverse st) [slash]).
    cbn [IsAbs]. rewrite bool_decide_eq_true_2 by done. rewrite Split_cons_sep, Split_Join by done.
    change (clean_stack true ([] :: reverse st)) with (clean_stack true (reverse st)). by rewrite clean_stack_again.
  - assert (render false st = Join (reverse st) [slash]) as E by (unfold render; by rewrite bool_decide_eq_false_2).
    rewrite E. assert (IsAbs (Join (reverse st) [slash]) = false) as ->.
    { destruct (reverse st) as [|w ws] eqn:Er; [done|]. rewrite <- Forall_reverse, Er in Hok.
      inversion Hok as [|? ? [Hw Hws] _]. subst. destruct w as [|x w]; [done|].
      destruct ws; cbn; apply bool_decide_eq_false_2; intros ->; apply Hws; by left. }
    by rewrite Split_Join, clean_stack_again.
Qed.

Lemma Clean_again dir : Clean (Clean dir) = Clean dir.
Proof. rewrite (Clean_render dir). apply Clean_rendered; [apply dir_normal|apply dir_stack_ok]. Qed.

Lemma JoinPath_Clean dir n : plain n -> JoinPath [Clean dir; n] = JoinPath [dir; n].
Proof. intros Hn. by rewrite !JoinPath_prefix, Clean_again. Qed.

Lemma Clean_nonempty dir : Clean dir <> [].
Proof. rewrite Clean_render. unfold render. destruct (IsAbs dir); [done|]. by case_bool_decide. Qed.
