(* ===== verification/GoTime.v ===== *)
(** * The part of Go's [time] package that the code uses

    Durations are nanoseconds.  An instant is a Unix time; a [*time.Location] is
    the offset from UTC in seconds at every instant, which changes where the zone has
    summer time.  A calendar date is the number of days
    since 1 January of year 1 (proleptic Gregorian), and [Format] with the
    layout 2006-01-02 spells it as YYYY-MM-DD. *)

From S2P Require Import Prelude GoStr.

Local Open Scope Z_scope.

Definition Second : Z := 1000000000.
Definition Minute : Z := 60 * Second.
Definition Hour : Z := 60 * Minute.

(** ** Calendar *)

Definition location : Type := Z -> Z.
Definition UTC : location := fun _ => 0.

(** Days between 1 January of year 1 and 1 January 1970. *)
Definition unix_epoch_day : Z := 719162.

(** What a clock in [loc] shows at [unix]: seconds as if the place were on UTC. *)
Definition wall (loc : location) (unix : Z) : Z := unix + loc unix.

(** The day on which [unix] falls in [loc]. *)
Definition local_day (loc : location) (unix : Z) : Z := unix_epoch_day + wall loc unix / 86400.

(** [time.Date]: the instant of a clock time.  The offset is looked up as if the clock time
    were UTC, and once more at the instant that this offset gives; a time that the clock
    skips gives one that it does not show then. *)
Definition Date (loc : location) (clock : Z) : Z := clock - loc (clock - loc clock).

(** [time.Date] of the first second of a day. *)
Definition midnight (loc : location) (d : Z) : Z := Date loc ((d - unix_epoch_day) * 86400).

(** [AddDate(0, 0, n)]: the same clock time [n] days later. *)
Definition AddDays (loc : location) (n unix : Z) : Z := Date loc (wall loc unix + 86400 * n).

(** Days before 1 January of year [y]. *)
Definition days_before (y : Z) : Z :=
  365 * (y - 1) + (y - 1) / 4 - (y - 1) / 100 + (y - 1) / 400.

Definition is_leap (y : Z) : bool := (y mod 4 =? 0) && (negb (y mod 100 =? 0) || (y mod 400 =? 0)).

Definition year_of (d : Z) : Z :=
  let g := d * 400 / 146097 + 1 in
  if days_before (g + 1) <=? d then g + 1
  else if d <? days_before g then g - 1 else g.

Definition month_lengths (y : Z) : list Z :=
  [31; if is_leap y then 29 else 28; 31; 30; 31; 30; 31; 31; 30; 31; 30; 31].

Fixpoint month_day (ms : list Z) (m yd : Z) : Z * Z :=
  match ms with
  | [] => (m, yd + 1)
  | l :: ms' => if yd <? l then (m, yd + 1) else month_day ms' (m + 1) (yd - l)
  end.

Record date := { date_year : Z; date_month : Z; date_mday : Z }.

Definition civil (d : Z) : date :=
  let y := year_of d in
  let '(m, md) := month_day (month_lengths y) 1 (d - days_before y) in
  {| date_year := y; date_month := m; date_mday := md |}.

(** [appendInt(b, year, 4)]: at least four digits. *)
Fixpoint int_width (fuel : nat) (n : Z) : nat :=
  match fuel with
  | O => 1
  | S fuel' => if n <? 10 then 1 else S (int_width fuel' (n / 10))
  end.

Definition append_int (n : Z) (w : nat) : bytes :=
  let body z := dec_digits (Nat.max w (int_width 20 z)) z in
  if n <? 0 then "-"%char :: body (- n) else body n.

Definition format_date (d : date) : bytes :=
  append_int (date_year d) 4 ++ "-"%char :: append_int (date_month d) 2 ++
  "-"%char :: append_int (date_mday d) 2.

(** [t.Format(dateLayout)] of a time on day [d]. *)
Definition format_day (d : Z) : bytes := format_date (civil d).

(** The days whose year is written with four digits. *)
Definition max_day : Z := 3652059. (* 1 January 10000 *)
Definition day_ok (d : Z) : Prop := 0 <= d < max_day.

Example format_1970 : format_day unix_epoch_day = $"1970-01-01".
Proof. reflexivity. Qed.
Example format_leap : format_day (local_day UTC 1709164800) = $"2024-02-29".
Proof. reflexivity. Qed.
Example format_last : format_day (max_day - 1) = $"9999-12-31".
Proof. reflexivity. Qed.

(** *** The year of a day *)

(** Division by constants, for [lia]. *)
#[local] Ltac Zify.zify_post_hook ::= Z.div_mod_to_equations.

Lemma days_before_lt y : days_before (y + 1) - days_before y = if is_leap y then 366 else 365.
Proof.
  unfold days_before, is_leap.
  replace (y + 1 - 1) with y by lia.
  destruct (Z.eqb_spec (y mod 4) 0), (Z.eqb_spec (y mod 100) 0), (Z.eqb_spec (y mod 400) 0);
    simpl; lia.
Qed.

Lemma days_before_mono a b : a <= b -> days_before a <= days_before b.
Proof. unfold days_before. intros H. lia. Qed.

Lemma year_of_spec d : days_before (year_of d) <= d < days_before (year_of d + 1).
Proof.
  unfold year_of, days_before.
  set (g := d * 400 / 146097 + 1).
  assert (146097 * (g - 1) <= d * 400 < 146097 * g) as Hg by (unfold g; lia).
  clearbody g.
  repeat case_match; lia.
Qed.

Lemma year_of_unique d y : days_before y <= d < days_before (y + 1) -> year_of d = y.
Proof.
  intros H. pose proof (year_of_spec d) as H'.
  destruct (Z.lt_trichotomy (year_of d) y) as [L|[L|L]]; [|done|].
  - pose proof (days_before_mono (year_of d + 1) y ltac:(lia)). lia.
  - pose proof (days_before_mono (y + 1) (year_of d) ltac:(lia)). lia.
Qed.

Lemma year_of_mono a b : a <= b -> year_of a <= year_of b.
Proof.
  intros H. pose proof (year_of_spec a). pose proof (year_of_spec b).
  destruct (Z.le_gt_cases (year_of a) (year_of b)) as [|L]; [done|].
  pose proof (days_before_mono (year_of b + 1) (year_of a) ltac:(lia)). lia.
Qed.

Lemma year_of_range d : day_ok d -> 1 <= year_of d <= 9999.
Proof.
  intros [H1 H2]. split.
  - change 1 with (year_of 0). by apply year_of_mono.
  - change 9999 with (year_of (max_day - 1)). apply year_of_mono. lia.
Qed.

(** *** Month and day of month *)

Lemma month_day_bounds ms m yd :
  Forall (fun l => l <= 31) ms -> 0 <= yd < foldr Z.add 0 ms ->
  let '(m', d') := month_day ms m yd in
  m <= m' < m + Z.of_nat (length ms) /\ 1 <= d' <= 31.
Proof.
  intros H. revert m yd. induction H as [|l ms Hl Hms IH]; intros m yd Hyd; cbn in *; [lia|].
  destruct (Z.ltb_spec yd l); [lia|].
  specialize (IH (m + 1) (yd - l) ltac:(lia)). destruct (month_day ms (m + 1) (yd - l)).
  lia.
Qed.

Lemma month_day_lt ms m a b :
  0 <= a < b ->
  let '(m1, d1) := month_day ms m a in
  let '(m2, d2) := month_day ms m b in
  m <= m1 /\ 1 <= d1 /\ (m1 < m2 \/ (m1 = m2 /\ d1 < d2)).
Proof.
  revert m a b. induction ms as [|l ms IH]; intros m a b Hab; cbn; [lia|].
  destruct (Z.ltb_spec a l), (Z.ltb_spec b l); try lia.
  - assert (forall ms m yd, 0 <= yd -> m <= fst (month_day ms m yd)) as Hm.
    { clear. induction ms as [|l ms IH]; intros m yd H; cbn; [lia|].
      case_match; cbn; [lia|]. specialize (IH (m + 1) (yd - l) ltac:(lia)). lia. }
    specialize (Hm ms (m + 1) (b - l) ltac:(lia)).
    destruct (month_day ms (m + 1) (b - l)). cbn in Hm. lia.
  - specialize (IH (m + 1) (a - l) (b - l) ltac:(lia)).
    destruct (month_day ms (m + 1) (a - l)), (month_day ms (m + 1) (b - l)). lia.
Qed.

Lemma month_lengths_sum y : foldr Z.add 0 (month_lengths y) = if is_leap y then 366 else 365.
Proof. unfold month_lengths. by destruct (is_leap y). Qed.

Lemma month_lengths_le y : Forall (fun l => l <= 31) (month_lengths y).
Proof. unfold month_lengths. repeat constructor; destruct (is_leap y); lia. Qed.

(** ** The written form of a date *)

Lemma int_width_le fuel n w :
  (1 <= w)%nat -> 0 <= n < 10 ^ Z.of_nat w -> (int_width fuel n <= w)%nat.
Proof.
  revert n w. induction fuel as [|fuel IH]; intros n w Hw Hn; simpl; [lia|].
  case_match; [lia|]. destruct w as [|[|w]]; [lia | cbn in Hn; lia |].
  apply le_n_S, IH; [lia|].
  rewrite Nat2Z.inj_succ, Z.pow_succ_r in Hn by lia. lia.
Qed.

Lemma append_int_fixed n w :
  (1 <= w)%nat -> 0 <= n < 10 ^ Z.of_nat w -> append_int n w = dec_digits w n.
Proof.
  intros Hw Hn. unfold append_int. rewrite (proj2 (Z.ltb_ge _ _)) by lia.
  pose proof (int_width_le 20 n w Hw Hn). by rewrite Nat.max_l.
Qed.

Lemma civil_bounds d :
  day_ok d ->
  1 <= date_year (civil d) <= 9999 /\ 1 <= date_month (civil d) <= 12 /\
  1 <= date_mday (civil d) <= 31.
Proof.
  intros Hd. pose proof (year_of_range d Hd). pose proof (year_of_spec d).
  pose proof (days_before_lt (year_of d)).
  unfold civil. pose proof (month_day_bounds (month_lengths (year_of d)) 1
    (d - days_before (year_of d)) (month_lengths_le _)) as Hb.
  rewrite month_lengths_sum in Hb. specialize (Hb ltac:(lia)).
  destruct (month_day _ _ _). cbn in *. lia.
Qed.

Definition date_ltb_fields (a b : date) : Prop :=
  date_year a < date_year b \/
  (date_year a = date_year b /\
   (date_month a < date_month b \/
    (date_month a = date_month b /\ date_mday a < date_mday b))).

Lemma civil_lt a b : a < b -> date_ltb_fields (civil a) (civil b).
Proof.
  intros Hab. unfold date_ltb_fields, civil.
  pose proof (year_of_mono a b ltac:(lia)). pose proof (year_of_spec a).
  pose proof (year_of_spec b).
  destruct (decide (year_of a = year_of b)) as [E|E].
  - rewrite E in *.
    pose proof (month_day_lt (month_lengths (year_of b)) 1
      (a - days_before (year_of b)) (b - days_before (year_of b)) ltac:(lia)) as Hm.
    destruct (month_day _ _ (a - _)), (month_day _ _ (b - _)). cbn in *. lia.
  - destruct (month_day _ _ (a - _)), (month_day _ _ (b - _)). cbn in *. lia.
Qed.

Lemma format_date_fixed d :
  1 <= date_year d <= 9999 -> 1 <= date_month d <= 12 -> 1 <= date_mday d <= 31 ->
  format_date d = dec_digits 4 (date_year d) ++ "-"%char :: dec_digits 2 (date_month d) ++
                  "-"%char :: dec_digits 2 (date_mday d).
Proof. intros. unfold format_date. by rewrite !append_int_fixed by (cbn; lia). Qed.

(** Dates of four-digit years are written in ten bytes, in the order of time. *)
Lemma length_format_day d : day_ok d -> length (format_day d) = 10%nat.
Proof.
  intros Hd. destruct (civil_bounds d Hd) as (? & ? & ?).
  unfold format_day. rewrite format_date_fixed by done.
  repeat (rewrite length_app || cbn [length]). by rewrite !length_dec_digits.
Qed.

Lemma format_day_lt a b :
  day_ok a -> day_ok b -> a < b -> str_ltb (format_day a) (format_day b) = true.
Proof.
  intros Ha Hb Hab. destruct (civil_bounds a Ha) as (? & ? & ?).
  destruct (civil_bounds b Hb) as (? & ? & ?).
  unfold format_day. rewrite !format_date_fixed by done.
  destruct (civil_lt a b Hab) as [H'|(-> & [H'|(-> & H')])].
  - apply str_ltb_app_lt; [by rewrite !length_dec_digits|]. apply dec_digits_lt; cbn; lia.
  - rewrite str_ltb_app_same. change (str_ltb (?x :: ?s) (?x :: ?t)) with
      (str_ltb ([x] ++ s) ([x] ++ t)). rewrite str_ltb_app_same.
    apply str_ltb_app_lt; [by rewrite !length_dec_digits|]. apply dec_digits_lt; cbn; lia.
  - rewrite str_ltb_app_same. change (str_ltb (?x :: ?s) (?x :: ?t)) with
      (str_ltb ([x] ++ s) ([x] ++ t)). rewrite str_ltb_app_same.
    rewrite str_ltb_app_same. change (str_ltb (?x :: ?s) (?x :: ?t)) with
      (str_ltb ([x] ++ s) ([x] ++ t)). rewrite str_ltb_app_same.
    apply dec_digits_lt; cbn; lia.
Qed.

Lemma format_day_ltb a b :
  day_ok a -> day_ok b -> str_ltb (format_day a) (format_day b) = (a <? b).
Proof.
  intros Ha Hb. destruct (Z.lt_trichotomy a b) as [H|[->|H]].
  - rewrite format_day_lt by done. symmetry. by apply Z.ltb_lt.
  - rewrite str_ltb_irrefl, Z.ltb_irrefl. done.
  - rewrite str_ltb_asym by (by apply format_day_lt). symmetry. apply Z.ltb_ge. lia.
Qed.

Lemma format_day_inj a b : day_ok a -> day_ok b -> format_day a = format_day b -> a = b.
Proof.
  intros Ha Hb E. destruct (Z.lt_trichotomy a b) as [H|[->|H]]; [|done|].
  - pose proof (format_day_lt a b Ha Hb H) as L. by rewrite E, str_ltb_irrefl in L.
  - pose proof (format_day_lt b a Hb Ha H) as L. by rewrite E, str_ltb_irrefl in L.
Qed.

(** ** Zones

    Between two instants a zone is regular when days follow one another there, each of them
    begins at its midnight, and lasts twelve hours at least.  That is so where the offset
    does not change, and where summer time begins and ends in the course of a day. *)
Record zone_regular (loc : location) (lo hi : Z) : Prop := {
  zr_mono : forall a b, lo <= a <= b -> b <= hi -> local_day loc a <= local_day loc b;
  zr_midnight : forall d, local_day loc lo <= d <= local_day loc hi ->
    wall loc (midnight loc d) = (d - unix_epoch_day) * 86400;
  zr_next : forall d, local_day loc lo <= d <= local_day loc hi ->
    midnight loc d + 43200 <= midnight loc (d + 1)
}.

Definition fixed (offset : Z) : location := fun _ => offset.

Lemma fixed_regular offset lo hi : zone_regular (fixed offset) lo hi.
Proof. split; unfold local_day, midnight, Date, wall, fixed; intros; lia. Qed.

Lemma UTC_regular lo hi : zone_regular UTC lo hi.
Proof. apply (fixed_regular 0). Qed.

(** From a midnight to the next. *)
Lemma AddDays_midnight loc d :
  wall loc (midnight loc d) = (d - unix_epoch_day) * 86400 -> AddDays loc 1 (midnight loc d) = midnight loc (d + 1).
Proof. intros H. unfold AddDays. rewrite H. unfold midnight. f_equal. lia. Qed.

(** The same clock time [n] days later is on the [n]th day, if the clock shows it then. *)
Lemma AddDays_day loc n t :
  wall loc (AddDays loc n t) = wall loc t + 86400 * n -> local_day loc (AddDays loc n t) = local_day loc t + n.
Proof. intros H. unfold local_day. rewrite H. lia. Qed.

Lemma AddDays_fixed offset n t : AddDays (fixed offset) n t = t + 86400 * n.
Proof. unfold AddDays, Date, wall, fixed. lia. Qed.

(** *** Zones with summer time *)

(** New York in 2024: an hour ahead from 10 March, 7:00 UTC, to 3 November, 6:00 UTC. *)
Definition NewYork2024 : location := fun t =>
  if (1710054000 <=? t) && (t <? 1730613600) then -14400 else -18000.

Lemma NewYork2024_spec t :
  (1710054000 <= t < 1730613600 /\ NewYork2024 t = -14400) \/
  (~ 1710054000 <= t < 1730613600 /\ NewYork2024 t = -18000).
Proof. unfold NewYork2024. destruct (Z.leb_spec 1710054000 t), (Z.ltb_spec t 1730613600); cbn; lia. Qed.

Lemma NewYork2024_midnight d :
  wall NewYork2024 (midnight NewYork2024 d) = (d - unix_epoch_day) * 86400 /\
  (d - unix_epoch_day) * 86400 + 14400 <= midnight NewYork2024 d <= (d - unix_epoch_day) * 86400 + 18000.
Proof.
  unfold midnight, Date, wall, unix_epoch_day. set (k := d - 719162). clearbody k.
  repeat match goal with |- context [NewYork2024 ?x] =>
    match x with context [NewYork2024 _] => fail 1 | _ => destruct (NewYork2024_spec x) as [[? E]|[? E]]; rewrite E in *; clear E end end;
    lia.
Qed.

Lemma NewYork2024_regular lo hi : zone_regular NewYork2024 lo hi.
Proof.
  split.
  - intros a b Hab Hb. unfold local_day, wall.
    destruct (NewYork2024_spec a) as [[? ->]|[? ->]], (NewYork2024_spec b) as [[? ->]|[? ->]]; lia.
  - intros d _. apply NewYork2024_midnight.
  - intros d _. pose proof (NewYork2024_midnight d). pose proof (NewYork2024_midnight (d + 1)). lia.
Qed.

(** Where summer time begins at midnight, that midnight is not shown.  West of Greenwich,
    as in Sao Paulo on 4 November 2018, [Date] gives an hour before it, on the day before;
    east of it, as in Beirut on 31 March 2024, an hour after it. *)
Definition SaoPaulo2018 : location := fun t => if t <? 1541300400 then -10800 else -7200.
Definition Beirut2024 : location := fun t => if t <? 1711836000 then 7200 else 10800.

(** Apia had no 30 December 2011. *)
Definition Apia2011 : location := fun t => if t <? 1325239200 then -36000 else 50400.

Definition nov4 : Z := 737001.
Definition mar31 : Z := 738975.
Definition dec29 : Z := 734499.

Example midnight_SaoPaulo :
  format_day nov4 = $"2018-11-04" /\ format_day (local_day SaoPaulo2018 (midnight SaoPaulo2018 nov4)) = $"2018-11-03".
Proof. split; vm_compute; reflexivity. Qed.

Example midnight_Beirut :
  format_day mar31 = $"2024-03-31" /\ wall Beirut2024 (midnight Beirut2024 mar31) mod 86400 = 3600.
Proof. split; vm_compute; reflexivity. Qed.

(** The day after the 29th is the 29th. *)
Example next_day_Apia :
  format_day dec29 = $"2011-12-29" /\
  local_day Apia2011 (midnight Apia2011 dec29) = dec29 /\
  AddDays Apia2011 1 (midnight Apia2011 dec29) = midnight Apia2011 dec29.
Proof. split; [|split]; vm_compute; reflexivity. Qed.
