(* ===== verification/GoFs.v ===== *)
(** * The file system behind package [os]

    Regular files with a content and permission bits, by path.  The next element of
    a script decides whether the next system call fails, and with which error; an
    empty script means that no call fails any more.  A call that fails has no
    effect; [rename] is atomic. *)

From S2P Require Import Prelude.

Record fnode := FNode { content : bytes; perm : Z }.

#[export] Instance fnode_eq_dec : EqDecision fnode.
Proof. solve_decision. Defined.

Record fs := FS { files : gmap bytes fnode; script : list (option error) }.

Definition fault : State fs (option error) := fun w =>
  (default None (head (script w)), FS (files w) (tail (script w))).

Definition set_files (m : gmap bytes fnode) : State fs unit := modify (fun w => FS m (script w)).

(** A call that fails with the error of the script, else does [f]. *)
Definition syscall {A : Type} (f : State fs (result A)) : State fs (result A) :=
  e ← fault;
  match e with
  | Some e => mret (Err e)
  | None => f
  end.

Definition os_Stat (p : bytes) : State fs (result fnode) := syscall (
  m ← gets files;
  match m !! p with
  | Some n => mret (Ok n)
  | None => mret (Err ENotExist)
  end).

(** Opening and reading to the end: two calls that may fail. *)
Definition os_Open (p : bytes) : State fs (result fnode) := os_Stat p.
Definition io_Copy (n : fnode) : State fs (result bytes) := syscall (mret (Ok (content n))).

Definition os_Chmod (p : bytes) (mode : Z) : State fs (result unit) := syscall (
  m ← gets files;
  match m !! p with
  | Some n => set_files (<[p := FNode (content n) mode]> m);; mret (Ok tt)
  | None => mret (Err ENotExist)
  end).

Definition os_Remove (p : bytes) : State fs (result unit) := syscall (
  m ← gets files;
  match m !! p with
  | Some _ => set_files (delete p m);; mret (Ok tt)
  | None => mret (Err ENotExist)
  end).

Definition os_Rename (a b : bytes) : State fs (result unit) := syscall (
  m ← gets files;
  match m !! a with
  | Some n => set_files (<[b := n]> (delete a m));; mret (Ok tt)
  | None => mret (Err ENotExist)
  end).

(** [os.WriteFile], all or nothing. *)
Definition os_WriteFile (p data : bytes) (mode : Z) : State fs (result unit) := syscall (
  m ← gets files;
  set_files (<[p := FNode data (match m !! p with Some n => perm n | None => mode end)]> m);;
  mret (Ok tt)).

Definition os_IsNotExist (e : error) : bool := bool_decide (e = ENotExist).

(** ** What the calls do *)

(** The number of faults left in the script. *)
Definition fault_count (w : fs) : nat := length (List.filter (fun e => if e is Some _ then true else false) (script w)).

Lemma syscall_spec {A : Type} (f : State fs (result A)) w :
  (exists e w', syscall f w = (Err e, w') /\ files w' = files w /\
     fault_count w = S (fault_count w')) \/
  (exists w0, syscall f w = f w0 /\ files w0 = files w /\ fault_count w0 = fault_count w).
Proof.
  unfold syscall, fault, mbind, State_bind, fault_count. destruct (script w) as [|[e|] sc]; simpl.
  - right. by exists (FS (files w) []).
  - left. exists e, (FS (files w) sc). done.
  - right. by exists (FS (files w) sc).
Qed.

(** The outcome of a call that changes the files by [upd] when it succeeds. *)
Definition outcome_of {A : Type} (r : result A) (w w' : fs) (upd : option (gmap bytes fnode)) : Prop :=
  match r with
  | Ok _ => upd = Some (files w') /\ fault_count w' = fault_count w
  | Err e => files w' = files w /\
      (fault_count w = S (fault_count w') \/
       (fault_count w' = fault_count w /\ upd = None /\ e = ENotExist))
  end.

Lemma os_Stat_spec p w :
  let '(r, w') := os_Stat p w in
  outcome_of r w w' (const (files w) <$> files w !! p) /\
  match r with Ok n => files w !! p = Some n | Err _ => True end.
Proof.
  unfold os_Stat. destruct (syscall_spec (m ← gets files; match m !! p with
    | Some n => mret (Ok n) | None => mret (Err ENotExist) end) w)
    as [(e & w' & -> & Hf & Hc)|(w0 & -> & Hf & Hc)].
  - split; [|done]. split; [done | by left].
  - unfold mbind, State_bind, gets. rewrite <- Hf. destruct (files w0 !! p); simpl; [done|].
    split; [|done]. split; [done|]. by right.
Qed.

Lemma io_Copy_spec n w :
  let '(r, w') := io_Copy n w in
  files w' = files w /\ match r with Ok c => c = content n | Err _ => True end.
Proof.
  unfold io_Copy. destruct (syscall_spec (mret (Ok (content n))) w)
    as [(e & w' & -> & Hf & Hc)|(w0 & -> & Hf & Hc)]; done.
Qed.

Lemma os_Chmod_spec p mode w :
  let '(r, w') := os_Chmod p mode w in
  outcome_of r w w' ((fun n => <[p := FNode (content n) mode]> (files w)) <$> files w !! p).
Proof.
  unfold os_Chmod. match goal with |- context [syscall ?f w] => destruct (syscall_spec f w)
    as [(e & w' & -> & Hf & Hc)|(w0 & -> & Hf & Hc)] end.
  - split; [done | by left].
  - unfold mbind, State_bind, gets. rewrite <- Hf. destruct (files w0 !! p); simpl; [done|].
    split; [done|]. by right.
Qed.

Lemma os_Remove_spec p w :
  let '(r, w') := os_Remove p w in
  outcome_of r w w' (const (delete p (files w)) <$> files w !! p).
Proof.
  unfold os_Remove. match goal with |- context [syscall ?f w] => destruct (syscall_spec f w)
    as [(e & w' & -> & Hf & Hc)|(w0 & -> & Hf & Hc)] end.
  - split; [done | by left].
  - unfold mbind, State_bind, gets. rewrite <- Hf. destruct (files w0 !! p); simpl; [done|].
    split; [done|]. by right.
Qed.

Lemma os_Rename_spec a b w :
  let '(r, w') := os_Rename a b w in
  outcome_of r w w' ((fun n => <[b := n]> (delete a (files w))) <$> files w !! a).
Proof.
  unfold os_Rename. match goal with |- context [syscall ?f w] => destruct (syscall_spec f w)
    as [(e & w' & -> & Hf & Hc)|(w0 & -> & Hf & Hc)] end.
  - split; [done | by left].
  - unfold mbind, State_bind, gets. rewrite <- Hf. destruct (files w0 !! a); simpl; [done|].
    split; [done|]. by right.
Qed.
