(* ===== verification/GoHash.v ===== *)
(** * [crypto/sha256] and [encoding/hex]

    The digest of FIPS 180-4 on 32-bit words, and the hexadecimal form. *)

From S2P Require Import Prelude GoStr.

Local Open Scope Z_scope.

(** ** SHA-256 *)

Definition w32 (z : Z) : Z := z mod 2 ^ 32.
Definition rotr (n x : Z) : Z := Z.lor (Z.shiftr x n) (w32 (Z.shiftl x (32 - n))).

Definition Ch (x y z : Z) : Z := Z.lxor (Z.land x y) (Z.land (2 ^ 32 - 1 - x) z).
Definition Maj (x y z : Z) : Z := Z.lxor (Z.lxor (Z.land x y) (Z.land x z)) (Z.land y z).
Definition Sigma0 (x : Z) : Z := Z.lxor (Z.lxor (rotr 2 x) (rotr 13 x)) (rotr 22 x).
Definition Sigma1 (x : Z) : Z := Z.lxor (Z.lxor (rotr 6 x) (rotr 11 x)) (rotr 25 x).
Definition sigma0 (x : Z) : Z := Z.lxor (Z.lxor (rotr 7 x) (rotr 18 x)) (Z.shiftr x 3).
Definition sigma1 (x : Z) : Z := Z.lxor (Z.lxor (rotr 17 x) (rotr 19 x)) (Z.shiftr x 10).

(** The constants, as the standard defines them: the first 32 bits of the fractional
    parts of the cube roots of the first 64 primes, and of the square roots of the
    first eight. *)
Definition is_prime (n : Z) : bool :=
  forallb (fun d => negb (n mod d =? 0)) (map Z.of_nat (seq 2 (Z.to_nat (Z.sqrt n) - 1))).

Definition primes (n : nat) : list Z :=
  take n (List.filter is_prime (map Z.of_nat (seq 2 310))).

(** The integer cube root of a number below 2^(3 bits), from the highest bit down. *)
Fixpoint cbrt (bits : nat) (n acc : Z) : Z :=
  match bits with
  | O => acc
  | S b =>
      let next := acc + 2 ^ Z.of_nat b in
      cbrt b n (if next ^ 3 <=? n then next else acc)
  end.

Definition K256 : list Z :=
  Eval vm_compute in map (fun p => w32 (cbrt 36 (p * 2 ^ 96) 0)) (primes 64).

Definition H256 : list Z :=
  Eval vm_compute in map (fun p => w32 (Z.sqrt (p * 2 ^ 64))) (primes 8).

(** The bytes of a number, most significant first. *)
Fixpoint be_bytes (n : nat) (z : Z) : bytes :=
  match n with
  | O => []
  | S n' => be_bytes n' (z / 256) ++ [chr (z mod 256)]
  end.

Definition be_word (bs : bytes) : Z := fold_left (fun acc b => acc * 256 + code b) bs 0.

Fixpoint words (n : nat) (bs : bytes) : list Z :=
  match n with
  | O => []
  | S n' => be_word (take 4 bs) :: words n' (drop 4 bs)
  end.

Definition pad (msg : bytes) : bytes :=
  let n := length msg in
  let zeros := Z.to_nat ((55 - Z.of_nat n) mod 64) in
  msg ++ chr 128 :: repeat (chr 0) zeros ++ be_bytes 8 (8 * Z.of_nat n).

(** The message schedule, the latest word first. *)
Fixpoint schedule (n : nat) (ws : list Z) : list Z :=
  match n with
  | O => ws
  | S n' =>
      let w k := nth k ws 0 in
      schedule n' (w32 (sigma1 (w 1%nat) + w 6%nat + sigma0 (w 14%nat) + w 15%nat) :: ws)
  end.

Definition round (st : list Z) (kw : Z * Z) : list Z :=
  match st with
  | [a; b; c; d; e; f; g; h] =>
      let t1 := w32 (h + Sigma1 e + Ch e f g + fst kw + snd kw) in
      let t2 := w32 (Sigma0 a + Maj a b c) in
      [w32 (t1 + t2); a; b; c; w32 (d + t1); e; f; g]
  | _ => st
  end.

Definition compress (st : list Z) (block : bytes) : list Z :=
  let ws := rev (schedule 48 (rev (words 16 block))) in
  let st' := fold_left round (combine K256 ws) st in
  map (fun p => w32 (fst p + snd p)) (combine st st').

Fixpoint blocks (fuel : nat) (st : list Z) (bs : bytes) : list Z :=
  match fuel with
  | O => st
  | S fuel' =>
      match bs with
      | [] => st
      | _ => blocks fuel' (compress st (take 64 bs)) (drop 64 bs)
      end
  end.

Definition sha256 (msg : bytes) : bytes :=
  let p := pad msg in
  flat_map (be_bytes 4) (blocks (length p) H256 p).

(** ** Hexadecimal *)

Definition hex_digit (v : Z) : ascii := if v <? 10 then chr (48 + v) else chr (87 + v).

Definition EncodeToString (bs : bytes) : bytes :=
  flat_map (fun b => [hex_digit (code b / 16); hex_digit (code b mod 16)]) bs.

Definition hex_val (c : ascii) : option Z :=
  let z := code c in
  if (48 <=? z) && (z <=? 57) then Some (z - 48)
  else if (97 <=? z) && (z <=? 102) then Some (z - 87)
  else if (65 <=? z) && (z <=? 70) then Some (z - 55)
  else None.

Definition ErrHex : error := ENew ($"encoding/hex: invalid input").

Fixpoint DecodeString (s : bytes) : result bytes :=
  match s with
  | [] => Ok []
  | a :: b :: r =>
      match hex_val a, hex_val b with
      | Some x, Some y =>
          match DecodeString r with
          | Ok bs => Ok (chr (16 * x + y) :: bs)
          | Err e => Err e
          end
      | _, _ => Err ErrHex
      end
  | [_] => Err ErrHex
  end.

Example sha256_abc :
  EncodeToString (sha256 ($"abc")) =
  $"ba7816bf8f01cfea414140de5dae2223b00361a396177a9cb410ff61f20015ad".
Proof. vm_compute. reflexivity. Qed.

Example sha256_empty :
  EncodeToString (sha256 []) =
  $"e3b0c44298fc1c149afbf4c8996fb92427ae41e4649b934ca495991b7852b855".
Proof. vm_compute. reflexivity. Qed.

(** ** Facts *)

Lemma length_be_bytes n z : length (be_bytes n z) = n.
Proof. revert z. induction n as [|n IH]; intros z; [done|]. simpl. rewrite length_app, IH. simpl. lia. Qed.

Lemma hex_val_digit v : 0 <= v < 16 -> hex_val (hex_digit v) = Some v.
Proof.
  intros Hv. assert (v ∈ seqZ 0 16) as Hin by (apply elem_of_seqZ; lia). clear Hv.
  assert (Forall (fun v => hex_val (hex_digit v) = Some v) (seqZ 0 16)) as H by by repeat constructor.
  by rewrite Forall_forall in H; apply H.
Qed.

Lemma DecodeString_Encode bs : DecodeString (EncodeToString bs) = Ok bs.
Proof.
  induction bs as [|b bs IH]; [done|]. unfold EncodeToString in *. cbn [flat_map app DecodeString].
  pose proof (code_range b) as Hb.
  pose proof (Z.mod_pos_bound (code b) 16 ltac:(lia)).
  assert (0 <= code b / 16 < 16) by (split; [apply Z.div_pos; lia | apply Z.div_lt_upper_bound; lia]).
  rewrite !hex_val_digit, IH by done. do 2 f_equal.
  rewrite <- (Z.div_mod (code b) 16) by lia. apply chr_code.
Qed.

Lemma length_fold_round l st : length st = 8%nat -> length (fold_left round l st) = 8%nat.
Proof.
  revert st. induction l as [|kw l IH]; intros st H; [done|]. cbn [fold_left]. apply IH.
  destruct st as [|a [|b [|c [|d [|e [|f [|g [|h [|]]]]]]]]]; done.
Qed.

Lemma length_compress st b : length st = 8%nat -> length (compress st b) = 8%nat.
Proof. intros H. unfold compress. rewrite length_map, length_combine, length_fold_round; lia. Qed.

Lemma length_sha256 msg : length (sha256 msg) = 32%nat.
Proof.
  unfold sha256. assert (length (blocks (length (pad msg)) H256 (pad msg)) = 8%nat) as H.
  { assert (length H256 = 8%nat) as H0 by done. revert H0.
    generalize H256, (pad msg) at 2. generalize (length (pad msg)).
    induction n as [|n IH]; intros st bs H0; [done|]. simpl. destruct bs; [done|].
    by apply IH, length_compress. }
  destruct (blocks _ _ _) as [|a [|b [|c [|d [|e [|f [|g [|h [|]]]]]]]]]; done.
Qed.
