(* ===== verification/GoBase64.v ===== *)
(** * [encoding/base64], the standard encoding with padding

    The decoder skips carriage returns and newlines, needs the padding, and does
    not look at the unused bits of the last group, as [StdEncoding] does.  The
    offset in the error of the decoder is left out. *)

From S2P Require Import Prelude GoStr.

Local Open Scope Z_scope.

Definition b64_char (i : Z) : ascii :=
  if i <? 26 then chr (65 + i)
  else if i <? 52 then chr (71 + i)
  else if i <? 62 then chr (i - 4)
  else if i =? 62 then chr 43 else chr 47.

Definition b64_val (c : ascii) : option Z :=
  let z := code c in
  if (65 <=? z) && (z <=? 90) then Some (z - 65)
  else if (97 <=? z) && (z <=? 122) then Some (z - 71)
  else if (48 <=? z) && (z <=? 57) then Some (z + 4)
  else if z =? 43 then Some 62
  else if z =? 47 then Some 63
  else None.

Definition pad_char : ascii := "="%char.

Fixpoint b64_Encode (s : bytes) : bytes :=
  match s with
  | [] => []
  | [a] => [b64_char (code a / 4); b64_char (code a mod 4 * 16); pad_char; pad_char]
  | [a; b] =>
      [b64_char (code a / 4); b64_char (code a mod 4 * 16 + code b / 16);
       b64_char (code b mod 16 * 4); pad_char]
  | a :: b :: c :: r =>
      [b64_char (code a / 4); b64_char (code a mod 4 * 16 + code b / 16);
       b64_char (code b mod 16 * 4 + code c / 64); b64_char (code c mod 64)] ++ b64_Encode r
  end.

Definition ErrBase64 : error := ENew ($"illegal base64 data").

(** Groups of four characters; padding only in the last one. *)
Fixpoint decode_groups (s : bytes) : result bytes :=
  match s with
  | [] => Ok []
  | w :: x :: y :: z :: r =>
      match b64_val w, b64_val x with
      | Some i, Some j =>
          let b1 := chr (i * 4 + j / 16) in
          if bool_decide (y = pad_char) then
            if bool_decide (z = pad_char) && bool_decide (r = []) then Ok [b1] else Err ErrBase64
          else
            match b64_val y with
            | None => Err ErrBase64
            | Some k =>
                let b2 := chr (j mod 16 * 16 + k / 4) in
                if bool_decide (z = pad_char) then
                  if bool_decide (r = []) then Ok [b1; b2] else Err ErrBase64
                else
                  match b64_val z with
                  | None => Err ErrBase64
                  | Some l =>
                      match decode_groups r with
                      | Ok bs => Ok (b1 :: b2 :: chr (k mod 4 * 64 + l) :: bs)
                      | Err e => Err e
                      end
                  end
            end
      | _, _ => Err ErrBase64
      end
  | _ => Err ErrBase64
  end.

Definition b64_Decode (s : bytes) : result bytes :=
  decode_groups (List.filter (fun c => negb (bool_decide (c = cr) || bool_decide (c = nl))) s).

Example encode_1 : b64_Encode ($"foobar!") = $"Zm9vYmFyIQ==". Proof. reflexivity. Qed.
Example decode_1 : b64_Decode ($"Zm9v" ++ [nl] ++ $"YmE=") = Ok ($"fooba"). Proof. reflexivity. Qed.

(** ** Decoding inverts encoding *)

Lemma b64_table i :
  0 <= i < 64 ->
  b64_val (b64_char i) = Some i /\ b64_char i <> pad_char /\ b64_char i <> cr /\ b64_char i <> nl.
Proof.
  intros Hi. assert (i ∈ seqZ 0 64) as Hin by (apply elem_of_seqZ; lia). clear Hi.
  assert (Forall (fun i => b64_val (b64_char i) = Some i /\ b64_char i <> pad_char /\
            b64_char i <> cr /\ b64_char i <> nl) (seqZ 0 64)) as H.
  { apply (bool_decide_unpack _). vm_compute. exact I. }
  rewrite Forall_forall in H. by apply H.
Qed.

#[local] Ltac Zify.zify_post_hook ::= Z.div_mod_to_equations.

(** Reading one character of a group. *)
Ltac b64_step :=
  match goal with
  | |- context [b64_val (b64_char ?i)] =>
      rewrite (proj1 (b64_table i ltac:(lia)))
  | |- context [bool_decide (b64_char ?i = pad_char)] =>
      rewrite (bool_decide_eq_false_2 (b64_char i = pad_char)) by (apply (b64_table i); lia)
  end.

(** Induction by groups of three bytes. *)
Lemma triples_ind (P : bytes -> Prop) :
  P [] -> (forall a, P [a]) -> (forall a b, P [a; b]) ->
  (forall a b c r, P r -> P (a :: b :: c :: r)) -> forall s, P s.
Proof.
  intros H0 H1 H2 H3 s. induction s as [s IH] using (induction_ltof1 _ length).
  unfold ltof in IH. destruct s as [|a [|b [|c r]]]; auto. apply H3, IH. simpl. lia.
Qed.

Lemma chr_eq z c : z = code c -> chr z = c.
Proof. intros ->. apply chr_code. Qed.

Lemma decode_groups_Encode s : decode_groups (b64_Encode s) = Ok s.
Proof.
  induction s as [|a|a b|a b c r IH] using triples_ind; [done|..];
    pose proof (code_range a); try pose proof (code_range b); try pose proof (code_range c);
    cbn [b64_Encode app decode_groups].
  - repeat b64_step. cbn. do 2 f_equal. apply chr_eq. lia.
  - repeat b64_step. rewrite bool_decide_eq_true_2 by done. cbn [bool_decide].
    rewrite (bool_decide_eq_true_2 (_ = [])) by done.
    do 2 f_equal; [apply chr_eq; lia|]. f_equal. apply chr_eq. lia.
  - repeat b64_step. rewrite IH.
    do 2 f_equal; [apply chr_eq; lia|]. f_equal; [apply chr_eq; lia|]. f_equal. apply chr_eq. lia.
Qed.

Lemma Encode_clean s :
  List.filter (fun c => negb (bool_decide (c = cr) || bool_decide (c = nl))) (b64_Encode s) =
  b64_Encode s.
Proof.
  assert (forall i, 0 <= i < 64 ->
            negb (bool_decide (b64_char i = cr) || bool_decide (b64_char i = nl)) = true) as Hc.
  { intros i Hi. destruct (b64_table i Hi) as (_ & _ & H1 & H2).
    by rewrite !bool_decide_eq_false_2. }
  assert (negb (bool_decide (pad_char = cr) || bool_decide (pad_char = nl)) = true) as Hp by done.
  induction s as [|a|a b|a b c r IH] using triples_ind; [done|..];
    pose proof (code_range a); try pose proof (code_range b); try pose proof (code_range c);
    cbn [b64_Encode app List.filter]; rewrite ?Hp; rewrite ?Hc by lia; try done.
  by rewrite IH.
Qed.

Lemma base64_roundtrip s : b64_Decode (b64_Encode s) = Ok s.
Proof. unfold b64_Decode. rewrite Encode_clean. apply decode_groups_Encode. Qed.
