(* ===== verification/GoTree.v ===== *)
(** * A file system with directories and symbolic links

    What packages [os] and [path/filepath] do for the packages that work on whole
    trees.  A node is found by the list of the names that lead to it from the root;
    the path of a call is resolved as Linux does, one component after the other,
    through at most forty links.  The next element of a script decides whether the
    next system call fails, with which error, and how much of its work it has done by
    then; an empty script means that no call fails any more.  File handles are
    resolved paths: nobody moves or removes a file while it is open. *)

From stdpp Require Import sorting.
From S2P Require Import Prelude GoStr GoPath.

(** ** Nodes *)

Record meta := Meta { m_perm : Z; m_time : Z; m_uid : Z; m_gid : Z }.

Inductive node :=
  | NDir (m : meta)
  | NFile (data : bytes) (m : meta)
  | NLink (target : bytes) (m : meta).

#[export] Instance meta_eq_dec : EqDecision meta.
Proof. solve_decision. Defined.
#[export] Instance node_eq_dec : EqDecision node.
Proof. solve_decision. Defined.

Definition node_meta (n : node) : meta :=
  match n with NDir m | NFile _ m | NLink _ m => m end.

Definition is_dir (n : node) : bool := if n is NDir _ then true else false.
Definition is_link (n : node) : bool := if n is NLink _ _ then true else false.

(** [FileInfo.Size]: of a link the length of its target; of a directory a number that
    depends on the file system, here 4096. *)
Definition node_size (n : node) : Z :=
  match n with
  | NDir _ => 4096
  | NFile data _ => Z.of_nat (length data)
  | NLink target _ => Z.of_nat (length target)
  end.

Abbreviation fpath := (list bytes).
Abbreviation tree := (gmap (list bytes) node).

(** The process: its working directory, what new nodes get, and the clock. *)
Record process := Process { cwd : fpath; umask : Z; p_uid : Z; p_gid : Z; clock : Z }.

Record os := Os { nodes : tree; proc : process; faults : list (option (nat * error)) }.

Definition new_meta (pr : process) (mode : Z) : meta :=
  Meta (Z.ldiff mode (umask pr)) (clock pr) (p_uid pr) (p_gid pr).

Definition ENOTDIR : error := EOther 20.
Definition EISDIR : error := EOther 21.
Definition EINVAL : error := EOther 22.
Definition EBUSY : error := EOther 16.
Definition ENOTEMPTY : error := EOther 39.
Definition ELOOP : error := EOther 40.

(** ** Resolving a path *)

Definition max_links : nat := 40.

(** The node may be missing if it is the last of the path.  [follow]: whether a link
    at the end is followed. *)
Fixpoint resolve (links : nat) (t : tree) (follow : bool) : fpath -> list bytes -> result fpath :=
  fix go (cur : fpath) (comps : list bytes) {struct comps} : result fpath :=
    match comps with
    | [] => Ok cur
    | c :: rest =>
        if bool_decide (c = []) || bool_decide (c = dot) then go cur rest
        else if bool_decide (c = dotdot) then go (removelast cur) rest
        else
          let p := cur ++ [c] in
          match t !! p with
          | Some (NDir _) => go p rest
          | Some (NFile _ _) => if bool_decide (rest = []) then Ok p else Err ENOTDIR
          | Some (NLink target _) =>
              if bool_decide (rest = []) && negb follow then Ok p
              else
                match links with
                | O => Err ELOOP
                | S l => resolve l t follow (if IsAbs target then [] else cur)
                           (Split target slash ++ rest)
                end
          | None => if bool_decide (rest = []) then Ok p else Err ENotExist
          end
    end.

Definition locate (t : tree) (dir : fpath) (follow : bool) (p : bytes) : result fpath :=
  if bool_decide (p = []) then Err ENotExist
  else resolve max_links t follow (if IsAbs p then [] else dir) (Split p slash).

(** ** System calls *)

Definition fault : State os (option (nat * error)) := fun w =>
  (default None (head (faults w)), Os (nodes w) (proc w) (tail (faults w))).

Definition set_nodes (t : tree) : State os unit :=
  modify (fun w => Os t (proc w) (faults w)).

(** A call that fails as the script says, having done [part], else does [f]. *)
Definition syscall {A : Type} (part : nat -> State os unit) (f : State os (result A))
    : State os (result A) :=
  e ← fault;
  match e with
  | Some (n, e) => part n;; mret (Err e)
  | None => f
  end.

Definition nothing (n : nat) : State os unit := mret tt.

(** A call on a path: [f] gets the place it leads to and the tree. *)
Definition path_call {A : Type} (p : bytes) (follow : bool)
    (f : fpath -> tree -> process -> result (A * tree)) : State os (result A) :=
  syscall nothing (fun w =>
    match locate (nodes w) (cwd (proc w)) follow p with
    | Err e => (Err e, w)
    | Ok q =>
        match f q (nodes w) (proc w) with
        | Err e => (Err e, w)
        | Ok (a, t) => (Ok a, snd (set_nodes t w))
        end
    end).

(** Calls that only look. *)
Definition look {A : Type} (p : bytes) (follow : bool) (f : fpath -> node -> tree -> result A)
    : State os (result A) :=
  path_call p follow (fun q t _ =>
    match t !! q with
    | None => Err ENotExist
    | Some n => match f q n t with Ok a => Ok (a, t) | Err e => Err e end
    end).

(** [FileInfo]: the name is that of the path given. *)
Definition os_Stat (p : bytes) : State os (result (bytes * node)) :=
  look p true (fun _ n _ => Ok (Base p, n)).
Definition os_Lstat (p : bytes) : State os (result (bytes * node)) :=
  look p false (fun _ n _ => Ok (Base p, n)).
Definition os_Readlink (p : bytes) : State os (result bytes) :=
  look p false (fun _ n _ => match n with NLink target _ => Ok target | _ => Err EINVAL end).

Definition str_le (a b : bytes) : Prop := str_ltb b a = false.
#[export] Instance str_le_dec a b : Decision (str_le a b).
Proof. unfold str_le. apply _. Defined.

(** The names in a directory, sorted. *)
Definition child_name (p k : fpath) : option bytes :=
  if bool_decide (take (length p) k = p) then
    match drop (length p) k with [c] => Some c | _ => None end
  else None.

Definition list_dir (t : tree) (p : fpath) : list bytes :=
  merge_sort str_le (omap (fun kv => child_name p (fst kv)) (map_to_list t)).

(** [os.ReadDir]: each name with its type, as far as it is asked for, being a directory. *)
Definition dir_at (t : tree) (q : fpath) : bool := if t !! q is Some (NDir _) then true else false.

Definition os_ReadDir (p : bytes) : State os (result (list (bytes * bool))) :=
  look p true (fun q n t =>
    if is_dir n then Ok (map (fun c => (c, dir_at t (q ++ [c]))) (list_dir t q)) else Err ENOTDIR).

(** Opening for reading, then reading to the end: two calls.  A directory can be
    opened, not read. *)
Definition os_Open (p : bytes) : State os (result fpath) := look p true (fun q _ _ => Ok q).

Definition f_ReadAll (h : fpath) : State os (result bytes) :=
  syscall nothing (fun w =>
    match nodes w !! h with
    | Some (NFile data _) => (Ok data, w)
    | _ => (Err EISDIR, w)
    end).

Definition os_ReadFile (p : bytes) : State os (result bytes) :=
  h ←? os_Open p; f_ReadAll h.

(** [os.OpenFile] with [O_CREATE|O_WRONLY] and [O_TRUNC] or [O_APPEND]. *)
Definition os_OpenFile (p : bytes) (trunc : bool) (mode : Z) : State os (result fpath) :=
  path_call p true (fun q t pr =>
    match t !! q with
    | None => Ok (q, <[q := NFile [] (new_meta pr mode)]> t)
    | Some (NFile data m) =>
        Ok (q, if trunc then <[q := NFile [] (Meta (m_perm m) (clock pr) (m_uid m) (m_gid m))]> t else t)
    | Some _ => Err EISDIR
    end).

Definition os_Create (p : bytes) : State os (result fpath) := os_OpenFile p true 438.

(** Writing at the end of an open file; a failed write has written a part. *)
Definition append_to (h : fpath) (data : bytes) : State os unit := fun w =>
  match nodes w !! h with
  | Some (NFile old m) =>
      set_nodes (<[h := NFile (old ++ data) (Meta (m_perm m) (clock (proc w)) (m_uid m) (m_gid m))]> (nodes w)) w
  | _ => (tt, w)
  end.

Definition f_Write (h : fpath) (data : bytes) : State os (result unit) :=
  syscall (fun n => append_to h (take n data)) (append_to h data;; mret (Ok tt)).

(** [os.WriteFile] *)
Definition os_WriteFile (p data : bytes) (mode : Z) : State os (result unit) :=
  h ←? os_OpenFile p true mode; f_Write h data.

Definition os_Mkdir (p : bytes) (mode : Z) : State os (result unit) :=
  path_call p false (fun q t pr =>
    match t !! q with
    | Some _ => Err EExist
    | None => Ok (tt, <[q := NDir (new_meta pr mode)]> t)
    end).

(** The last step of [os.MkdirAll]: someone else may have made the directory. *)
Definition mkdir_last (path : bytes) (mode : Z) : State os (result unit) :=
  r ← os_Mkdir path mode;
  match r with
  | Ok _ => mret (Ok tt)
  | Err e =>
      st ← os_Lstat path;
      mret (match st with Ok (_, NDir _) => Ok tt | _ => Err e end)
  end.

(** [os.MkdirAll] on the names of the path, the last first; [rooted]: whether the path
    starts with a slash. *)
Fixpoint mkdir_all (rooted : bool) (mode : Z) (rev_comps : list bytes) : State os (result unit) :=
  let path := (if rooted then [slash] else []) ++ Join (reverse rev_comps) [slash] in
  st ← os_Stat path;
  match st with
  | Ok (_, n) => mret (if is_dir n then Ok tt else Err ENOTDIR)
  | Err _ =>
      match rev_comps with
      | [] | [_] => mkdir_last path mode
      | _ :: parent => _ ←? mkdir_all rooted mode parent; mkdir_last path mode
      end
  end.

Definition os_MkdirAll (p : bytes) (mode : Z) : State os (result unit) :=
  mkdir_all (IsAbs p) mode (reverse (comps p)).

(** ** Removing and renaming *)

Definition under (p k : fpath) : bool := bool_decide (take (length p) k = p).

Definition remove_tree (p : fpath) (t : tree) : tree := filter (fun kv => under p (fst kv) = false) t.

Definition longer (a b : fpath) : Prop := length b <= length a.
#[export] Instance longer_dec a b : Decision (longer a b).
Proof. unfold longer. apply _. Defined.

(** The order in which [RemoveAll] removes: what is in a directory before it. *)
Definition removal_order (p : fpath) (t : tree) : list fpath :=
  merge_sort longer
    (List.filter (fun k => under p k && negb (bool_decide (k = []))) (map fst (map_to_list t))).

Definition os_Remove (p : bytes) : State os (result unit) :=
  path_call p false (fun q t _ =>
    match t !! q with
    | None => Err ENotExist
    | Some n =>
        if bool_decide (q = []) then Err EBUSY
        else if is_dir n && negb (bool_decide (list_dir t q = [])) then Err ENOTEMPTY
        else Ok (tt, delete q t)
    end).

(** A failed [RemoveAll] has removed a part of the tree; a path that leads nowhere is
    no error. *)
Definition os_RemoveAll (p : bytes) : State os (result unit) :=
  syscall
    (fun n w =>
       match locate (nodes w) (cwd (proc w)) false p with
       | Ok q => set_nodes (foldr delete (nodes w) (take n (removal_order q (nodes w)))) w
       | Err _ => (tt, w)
       end)
    (fun w =>
       if bool_decide (p = dot) || HasSuffix p ($"/.") then (Err EINVAL, w)
       else
         match locate (nodes w) (cwd (proc w)) false p with
         | Ok [] => (Err EBUSY, snd (set_nodes (filter (fun kv => fst kv = []) (nodes w)) w))
         | Ok q => (Ok tt, snd (set_nodes (remove_tree q (nodes w)) w))
         | Err e => (if bool_decide (e = ENotExist) then Ok tt else Err e, w)
         end).

(** The subtree at [a] put at [b]. *)
Definition moved_tree (a b : fpath) (t : tree) : tree :=
  list_to_map (map (fun kv => (b ++ drop (length a) (fst kv), snd kv))
                 (map_to_list (filter (fun kv => under a (fst kv) = true) t))).

Definition rename_tree (a b : fpath) (t : tree) : tree :=
  moved_tree a b t ∪ remove_tree b (remove_tree a t).

(** [os.Rename]: it refuses an existing directory as the new name. *)
Definition os_Rename (a b : bytes) : State os (result unit) :=
  syscall nothing (fun w =>
    let t := nodes w in
    match locate t (cwd (proc w)) false a, locate t (cwd (proc w)) false b with
    | Ok qa, Ok qb =>
        if bool_decide (qa = []) then (Err EBUSY, w)
        else match t !! qa, t !! qb with
        | None, _ => (Err ENotExist, w)
        | Some _, Some (NDir _) => (Err EExist, w)
        | Some (NDir _), Some _ => (Err ENOTDIR, w)
        | Some n, _ =>
            if bool_decide (qa = qb) then (Ok tt, w)
            else if under qa qb then (Err EINVAL, w)
            else (Ok tt, snd (set_nodes (rename_tree qa qb t) w))
        end
    | Err e, _ | _, Err e => (Err e, w)
    end).

(** ** Walking a tree

    [filepath.Walk] and [filepath.WalkDir] with a callback over a state of its own,
    which the system calls are lifted to.  The fuel bounds the depth; running out of
    it is [ELOOP], and a tree of as many nodes never does. *)

Definition SkipDir : error := ESentinel ($"skip this directory").

Definition no_skip (e : option error) : option error :=
  if bool_decide (e = Some SkipDir) then None else e.

Section walk.
Context {T : Type} (lift : forall A, State os A -> State T A).

Section Walk.
Variable fn : bytes -> option node -> option error -> State T (option error).

(** The names of a directory; [visit] is the recursive call. *)
Fixpoint walk_children (visit : bytes -> node -> State T (option error)) (path : bytes)
    (names : list (bytes * bool)) : State T (option error) :=
  match names with
  | [] => mret None
  | (c, _) :: rest =>
      let filename := JoinPath [path; c] in
      st ← lift _ (os_Lstat filename);
      err ← match st with
            | Err e => err ← fn filename None (Some e); mret (no_skip err)
            | Ok (_, n) =>
                err ← visit filename n;
                mret (if is_dir n then no_skip err else err)
            end;
      match err with
      | Some e => mret (Some e)
      | None => walk_children visit path rest
      end
  end.

Fixpoint walk (fuel : nat) (path : bytes) (info : node) : State T (option error) :=
  match fuel with
  | O => mret (Some ELOOP)
  | S fuel' =>
      if negb (is_dir info) then fn path (Some info) None
      else
        names ← lift _ (os_ReadDir path);
        err1 ← fn path (Some info) (match names with Err e => Some e | Ok _ => None end);
        match names, err1 with
        | Ok names, None => walk_children (walk fuel') path names
        | _, _ => mret err1
        end
  end.

Definition Walk (fuel : nat) (root : bytes) : State T (option error) :=
  st ← lift _ (os_Lstat root);
  err ← match st with
        | Err e => fn root None (Some e)
        | Ok (_, n) => walk fuel root n
        end;
  mret (no_skip err).
End Walk.

(** The callback of [WalkDir] gets a [DirEntry]: whether it is a directory, and its
    [Info], which is a call of [Lstat] except for the root. *)
Section WalkDir.
Variable fn : bytes -> bool -> State T (result node) -> option error -> State T (option error).

Definition entry_info (path : bytes) : State T (result node) :=
  r ← lift _ (os_Lstat path);
  mret (match r with Ok (_, n) => Ok n | Err e => Err e end).

Fixpoint walk_entries (visit : bytes -> bool -> State T (result node) -> State T (option error))
    (path : bytes) (names : list (bytes * bool)) : State T (option error) :=
  match names with
  | [] => mret None
  | (c, d) :: rest =>
      let path1 := JoinPath [path; c] in
      err ← visit path1 d (entry_info path1);
      match err with
      | Some e => mret (no_skip (Some e))
      | None => walk_entries visit path rest
      end
  end.

Fixpoint walk_dir (fuel : nat) (path : bytes) (isdir : bool) (info : State T (result node))
    : State T (option error) :=
  match fuel with
  | O => mret (Some ELOOP)
  | S fuel' =>
      err ← fn path isdir info None;
      if bool_decide (err <> None) || negb isdir then
        mret (if isdir then no_skip err else err)
      else
        names ← lift _ (os_ReadDir path);
        match names with
        | Err e =>
            err ← fn path isdir info (Some e);
            mret (no_skip err)
        | Ok names => walk_entries (walk_dir fuel') path names
        end
  end.

Definition WalkDir (fuel : nat) (root : bytes) : State T (option error) :=
  st ← lift _ (os_Lstat root);
  err ← match st with
        | Err e => fn root false (mret (Err e)) (Some e)
        | Ok (_, n) => walk_dir fuel root (is_dir n) (mret (Ok n))
        end;
  mret (no_skip err).
End WalkDir.
End walk.

(** The state of a callback: the file system and what its closure captures. *)
Definition lift_os {X : Type} (A : Type) (m : State os A) : State (os * X) A :=
  fun s => let '(a, w) := m (fst s) in (a, (w, snd s)).
