(* ===== verification/GoGlob.v ===== *)
(** * Package [path/filepath]: patterns

    [Match] and [Glob] over the file system of [GoTree], for patterns and names whose
    characters are single bytes. *)

From S2P Require Import Prelude GoStr GoPath GoTree.

Definition ErrBadPattern : error := ESentinel ($"syntax error in pattern").

(** ** Patterns *)

Inductive item :=
  | Star
  | One
  | Char (c : ascii)
  | Class (negated : bool) (ranges : list (ascii * ascii)).

Definition backslash : ascii := "\"%char.

(** [getEsc]: a character of a class, perhaps escaped; one must be left after it. *)
Definition get_esc (s : bytes) : option (ascii * bytes) :=
  match s with
  | c :: r =>
      if bool_decide (c = "-"%char) || bool_decide (c = "]"%char) then None
      else
        let '(c, r) := match r with
                       | d :: r' => if bool_decide (c = backslash) then (d, r') else (c, r)
                       | [] => (c, r)
                       end in
        if bool_decide (r = []) then None else Some (c, r)
  | [] => None
  end.

(** The ranges of a class up to its bracket; each turn takes a character at least. *)
Fixpoint class_ranges (fuel : nat) (ranges : list (ascii * ascii)) (s : bytes)
    : option (list (ascii * ascii) * bytes) :=
  match fuel with
  | O => None
  | S fuel' =>
      match s with
      | c :: r =>
          if bool_decide (c = "]"%char) && negb (bool_decide (ranges = [])) then Some (ranges, r)
          else
            match get_esc s with
            | None => None
            | Some (lo, d :: r') =>
                if bool_decide (d = "-"%char) then
                  match get_esc r' with
                  | None => None
                  | Some (hi, r'') => class_ranges fuel' (ranges ++ [(lo, hi)]) r''
                  end
                else class_ranges fuel' (ranges ++ [(lo, lo)]) (d :: r')
            | Some (lo, []) => None
            end
      | [] => None
      end
  end.

Fixpoint parse_pattern (fuel : nat) (s : bytes) : option (list item) :=
  match fuel with
  | O => None
  | S fuel' =>
      match s with
      | [] => Some []
      | c :: r =>
          if bool_decide (c = "*"%char) then cons Star <$> parse_pattern fuel' r
          else if bool_decide (c = "?"%char) then cons One <$> parse_pattern fuel' r
          else if bool_decide (c = "["%char) then
            let '(negated, r) := match r with
                                 | d :: r' => if bool_decide (d = "^"%char) then (true, r') else (false, r)
                                 | [] => (false, r)
                                 end in
            match class_ranges (S (length r)) [] r with
            | None => None
            | Some (ranges, r) => cons (Class negated ranges) <$> parse_pattern fuel' r
            end
          else if bool_decide (c = backslash) then
            match r with
            | [] => None
            | d :: r' => cons (Char d) <$> parse_pattern fuel' r'
            end
          else cons (Char c) <$> parse_pattern fuel' r
      end
  end.

Definition pattern_items (s : bytes) : option (list item) := parse_pattern (S (length s)) s.

Definition in_range (c : ascii) (r : ascii * ascii) : bool :=
  ((code (fst r) <=? code c) && (code c <=? code (snd r)))%Z.

(** One character against one item; none but a literal matches a slash, and a class may. *)
Definition match_one (p : item) (c : ascii) : bool :=
  match p with
  | Star => false
  | One => negb (bool_decide (c = slash))
  | Char d => bool_decide (c = d)
  | Class negated ranges => negb (Bool.eqb (existsb (in_range c) ranges) negated)
  end.

Fixpoint match_items (ps : list item) : bytes -> bool :=
  match ps with
  | [] => fun name => bool_decide (name = [])
  | Star :: ps' =>
      fix stars (name : bytes) : bool :=
        match_items ps' name ||
        match name with
        | c :: r => negb (bool_decide (c = slash)) && stars r
        | [] => false
        end
  | p :: ps' => fun name => match name with c :: r => match_one p c && match_items ps' r | [] => false end
  end.

Definition Match (pattern name : bytes) : result bool :=
  match pattern_items pattern with
  | None => Err ErrBadPattern
  | Some ps => Ok (match_items ps name)
  end.

Example match_1 : Match ($"card[0-9]*") ($"card10-DP-1") = Ok true. Proof. reflexivity. Qed.
Example match_2 : Match ($"card[0-9]*") ($"cardA") = Ok false. Proof. reflexivity. Qed.
Example match_3 : Match ($"temp*_input") ($"temp12_input") = Ok true. Proof. reflexivity. Qed.
Example match_4 : Match ($"a*/b") ($"a/c/b") = Ok false. Proof. reflexivity. Qed.
Example match_5 : Match ($"[]a]") ($"]") = Err ErrBadPattern. Proof. reflexivity. Qed.

(** ** Paths that match *)

Definition has_meta (s : bytes) : bool :=
  existsb (fun c => bool_decide (c ∈ ["*"; "?"; "["; "\"]%char)) s.

(** [filepath.Split], and the directory without its last slash. *)
Definition split_path (p : bytes) : bytes * bytes :=
  let cs := Split p slash in
  (Join (removelast cs ++ [[]]) [slash], default [] (last cs)).

Definition cleanGlobPath (dir : bytes) : bytes :=
  if bool_decide (dir = []) then dot else if bool_decide (dir = [slash]) then dir else removelast dir.

(** [Readdirnames], sorted: what was read when it failed is used. *)
Definition f_Readdirnames (h : fpath) : State os (list bytes) :=
  e ← fault;
  names ← gets (fun w => list_dir (nodes w) h);
  mret (match e with Some (n, _) => take n names | None => names end).

Fixpoint matching (pattern : bytes) (names : list bytes) : result (list bytes) :=
  match names with
  | [] => Ok []
  | n :: rest =>
      ok ← Match pattern n;
      ns ← matching pattern rest;
      mret (if ok : bool then n :: ns else ns)
  end.

(** [glob]: a directory that cannot be read has no matches. *)
Definition glob_in (dir pattern : bytes) : State os (result (list bytes)) :=
  st ← os_Stat dir;
  match st with
  | Ok (_, n) =>
      if is_dir n then
        d ← os_Open dir;
        match d with
        | Ok h =>
            names ← f_Readdirnames h;
            ms ←? mret (matching pattern names);
            mret (Ok (map (fun n => JoinPath [dir; n]) ms))
        | Err _ => mret (Ok [])
        end
      else mret (Ok [])
  | Err _ => mret (Ok [])
  end.

Fixpoint glob_dirs (dirs : list bytes) (pattern : bytes) : State os (result (list bytes)) :=
  match dirs with
  | [] => mret (Ok [])
  | d :: rest =>
      m1 ←? glob_in d pattern;
      m2 ←? glob_dirs rest pattern;
      mret (Ok (m1 ++ m2))
  end.

(** Each turn goes to a shorter path. *)
Fixpoint glob_from (fuel : nat) (pattern : bytes) : State os (result (list bytes)) :=
  match fuel with
  | O => mret (Err ErrBadPattern)
  | S fuel' =>
      match pattern_items pattern with
      | None => mret (Err ErrBadPattern)
      | Some _ =>
          if negb (has_meta pattern) then
            st ← os_Lstat pattern;
            mret (Ok (match st with Ok _ => [pattern] | Err _ => [] end))
          else
            let '(dir, file) := split_path pattern in
            let dir := cleanGlobPath dir in
            if negb (has_meta dir) then glob_in dir file
            else if bool_decide (dir = pattern) then mret (Err ErrBadPattern)
            else
              dirs ←? glob_from fuel' dir;
              glob_dirs dirs file
      end
  end.

Definition Glob (pattern : bytes) : State os (result (list bytes)) := glob_from (S (length pattern)) pattern.

(** ** The fuel is enough *)

Lemma get_esc_length s c r : get_esc s = Some (c, r) -> (length r < length s)%nat.
Proof.
  destruct s as [|a s]; [done|]. cbn [get_esc]. destruct (_ || _); [done|].
  destruct s as [|d s]; [done|]. destruct (bool_decide (a = backslash)); (destruct (bool_decide _); [done|]);
    intros [= <- <-]; cbn [length]; lia.
Qed.

Lemma class_ranges_length n rs s rs' r : class_ranges n rs s = Some (rs', r) -> (length r < length s)%nat.
Proof.
  revert rs s. induction n as [|n IH]; intros rs s; [done|]. cbn [class_ranges]. destruct s as [|c s]; [done|].
  destruct (_ && _); [intros [= <- <-]; cbn [length]; lia|].
  destruct (get_esc (c :: s)) as [[lo [|d r1]]|] eqn:E1; [done| |done]. apply get_esc_length in E1.
  destruct (bool_decide _).
  - destruct (get_esc r1) as [[hi r2]|] eqn:E2; [|done]. apply get_esc_length in E2. intros H%IH. cbn [length] in *. lia.
  - intros H%IH. cbn [length] in *. lia.
Qed.

Lemma class_ranges_enough n m rs s :
  (length s < n)%nat -> (length s < m)%nat -> class_ranges n rs s = class_ranges m rs s.
Proof.
  revert m rs s. induction n as [|n IH]; intros m rs s Hn Hm; [lia|]. destruct m as [|m]; [lia|]. cbn [class_ranges].
  destruct s as [|c s]; [done|]. destruct (_ && _); [done|].
  destruct (get_esc (c :: s)) as [[lo [|d r1]]|] eqn:E1; [done| |done]. apply get_esc_length in E1.
  destruct (bool_decide _); [|apply IH; cbn [length] in *; lia].
  destruct (get_esc r1) as [[hi r2]|] eqn:E2; [|done]. apply get_esc_length in E2. apply IH; cbn [length] in *; lia.
Qed.

Lemma parse_pattern_enough n m s :
  (length s < n)%nat -> (length s < m)%nat -> parse_pattern n s = parse_pattern m s.
Proof.
  revert m s. induction n as [|n IH]; intros m s Hn Hm; [lia|]. destruct m as [|m]; [lia|].
  destruct s as [|c r]; [done|]. cbn [parse_pattern]. cbn [length] in Hn, Hm.
  destruct (bool_decide (c = "*"%char)); [by rewrite (IH m) by lia|].
  destruct (bool_decide (c = "?"%char)); [by rewrite (IH m) by lia|].
  destruct (bool_decide (c = "["%char)).
  - assert (exists neg r', (length r' <= length r)%nat /\
      match r with
      | [] => (false, r)
      | d :: r' => if bool_decide (d = "^"%char) then (true, r') else (false, r)
      end = (neg, r')) as (neg & r' & Hr & ->).
    { destruct r as [|d r']; [by exists false, []|]. destruct (bool_decide _); do 2 eexists; (split; [|done]); cbn [length]; lia. }
    destruct (class_ranges _ [] r') as [[rs r2]|] eqn:E; [|done]. apply class_ranges_length in E.
    by rewrite (IH m) by lia.
  - destruct (bool_decide (c = backslash)); [|by rewrite (IH m) by lia].
    destruct r as [|d r']; [done|]. cbn [length] in *. by rewrite (IH m) by lia.
Qed.

Lemma split_path_length p : (length (fst (split_path p)) <= length p)%nat.
Proof.
  unfold split_path. cbn [fst]. destruct (exists_last (Split_nonempty p slash)) as (ws & w & E).
  rewrite E, removelast_last. rewrite <- (Join_Split p slash) at 1. rewrite E.
  destruct ws as [|v ws]; [cbn; lia|]. rewrite !Join_snoc by done. rewrite !length_app. cbn [length]. lia.
Qed.

(** A directory with wildcards is shorter than the pattern it is the directory of. *)
Lemma clean_dir_length p :
  has_meta (cleanGlobPath (fst (split_path p))) = true -> (length (cleanGlobPath (fst (split_path p))) < length p)%nat.
Proof.
  intros H. pose proof (split_path_length p) as Hl. unfold cleanGlobPath in *.
  destruct (fst (split_path p)) as [|a d] eqn:E; [by vm_compute in H|].
  rewrite bool_decide_eq_false_2 in * by done. case_bool_decide as Es; [injection Es as -> ->; by vm_compute in H|].
  enough (length (removelast (a :: d)) < length (a :: d))%nat by lia.
  destruct (exists_last (l := a :: d)) as (d' & b & ->); [done|]. rewrite removelast_last, length_app. cbn. lia.
Qed.

(** [Glob] never stops for want of fuel: any larger amount gives the same. *)
Lemma glob_from_enough n m pattern :
  (length pattern < n)%nat -> (length pattern < m)%nat -> st_eq (glob_from n pattern) (glob_from m pattern).
Proof.
  revert m pattern. induction n as [|n IH]; intros m pattern Hn Hm; [lia|]. destruct m as [|m]; [lia|].
  cbn [glob_from]. destruct (pattern_items pattern); [|done]. destruct (negb (has_meta pattern)); [done|].
  pose proof (clean_dir_length pattern) as Hl. destruct (split_path pattern) as [dir file]. cbn [fst] in Hl.
  destruct (has_meta (cleanGlobPath dir)); cbn [negb]; [|done]. destruct (bool_decide _); [done|].
  specialize (Hl eq_refl). unfold try_bind. intros w. unfold mbind, State_bind. rewrite (IH m) by lia. done.
Qed.
