(* ===== verification/GoTreeFacts.v ===== *)
(** * Facts on the file system of [GoTree]

    Well-formed trees, where an absolute path leads, and which nodes each call can
    change, whatever fails.  The statements on paths are for absolute clean paths
    ([abs]); those that exclude links say so ([tree_ok]). *)

From S2P Require Import Prelude GoStr GoPath GoTree.

(** ** Well-formed trees *)

(** The root is a directory, and every other node is in a directory, under a plain
    name. *)
Record wf_tree (t : tree) : Prop := {
  wf_root : exists m, t !! [] = Some (NDir m);
  wf_parent : forall q c n, t !! (q ++ [c]) = Some n -> plain c /\ exists m, t !! q = Some (NDir m)
}.

Definition no_links (t : tree) : Prop := forall q n, t !! q = Some n -> is_link n = false.

Definition tree_ok (t : tree) : Prop := wf_tree t /\ no_links t.

Lemma wf_plain t q n : wf_tree t -> t !! q = Some n -> Forall plain q.
Proof.
  intros Hwf. revert n. induction q as [|c q IH] using rev_ind; intros n Hq; [constructor|].
  apply (wf_parent t Hwf) in Hq as [Hc [m Hm]]. apply Forall_app. split; [by eapply IH|].
  by apply Forall_singleton.
Qed.

Lemma wf_ancestor t p r n :
  wf_tree t -> t !! (p ++ r) = Some n -> r <> [] -> exists m, t !! p = Some (NDir m).
Proof.
  intros Hwf. revert n. induction r as [|c r IH] using rev_ind; intros n Hq Hne; [done|].
  rewrite app_assoc in Hq. apply (wf_parent t Hwf) in Hq as [_ [m Hm]].
  destruct r as [|c' r]; [rewrite app_nil_r in Hm; by exists m|]. by eapply IH.
Qed.

(** A node may be put where its directory is. *)
Definition has_parent (t : tree) (q : fpath) : Prop :=
  exists p c m, q = p ++ [c] /\ plain c /\ t !! p = Some (NDir m).

Lemma wf_insert t q n :
  wf_tree t -> has_parent t q -> (dir_at t q = true -> is_dir n = true) ->
  wf_tree (<[q := n]> t).
Proof.
  intros [[mr Hroot] Hpar] (p & c & m & -> & Hc & Hp) Hd. split.
  - exists mr. rewrite lookup_insert_ne; [done|]. by destruct p.
  - intros q' c' n' H. destruct (decide (p ++ [c] = q' ++ [c'])) as [E|Hne].
    + apply app_inj_tail in E as [-> ->]. split; [done|]. exists m.
      rewrite lookup_insert_ne; [done|]. intros E. apply (f_equal length) in E.
      rewrite length_app in E. simpl in E. lia.
    + rewrite lookup_insert_ne in H by done. destruct (Hpar q' c' n' H) as [Hc' [m' Hm']].
      split; [done|]. destruct (decide (q' = p ++ [c])) as [->|Hne'].
      * rewrite lookup_insert_eq. unfold dir_at in Hd. rewrite Hm' in Hd.
        specialize (Hd eq_refl). destruct n; try done. by eexists.
      * rewrite lookup_insert_ne by congruence. by exists m'.
Qed.

Lemma no_links_insert t q n :
  no_links t -> is_link n = false -> no_links (<[q := n]> t).
Proof.
  intros H Hn q' n' Hq. destruct (decide (q = q')) as [->|Hne].
  - rewrite lookup_insert_eq in Hq. by injection Hq as <-.
  - rewrite lookup_insert_ne in Hq by done. by eapply H.
Qed.

Lemma tree_ok_insert t q n :
  tree_ok t -> has_parent t q -> is_link n = false -> (dir_at t q = true -> is_dir n = true) ->
  tree_ok (<[q := n]> t).
Proof. intros [H1 H2] Hp Hl Hd. split; [by apply wf_insert | by apply no_links_insert]. Qed.

(** ** Where an absolute path leads *)

(** Every proper prefix that the path goes through is a directory. *)
Definition through_dirs (t : tree) (cur cs : fpath) : Prop :=
  forall a b, cs = a ++ b -> a <> [] -> b <> [] -> exists m, t !! (cur ++ a) = Some (NDir m).

Lemma through_dirs_short t cur cs : length cs <= 1 -> through_dirs t cur cs.
Proof.
  intros Hl a b -> Ha Hb. rewrite length_app in Hl. destruct a, b; simpl in Hl; try done; lia.
Qed.

Lemma through_dirs_cons t cur c cs :
  cs <> [] -> through_dirs t cur (c :: cs) <->
  (exists m, t !! (cur ++ [c]) = Some (NDir m)) /\ through_dirs t (cur ++ [c]) cs.
Proof.
  intros Hne. split.
  - intros H. split; [by apply (H [c] cs)|]. intros a b -> Ha Hb.
    destruct (H (c :: a) b) as [m Hm]; [done|done|done|]. exists m. by rewrite <- app_assoc.
  - intros [[m Hm] H] [|x a] b E Ha Hb; [done|]. injection E as <- ->.
    destruct a as [|y a]; [by exists m|].
    destruct (H (y :: a) b) as [m' Hm']; [done|done|done|]. exists m'. by rewrite <- app_assoc in Hm'.
Qed.

Lemma resolve_nil links t follow cur : resolve links t follow cur [] = Ok cur.
Proof. by destruct links. Qed.

Lemma resolve_cons links t follow cur c cs :
  plain c ->
  resolve links t follow cur (c :: cs) =
  match t !! (cur ++ [c]) with
  | Some (NDir _) => resolve links t follow (cur ++ [c]) cs
  | Some (NFile _ _) => if bool_decide (cs = []) then Ok (cur ++ [c]) else Err ENOTDIR
  | Some (NLink target _) =>
      if bool_decide (cs = []) && negb follow then Ok (cur ++ [c])
      else match links with
           | O => Err ELOOP
           | S l => resolve l t follow (if IsAbs target then [] else cur) (Split target slash ++ cs)
           end
  | None => if bool_decide (cs = []) then Ok (cur ++ [c]) else Err ENotExist
  end.
Proof.
  intros (H1 & H2 & H3 & _).
  destruct links; cbn [resolve];
    rewrite (bool_decide_eq_false_2 (c = [])), (bool_decide_eq_false_2 (c = dot)),
      (bool_decide_eq_false_2 (c = dotdot)) by done; reflexivity.
Qed.

Lemma resolve_through links t follow cur cs :
  Forall plain cs -> through_dirs t cur cs ->
  (follow = true -> forall tg m, t !! (cur ++ cs) <> Some (NLink tg m)) ->
  resolve links t follow cur cs = Ok (cur ++ cs).
Proof.
  intros Hcs. revert cur. induction Hcs as [|c cs Hc Hcs IH]; intros cur Hd Hl.
  - by rewrite app_nil_r, resolve_nil.
  - rewrite resolve_cons by done.
    destruct (decide (cs = [])) as [->|Hne].
    + rewrite !bool_decide_eq_true_2 by done.
      destruct (t !! (cur ++ [c])) as [[m|data m|tg m]|] eqn:E; try done; [by rewrite resolve_nil|].
      destruct follow; [|done]. exfalso. by apply (Hl eq_refl tg m).
    + apply through_dirs_cons in Hd as [[m ->] Hd]; [|done].
      rewrite (IH (cur ++ [c])); [by rewrite <- app_assoc|done|].
      intros Hf tg m'. rewrite <- app_assoc. by apply Hl.
Qed.

Lemma resolve_inv links t follow cur cs r :
  no_links t -> Forall plain cs -> resolve links t follow cur cs = Ok r ->
  r = cur ++ cs /\ through_dirs t cur cs.
Proof.
  intros Hnl Hcs. revert cur. induction Hcs as [|c cs Hc Hcs IH]; intros cur HR.
  - rewrite resolve_nil in HR. injection HR as <-.
    rewrite app_nil_r. split; [done|]. apply through_dirs_short. simpl. lia.
  - rewrite resolve_cons in HR by done. pose proof (Hnl (cur ++ [c])) as Hl.
    destruct (decide (cs = [])) as [->|Hne].
    + rewrite !bool_decide_eq_true_2 in HR by done.
      split; [|by apply through_dirs_short].
      destruct (t !! (cur ++ [c])) as [[m|data m|tg m]|];
        [rewrite resolve_nil in HR|..|by specialize (Hl _ eq_refl)|]; congruence.
    + rewrite !bool_decide_eq_false_2 in HR by done.
      destruct (t !! (cur ++ [c])) as [[m|data m|tg m]|] eqn:E; try done.
      2: by specialize (Hl _ eq_refl).
      destruct (IH _ HR) as [-> Hd]. rewrite <- app_assoc. split; [done|].
      apply through_dirs_cons; [done|]. split; [by exists m|done].
Qed.

Lemma locate_abs_eq t d follow q :
  Forall plain q -> locate t d follow (abs q) = resolve max_links t follow [] q.
Proof.
  intros Hq. unfold locate. rewrite bool_decide_eq_false_2 by done. rewrite IsAbs_abs.
  destruct (decide (q = [])) as [->|Hne]; [done|]. by rewrite Split_abs.
Qed.

Lemma locate_abs_inv t d follow q r :
  no_links t -> Forall plain q -> locate t d follow (abs q) = Ok r ->
  r = q /\ through_dirs t [] q.
Proof. intros Hnl Hq. rewrite locate_abs_eq by done. intros H. by apply resolve_inv in H. Qed.

Lemma wf_through t p c m :
  wf_tree t -> t !! p = Some (NDir m) -> through_dirs t [] (p ++ [c]).
Proof.
  intros Hwf Hp a b E Ha Hb. simpl. destruct b as [|x b _] using rev_ind; [done|].
  rewrite app_assoc in E. apply app_inj_tail in E as [-> ->].
  destruct (decide (b = [])) as [->|Hne]; [rewrite app_nil_r in Hp; by exists m|].
  by eapply wf_ancestor.
Qed.

Lemma locate_abs t d follow q :
  wf_tree t -> has_parent t q -> (follow = true -> forall tg m, t !! q <> Some (NLink tg m)) ->
  locate t d follow (abs q) = Ok q.
Proof.
  intros Hwf (p & c & m & -> & Hc & Hp) Hl.
  assert (Forall plain (p ++ [c])) as Hq.
  { apply Forall_app. split; [by eapply wf_plain|by apply Forall_singleton]. }
  rewrite locate_abs_eq by done. rewrite resolve_through; [done|done| |done].
  by eapply wf_through.
Qed.

Lemma locate_abs_ex t d follow q n :
  wf_tree t -> t !! q = Some n -> is_link n = false -> locate t d follow (abs q) = Ok q.
Proof.
  intros Hwf Hq Hl. destruct q as [|c q _] using rev_ind.
  - rewrite locate_abs_eq by constructor. by rewrite resolve_nil.
  - destruct (wf_parent t Hwf _ _ _ Hq) as [Hc [m Hm]]. apply locate_abs; [done|by exists q, c, m|].
    intros _ tg m' E. rewrite E in Hq. by injection Hq as <-.
Qed.

(** A place that a path leads to, and where nothing is, has a directory. *)
Lemma through_has_parent t q :
  wf_tree t -> Forall plain q -> through_dirs t [] q -> q <> [] -> has_parent t q.
Proof.
  intros Hwf Hq Ht Hne. destruct q as [|c p _] using rev_ind; [done|].
  apply Forall_app in Hq as [_ Hc]. rewrite Forall_singleton in Hc.
  destruct p as [|x p].
  - destruct (wf_root t Hwf) as [m Hm]. by exists [], c, m.
  - destruct (Ht (x :: p) [c]) as [m Hm]; [done|done|done|]. by exists (x :: p), c, m.
Qed.

(** ** What a call can change *)

(** From [w] to [w'] nothing changed outside [P], and the tree is still well-formed. *)
Record change (P : fpath -> Prop) (w w' : os) : Prop := {
  ch_proc : proc w' = proc w;
  ch_keep : forall k, ~ P k -> nodes w' !! k = nodes w !! k;
  ch_ok : tree_ok (nodes w');
  ch_faults : faults w = [] -> faults w' = []
}.

Lemma change_refl P w : tree_ok (nodes w) -> change P w w.
Proof. by split. Qed.

Lemma change_trans (P : fpath -> Prop) w1 w2 w3 : change P w1 w2 -> change P w2 w3 -> change P w1 w3.
Proof.
  intros [p1 k1 o1 f1] [p2 k2 o2 f2]. split; [congruence| |done|auto].
  intros k Hk. by rewrite k2, k1.
Qed.

Lemma change_mono (P Q : fpath -> Prop) w w' : (forall k, P k -> Q k) -> change P w w' -> change Q w w'.
Proof. intros H [p k o f]. split; [done| |done|done]. intros i Hi. apply k. auto. Qed.

(** Nothing but new nodes, at places in [Q]. *)
Definition grow (Q : fpath -> Prop) (w w' : os) : Prop :=
  change (fun k => nodes w !! k = None /\ Q k) w w'.

Lemma grow_keep Q w w' k n : grow Q w w' -> nodes w !! k = Some n -> nodes w' !! k = Some n.
Proof. intros H Hk. rewrite (ch_keep _ _ _ H); [done|]. intros [E _]. congruence. Qed.

Lemma grow_trans Q w1 w2 w3 : grow Q w1 w2 -> grow Q w2 w3 -> grow Q w1 w3.
Proof.
  intros H1 H2. apply change_trans with w2; [done|]. apply change_mono with (2 := H2).
  intros k [Hk Hq]. split; [|done]. destruct (nodes w1 !! k) as [n|] eqn:E; [|done].
  by rewrite (grow_keep _ _ _ _ _ H1 E) in Hk.
Qed.

Lemma grow_mono (P Q : fpath -> Prop) w w' : (forall k, P k -> Q k) -> grow P w w' -> grow Q w w'.
Proof. intros H. apply change_mono. intros k [? ?]. auto. Qed.

Lemma change_nodes P w w' :
  tree_ok (nodes w) -> nodes w' = nodes w -> proc w' = proc w -> faults w' = tail (faults w) ->
  change P w w'.
Proof.
  intros Hok Hn Hp Hf. split; [done|by rewrite Hn|by rewrite Hn|]. intros E. by rewrite Hf, E.
Qed.

Definition next_call (w : os) : os := Os (nodes w) (proc w) (tail (faults w)).

Lemma syscall_eq {A} (part : nat -> State os unit) (f : State os (result A)) w :
  syscall part f w =
  match default None (head (faults w)) with
  | Some (n, e) => (Err e, snd (part n (next_call w)))
  | None => f (next_call w)
  end.
Proof.
  unfold syscall, fault, mbind, State_bind. fold (next_call w).
  destruct (default None (head (faults w))) as [[n e]|]; [|done].
  by destruct (part n (next_call w)).
Qed.

Lemma path_call_eq {A} (p : bytes) (follow : bool) (f : fpath -> tree -> process -> result (A * tree)) (w : os) :
  path_call p follow f w =
  match default None (head (faults w)) with
  | Some (n, e) => (Err e, next_call w)
  | None =>
      match locate (nodes w) (cwd (proc w)) follow p with
      | Err e => (Err e, next_call w)
      | Ok q =>
          match f q (nodes w) (proc w) with
          | Err e => (Err e, next_call w)
          | Ok (a, t) => (Ok a, Os t (proc w) (tail (faults w)))
          end
      end
  end.
Proof. unfold path_call. rewrite syscall_eq. reflexivity. Qed.

(** A call on an absolute path fails and changes nothing, or does its work there. *)
Lemma path_call_abs {A} (q : fpath) (follow : bool) (f : fpath -> tree -> process -> result (A * tree)) (w : os) :
  tree_ok (nodes w) -> Forall plain q ->
  let '(r, w') := path_call (abs q) follow f w in
  proc w' = proc w /\ faults w' = tail (faults w) /\
  match r with
  | Err e => nodes w' = nodes w
  | Ok a => exists t, f q (nodes w) (proc w) = Ok (a, t) /\ through_dirs (nodes w) [] q /\ nodes w' = t
  end.
Proof.
  intros Hok Hq. rewrite path_call_eq. unfold next_call.
  destruct (default None (head (faults w))) as [[n e]|]; [by simpl|].
  destruct (locate (nodes w) (cwd (proc w)) follow (abs q)) as [r|e] eqn:E; [|by simpl].
  apply locate_abs_inv in E as [-> Hd]; [|apply Hok|done].
  destruct (f q (nodes w) (proc w)) as [[a t]|e] eqn:Ef; simpl; eauto 10.
Qed.

(** When the script lets it, it does its work if the path leads there. *)
Lemma path_call_next {A} (q : fpath) (follow : bool) (f : fpath -> tree -> process -> result (A * tree)) (w : os) :
  tree_ok (nodes w) -> default None (head (faults w)) = None ->
  has_parent (nodes w) q \/ is_Some (nodes w !! q) ->
  path_call (abs q) follow f w =
  match f q (nodes w) (proc w) with
  | Ok (a, t) => (Ok a, Os t (proc w) (tail (faults w)))
  | Err e => (Err e, next_call w)
  end.
Proof.
  intros [Hwf Hnl] Hf Hq. rewrite path_call_eq, Hf.
  assert (locate (nodes w) (cwd (proc w)) follow (abs q) = Ok q) as ->; [|done].
  destruct Hq as [Hq|[n Hn]].
  - apply locate_abs; [done|done|]. intros _ tg m E. by apply Hnl in E.
  - eapply locate_abs_ex; [done|done|]. by eapply Hnl.
Qed.

Lemma next_call_id w : faults w = [] -> next_call w = w.
Proof. intros Hf. unfold next_call. rewrite Hf. destruct w as [t pr fs]. simpl in *. by subst fs. Qed.

Lemma path_call_run {A} (q : fpath) (follow : bool) (f : fpath -> tree -> process -> result (A * tree)) (w : os) :
  tree_ok (nodes w) -> faults w = [] -> has_parent (nodes w) q \/ is_Some (nodes w !! q) ->
  path_call (abs q) follow f w =
  match f q (nodes w) (proc w) with
  | Ok (a, t) => (Ok a, Os t (proc w) [])
  | Err e => (Err e, w)
  end.
Proof.
  intros Hok Hf Hq. rewrite path_call_next by (try done; by rewrite Hf).
  rewrite Hf. by rewrite next_call_id.
Qed.

Lemma look_abs {A} (q : fpath) (follow : bool) (f : fpath -> node -> tree -> result A) w P :
  tree_ok (nodes w) -> Forall plain q ->
  let '(r, w') := look (abs q) follow f w in
  change P w w' /\ nodes w' = nodes w /\
  match r with
  | Err e => True
  | Ok a => exists n, nodes w !! q = Some n /\ f q n (nodes w) = Ok a
  end.
Proof.
  intros Hok Hq. unfold look. pose proof (path_call_abs q follow (fun q t _ =>
    match t !! q with
    | None => Err ENotExist
    | Some n => match f q n t with Ok a => Ok (a, t) | Err e => Err e end
    end) w Hok Hq) as H.
  destruct (path_call _ _ _ w) as [[a|e] w']; destruct H as (Hp & Hf & H).
  - destruct H as (t & H & _ & Hn). destruct (nodes w !! q) as [n|]; [|done].
    destruct (f q n (nodes w)) as [a'|] eqn:Ef; [|done]. injection H as -> Ht.
    assert (nodes w' = nodes w) by congruence.
    split; [by apply change_nodes|]. split; [done|]. by exists n.
  - split; [by apply change_nodes|done].
Qed.

Lemma look_next {A} (q : fpath) (follow : bool) (f : fpath -> node -> tree -> result A) w n :
  tree_ok (nodes w) -> default None (head (faults w)) = None -> nodes w !! q = Some n ->
  look (abs q) follow f w = (f q n (nodes w), next_call w).
Proof.
  intros Hok Hf Hn. unfold look. rewrite path_call_next by eauto. rewrite Hn.
  by destruct (f q n (nodes w)).
Qed.

Lemma look_run {A} (q : fpath) (follow : bool) (f : fpath -> node -> tree -> result A) w n :
  tree_ok (nodes w) -> faults w = [] -> nodes w !! q = Some n ->
  look (abs q) follow f w = (f q n (nodes w), w).
Proof.
  intros Hok Hf Hn. rewrite (look_next q follow f w n) by (try done; by rewrite Hf).
  by rewrite next_call_id.
Qed.

(** Looking at nothing is an error, and nothing else happens. *)
Lemma look_missing {A} (q : fpath) (follow : bool) (f : fpath -> node -> tree -> result A) w :
  tree_ok (nodes w) -> Forall plain q -> faults w = [] -> nodes w !! q = None ->
  exists e, look (abs q) follow f w = (Err e, w).
Proof.
  intros Hok Hq Hf Hn. unfold look. rewrite path_call_eq. unfold next_call. rewrite Hf.
  destruct w as [t pr fs]. simpl in *. subst fs.
  destruct (locate t (cwd pr) follow (abs q)) as [r|e] eqn:E; [|by exists e].
  apply locate_abs_inv in E as [-> _]; [|apply Hok|done]. rewrite Hn. by exists ENotExist.
Qed.

Lemma os_Stat_abs q w P :
  tree_ok (nodes w) -> Forall plain q ->
  let '(r, w') := os_Stat (abs q) w in
  change P w w' /\ nodes w' = nodes w /\
  match r with Ok (_, n) => nodes w !! q = Some n | Err e => True end.
Proof.
  intros Hok Hq. unfold os_Stat. pose proof (look_abs q true (fun _ n _ => Ok (Base (abs q), n)) w P Hok Hq) as H.
  destruct (look _ _ _ w) as [[[nm n]|e] w']; destruct H as (Hc & Hn & H); [|done].
  destruct H as (n' & H & E). injection E as _ ->. done.
Qed.

Lemma os_Lstat_abs q w P :
  tree_ok (nodes w) -> Forall plain q ->
  let '(r, w') := os_Lstat (abs q) w in
  change P w w' /\ nodes w' = nodes w /\
  match r with Ok (_, n) => nodes w !! q = Some n | Err e => True end.
Proof.
  intros Hok Hq. unfold os_Lstat. pose proof (look_abs q false (fun _ n _ => Ok (Base (abs q), n)) w P Hok Hq) as H.
  destruct (look _ _ _ w) as [[[nm n]|e] w']; destruct H as (Hc & Hn & H); [|done].
  destruct H as (n' & H & E). injection E as _ ->. done.
Qed.

Lemma is_link_new_dir pr mode : is_link (NDir (new_meta pr mode)) = false.
Proof. done. Qed.

Lemma os_Mkdir_abs q mode w :
  tree_ok (nodes w) -> Forall plain q ->
  let '(r, w') := os_Mkdir (abs q) mode w in
  grow (fun k => k = q) w w' /\
  (r = Ok tt -> exists m, nodes w' !! q = Some (NDir m)).
Proof.
  intros Hok Hq. unfold os_Mkdir. match goal with |- context [path_call _ _ ?f _] =>
    pose proof (path_call_abs q false f w Hok Hq) as H; destruct (path_call _ _ f w) as [[u|e] w'] end;
    destruct H as (Hp & Hf & H).
  - destruct H as (t & H & Hd & Hn). destruct (nodes w !! q) as [n|] eqn:E; [done|].
    injection H as <- <-. split; [|intros _; rewrite Hn, lookup_insert_eq; by eexists].
    assert (q <> []) as Hne by (intros ->; destruct (wf_root _ (proj1 Hok)); congruence).
    split; [done| | |intros E'; by rewrite Hf, E'].
    + intros k Hk. rewrite Hn, lookup_insert_ne; [done|]. intros ->. by apply Hk.
    + rewrite Hn. apply tree_ok_insert; [done| |done|done]. apply through_has_parent; auto. apply Hok.
  - split; [by apply change_nodes|done].
Qed.

Lemma os_OpenFile_abs q trunc mode w :
  tree_ok (nodes w) -> Forall plain q ->
  let '(r, w') := os_OpenFile (abs q) trunc mode w in
  change (fun k => k = q /\ dir_at (nodes w) q = false) w w' /\
  forall h, r = Ok h -> h = q /\ dir_at (nodes w) q = false /\
    exists data m, nodes w' !! q = Some (NFile data m) /\
      data = if trunc then [] else
             match nodes w !! q with Some (NFile old _) => old | _ => [] end.
Proof.
  intros Hok Hq. unfold os_OpenFile. match goal with |- context [path_call _ _ ?f _] =>
    pose proof (path_call_abs q true f w Hok Hq) as H; destruct (path_call _ _ f w) as [[h|e] w'] end;
    destruct H as (Hp & Hf & H); [|split; [by apply change_nodes|done]].
  destruct H as (t & H & Hd & Hn).
  assert (q <> []) as Hne.
  { intros ->. destruct (wf_root _ (proj1 Hok)) as [m Hm]. by rewrite Hm in H. }
  assert (forall n, is_link n = false -> dir_at (nodes w) q = false ->
            change (fun k => k = q /\ dir_at (nodes w) q = false) w (Os (<[q := n]> (nodes w)) (proc w) (tail (faults w)))) as Hch.
  { intros n Hl Hda. split; simpl; [done| | |by intros ->].
    - intros k Hk. rewrite lookup_insert_ne; [done|]. intros ->. by apply Hk.
    - apply tree_ok_insert; [done| |done|by rewrite Hda]. apply through_has_parent; auto. apply Hok. }
  assert (w' = Os t (proc w) (tail (faults w))) as -> by (destruct w'; simpl in *; congruence).
  destruct (nodes w !! q) as [[m|data m|tg m]|] eqn:E; try done;
    assert (dir_at (nodes w) q = false) as Hda by (unfold dir_at; by rewrite E).
  - injection H as -> <-. destruct trunc.
    + split; [by apply Hch|]. intros h' [= <-]. simpl. rewrite lookup_insert_eq. by eauto 10.
    + split; [by apply change_nodes|]. intros h' [= <-]. simpl. rewrite E. by eauto 10.
  - injection H as -> <-. split; [by apply Hch|]. intros h' [= <-]. simpl.
    rewrite lookup_insert_eq. destruct trunc; by eauto 10.
Qed.

Lemma append_to_change h data w P :
  tree_ok (nodes w) -> P h ->
  let w' := snd (append_to h data w) in
  change P w w' /\ faults w' = faults w /\
  forall old m, nodes w !! h = Some (NFile old m) ->
    exists m', nodes w' !! h = Some (NFile (old ++ data) m').
Proof.
  intros Hok HP. unfold append_to. destruct (nodes w !! h) as [[m|old m|tg m]|] eqn:E;
    try (cbn; split; [by apply change_refl|]; split; [done|]; by intros ? ? [=]).
  cbn. split; [|split; [done|]].
  - split; simpl; [done| | |done].
    + intros k Hk. rewrite lookup_insert_ne; [done|]. by intros ->.
    + destruct Hok as [Hwf Hnl].
      assert (h <> []) as Hne by (intros ->; destruct (wf_root _ Hwf); congruence).
      apply tree_ok_insert; [by split| |done|unfold dir_at; by rewrite E].
      destruct h as [|c q _] using rev_ind; [done|].
      destruct (wf_parent _ Hwf _ _ _ E) as [Hc [m' Hm']]. by exists q, c, m'.
  - intros old' m' [= -> ->]. rewrite lookup_insert_eq. by eexists.
Qed.

Lemma f_Write_change h data w P :
  tree_ok (nodes w) -> P h ->
  let '(r, w') := f_Write h data w in
  change P w w' /\
  (r = Ok tt -> forall old m, nodes w !! h = Some (NFile old m) ->
     exists m', nodes w' !! h = Some (NFile (old ++ data) m')) /\
  (faults w = [] -> r = Ok tt).
Proof.
  intros Hok HP. unfold f_Write. rewrite syscall_eq.
  assert (change P w (next_call w)) as Hn by by apply change_nodes.
  destruct (default None (head (faults w))) as [[n e]|] eqn:Ef.
  - split; [|split; [done|intros E; by rewrite E in Ef]].
    eapply change_trans; [exact Hn|]. by apply append_to_change.
  - pose proof (append_to_change h data (next_call w) P Hok HP) as (H1 & H2 & H3).
    unfold mbind, State_bind. destruct (append_to h data (next_call w)) as [u w'] eqn:E.
    simpl in *. split; [by eapply change_trans|]. split; [|done]. intros _. apply H3.
Qed.

Lemma mkdir_last_change q mode w :
  tree_ok (nodes w) -> Forall plain q ->
  let '(r, w') := mkdir_last (abs q) mode w in
  grow (fun k => k = q) w w' /\
  (r = Ok tt -> exists m, nodes w' !! q = Some (NDir m)).
Proof.
  intros Hok Hq. unfold mkdir_last, mbind, State_bind.
  pose proof (os_Mkdir_abs q mode w Hok Hq) as H.
  destruct (os_Mkdir (abs q) mode w) as [[u|e] w1]; destruct H as [Hc Hd].
  - destruct u. by split; [|auto].
  - pose proof (os_Lstat_abs q w1 (fun k => nodes w1 !! k = None /\ k = q) (ch_ok _ _ _ Hc) Hq) as H.
    destruct (os_Lstat (abs q) w1) as [[[nm n]|e'] w2]; destruct H as (H1 & Hn & H).
    + split; [by eapply grow_trans|]. destruct n; try done. intros _. rewrite Hn. by eexists.
    + split; [by eapply grow_trans|done].
Qed.

(** [MkdirAll] makes only missing directories on the way, whatever fails; if it
    reports success the directory is there. *)
Lemma mkdir_all_change mode q w :
  tree_ok (nodes w) -> Forall plain q -> q <> [] ->
  let '(r, w') := mkdir_all true mode (reverse q) w in
  grow (fun k => k `prefix_of` q) w w' /\
  (r = Ok tt -> exists m, nodes w' !! q = Some (NDir m)).
Proof.
  intros Hok Hq Hne. revert w Hok. induction q as [|c q IH] using rev_ind; intros w Hok; [done|].
  clear Hne. rewrite reverse_snoc. cbn [mkdir_all]. rewrite reverse_cons, reverse_involutive.
  change ([slash] ++ Join (q ++ [c]) [slash]) with (abs (q ++ [c])).
  set (p := q ++ [c]) in *. set (Q := fun k => k `prefix_of` p).
  unfold mbind at 1, State_bind at 1.
  pose proof (os_Stat_abs p w (fun k => nodes w !! k = None /\ Q k) Hok Hq) as H.
  destruct (os_Stat (abs p) w) as [[[nm n]|e] w1]; destruct H as (H1 & Hn1 & H).
  { split; [done|]. destruct n; try done. intros _. rewrite Hn1. by eexists. }
  assert (forall w2 r w3, grow Q w1 w2 -> mkdir_last (abs p) mode w2 = (r, w3) ->
    grow Q w w3 /\ (r = Ok tt -> exists m, nodes w3 !! p = Some (NDir m))) as Hlast.
  { intros w2 r w3 H2 E. pose proof (mkdir_last_change p mode w2 (ch_ok _ _ _ H2) Hq) as H3.
    rewrite E in H3. destruct H3 as [H3 H4]. split; [|done]. eapply grow_trans; [exact H1|].
    eapply grow_trans; [exact H2|]. eapply grow_mono; [|exact H3]. intros k Hk. unfold Q. rewrite Hk. reflexivity. }
  destruct (reverse q) as [|c' rest] eqn:Er.
  - destruct (mkdir_last (abs p) mode w1) as [r w3] eqn:E.
    eapply Hlast; [|exact E]. by apply change_refl, (ch_ok _ _ _ H1).
  - assert (q <> []) as Hne by (intros ->; done).
    apply Forall_app in Hq as [Hq' _].
    specialize (IH Hq' Hne w1 (ch_ok _ _ _ H1)).
    destruct (mkdir_all true mode (c' :: rest) w1) as [[u|e'] w2] eqn:E2; destruct IH as [IH1 _].
    + rewrite (try_bind_ok _ _ _ _ _ E2). destruct (mkdir_last (abs p) mode w2) as [r w3] eqn:E.
      eapply Hlast; [|exact E]. eapply grow_mono; [|exact IH1]. intros k Hk. unfold Q, p. by apply prefix_app_r.
    + rewrite (try_bind_err _ _ _ _ _ E2). split; [|done]. eapply grow_trans; [exact H1|].
      eapply grow_mono; [|exact IH1]. intros k Hk. unfold Q, p. by apply prefix_app_r.
Qed.

Lemma os_MkdirAll_change mode q w :
  tree_ok (nodes w) -> Forall plain q ->
  let '(r, w') := os_MkdirAll (abs q) mode w in
  grow (fun k => k `prefix_of` q) w w' /\
  (r = Ok tt -> exists m, nodes w' !! q = Some (NDir m)).
Proof.
  intros Hok Hq. unfold os_MkdirAll. rewrite comps_abs by done.
  destruct (decide (q = [])) as [->|Hne]; [|by apply mkdir_all_change].
  change (mkdir_all (IsAbs (abs [])) mode (reverse [])) with (mkdir_all true mode []).
  cbn [mkdir_all reverse rev_append]. change ([slash] ++ Join [] [slash]) with (abs []).
  unfold mbind at 1, State_bind at 1.
  pose proof (os_Stat_abs [] w (fun k => nodes w !! k = None /\ k `prefix_of` []) Hok Hq) as H.
  destruct (os_Stat (abs []) w) as [[[nm n]|e] w1]; destruct H as (H1 & Hn1 & H).
  { split; [done|]. destruct n; try done. intros _. rewrite Hn1. by eexists. }
  pose proof (mkdir_last_change [] mode w1 (ch_ok _ _ _ H1) Hq) as H2.
  destruct (mkdir_last (abs []) mode w1) as [r w2]. destruct H2 as [H2 H3]. split; [|done].
  eapply grow_trans; [exact H1|]. eapply grow_mono; [|exact H2]. by intros k ->.
Qed.

(** ** Calls that succeed when nothing fails *)

(** No file is on the way. *)
Definition clear_way (t : tree) (q : fpath) : Prop :=
  forall p, p `prefix_of` q -> t !! p = None \/ dir_at t p = true.

Lemma dir_at_Some t q : dir_at t q = true <-> exists m, t !! q = Some (NDir m).
Proof.
  unfold dir_at. split; [|by intros [m ->]].
  destruct (t !! q) as [[m|data m|tg m]|]; try done. by exists m.
Qed.

(** A path with no file on the way leads somewhere, or something on it is missing. *)
Lemma resolve_clear links t (follow : bool) cur cs :
  no_links t -> Forall plain cs ->
  (forall p, p `prefix_of` cs -> t !! (cur ++ p) = None \/ dir_at t (cur ++ p) = true) ->
  resolve links t follow cur cs = Ok (cur ++ cs) \/ resolve links t follow cur cs = Err ENotExist.
Proof.
  intros Hnl Hcs. revert cur. induction Hcs as [|c cs Hc Hcs IH]; intros cur Hway.
  - left. by rewrite app_nil_r, resolve_nil.
  - rewrite resolve_cons by done.
    destruct (Hway [c]) as [E|E]; [apply prefix_cons, prefix_nil|rewrite E|].
    + case_bool_decide as Hcs'; [left; by rewrite Hcs'|by right].
    + unfold dir_at in E. destruct (t !! (cur ++ [c])) as [[m|data m|tg m]|] eqn:Ec; try done.
      replace (cur ++ c :: cs) with ((cur ++ [c]) ++ cs) by by rewrite <- app_assoc.
      apply IH. intros p Hp. rewrite <- app_assoc. apply Hway. by apply prefix_cons.
Qed.

Lemma look_missing_clear {A} (q : fpath) (follow : bool) (f : fpath -> node -> tree -> result A) w :
  tree_ok (nodes w) -> Forall plain q -> faults w = [] -> clear_way (nodes w) q -> nodes w !! q = None ->
  look (abs q) follow f w = (Err ENotExist, w).
Proof.
  intros Hok Hq Hf Hway Hn. unfold look. rewrite path_call_eq, Hf, next_call_id by done. cbn [head default].
  rewrite locate_abs_eq by done.
  destruct (resolve_clear max_links (nodes w) follow [] q) as [E|E]; [apply Hok|done|done| |].
  - rewrite E. cbn [app]. by rewrite Hn.
  - by rewrite E.
Qed.

Lemma change_next P w : tree_ok (nodes w) -> change P w (next_call w).
Proof. intros Hok. by apply change_nodes. Qed.

Lemma mkdir_last_run q mode w :
  tree_ok (nodes w) -> faults w = [] -> has_parent (nodes w) q ->
  nodes w !! q = None \/ dir_at (nodes w) q = true ->
  exists w', mkdir_last (abs q) mode w = (Ok tt, w').
Proof.
  intros Hok Hf Hp Hq. unfold mkdir_last, mbind, State_bind, os_Mkdir.
  rewrite path_call_run by auto. destruct Hq as [Hq|Hq].
  - rewrite Hq. by eexists.
  - apply dir_at_Some in Hq as [m Hm]. rewrite Hm. unfold os_Lstat.
    rewrite (look_run q false _ w (NDir m)) by done. by eexists.
Qed.

Lemma mkdir_all_run mode q w :
  tree_ok (nodes w) -> faults w = [] -> Forall plain q -> q <> [] -> clear_way (nodes w) q ->
  exists w', mkdir_all true mode (reverse q) w = (Ok tt, w').
Proof.
  intros Hok Hf Hq Hne Hway. revert w Hok Hf Hway. induction q as [|c q IH] using rev_ind;
    intros w Hok Hf Hway; [done|]. clear Hne.
  rewrite reverse_snoc. cbn [mkdir_all]. rewrite reverse_cons, reverse_involutive.
  change ([slash] ++ Join (q ++ [c]) [slash]) with (abs (q ++ [c])).
  unfold mbind at 1, State_bind at 1, os_Stat.
  destruct (Hway (q ++ [c])) as [Hn|Hn]; [done| |].
  - destruct (look_missing (q ++ [c]) true (fun _ n _ => Ok (Base (abs (q ++ [c])), n)) w) as [e ->]; [done..|].
    apply Forall_app in Hq as [Hq Hc]. rewrite Forall_singleton in Hc.
    destruct (reverse q) as [|c' rest] eqn:Er.
    + apply (proj1 (reverse_nil_iff _)) in Er as ->. apply mkdir_last_run; [done|done| |by left].
      destruct (wf_root _ (proj1 Hok)) as [m Hm]. by exists [], c, m.
    + assert (q <> []) as Hne by (intros ->; done).
      destruct (IH Hq Hne w Hok Hf) as [w1 E1].
      { intros p Hp. apply Hway. by apply prefix_app_r. }
      rewrite (try_bind_ok _ _ _ _ _ E1).
      pose proof (mkdir_all_change mode q w Hok Hq Hne) as H. rewrite Er, E1 in H.
      destruct H as [Hg Hd]. destruct (Hd eq_refl) as [m Hm].
      apply mkdir_last_run; [apply (ch_ok _ _ _ Hg)|by apply (ch_faults _ _ _ Hg)|by exists q, c, m|].
      left. rewrite (ch_keep _ _ _ Hg); [done|]. intros [_ Hp].
      apply prefix_length in Hp. rewrite length_app in Hp. simpl in Hp. lia.
  - apply dir_at_Some in Hn as [m Hm].
    rewrite (look_run (q ++ [c]) true _ w (NDir m)) by done. by eexists.
Qed.

Lemma os_MkdirAll_run mode q w :
  tree_ok (nodes w) -> faults w = [] -> Forall plain q -> clear_way (nodes w) q ->
  exists w', os_MkdirAll (abs q) mode w = (Ok tt, w').
Proof.
  intros Hok Hf Hq Hway. unfold os_MkdirAll. rewrite comps_abs by done.
  destruct (decide (q = [])) as [->|Hne]; [|by apply mkdir_all_run].
  destruct (wf_root _ (proj1 Hok)) as [m Hm].
  change (mkdir_all (IsAbs (abs [])) mode (reverse [])) with (mkdir_all true mode []).
  cbn [mkdir_all reverse rev_append]. change ([slash] ++ Join [] [slash]) with (abs []).
  unfold mbind at 1, State_bind at 1, os_Stat. rewrite (look_run [] true _ w (NDir m)) by done.
  by eexists.
Qed.

Lemma os_OpenFile_run q trunc mode w :
  tree_ok (nodes w) -> faults w = [] -> has_parent (nodes w) q -> dir_at (nodes w) q = false ->
  exists w', os_OpenFile (abs q) trunc mode w = (Ok q, w').
Proof.
  intros Hok Hf Hp Hd. unfold os_OpenFile. rewrite path_call_run by auto.
  unfold dir_at in Hd. destruct (nodes w !! q) as [[m|data m|tg m]|] eqn:E; try done; [by eexists| |by eexists].
  by apply (proj2 Hok) in E.
Qed.

Lemma os_ReadFile_run q w data m :
  tree_ok (nodes w) -> faults w = [] -> nodes w !! q = Some (NFile data m) ->
  os_ReadFile (abs q) w = (Ok data, w).
Proof.
  intros Hok Hf Hq. unfold os_ReadFile, os_Open.
  rewrite (try_bind_ok _ _ _ _ _ (look_run q true _ w _ Hok Hf Hq)).
  unfold f_ReadAll. rewrite syscall_eq, Hf. simpl. rewrite Hq. unfold next_call. rewrite Hf. simpl.
  destruct w as [t pr fs]. simpl in *. by subst fs.
Qed.

Lemma has_parent_dir t p c m : plain c -> t !! p = Some (NDir m) -> has_parent t (p ++ [c]).
Proof. intros Hc Hp. by exists p, c, m. Qed.

(** ** Checking a concrete tree *)

Definition tree_okb (t : tree) : bool :=
  dir_at t [] &&
  forallb (fun kn => negb (is_link (snd kn)) &&
             match reverse (fst kn) with
             | [] => true
             | c :: p => bool_decide (plain c) && dir_at t (reverse p)
             end) (map_to_list t).

Lemma tree_okb_ok t : tree_okb t = true -> tree_ok t.
Proof.
  unfold tree_okb. intros [Hr Hall]%andb_true_iff.
  assert (forall k n, t !! k = Some n -> is_link n = false /\
    match reverse k with [] => True | c :: p => plain c /\ dir_at t (reverse p) = true end) as H.
  { intros k n Hk. rewrite forallb_forall in Hall. apply elem_of_map_to_list, list_elem_of_In, Hall in Hk.
    simpl in Hk. apply andb_true_iff in Hk as [Hl Hk]. split; [by apply negb_true_iff|].
    destruct (reverse k); [done|]. apply andb_true_iff in Hk as [Hp Hd].
    by apply bool_decide_eq_true in Hp. }
  split; [split|].
  - by apply dir_at_Some.
  - intros q c n Hq. apply H in Hq as [_ Hq]. rewrite reverse_snoc, reverse_involutive in Hq.
    destruct Hq as [Hc Hd]. split; [done|]. by apply dir_at_Some.
  - intros q n Hq. by apply H in Hq as [? _].
Qed.
