(* ===== verification/TreeWalk.v ===== *)
(** * Walking a tree without faults

    The nodes that [filepath.Walk] and [filepath.WalkDir] visit, and in which order;
    with as much fuel as there are nodes the walk comes to its end. *)

From stdpp Require Import sorting.
From S2P Require Import Prelude GoStr GoPath GoTree GoTreeFacts.

(** ** The names in a directory *)

Lemma child_name_Some p k c : child_name p k = Some c <-> k = p ++ [c].
Proof.
  unfold child_name. split.
  - case_bool_decide as E; [|done]. pose proof (take_drop (length p) k) as Hk.
    rewrite E in Hk. destruct (drop (length p) k) as [|c' [|]]; try done. by intros [= ->].
  - intros ->. rewrite take_app_length, bool_decide_eq_true_2 by done.
    by rewrite drop_app_length.
Qed.

Lemma elem_of_list_dir t p c : c ∈ list_dir t p <-> is_Some (t !! (p ++ [c])).
Proof.
  unfold list_dir. rewrite merge_sort_Permutation, list_elem_of_omap. split.
  - intros ([k n] & Hk & Hc). simpl in Hc. apply child_name_Some in Hc as ->.
    apply elem_of_map_to_list in Hk. by exists n.
  - intros [n Hn]. exists (p ++ [c], n). split; [by apply elem_of_map_to_list|].
    by apply child_name_Some.
Qed.

Lemma NoDup_omap_inj {A B} (f : A -> option B) (l : list A) :
  (forall x y b, f x = Some b -> f y = Some b -> x = y) -> NoDup l -> NoDup (omap f l).
Proof.
  intros Hf. induction 1 as [|x l Hx Hl IH]; [constructor|]. cbn [omap].
  simpl. destruct (f x) as [b|] eqn:E; [|done]. constructor; [|done].
  intros (y & Hy & Hb)%list_elem_of_omap. apply Hx. by rewrite (Hf x y b).
Qed.

Lemma NoDup_list_dir t p : NoDup (list_dir t p).
Proof.
  unfold list_dir. rewrite merge_sort_Permutation. 
  assert (omap (fun kv : fpath * node => child_name p (fst kv)) (map_to_list t) =
          omap (child_name p) (map_to_list t).*1) as ->.
  { induction (map_to_list t) as [|kv l IH]; [done|]. csimpl. destruct (child_name p kv.1); [by f_equal|done]. }
  apply NoDup_omap_inj; [|apply NoDup_fst_map_to_list].
  intros x y c Hx Hy. apply child_name_Some in Hx, Hy. congruence.
Qed.

#[export] Instance str_le_trans : Transitive str_le.
Proof.
  unfold str_le. intros a. induction a as [|x a IH]; intros [|y b] [|z c]; cbn [str_ltb]; try done.
  intros H1 H2. destruct (code y <? code x)%Z eqn:E1; [done|]. destruct (code z <? code y)%Z eqn:E2; [done|].
  apply Z.ltb_ge in E1, E2. replace (code z <? code x)%Z with false by (symmetry; apply Z.ltb_ge; lia).
  destruct (code x <? code z)%Z eqn:E3; [done|]. apply Z.ltb_ge in E3.
  replace (code x <? code y)%Z with false in H1 by (symmetry; apply Z.ltb_ge; lia).
  replace (code y <? code z)%Z with false in H2 by (symmetry; apply Z.ltb_ge; lia).
  by apply (IH b c).
Qed.

#[export] Instance str_le_total : Total str_le.
Proof.
  intros a b. unfold str_le. destruct (str_ltb b a) eqn:E; [right; by apply str_ltb_asym|by left].
Qed.

Lemma list_dir_sorted t p : StronglySorted str_le (list_dir t p).
Proof. unfold list_dir. apply StronglySorted_merge_sort; apply _. Qed.

(** ** The nodes under a path *)

Definition keys_under (t : tree) (q : fpath) : list fpath :=
  List.filter (under q) (map_to_list t).*1.

Lemma under_app q r : under q (q ++ r) = true.
Proof. unfold under. rewrite take_app_length. by apply bool_decide_eq_true_2. Qed.

Lemma under_spec q k : under q k = true <-> exists r, k = q ++ r.
Proof.
  split.
  - unfold under. intros H%bool_decide_eq_true. exists (drop (length q) k).
    rewrite <- H at 1. symmetry. apply take_drop.
  - intros [r ->]. apply under_app.
Qed.

Lemma elem_of_keys_under t q k : k ∈ keys_under t q <-> is_Some (t !! k) /\ exists r, k = q ++ r.
Proof.
  unfold keys_under. rewrite <- under_spec, list_elem_of_In, filter_In, <- list_elem_of_In.
  rewrite list_elem_of_fmap. split.
  - intros [([k' n] & -> & Hk) Hu]. apply elem_of_map_to_list in Hk. split; [by exists n|done].
  - intros [[n Hn] Hu]. split; [|done]. exists (k, n). split; [done|]. by apply elem_of_map_to_list.
Qed.

Lemma NoDup_keys_under t q : NoDup (keys_under t q).
Proof. apply NoDup_ListNoDup, List.NoDup_filter, NoDup_ListNoDup, NoDup_fst_map_to_list. Qed.

Lemma NoDup_flat_map {A B} (f : A -> list B) (l : list A) :
  NoDup l -> (forall x, x ∈ l -> NoDup (f x)) ->
  (forall x y b, x ∈ l -> y ∈ l -> b ∈ f x -> b ∈ f y -> x = y) -> NoDup (flat_map f l).
Proof.
  induction 1 as [|x l Hx Hl IH]; intros Hf Hd; [constructor|]. cbn [flat_map].
  apply NoDup_app. split; [apply Hf; set_solver|]. split.
  - intros b Hb (y & Hy & Hby)%list_elem_of_In%in_flat_map. apply list_elem_of_In in Hy, Hby.
    apply Hx. rewrite (Hd x y b); set_solver.
  - apply IH; [intros; apply Hf; set_solver|]. intros; eapply Hd; set_solver.
Qed.

Lemma elem_of_flat_map {A B} (f : A -> list B) (l : list A) b :
  b ∈ flat_map f l <-> exists x, x ∈ l /\ b ∈ f x.
Proof. rewrite list_elem_of_In, in_flat_map. setoid_rewrite <- list_elem_of_In. done. Qed.

(** A directory, then what is under each of its names. *)
Lemma keys_under_children t q :
  wf_tree t -> is_Some (t !! q) ->
  keys_under t q ≡ₚ q :: flat_map (fun c => keys_under t (q ++ [c])) (list_dir t q).
Proof.
  intros Hwf Hq. apply NoDup_Permutation.
  - apply NoDup_keys_under.
  - constructor.
    + intros (c & _ & Hk)%elem_of_flat_map. apply elem_of_keys_under in Hk as [_ [r Hr]].
      apply (f_equal length) in Hr. rewrite !length_app in Hr. simpl in Hr. lia.
    + apply NoDup_flat_map; [apply NoDup_list_dir|intros; apply NoDup_keys_under|].
      intros c c' k _ _ [_ [r ->]]%elem_of_keys_under [_ [r' Hr]]%elem_of_keys_under.
      rewrite <- !app_assoc in Hr. apply app_inv_head in Hr. by injection Hr.
  - intros k. rewrite elem_of_cons, elem_of_flat_map. setoid_rewrite elem_of_keys_under.
    setoid_rewrite elem_of_list_dir. split.
    + intros [[n Hn] [r ->]]. destruct r as [|c r]; [left; by rewrite app_nil_r|]. right.
      exists c. split; [|split; [by exists n|exists r; by rewrite <- app_assoc]].
      destruct r as [|c' r]; [by exists n|].
      destruct (wf_ancestor t (q ++ [c]) (c' :: r) n Hwf) as [m Hm]; [by rewrite <- app_assoc|done|by exists (NDir m)].
    + intros [->|(c & _ & Hk & [r ->])]; [by split; [|exists []; rewrite app_nil_r]|].
      split; [done|]. exists (c :: r). by rewrite <- app_assoc.
Qed.

Lemma keys_under_leaf t q n :
  wf_tree t -> t !! q = Some n -> is_dir n = false -> keys_under t q ≡ₚ [q].
Proof.
  intros Hwf Hq Hd. rewrite keys_under_children by eauto.
  destruct (list_dir t q) as [|c l] eqn:E; [done|].
  assert (c ∈ list_dir t q) as [n' Hn']%elem_of_list_dir by (rewrite E; set_solver).
  apply (wf_parent t Hwf) in Hn' as [_ [m Hm]]. rewrite Hm in Hq. by injection Hq as <-.
Qed.

(** ** The order of the visits *)

Fixpoint walk_order (fuel : nat) (t : tree) (q : fpath) : list fpath :=
  match fuel with
  | O => []
  | S fuel' => q :: (if dir_at t q then flat_map (fun c => walk_order fuel' t (q ++ [c])) (list_dir t q) else [])
  end.

Lemma length_flat_map_elem {A B} (f : A -> list B) l x :
  x ∈ l -> length (f x) <= length (flat_map f l).
Proof.
  induction 1 as [x l|x y l _ IH]; cbn [flat_map]; rewrite length_app; lia.
Qed.

Lemma flat_map_perm {A B} (f g : A -> list B) l :
  (forall x, x ∈ l -> f x ≡ₚ g x) -> flat_map f l ≡ₚ flat_map g l.
Proof.
  induction l as [|x l IH]; intros H; [done|]. cbn [flat_map].
  rewrite (H x) by set_solver. rewrite IH; [done|]. intros; apply H; set_solver.
Qed.

Lemma walk_order_keys fuel t q :
  wf_tree t -> is_Some (t !! q) -> length (keys_under t q) <= fuel ->
  walk_order fuel t q ≡ₚ keys_under t q.
Proof.
  intros Hwf. revert q. induction fuel as [|fuel IH]; intros q Hq Hlen.
  - rewrite keys_under_children in Hlen by done. simpl in Hlen. lia.
  - cbn [walk_order]. unfold dir_at. destruct Hq as [n Hn]. rewrite Hn.
    destruct n as [m|data m|tg m]; [|by rewrite (keys_under_leaf t q _ Hwf Hn)..].
    rewrite keys_under_children in Hlen |- * by eauto. constructor.
    apply flat_map_perm. intros c Hc. apply IH; [by apply elem_of_list_dir|].
    simpl in Hlen. pose proof (length_flat_map_elem (fun c => keys_under t (q ++ [c])) _ _ Hc) as Hl.
    simpl in Hl. lia.
Qed.

Lemma keys_under_size t q : length (keys_under t q) <= size t.
Proof.
  unfold keys_under. rewrite filter_length_le, length_fmap. by rewrite length_map_to_list.
Qed.

(** ** The walk *)

Lemma JoinPath_child q c : Forall plain q -> plain c -> JoinPath [abs q; c] = abs (q ++ [c]).
Proof.
  intros Hq Hc. rewrite JoinPath_abs by done.
  change c with (Join [c] [slash]) at 1. by rewrite walk_names_rel by (try done; by constructor).
Qed.

Lemma child_plain t q c : wf_tree t -> c ∈ list_dir t q -> Forall plain q /\ plain c.
Proof.
  intros Hwf [n Hn]%elem_of_list_dir. apply (wf_plain t _ _ Hwf) in Hn.
  apply Forall_app in Hn as [Hq Hc]. by rewrite Forall_singleton in Hc.
Qed.

Section run.
Context {X : Type} (w : os) (q0 : fpath) (g : fpath -> X -> X).
Hypothesis Hok : tree_ok (nodes w).
Hypothesis Hf : faults w = [].

Definition visits (l : list fpath) (x : X) : X := fold_left (fun x k => g k x) l x.

Lemma visits_app l1 l2 x : visits (l1 ++ l2) x = visits l2 (visits l1 x).
Proof. apply fold_left_app. Qed.

Lemma lift_ReadDir q n (x : X) :
  nodes w !! q = Some n -> is_dir n = true ->
  lift_os _ (os_ReadDir (abs q)) (w, x) =
  (Ok (map (fun c => (c, dir_at (nodes w) (q ++ [c]))) (list_dir (nodes w) q)), (w, x)).
Proof.
  intros Hn Hd. unfold lift_os, os_ReadDir. simpl. rewrite (look_run q true _ w n) by done.
  by rewrite Hd.
Qed.

Lemma lift_Lstat q n (x : X) :
  nodes w !! q = Some n -> lift_os _ (os_Lstat (abs q)) (w, x) = (Ok (Base (abs q), n), (w, x)).
Proof. intros Hn. unfold lift_os, os_Lstat. simpl. by rewrite (look_run q false _ w n). Qed.

(** A callback that succeeds on every node under [q0], as [g] says. *)
Definition good_walk (fn : bytes -> option node -> option error -> State (os * X) (option error)) : Prop :=
  forall k n x, nodes w !! k = Some n -> under q0 k = true ->
    fn (abs k) (Some n) None (w, x) = (None, (w, g k x)).

Definition good_walk_dir
    (fn : bytes -> bool -> State (os * X) (result node) -> option error -> State (os * X) (option error)) : Prop :=
  forall k n x info, nodes w !! k = Some n -> under q0 k = true ->
    (forall y, info (w, y) = (Ok n, (w, y))) ->
    fn (abs k) (is_dir n) info None (w, x) = (None, (w, g k x)).

Lemma under_child k c : under q0 k = true -> under q0 (k ++ [c]) = true.
Proof. intros [r ->]%under_spec. apply under_spec. exists (r ++ [c]). by rewrite app_assoc. Qed.

Lemma fuel_child fuel q c :
  is_Some (nodes w !! q) -> c ∈ list_dir (nodes w) q ->
  length (keys_under (nodes w) q) <= S fuel -> length (keys_under (nodes w) (q ++ [c])) <= fuel.
Proof.
  intros Hq Hc. rewrite keys_under_children by (try done; apply Hok). simpl.
  pose proof (length_flat_map_elem (fun c => keys_under (nodes w) (q ++ [c])) _ _ Hc). simpl in *. lia.
Qed.

Lemma walk_run fn fuel q n (x : X) :
  good_walk fn -> nodes w !! q = Some n -> under q0 q = true ->
  length (keys_under (nodes w) q) <= fuel ->
  walk lift_os fn fuel (abs q) n (w, x) = (None, (w, visits (walk_order fuel (nodes w) q) x)).
Proof.
  intros Hg. revert q n x. induction fuel as [|fuel IH]; intros q n x Hn Hu Hl.
  { rewrite keys_under_children in Hl by (eauto; apply Hok). simpl in Hl. lia. }
  cbn [walk walk_order]. unfold dir_at. rewrite Hn. destruct n as [m|data m|tg m]; cbn [is_dir negb].
  2,3: by rewrite (Hg q _ x Hn Hu).
  rewrite (st_bind_run _ _ _ _ _ (lift_ReadDir q _ x Hn eq_refl)).
  rewrite (st_bind_run _ _ _ _ _ (Hg q _ x Hn Hu)). change (q :: ?l) with ([q] ++ l).
  rewrite visits_app. cbn [visits fold_left]. generalize (g q x). clear x.
  assert (forall c, c ∈ list_dir (nodes w) q -> c ∈ list_dir (nodes w) q) as Hin by done.
  revert Hin. generalize (list_dir (nodes w) q) at 1 3 4. intros cs Hin.
  induction cs as [|c cs IHc]; intros x; [done|].
  assert (c ∈ list_dir (nodes w) q) as Hc by (apply Hin; set_solver).
  destruct (child_plain _ _ _ (proj1 Hok) Hc) as [Hpq Hpc].
  pose proof Hc as [n' Hn']%elem_of_list_dir.
  cbn [map walk_children flat_map]. rewrite JoinPath_child by done.
  rewrite (st_bind_run _ _ _ _ _ (lift_Lstat _ _ x Hn')).
  unfold mbind at 1 2, State_bind at 1 2.
  rewrite IH by (eauto using under_child, fuel_child).
  assert ((if is_dir n' then no_skip None else None) = None) as -> by by destruct (is_dir n').
  rewrite visits_app, <- IHc by set_solver. reflexivity.
Qed.

Lemma walk_dir_run fn fuel q n (x : X) info :
  good_walk_dir fn -> nodes w !! q = Some n -> under q0 q = true ->
  (forall y, info (w, y) = (Ok n, (w, y))) ->
  length (keys_under (nodes w) q) <= fuel ->
  walk_dir lift_os fn fuel (abs q) (is_dir n) info (w, x) =
  (None, (w, visits (walk_order fuel (nodes w) q) x)).
Proof.
  intros Hg. revert q n x info. induction fuel as [|fuel IH]; intros q n x info Hn Hu Hi Hl.
  { rewrite keys_under_children in Hl by (eauto; apply Hok). simpl in Hl. lia. }
  cbn [walk_dir walk_order]. rewrite (st_bind_run _ _ _ _ _ (Hg q _ x _ Hn Hu Hi)).
  rewrite bool_decide_eq_false_2 by (intros H; by apply H).
  unfold dir_at. rewrite Hn. destruct n as [m|data m|tg m]; cbn [is_dir negb orb].
  2,3: done.
  rewrite (st_bind_run _ _ _ _ _ (lift_ReadDir q _ _ Hn eq_refl)).
  change (q :: ?l) with ([q] ++ l). rewrite visits_app. cbn [visits fold_left].
  generalize (g q x). clear x.
  assert (forall c, c ∈ list_dir (nodes w) q -> c ∈ list_dir (nodes w) q) as Hin by done.
  revert Hin. generalize (list_dir (nodes w) q) at 1 3 4. intros cs Hin.
  induction cs as [|c cs IHc]; intros x; [done|].
  assert (c ∈ list_dir (nodes w) q) as Hc by (apply Hin; set_solver).
  destruct (child_plain _ _ _ (proj1 Hok) Hc) as [Hpq Hpc].
  pose proof Hc as [n' Hn']%elem_of_list_dir.
  cbn [map walk_entries flat_map]. rewrite JoinPath_child by done.
  assert (dir_at (nodes w) (q ++ [c]) = is_dir n') as Hda
    by (unfold dir_at; rewrite Hn'; by destruct n').
  assert (forall y : X, entry_info lift_os (abs (q ++ [c])) (w, y) = (Ok n', (w, y))) as Hi'.
  { intros y. unfold entry_info. by rewrite (st_bind_run _ _ _ _ _ (lift_Lstat _ _ y Hn')). }
  unfold mbind at 1, State_bind at 1. rewrite Hda.
  rewrite (IH (q ++ [c]) n' x _ Hn') by (eauto using under_child, fuel_child).
  rewrite visits_app, <- IHc by set_solver. reflexivity.
Qed.
End run.
