(* ===== verification/TreeMove.v ===== *)
(** * Removing and renaming subtrees

    What [os.RemoveAll] leaves behind, also when it fails half-way, and the tree that
    [os.Rename] makes, node by node.  Both keep a tree well-formed. *)

From stdpp Require Import sorting.
From S2P Require Import Prelude GoStr GoPath GoTree GoTreeFacts TreeWalk.

(** ** Places *)

Lemma under_refl q : under q q = true.
Proof. apply under_spec. exists []. by rewrite app_nil_r. Qed.

Lemma under_trans a b k : under a b = true -> under b k = true -> under a k = true.
Proof.
  intros [r ->]%under_spec [s ->]%under_spec. apply under_spec. exists (r ++ s). by rewrite app_assoc.
Qed.

Lemma under_length a b : under a b = true -> length a <= length b.
Proof. intros [r ->]%under_spec. rewrite length_app. lia. Qed.

Lemma under_antisym a b : under a b = true -> under b a = true -> a = b.
Proof.
  intros [r ->]%under_spec H%under_length. rewrite length_app in H.
  destruct r; [by rewrite app_nil_r|simpl in H; lia].
Qed.

(** A proper child of [p] is under [b] because [p] is, or it is [b] itself. *)
Lemma under_snoc b p c : under b (p ++ [c]) = true -> b = p ++ [c] \/ under b p = true.
Proof.
  intros [r Hr]%under_spec. destruct r as [|x r _] using rev_ind.
  - left. by rewrite app_nil_r in Hr.
  - right. rewrite app_assoc in Hr. apply app_inj_tail in Hr as [-> _]. apply under_spec. by exists r.
Qed.

Lemma under_nil k : under [] k = true.
Proof. apply under_spec. by exists k. Qed.

(** Nothing is under a place that is no directory. *)
Lemma leaf_under t b k n :
  wf_tree t -> dir_at t b = false -> t !! k = Some n -> under b k = true -> k = b.
Proof.
  intros Hwf Hb Hk [r ->]%under_spec. destruct r as [|c r]; [by rewrite app_nil_r|].
  destruct (wf_ancestor t b (c :: r) n Hwf Hk) as [m Hm]; [done|].
  unfold dir_at in Hb. by rewrite Hm in Hb.
Qed.

Lemma has_parent_plain t q : wf_tree t -> has_parent t q -> Forall plain q /\ q <> [].
Proof.
  intros Hwf (p & c & m & -> & Hc & Hm). split; [|by destruct p].
  apply Forall_app. split; [by eapply wf_plain|by apply Forall_singleton].
Qed.

Lemma node_has_parent t q n : wf_tree t -> t !! q = Some n -> q <> [] -> has_parent t q.
Proof.
  intros Hwf Hq Hne. destruct q as [|c p _] using rev_ind; [done|].
  destruct (wf_parent t Hwf _ _ _ Hq) as [Hc [m Hm]]. by exists p, c, m.
Qed.

(** ** Removing *)

Lemma remove_tree_lookup q t k :
  remove_tree q t !! k = if under q k then None else t !! k.
Proof.
  unfold remove_tree. destruct (under q k) eqn:E.
  - apply map_lookup_filter_None. right. intros n _. simpl. by rewrite E.
  - destruct (t !! k) as [n|] eqn:Ek.
    + by apply map_lookup_filter_Some.
    + apply map_lookup_filter_None. by left.
Qed.

(** A part of a tree from which whole subtrees are missing. *)
Lemma tree_ok_sub t t' :
  tree_ok t -> t' !! [] = t !! [] ->
  (forall k n, t' !! k = Some n -> t !! k = Some n) ->
  (forall p c n, t' !! (p ++ [c]) = Some n -> is_Some (t' !! p)) ->
  tree_ok t'.
Proof.
  intros [Hwf Hnl] Hr Hsub Hpar. split; [split|].
  - rewrite Hr. apply (wf_root _ Hwf).
  - intros p c n Hk. destruct (wf_parent _ Hwf _ _ _ (Hsub _ _ Hk)) as [Hc [m Hm]].
    split; [done|]. destruct (Hpar _ _ _ Hk) as [n' Hn']. rewrite (Hsub _ _ Hn') in Hm.
    rewrite Hn'. injection Hm as ->. by exists m.
  - intros k n Hk. by apply (Hnl k), Hsub.
Qed.

Lemma remove_tree_ok q t : tree_ok t -> q <> [] -> tree_ok (remove_tree q t).
Proof.
  intros Hok Hne. apply tree_ok_sub with t; [done|..].
  - rewrite remove_tree_lookup. destruct (under q []) eqn:E; [|done].
    apply under_length in E. by destruct q; [|simpl in E; lia].
  - intros k n. rewrite remove_tree_lookup. by destruct (under q k).
  - intros p c n. rewrite !remove_tree_lookup. destruct (under q (p ++ [c])) eqn:E; [done|].
    intros H. destruct (under q p) eqn:E'; [by rewrite under_child in E|].
    apply (wf_parent _ (proj1 Hok)) in H as [_ [m Hm]]. by rewrite Hm.
Qed.

Lemma foldr_delete_lookup (l : list fpath) (t : tree) k :
  foldr delete t l !! k = if decide (k ∈ l) then None else t !! k.
Proof.
  induction l as [|x l IH]; cbn [foldr]; [by rewrite decide_False by set_solver|].
  destruct (decide (x = k)) as [->|Hne].
  - rewrite lookup_delete_eq, decide_True by set_solver. done.
  - rewrite lookup_delete_ne, IH by done.
    destruct (decide (k ∈ l)), (decide (k ∈ x :: l)); set_solver.
Qed.

#[export] Instance longer_trans : Transitive longer.
Proof. intros a b c. unfold longer. lia. Qed.
#[export] Instance longer_total : Total longer.
Proof. intros a b. unfold longer. lia. Qed.

Lemma elem_of_removal_order q t k :
  k ∈ removal_order q t <-> k ∈ keys_under t q /\ k <> [].
Proof.
  unfold removal_order, keys_under. rewrite merge_sort_Permutation, !list_elem_of_In, !filter_In.
  rewrite andb_true_iff, negb_true_iff, bool_decide_eq_false. tauto.
Qed.

Lemma sorted_take_drop {A} (R : A -> A -> Prop) n (l : list A) x y :
  StronglySorted R l -> x ∈ take n l -> y ∈ drop n l -> R x y.
Proof.
  intros Hs. revert n. induction Hs as [|z l Hs IH Hz]; intros n Hx Hy.
  - rewrite take_nil in Hx. set_solver.
  - destruct n as [|n]; [set_solver|]. cbn [take drop] in *.
    apply elem_of_cons in Hx as [->|Hx]; [|by eapply IH].
    rewrite Forall_forall in Hz. apply Hz. rewrite <- (take_drop n l). set_solver.
Qed.

(** A removal that stops anywhere leaves no node without its directory. *)
Lemma partial_removal_ok n q t :
  tree_ok t -> tree_ok (foldr delete t (take n (removal_order q t))).
Proof.
  intros Hok. set (l := removal_order q t).
  assert (forall k, k ∈ take n l -> k ∈ keys_under t q /\ k <> []) as Hin.
  { intros k Hk. apply elem_of_removal_order. fold l. rewrite <- (take_drop n l). set_solver. }
  apply tree_ok_sub with t; [done|..].
  - rewrite foldr_delete_lookup, decide_False; [done|]. by intros [_ H]%Hin.
  - intros k m. rewrite foldr_delete_lookup. by destruct (decide _).
  - intros p c m. rewrite !foldr_delete_lookup. destruct (decide (p ++ [c] ∈ _)) as [|Hnc]; [done|].
    intros Hk. destruct (decide (p ∈ _)) as [Hp|].
    + exfalso. destruct (Hin _ Hp) as [[_ Hu]%elem_of_keys_under Hne].
      assert (p ++ [c] ∈ l) as Hl.
      { apply elem_of_removal_order. split; [|by destruct p]. apply elem_of_keys_under.
        split; [by exists m|]. destruct Hu as [r ->]. exists (r ++ [c]). by rewrite app_assoc. }
      rewrite <- (take_drop n l) in Hl. apply elem_of_app in Hl as [Hl|Hl]; [done|].
      assert (longer p (p ++ [c])) as H.
      { eapply sorted_take_drop; [|exact Hp|exact Hl]. apply StronglySorted_merge_sort; apply _. }
      unfold longer in H. rewrite length_app in H. simpl in H. lia.
    + apply (wf_parent _ (proj1 Hok)) in Hk as [_ [m' Hm']]. by rewrite Hm'.
Qed.

Lemma abs_no_dot_suffix q : Forall plain q -> HasSuffix (abs q) ($"/.") = false.
Proof.
  intros Hq. apply not_true_iff_false. intros [r Hr]%HasSuffix_spec.
  destruct q as [|c q _] using rev_ind; [by destruct r as [|? [|]]|].
  apply Forall_app in Hq as [_ Hc]. rewrite Forall_singleton in Hc.
  assert (exists s, abs (q ++ [c]) = s ++ slash :: c) as [s Hs].
  { destruct (decide (q = [])) as [->|Hne]; [by exists []|]. exists (abs q). unfold abs.
    by rewrite Join_snoc. }
  rewrite Hs in Hr. destruct Hc as (Hne & Hd & _ & Hsl).
  destruct c as [|x c _] using rev_ind; [done|].
  change (r ++ $"/.") with (r ++ [slash] ++ dot) in Hr. rewrite !app_assoc in Hr.
  change (slash :: c ++ [x]) with ((slash :: c) ++ [x]) in Hr. rewrite app_assoc in Hr.
  apply app_inj_tail in Hr as [Hr ->].
  destruct c as [|y c _] using rev_ind; [done|].
  change (slash :: c ++ [y]) with ((slash :: c) ++ [y]) in Hr. rewrite app_assoc in Hr.
  apply app_inj_tail in Hr as [_ ->]. set_solver.
Qed.

Lemma abs_ne_dot q : abs q <> dot.
Proof. done. Qed.

Lemma os_RemoveAll_run q w :
  tree_ok (nodes w) -> faults w = [] -> has_parent (nodes w) q ->
  os_RemoveAll (abs q) w = (Ok tt, Os (remove_tree q (nodes w)) (proc w) []).
Proof.
  intros Hok Hf Hp. destruct (has_parent_plain _ _ (proj1 Hok) Hp) as [Hq Hne].
  unfold os_RemoveAll. rewrite syscall_eq, Hf, next_call_id by done. cbn [head default].
  rewrite bool_decide_eq_false_2 by apply abs_ne_dot. rewrite abs_no_dot_suffix by done. cbn [orb].
  rewrite locate_abs; [|apply Hok|done|]; [by destruct q; rewrite <- Hf|].
  intros _ tg m E. by apply (proj2 Hok) in E.
Qed.

(** Whatever fails, only what is under the place can be missing afterwards. *)
Lemma os_RemoveAll_change q w :
  tree_ok (nodes w) -> Forall plain q -> q <> [] ->
  let '(r, w') := os_RemoveAll (abs q) w in
  change (fun k => under q k = true) w w' /\ forall k, nodes w' !! k = None \/ nodes w' !! k = nodes w !! k.
Proof.
  intros Hok Hq Hne. unfold os_RemoveAll. rewrite syscall_eq.
  destruct (default None (head (faults w))) as [[n e]|] eqn:Ef.
  - cbn [next_call nodes proc]. destruct (locate _ _ _ (abs q)) as [q'|e'] eqn:E.
    + apply locate_abs_inv in E as [-> _]; [|apply Hok|done].
      split; [split|].
      * done.
      * intros k Hk. cbn. rewrite foldr_delete_lookup, decide_False; [done|].
        intros H. apply Hk. assert (k ∈ removal_order q (nodes w)) as H'
          by (rewrite <- (take_drop n (removal_order _ _)); set_solver).
        apply elem_of_removal_order in H' as [[_ H']%elem_of_keys_under _]. by apply under_spec.
      * by apply partial_removal_ok.
      * intros E. cbn. by rewrite E.
      * intros k. cbn. rewrite foldr_delete_lookup. destruct (decide _); auto.
    + split; [by apply change_next|by right].
  - rewrite bool_decide_eq_false_2 by apply abs_ne_dot. rewrite abs_no_dot_suffix by done. cbn [orb].
    cbn [next_call nodes proc]. destruct (locate _ _ _ (abs q)) as [q'|e'] eqn:E.
    + apply locate_abs_inv in E as [-> _]; [|apply Hok|done]. destruct q as [|c q]; [done|].
      cbn. split; [split; cbn|].
      * done.
      * intros k Hk. rewrite remove_tree_lookup. by destruct (under (c :: q) k).
      * by apply remove_tree_ok.
      * intros E. by rewrite E.
      * intros k. cbn. rewrite remove_tree_lookup. destruct (under (c :: q) k); auto.
    + split; [by apply change_next|by right].
Qed.

(** ** Renaming *)

(** The node at [k] after [a] has been renamed to [b]. *)
Definition renamed (a b : fpath) (t : tree) (k : fpath) : option node :=
  if under b k then t !! (a ++ drop (length b) k)
  else if under a k then None else t !! k.

Lemma moved_tree_lookup a b t k :
  moved_tree a b t !! k = if under b k then t !! (a ++ drop (length b) k) else None.
Proof.
  unfold moved_tree. set (l := map_to_list _). apply option_eq. intros n.
  rewrite <- elem_of_list_to_map.
  - rewrite list_elem_of_In, in_map_iff. split.
    + intros ([k' n'] & [= <- <-] & Hin). rewrite <- list_elem_of_In in Hin.
      apply elem_of_map_to_list, map_lookup_filter_Some in Hin as [Hk Hu].
      cbn [fst snd] in *. apply under_spec in Hu as [r ->]. rewrite drop_app_length, under_app, drop_app_length. done.
    + destruct (under b k) eqn:E; [|done]. intros Hk. apply under_spec in E as [r ->].
      rewrite drop_app_length in Hk. exists (a ++ r, n). cbn. rewrite drop_app_length. split; [done|].
      rewrite <- list_elem_of_In. apply elem_of_map_to_list, map_lookup_filter_Some.
      split; [done|apply under_app].
  - assert ((map (fun kv => (b ++ drop (length a) kv.1, kv.2)) l).*1 =
      (fun k => b ++ drop (length a) k) <$> l.*1) as ->.
    { clearbody l. induction l as [|kv l IH]; [done|]. cbn. by f_equal. }
    apply NoDup_fmap_2_strong; [|apply NoDup_fst_map_to_list].
    intros x y Hx Hy H. apply app_inv_head in H.
    assert (forall z, z ∈ l.*1 -> under a z = true) as Hu.
    { intros z ([z' n'] & -> & Hz)%list_elem_of_fmap. apply elem_of_map_to_list in Hz.
      by apply map_lookup_filter_Some in Hz as [_ Hz]. }
    apply Hu, under_spec in Hx as [r ->]. apply Hu, under_spec in Hy as [r' ->].
    rewrite !drop_app_length in H. by rewrite H.
Qed.

Lemma rename_tree_lookup a b t k : rename_tree a b t !! k = renamed a b t k.
Proof.
  unfold rename_tree, renamed. rewrite lookup_union, moved_tree_lookup, !remove_tree_lookup.
  destruct (under b k); [by destruct (t !! _)|]. destruct (under a k); [done|]. by destruct (t !! k).
Qed.

Lemma rename_tree_ok a b t n :
  tree_ok t -> t !! a = Some n -> a <> [] -> has_parent t b -> dir_at t b = false ->
  under a b = false -> tree_ok (rename_tree a b t).
Proof.
  intros [Hwf Hnl] Ha Hane Hb Hbd Hab. destruct (has_parent_plain _ _ Hwf Hb) as [_ Hbne].
  destruct Hb as (pb & cb & mb & -> & Hcb & Hpb).
  assert (forall q, q <> [] -> under q [] = false) as Hnil
    by (intros q Hq; apply not_true_iff_false; intros H%under_length; by destruct q; [|simpl in H; lia]).
  assert (forall k, under (pb ++ [cb]) k = true -> is_Some (t !! k) -> k = pb ++ [cb]) as Hleaf
    by (intros k Hu [n' Hk]; by eapply leaf_under).
  split; [split|].
  - rewrite rename_tree_lookup. unfold renamed. rewrite !Hnil by done. apply (wf_root _ Hwf).
  - intros p c n'. setoid_rewrite rename_tree_lookup. unfold renamed.
    destruct (under (pb ++ [cb]) (p ++ [c])) eqn:Eb.
    + destruct (under_snoc _ _ _ Eb) as [E|E].
      * apply app_inj_tail in E as [<- <-]. intros _. split; [done|]. exists mb.
        destruct (under (pb ++ [cb]) pb) eqn:E1.
        { apply under_length in E1. rewrite length_app in E1. simpl in E1. lia. }
        destruct (under a pb) eqn:E2; [|done]. by rewrite under_child in Hab.
      * rewrite E. apply under_spec in E as [r ->]. rewrite drop_app_length, <- app_assoc, drop_app_length.
        intros Hk. rewrite app_assoc in Hk. by apply (wf_parent _ Hwf) in Hk.
    + destruct (under a (p ++ [c])) eqn:Ea; [done|]. intros Hk.
      apply (wf_parent _ Hwf) in Hk as [Hc [m Hm]]. split; [done|]. exists m.
      destruct (under (pb ++ [cb]) p) eqn:E1; [by rewrite under_child in Eb|].
      destruct (under a p) eqn:E2; [by rewrite under_child in Ea|done].
  - intros k n'. rewrite rename_tree_lookup. unfold renamed.
    destruct (under _ k); [apply Hnl|]. destruct (under a k); [done|apply Hnl].
Qed.

(** The conditions under which a node can be renamed. *)
Record can_rename (t : tree) (a b : fpath) : Prop := {
  cr_src : is_Some (t !! a);
  cr_root : a <> [];
  cr_parent : has_parent t b;
  cr_free : t !! b = None \/ (dir_at t a = false /\ dir_at t b = false);
  cr_apart : under a b = false
}.

Lemma os_Rename_run a b w :
  tree_ok (nodes w) -> faults w = [] -> can_rename (nodes w) a b ->
  os_Rename (abs a) (abs b) w = (Ok tt, Os (rename_tree a b (nodes w)) (proc w) []).
Proof.
  intros Hok Hf [[n Ha] Hane Hb Hfree Hab]. unfold os_Rename.
  rewrite syscall_eq, Hf, next_call_id by done. cbn [head default].
  rewrite (locate_abs_ex _ _ _ a n) by (try apply Hok; try done; by eapply (proj2 Hok)).
  rewrite (locate_abs _ _ _ b) by (try done; apply Hok).
  rewrite bool_decide_eq_false_2 by done. rewrite Ha.
  assert (a <> b) as Hne by (intros <-; by rewrite under_refl in Hab).
  rewrite (bool_decide_eq_false_2 (a = b)), Hab by done.
  assert (set_nodes (rename_tree a b (nodes w)) w = (tt, Os (rename_tree a b (nodes w)) (proc w) [])) as ->
    by (unfold set_nodes, modify; cbn; by rewrite Hf).
  destruct Hfree as [->|[Hda Hdb]]; [by destruct n|].
  unfold dir_at in Hda, Hdb. rewrite Ha in Hda.
  destruct n; [done|by destruct (nodes w !! b) as [[]|]|by destruct (nodes w !! b) as [[]|]].
Qed.

(** Whatever fails: nothing happened, or the node was renamed. *)
Lemma os_Rename_change a b w :
  tree_ok (nodes w) -> Forall plain a -> Forall plain b ->
  let '(r, w') := os_Rename (abs a) (abs b) w in
  change (fun k => under a k = true \/ under b k = true) w w' /\
  (nodes w' = nodes w \/
   (forall k, nodes w' !! k = renamed a b (nodes w) k)).
Proof.
  intros Hok Ha Hb. unfold os_Rename. rewrite syscall_eq.
  set (Post := fun x : result unit * os =>
    change (fun k => under a k = true \/ under b k = true) w (snd x) /\
    (nodes (snd x) = nodes w \/ (forall k, nodes (snd x) !! k = renamed a b (nodes w) k))).
  match goal with |- let '(_, _) := ?x in _ => enough (Post x) by (by destruct x) end.
  assert (forall r, Post (r, next_call w)) as Hsame by (split; [by apply change_next|by left]).
  destruct (default None (head (faults w))) as [[n e]|] eqn:Ef; [apply Hsame|].
  cbn zeta. destruct (locate (nodes (next_call w)) _ _ (abs a)) as [qa|e] eqn:Ea;
    [|by destruct (locate (nodes (next_call w)) (cwd (proc (next_call w))) false (abs b))].
  destruct (locate (nodes (next_call w)) _ _ (abs b)) as [qb|e] eqn:Eb; [|done].
  apply locate_abs_inv in Ea as [-> Hta]; [|apply Hok|done].
  apply locate_abs_inv in Eb as [-> Htb]; [|apply Hok|done].
  case_bool_decide as Hane; [done|].
  cbn [next_call nodes] in *. fold (next_call w).
  destruct (nodes w !! a) as [n|] eqn:Hna; [|done].
  assert (dir_at (nodes w) b = false ->
    Post (if bool_decide (a = b) then (Ok tt, next_call w)
      else if under a b then (Err EINVAL, next_call w)
      else (Ok tt, snd (set_nodes (rename_tree a b (nodes w)) (next_call w))))) as Hgo.
  { case_bool_decide; [done|]. destruct (under a b) eqn:Hab; [done|]. intros Hd.
    assert (has_parent (nodes w) b) as Hp.
    { apply through_has_parent; [apply Hok|done|done|]. intros ->.
      destruct (wf_root _ (proj1 Hok)) as [m Hm]. unfold dir_at in Hd. by rewrite Hm in Hd. }
    split; [|right; intros k; cbn; apply rename_tree_lookup].
    split; cbn; [done| |by eapply rename_tree_ok|by intros ->].
    intros k Hk. rewrite rename_tree_lookup. unfold renamed.
    destruct (under b k); [exfalso; auto|]. destruct (under a k); [exfalso; auto|done]. }
  unfold dir_at in Hgo.
  destruct (nodes w !! b) as [[m'|d' m'|tg' m']|], n; first [done | by apply Hgo].
Qed.
