(* ===== verification/TtlCache.v ===== *)
(** * Package [ttlcache]: the cache with expiration

    The items are a map from keys to values with a creation instant, in
    nanoseconds of the monotonic clock.  Each operation is first given whole, and
    then as the critical sections in which other goroutines see it: [Get] releases
    its read lock before it takes the write lock that deletes an expired item. *)

From S2P Require Import Prelude.

Local Open Scope Z_scope.

Section ttlcache.
Context {V : Type}.

Record cacheItem := CacheItem { createdAt : Z; value : V }.

Record TimedCache := MkCache {
  interval : Z;
  stopChan : bool;                (* the channel is closed *)
  items : gmap bytes cacheItem
}.

(** The cleanup goroutine of a new cache starts a ticker, which panics when the
    interval is not positive. *)
Definition NewTimedCache (d : Z) : outcome TimedCache :=
  if d <=? 0 then Panic else Ret (MkCache d false ∅).

Definition set_items (c : TimedCache) (m : gmap bytes cacheItem) : TimedCache :=
  MkCache (interval c) (stopChan c) m.

Definition Set_ (now : Z) (key : bytes) (v : V) : State TimedCache unit :=
  modify (fun c => set_items c (<[key := CacheItem now v]> (items c))).

(** The read-locked part of [Get] and the age test, at instant [now]. *)
Inductive lookup_result := Miss | Hit (v : V) | Expired.

Definition get_lookup (now : Z) (key : bytes) (c : TimedCache) : lookup_result :=
  match items c !! key with
  | None => Miss
  | Some it => if interval c <=? now - createdAt it then Expired else Hit (value it)
  end.

(** The write-locked part of [Get]. *)
Definition get_delete (key : bytes) : State TimedCache unit :=
  modify (fun c => set_items c (delete key (items c))).

Definition Get (now : Z) (key : bytes) : State TimedCache (option V) :=
  r ← gets (get_lookup now key);
  match r with
  | Miss => mret None
  | Hit v => mret (Some v)
  | Expired => get_delete key;; mret None
  end.

(** The clock is read again for every item of the loop: [now k] is the instant at
    which the item of key [k] is examined. *)
Definition is_live (d : Z) (now : bytes -> Z) (p : bytes * cacheItem) : bool :=
  now p.1 - createdAt p.2 <=? d.

Definition DeleteExpired (now : bytes -> Z) : State TimedCache unit :=
  modify (fun c => set_items c (filter (fun p => is_live (interval c) now p = true) (items c))).

(** [close] of a closed channel panics. *)
Definition StopCleanup : State TimedCache (outcome unit) := fun c =>
  if stopChan c then (Panic, c) else (Ret tt, MkCache (interval c) true (items c)).

(** One turn of the cleanup goroutine on a tick; [false] when it has returned. *)
Definition cleanup_tick (now : bytes -> Z) : State TimedCache bool := fun c =>
  if stopChan c then (false, c) else let '(_, c') := DeleteExpired now c in (true, c').

(** ** The contract

    The abstract cache only remembers the last [Set] of each key; a key is present
    while it is younger than the interval. *)

Local Abbreviation history := (gmap bytes cacheItem).

Definition spec_Get (d now : Z) (key : bytes) (h : history) : option V :=
  match h !! key with
  | Some it => if now - createdAt it <? d then Some (value it) else None
  | None => None
  end.

(** The cache at an instant: it holds the last [Set] of a key, or nothing if that
    has expired. *)
Definition represents (now : Z) (h : history) (c : TimedCache) : Prop :=
  forall k, items c !! k = h !! k \/
    (items c !! k = None /\ exists it, h !! k = Some it /\ interval c <= now - createdAt it).

Lemma represents_later now now' h c : now <= now' -> represents now h c -> represents now' h c.
Proof.
  intros Hn Hr k. destruct (Hr k) as [?|(? & it & ? & ?)]; [by left|]. right. split; [done|].
  exists it. split; [done | lia].
Qed.

Lemma represents_get_lookup now h c k :
  represents now h c ->
  match get_lookup now k c with Hit v => Some v | _ => None end = spec_Get (interval c) now k h.
Proof.
  intros Hr. unfold get_lookup, spec_Get. destruct (Hr k) as [-> | (-> & it & -> & Hage)].
  - destruct (h !! k) as [it|]; [|done].
    by destruct (Z.leb_spec (interval c) (now - createdAt it)),
      (Z.ltb_spec (now - createdAt it) (interval c)); try lia.
  - by destruct (Z.ltb_spec (now - createdAt it) (interval c)); [lia|].
Qed.

Lemma represents_delete now h c k :
  represents now h c -> get_lookup now k c = Expired ->
  represents now h (set_items c (delete k (items c))).
Proof.
  intros Hr Hg k'. simpl. destruct (decide (k' = k)) as [->|Hne].
  - right. rewrite lookup_delete_eq. split; [done|]. unfold get_lookup in Hg.
    destruct (Hr k) as [E|(E & it & Hit & Hage)]; [|by exists it].
    destruct (items c !! k) as [it|] eqn:Ei; [|done]. exists it. rewrite <- E. split; [done|].
    by destruct (Z.leb_spec (interval c) (now - createdAt it)).
  - rewrite lookup_delete_ne by done. apply Hr.
Qed.

Lemma represents_sweep now (clock : bytes -> Z) h c :
  (forall k, clock k <= now) -> represents now h c ->
  represents now h (snd (DeleteExpired clock c)).
Proof.
  intros Hclk Hr k. unfold DeleteExpired, modify. simpl. rewrite map_lookup_filter.
  destruct (Hr k) as [E|(E & Hit)]; [|right; rewrite E; done].
  rewrite E. destruct (h !! k) as [it|] eqn:Hh; [|by left]. simpl. case_guard as Hl.
  - by left.
  - right. split; [done|]. exists it. split; [done|]. simpl.
    unfold is_live in Hl. simpl in Hl. specialize (Hclk k).
    destruct (Z.leb_spec (clock k - createdAt it) (interval c)); [done | lia].
Qed.

(** *** Sequences of operations *)

Inductive op :=
  | OpSet (now : Z) (key : bytes) (v : V)
  | OpGet (now : Z) (key : bytes)
  | OpTick (from now : Z) (clock : bytes -> Z).

Definition op_time (o : op) : Z :=
  match o with OpSet now _ _ => now | OpGet now _ => now | OpTick _ now _ => now end.

(** The clock readings of a sweep lie between its start and its end. *)
Definition op_ok (t : Z) (o : op) : Prop :=
  t <= op_time o /\
  match o with OpTick from now clock => forall k, from <= clock k <= now | _ => True end.

Fixpoint ops_ok (t : Z) (os : list op) : Prop :=
  match os with
  | [] => True
  | o :: os' => op_ok t o /\ ops_ok (op_time o) os'
  end.

Definition run_op (o : op) : State TimedCache (option V) :=
  match o with
  | OpSet now key v => Set_ now key v;; mret None
  | OpGet now key => Get now key
  | OpTick _ _ clock => cleanup_tick clock;; mret None
  end.

Definition spec_op (d : Z) (o : op) : State history (option V) := fun h =>
  match o with
  | OpSet now key v => (None, <[key := CacheItem now v]> h)
  | OpGet now key => (spec_Get d now key h, h)
  | OpTick _ _ _ => (None, h)
  end.

Lemma run_op_refines o t h c :
  op_ok t o -> represents t h c ->
  let '(r, c') := run_op o c in
  let '(r', h') := spec_op (interval c) o h in
  r = r' /\ represents (op_time o) h' c' /\ interval c' = interval c.
Proof.
  intros [Ht Hok] Hr. apply (represents_later _ (op_time o)) in Hr; [|done].
  destruct o as [now key v|now key|from now clock]; simpl in *.
  - split; [done|]. split; [|done]. intros k. simpl.
    destruct (decide (k = key)) as [->|Hne].
    + left. by rewrite !lookup_insert_eq.
    + rewrite !lookup_insert_ne by done. apply Hr.
  - unfold Get, mbind, State_bind, gets. pose proof (represents_get_lookup now h c key Hr) as Hg.
    destruct (get_lookup now key c) eqn:E; (split; [exact Hg|]); (split; [|done]); [done..|].
    by apply represents_delete.
  - unfold cleanup_tick, mbind, State_bind. destruct (stopChan c); [done|].
    split; [done|]. split; [|done]. apply represents_sweep; [|done]. intros k. apply Hok.
Qed.

End ttlcache.
Arguments cacheItem : clear implicits.
Arguments TimedCache : clear implicits.
Arguments op : clear implicits.
Arguments lookup_result : clear implicits.

(** C9: with a clock that never goes back, a sequence of [Set], [Get] and cleanup
    ticks on a new cache answers every [Get] as the abstract cache does: with the
    value of the last [Set] of the key if and only if less than the interval has
    passed since.  The cleanup cannot be observed. *)
Theorem Get_sequential {V : Type} d (c : TimedCache V) os t :
  NewTimedCache d = Ret c -> ops_ok t os ->
  fst (st_mapM run_op os c) = fst (st_mapM (spec_op d) os ∅).
Proof.
  intros HN Hok.
  assert (d = interval c /\ represents t ∅ c) as [-> Hr].
  { unfold NewTimedCache in HN. destruct (d <=? 0); [done|]. injection HN as <-.
    split; [done|]. intros k. by left. }
  clear HN. generalize dependent c. generalize (∅ : gmap bytes (cacheItem V)). revert t Hok.
  induction os as [|o os IH]; intros t Hok h c Hr; [done|]. destruct Hok as [Ho Hos].
  pose proof (run_op_refines o t h c Ho Hr) as H.
  cbn [st_mapM]. unfold mbind, State_bind, mret, State_ret.
  destruct (run_op o c) as [r c']. destruct (spec_op (interval c) o h) as [r' h'].
  destruct H as (-> & Hr' & Hi). specialize (IH _ Hos h' c' Hr'). rewrite Hi in IH.
  destruct (st_mapM run_op os c') as [rs c'']. destruct (st_mapM (spec_op (interval c)) os h').
  simpl in *. by rewrite IH.
Qed.

(** An item set at 0 and kept for 10: present at 9 after a sweep, absent at 10. *)
Lemma Get_sequential_witness :
  fst (st_mapM run_op [OpSet 0 ($"k") 7; OpTick 8 9 (fun _ => 9); OpGet 9 ($"k"); OpGet 10 ($"k")]
         (MkCache 10 false ∅)) = [None; None; Some 7; None].
Proof.
  rewrite (Get_sequential 10 (MkCache 10 false ∅)
    [OpSet 0 ($"k") 7; OpTick 8 9 (fun _ => 9); OpGet 9 ($"k"); OpGet 10 ($"k")] 0);
    [reflexivity | reflexivity |].
  repeat split; simpl; lia.
Defined.

(** ** Goroutines

    A [Get] is three steps: the read under the read lock, the age test with a
    later reading of the clock, and the deletion under the write lock.  A
    configuration keeps the [Get]s in progress and, as history, all the calls of
    [Set] and the last one of each key. *)

Section concurrent.
Context {V : Type}.
Implicit Type k : bytes.

Inductive pending :=
  | ReadDone (key : bytes) (it : cacheItem V)   (* after [RUnlock] *)
  | MustDelete (key : bytes).                   (* before [Lock] *)

Record conc := Conc {
  clock : Z;
  cache : TimedCache V;
  gets_ : list pending;
  sets : list (bytes * cacheItem V);
  last : gmap bytes (cacheItem V)
}.

Inductive event :=
  | ESilent
  | ESet (key : bytes) (v : V)
  | EGet (key : bytes) (r : option V).

Inductive cstep (s : conc) : event -> conc -> Prop :=
  | c_time t :
      clock s <= t -> cstep s ESilent (Conc t (cache s) (gets_ s) (sets s) (last s))
  | c_set key v :
      cstep s (ESet key v)
        (Conc (clock s) (snd (Set_ (clock s) key v (cache s))) (gets_ s)
           ((key, CacheItem (clock s) v) :: sets s) (<[key := CacheItem (clock s) v]> (last s)))
  | c_get_miss key :
      items (cache s) !! key = None -> cstep s (EGet key None) s
  | c_get_read key it :
      items (cache s) !! key = Some it ->
      cstep s ESilent (Conc (clock s) (cache s) (ReadDone key it :: gets_ s) (sets s) (last s))
  | c_get_hit key it g1 g2 :
      gets_ s = g1 ++ ReadDone key it :: g2 ->
      clock s - createdAt it < interval (cache s) ->
      cstep s (EGet key (Some (value it))) (Conc (clock s) (cache s) (g1 ++ g2) (sets s) (last s))
  | c_get_expired key it g1 g2 :
      gets_ s = g1 ++ ReadDone key it :: g2 ->
      interval (cache s) <= clock s - createdAt it ->
      cstep s ESilent
        (Conc (clock s) (cache s) (g1 ++ MustDelete key :: g2) (sets s) (last s))
  | c_get_delete key g1 g2 :
      gets_ s = g1 ++ MustDelete key :: g2 ->
      cstep s (EGet key None)
        (Conc (clock s) (snd (get_delete key (cache s))) (g1 ++ g2) (sets s) (last s))
  | c_tick (clk : bytes -> Z) t :
      (forall k, clock s <= clk k <= t) ->
      cstep s ESilent (Conc t (snd (cleanup_tick clk (cache s))) (gets_ s) (sets s) (last s)).

Definition cstart (d t : Z) : conc := Conc t (MkCache d false ∅) [] [] ∅.

Definition cnext (s s' : conc) : Prop := exists e, cstep s e s'.

(** What holds whatever the interleaving: the cache never holds anything but last
    [Set]s, and what a [Get] has read was set. *)
Record cinv (d : Z) (s : conc) : Prop := {
  ci_interval : interval (cache s) = d;
  ci_last : items (cache s) ⊆ last s;
  ci_sets : forall key it, last s !! key = Some it -> (key, it) ∈ sets s;
  ci_read : forall key it, ReadDone key it ∈ gets_ s -> (key, it) ∈ sets s
}.

Lemma cleanup_tick_sub clk (c : TimedCache V) :
  items (snd (cleanup_tick clk c)) ⊆ items c /\
  interval (snd (cleanup_tick clk c)) = interval c.
Proof.
  unfold cleanup_tick. destruct (stopChan c); [done|]. split; [|done].
  apply map_filter_subseteq.
Qed.

Lemma elem_of_app_drop {A} (x y : A) l1 l2 : x ∈ l1 ++ l2 -> x ∈ l1 ++ y :: l2.
Proof. set_solver. Qed.

Lemma cinv_step d s e s' : cinv d s -> cstep s e s' -> cinv d s'.
Proof.
  intros [Hi Hl Hs Hr] Hst.
  destruct Hst as [t Ht|key v|key Hk|key it Hk|key it g1 g2 Hg Ha|key it g1 g2 Hg Ha
                  |key g1 g2 Hg|clk t Hc]; split; simpl; try done.
  - by apply insert_mono.
  - intros k it. rewrite lookup_insert. case_decide as E.
    + subst. intros [= <-]. by left.
    + intros H. right. by apply Hs.
  - intros k it H. right. by apply Hr.
  - intros k it' [H|H]%elem_of_cons; [|by apply Hr]. injection H as -> ->.
    apply Hs. eapply lookup_weaken; [exact Hk | exact Hl].
  - intros k it' H. apply Hr. rewrite Hg. by apply elem_of_app_drop.
  - intros k it' H. apply Hr. rewrite Hg. set_solver.
  - etrans; [apply delete_subseteq | done].
  - intros k it' H. apply Hr. rewrite Hg. by apply elem_of_app_drop.
  - by rewrite (proj2 (cleanup_tick_sub clk _)).
  - etrans; [apply cleanup_tick_sub | done].
Qed.

Lemma cinv_reach d t s : rtc cnext (cstart d t) s -> cinv d s.
Proof.
  intros Hr. assert (cinv d (cstart d t)) as Hi.
  { split; simpl; [done|done|intros k it H; by rewrite lookup_empty in H|].
    by intros k it ?%not_elem_of_nil. }
  revert Hi. induction Hr as [|s1 s2 s3 [e Hs] _ IH]; [done|].
  intros Hi. by apply IH, (cinv_step d s1 e).
Qed.

End concurrent.
Arguments conc : clear implicits.

(** In every interleaving of goroutines, a [Get] that returns a value returns
    one that was [Set] under that key less than the interval before the clock of
    its age test: no value of another key, and no expired value. *)
Theorem Get_hit_sound {V : Type} d t (s s' : conc V) key v :
  rtc cnext (cstart d t) s -> cstep s (EGet key (Some v)) s' ->
  exists it, (key, it) ∈ sets s /\ value it = v /\ clock s - createdAt it < d.
Proof.
  intros Hr Hs. apply cinv_reach in Hr as [Hi _ _ Hrd].
  inversion Hs as [| | | |key' it g1 g2 Hg Ha| | |]; subst.
  exists it. split; [|split; [done | lia]]. apply Hrd. rewrite Hg. set_solver.
Qed.

Lemma Get_hit_sound_witness :
  exists it, (($"k", it) : bytes * cacheItem Z) ∈ [($"k", CacheItem 0 7)] /\
    value it = 7 /\ 5 - createdAt it < 10.
Proof.
  set (s := Conc 5 (MkCache 10 false {[ $"k" := CacheItem 0 7 ]}) [ReadDone ($"k") (CacheItem 0 7)]
              [($"k", CacheItem 0 7)] {[ $"k" := CacheItem 0 7 ]}).
  apply (Get_hit_sound 10 0 s (Conc 5 (cache s) [] (sets s) (last s)) ($"k") 7).
  - eapply rtc_l; [exists (ESet ($"k") 7); apply c_set|].
    eapply rtc_l; [exists ESilent; by apply (c_get_read _ ($"k") (CacheItem 0 7))|].
    eapply rtc_l; [exists ESilent; by apply (c_time _ 5)|]. apply rtc_refl.
  - by apply (c_get_hit s ($"k") (CacheItem 0 7) [] []).
Defined.

(** A [Get] that finds an expired item can delete a newer one: between its
    age test and its deletion another goroutine sets the key again, and the fresh
    item, younger than the interval and never overwritten, is gone. *)
Theorem Get_race_deletes_fresh {V : Type} d key (old new : V) :
  0 < d ->
  exists s : conc V,
    rtc cnext (cstart d 0) s /\ gets_ s = [] /\
    last s !! key = Some (CacheItem d new) /\ clock s - d < d /\
    cstep s (EGet key None) s.
Proof.
  intros Hd.
  exists (Conc d (snd (get_delete key (snd (Set_ d key new (snd (Set_ 0 key old (MkCache d false ∅)))))))
            [] [(key, CacheItem d new); (key, CacheItem 0 old)]
            (<[key := CacheItem d new]> (<[key := CacheItem 0 old]> ∅))).
  split; [|split; [done|split; [simpl; by rewrite lookup_insert_eq|split; [simpl; lia|]]]].
  - eapply rtc_l; [exists (ESet key old); apply c_set|].
    eapply rtc_l; [exists ESilent; apply (c_get_read _ key (CacheItem 0 old)), lookup_insert_eq|].
    eapply rtc_l; [exists ESilent; apply (c_time _ d); simpl; lia|].
    eapply rtc_l; [exists ESilent; apply (c_get_expired _ key (CacheItem 0 old) [] []); simpl; [done|lia]|].
    eapply rtc_l; [exists (ESet key new); apply c_set|].
    eapply rtc_l; [exists (EGet key None); by apply (c_get_delete _ key [] [])|]. apply rtc_refl.
  - apply c_get_miss. simpl. by rewrite lookup_delete_eq.
Qed.

Lemma Get_race_deletes_fresh_witness :
  exists s : conc Z, rtc cnext (cstart 10 0) s /\ gets_ s = [] /\
    last s !! ($"k") = Some (CacheItem 10 2) /\ clock s - 10 < 10 /\ cstep s (EGet ($"k") None) s.
Proof. apply (Get_race_deletes_fresh 10 ($"k") 1 2). lia. Defined.
