(* ===== verification/SftpPool.v ===== *)
(** * Package [webssh]: the connection pool of [SFTPClient]

    The pool maps [user@addr] to a pointer to an entry.  The connection of an
    entry never changes, so a pointer is modelled by its address and its
    connection; [lastUsed], which goroutines write through the pointer, is in a
    heap by address.  Each critical section of [sftp_client.go] is one function on
    the pool; goroutines are the program points between the critical sections. *)

From S2P Require Import Prelude GoTime.

Local Open Scope Z_scope.

(** ** The pool and its critical sections *)

Record sftpEntry := Entry { addr : nat; conn : nat }.

#[export] Instance sftpEntry_eq_dec : EqDecision sftpEntry.
Proof. solve_decision. Defined.

Record pool := Pool {
  idleTimeout : Z;
  entries : gmap bytes sftpEntry;
  lastUsed : gmap nat Z;
  heap_next : nat;               (* the next address *)
  stopCh : bool                  (* the channel is closed *)
}.

Definition set_entries (p : pool) (m : gmap bytes sftpEntry) : pool :=
  Pool (idleTimeout p) m (lastUsed p) (heap_next p) (stopCh p).

(** The ticker of [evictLoop] panics when a third of the timeout is zero. *)
Definition NewSFTPClient (d : Z) : outcome pool :=
  let d := if d <=? 0 then 30 * Second else d in
  if Z.quot d 3 <=? 0 then Panic else Ret (Pool d ∅ ∅ 0 false).

(** [cur, still := c.entries[key]; still && cur == e].  Every entry has its own
    address, so equal pointers are equal pairs of address and connection. *)
Definition is_current (key : bytes) (e : sftpEntry) (p : pool) : bool :=
  match entries p !! key with
  | Some cur => bool_decide (cur = e)
  | None => false
  end.

Definition pool_touch (key : bytes) (e : sftpEntry) (now : Z) (p : pool) : pool :=
  if is_current key e p then
    Pool (idleTimeout p) (entries p) (<[addr e := now]> (lastUsed p)) (heap_next p) (stopCh p)
  else p.

(** [true] when the caller must close the connection of the entry. *)
Definition pool_drop (key : bytes) (e : sftpEntry) (p : pool) : bool * pool :=
  if is_current key e p then (true, set_entries p (delete key (entries p))) else (false, p).

(** The existing connection when there is one; else the new one is stored. *)
Definition pool_insert (key : bytes) (c : nat) (now : Z) (p : pool) : option nat * pool :=
  match entries p !! key with
  | Some existing => (Some (conn existing), p)
  | None =>
      let a := heap_next p in
      (None, Pool (idleTimeout p) (<[key := Entry a c]> (entries p)) (<[a := now]> (lastUsed p))
               (S a) (stopCh p))
  end.

(** [invalidate]: the connection to close, under the lock. *)
Definition pool_remove (key : bytes) (p : pool) : option nat * pool :=
  match entries p !! key with
  | Some e => (Some (conn e), set_entries p (delete key (entries p)))
  | None => (None, p)
  end.

Definition conns_of (m : gmap bytes sftpEntry) : list nat :=
  map (fun kv => conn (snd kv)) (map_to_list m).

Definition pool_conns (p : pool) : list nat := conns_of (entries p).

(** [Close] takes all connections out. *)
Definition pool_take_all (p : pool) : list nat * pool := (pool_conns p, set_entries p ∅).

(** The sweep of [evictLoop]; the clock is read for each entry. *)
Definition is_idle (p : pool) (now : bytes -> Z) (kv : bytes * sftpEntry) : bool :=
  idleTimeout p <? now kv.1 - default 0 (lastUsed p !! addr kv.2).

Definition pool_expire (now : bytes -> Z) (p : pool) : list nat * pool :=
  (conns_of (filter (fun kv => is_idle p now kv = true) (entries p)),
   set_entries p (filter (fun kv => is_idle p now kv = false) (entries p))).

(** ** Goroutines *)

Inductive thread :=
  | TGet (key : bytes)                        (* [getConn], before the lookup *)
  | TProbe (key : bytes) (e : sftpEntry)      (* before [e.conn.Getwd()] *)
  | TTouch (key : bytes) (e : sftpEntry)      (* the probe succeeded *)
  | TDrop (key : bytes) (e : sftpEntry)       (* the probe failed *)
  | TCloseOld (key : bytes) (c : nat)         (* before [e.conn.Close()] *)
  | TDial (key : bytes)
  | TInsert (key : bytes) (c : nat)           (* dialled *)
  | TDiscard (key : bytes) (c existing : nat) (* before [conn.Close()] *)
  | TUse (key : bytes) (c : nat)              (* [getConn] has returned *)
  | TInval (key : bytes)                      (* before [invalidate] *)
  | TCloseAll                                 (* [Close], after [close(c.stopCh)] *)
  | TClosing (cs : list nat)                  (* [Close], closing outside the lock *)
  | TEvict                                    (* [evictLoop], in its [select] *)
  | TEvicting (cs : list nat).                (* [evictLoop], closing *)

(** What goroutines share, with the history: the connections opened so far are
    [0 .. opened - 1], and [closed] lists the calls of [Close] on connections. *)
Record shared := Shared { sh_now : Z; sh_pool : pool; opened : nat; closed : list nat }.

Definition with_pool (g : shared) (p : pool) : shared := Shared (sh_now g) p (opened g) (closed g).
Definition close_conn (g : shared) (c : nat) : shared :=
  Shared (sh_now g) (sh_pool g) (opened g) (closed g ++ [c]).

(** One step of one goroutine; [None] when it has ended. *)
Inductive tstep (g : shared) : thread -> shared -> option thread -> Prop :=
  | t_lookup_hit key e :
      entries (sh_pool g) !! key = Some e -> tstep g (TGet key) g (Some (TProbe key e))
  | t_lookup_miss key :
      entries (sh_pool g) !! key = None -> tstep g (TGet key) g (Some (TDial key))
  | t_probe_ok key e : tstep g (TProbe key e) g (Some (TTouch key e))
  | t_probe_fail key e : tstep g (TProbe key e) g (Some (TDrop key e))
  | t_touch key e :
      tstep g (TTouch key e) (with_pool g (pool_touch key e (sh_now g) (sh_pool g)))
        (Some (TUse key (conn e)))
  | t_drop key e b p :
      pool_drop key e (sh_pool g) = (b, p) ->
      tstep g (TDrop key e) (with_pool g p)
        (Some (if b then TCloseOld key (conn e) else TDial key))
  | t_close_old key c : tstep g (TCloseOld key c) (close_conn g c) (Some (TDial key))
  | t_dial_fail key : tstep g (TDial key) g None
  | t_dial key :
      tstep g (TDial key) (Shared (sh_now g) (sh_pool g) (S (opened g)) (closed g))
        (Some (TInsert key (opened g)))
  | t_insert key c r p :
      pool_insert key c (sh_now g) (sh_pool g) = (r, p) ->
      tstep g (TInsert key c) (with_pool g p)
        (Some (match r with Some existing => TDiscard key c existing | None => TUse key c end))
  | t_discard key c existing :
      tstep g (TDiscard key c existing) (close_conn g c) (Some (TUse key existing))
  | t_use_done key c : tstep g (TUse key c) g None
  | t_use_fail key c : tstep g (TUse key c) g (Some (TInval key))
  | t_inval key r p :
      pool_remove key (sh_pool g) = (r, p) ->
      tstep g (TInval key)
        (match r with Some c => close_conn (with_pool g p) c | None => with_pool g p end) None
  | t_close_all cs p :
      pool_take_all (sh_pool g) = (cs, p) ->
      tstep g TCloseAll (with_pool g p) (Some (TClosing cs))
  | t_closing c cs : tstep g (TClosing (c :: cs)) (close_conn g c) (Some (TClosing cs))
  | t_closed : tstep g (TClosing []) g None
  | t_evict now t cs p :
      pool_expire now (sh_pool g) = (cs, p) -> (forall k, sh_now g <= now k <= t) ->
      tstep g TEvict (Shared t p (opened g) (closed g)) (Some (TEvicting cs))
  | t_evict_stop : stopCh (sh_pool g) = true -> tstep g TEvict g None
  | t_evicting c cs : tstep g (TEvicting (c :: cs)) (close_conn g c) (Some (TEvicting cs))
  | t_evicted : tstep g (TEvicting []) g (Some TEvict).

Record cfg := Cfg { sh : shared; threads : list thread }.

Definition stop (g : shared) : shared :=
  let p := sh_pool g in
  with_pool g (Pool (idleTimeout p) (entries p) (lastUsed p) (heap_next p) true).

(** A goroutine moves, time passes, a call of [getConn] starts, or a call of
    [Close] starts, which panics unless it is the first one. *)
Inductive step (s : cfg) : cfg -> Prop :=
  | s_thread l1 t l2 g' t' :
      threads s = l1 ++ t :: l2 -> tstep (sh s) t g' t' ->
      step s (Cfg g' (l1 ++ option_list t' ++ l2))
  | s_time now :
      sh_now (sh s) <= now ->
      step s (Cfg (Shared now (sh_pool (sh s)) (opened (sh s)) (closed (sh s))) (threads s))
  | s_getConn key : step s (Cfg (sh s) (threads s ++ [TGet key]))
  | s_Close :
      stopCh (sh_pool (sh s)) = false -> step s (Cfg (stop (sh s)) (threads s ++ [TCloseAll])).

Definition start (p : pool) : cfg := Cfg (Shared 0 p 0 []) [TEvict].

(** ** Every connection has one owner *)

(** The connections a goroutine holds and is about to store or close. *)
Definition owned (t : thread) : list nat :=
  match t with
  | TCloseOld _ c | TInsert _ c | TDiscard _ c _ => [c]
  | TClosing cs | TEvicting cs => cs
  | _ => []
  end.

Definition all_owned (ts : list thread) : list nat := flat_map owned ts.

(** The connections that have been opened are those of the pool, those a goroutine
    is about to store or close, and the closed ones, each counted once. *)
Definition accounted (g : shared) (held : list nat) : Prop :=
  seq 0 (opened g) ≡ₚ pool_conns (sh_pool g) ++ held ++ closed g.

Lemma conns_of_insert m key e :
  m !! key = None -> conns_of (<[key := e]> m) ≡ₚ conn e :: conns_of m.
Proof. intros H. unfold conns_of. by rewrite map_to_list_insert. Qed.

Lemma conns_of_delete m key e :
  m !! key = Some e -> conns_of m ≡ₚ conn e :: conns_of (delete key m).
Proof. intros H. unfold conns_of. by rewrite <- (map_to_list_delete m key e H). Qed.

Lemma conns_of_filter (f : bytes * sftpEntry -> bool) m :
  conns_of m ≡ₚ conns_of (filter (fun kv => f kv = true) m) ++
                conns_of (filter (fun kv => f kv = false) m).
Proof.
  induction m as [|key e m Hm IH] using map_ind; [done|].
  rewrite conns_of_insert, IH by done. destruct (f (key, e)) eqn:E.
  - rewrite (map_filter_insert_True (fun kv => f kv = true)) by done.
    rewrite (map_filter_insert_False (fun kv => f kv = false)) by (simpl; congruence).
    rewrite delete_id by done.
    rewrite conns_of_insert by (by apply map_lookup_filter_None_2; left). done.
  - rewrite (map_filter_insert_False (fun kv => f kv = true)) by (simpl; congruence).
    rewrite (map_filter_insert_True (fun kv => f kv = false)) by done.
    rewrite delete_id by done.
    rewrite conns_of_insert by (by apply map_lookup_filter_None_2; left).
    solve_Permutation.
Qed.

Lemma pool_conns_touch key e now p : pool_conns (pool_touch key e now p) = pool_conns p.
Proof. unfold pool_touch. by destruct (is_current key e p). Qed.

Lemma pool_remove_conns key p :
  let '(r, p') := pool_remove key p in pool_conns p ≡ₚ option_list r ++ pool_conns p'.
Proof.
  unfold pool_remove, pool_conns. destruct (entries p !! key) eqn:E; [|done].
  simpl. by apply conns_of_delete.
Qed.

Lemma pool_insert_conns key c now p :
  let '(r, p') := pool_insert key c now p in
  pool_conns p' ≡ₚ (if r is Some _ then [] else [c]) ++ pool_conns p.
Proof.
  unfold pool_insert, pool_conns. destruct (entries p !! key) eqn:E; [done|].
  simpl. by apply conns_of_insert.
Qed.

Lemma pool_drop_conns key e p :
  let '(b, p') := pool_drop key e p in
  pool_conns p ≡ₚ (if b : bool then [conn e] else []) ++ pool_conns p'.
Proof.
  unfold pool_drop, is_current, pool_conns. destruct (entries p !! key) as [cur|] eqn:E; [|done].
  case_bool_decide; [|done]. subst. simpl. by apply conns_of_delete.
Qed.

Lemma pool_expire_conns now p :
  let '(cs, p') := pool_expire now p in pool_conns p ≡ₚ cs ++ pool_conns p'.
Proof. apply conns_of_filter. Qed.

(** What a step of one goroutine does to the accounts. *)
Lemma tstep_accounted g t g' t' held :
  tstep g t g' t' -> accounted g (owned t ++ held) -> accounted g' (all_owned (option_list t') ++ held).
Proof.
  unfold accounted. intros Hs Ha.
  destruct Hs as [| | | |key e|key e b p Hp|key c| |key|key c r p Hp|key c ex| | |key r p Hp
                 |cs p Hp|c cs| |now t cs p Hp Hc| |c cs|]; simpl in *;
    rewrite ?pool_conns_touch, ?app_nil_r; try exact Ha.
  - pose proof (pool_drop_conns key e (sh_pool g)) as H. rewrite Hp in H. rewrite Ha, H.
    destruct b; simpl; solve_Permutation.
  - rewrite Ha. solve_Permutation.
  - change (0 :: seq 1 (opened g))%nat with (seq 0 (S (opened g))).
    rewrite seq_S, Ha. simpl. solve_Permutation.
  - pose proof (pool_insert_conns key c (sh_now g) (sh_pool g)) as H. rewrite Hp in H.
    rewrite Ha, H. destruct r; simpl; solve_Permutation.
  - rewrite Ha. solve_Permutation.
  - pose proof (pool_remove_conns key (sh_pool g)) as H. rewrite Hp in H.
    destruct r; simpl in *; rewrite Ha, H; solve_Permutation.
  - injection Hp as <- <-. rewrite Ha. unfold pool_conns at 2, conns_of. simpl.
    rewrite map_to_list_empty. simpl. solve_Permutation.
  - rewrite Ha. solve_Permutation.
  - pose proof (pool_expire_conns now (sh_pool g)) as H. rewrite Hp in H. rewrite Ha, H.
    solve_Permutation.
  - rewrite Ha. solve_Permutation.
Qed.

Lemma step_accounted s s' :
  step s s' -> accounted (sh s) (all_owned (threads s)) -> accounted (sh s') (all_owned (threads s')).
Proof.
  intros Hs Ha. destruct Hs as [l1 t l2 g' t' Ht Hst|now Hn|key|Hst]; simpl.
  - rewrite Ht in Ha. unfold all_owned in Ha. rewrite flat_map_app in Ha. simpl in Ha.
    assert (accounted (sh s) (owned t ++ flat_map owned l1 ++ flat_map owned l2)) as Ha'.
    { unfold accounted in *. rewrite Ha. solve_Permutation. }
    eapply tstep_accounted in Ha'; [|exact Hst].
    unfold accounted, all_owned in *. rewrite Ha', !flat_map_app. solve_Permutation.
  - exact Ha.
  - unfold accounted, all_owned in *. rewrite Ha, flat_map_app. simpl. by rewrite app_nil_r.
  - unfold accounted, all_owned in *. simpl. rewrite flat_map_app. simpl. by rewrite app_nil_r.
Qed.

Lemma reach_accounted d p s :
  NewSFTPClient d = Ret p -> rtc step (start p) s -> accounted (sh s) (all_owned (threads s)).
Proof.
  intros HN Hr.
  assert (accounted (sh (start p)) (all_owned (threads (start p)))) as Ha.
  { unfold NewSFTPClient in HN. destruct (Z.quot _ 3 <=? 0); [done|]. injection HN as <-.
    unfold accounted, pool_conns, conns_of. simpl. by rewrite map_to_list_empty. }
  revert Ha. induction Hr as [|s1 s2 s3 Hs _ IH]; [done|]. eauto using step_accounted.
Qed.

(** ** Goroutines make progress *)

(** The steps left to a goroutine that runs one operation: [getConn], the use of
    the connection, and [invalidate] after an error. *)
Definition rank (t : thread) : nat :=
  match t with
  | TGet _ => 9
  | TProbe _ _ => 8
  | TTouch _ _ | TDrop _ _ => 7
  | TCloseOld _ _ => 6
  | TDial _ => 5
  | TInsert _ _ => 4
  | TDiscard _ _ _ => 3
  | TUse _ _ => 2
  | TInval _ => 1
  | _ => 0
  end.

Lemma tstep_progress g t : exists g' t', tstep g t g' t'.
Proof.
  destruct t as [key|key e|key e|key e|key c|key|key c|key c ex|key c|key| |[|c cs]| |[|c cs]].
  - destruct (entries (sh_pool g) !! key) eqn:E; do 2 eexists;
      [by apply t_lookup_hit | by apply t_lookup_miss].
  - do 2 eexists; apply t_probe_ok.
  - do 2 eexists; apply t_touch.
  - destruct (pool_drop key e (sh_pool g)) eqn:E. do 2 eexists; by apply t_drop.
  - do 2 eexists; apply t_close_old.
  - do 2 eexists; apply t_dial.
  - destruct (pool_insert key c (sh_now g) (sh_pool g)) eqn:E. do 2 eexists; by apply t_insert.
  - do 2 eexists; apply t_discard.
  - do 2 eexists; apply t_use_done.
  - destruct (pool_remove key (sh_pool g)) eqn:E. do 2 eexists; by apply t_inval.
  - destruct (pool_take_all (sh_pool g)) eqn:E. do 2 eexists; by apply t_close_all.
  - do 2 eexists; apply t_closed.
  - do 2 eexists; apply t_closing.
  - destruct (pool_expire (fun _ => sh_now g) (sh_pool g)) eqn:E. do 2 eexists.
    apply (t_evict g (fun _ => sh_now g) (sh_now g)); [done | lia].
  - do 2 eexists; apply t_evicted.
  - do 2 eexists; apply t_evicting.
Qed.

(** ** Properties *)

(** C3: in every interleaving of operations, evictions and [Close], no connection
    is closed twice, the pool holds no closed connection, and no connection is
    lost: each one ever opened is closed, or in the pool, or held by a goroutine
    whose next steps close it or store it. *)
Theorem pool_ownership d p s :
  NewSFTPClient d = Ret p -> rtc step (start p) s ->
  NoDup (closed (sh s)) /\
  (forall key e, entries (sh_pool (sh s)) !! key = Some e -> conn e ∉ closed (sh s)) /\
  (forall c, (c < opened (sh s))%nat ->
     c ∈ closed (sh s) \/ (exists key e, entries (sh_pool (sh s)) !! key = Some e /\ conn e = c) \/
     exists t, t ∈ threads s /\ c ∈ owned t).
Proof.
  intros HN Hr. apply (reach_accounted d) in Hr; [|done]. unfold accounted in Hr.
  assert (NoDup (pool_conns (sh_pool (sh s)) ++ all_owned (threads s) ++ closed (sh s))) as Hnd
    by (rewrite <- Hr; apply NoDup_seq).
  assert (forall key e, entries (sh_pool (sh s)) !! key = Some e <->
            (key, e) ∈ map_to_list (entries (sh_pool (sh s)))) as Hm
    by (intros; by rewrite elem_of_map_to_list).
  apply NoDup_app in Hnd as (_ & Hdisj & [_ [_ Hnd]]%NoDup_app).
  split; [done|]. split.
  - intros key e He Hc. apply (Hdisj (conn e)); [|set_solver].
    unfold pool_conns, conns_of. apply list_elem_of_fmap. exists (key, e). by rewrite <- Hm.
  - intros c Hc. assert (c ∈ seq 0 (opened (sh s))) as Hin by (apply elem_of_seq; lia).
    rewrite Hr in Hin. apply elem_of_app in Hin as [Hin|[Hin|Hin]%elem_of_app]; [| |by left].
    + right; left. unfold pool_conns, conns_of in Hin.
      apply list_elem_of_fmap in Hin as ([key e] & -> & He). exists key, e. by rewrite Hm.
    + right; right. unfold all_owned in Hin. apply list_elem_of_In, in_flat_map in Hin as (t & Ht & Hc').
      exists t. by rewrite !list_elem_of_In.
Qed.

(** An operation never waits for ever on the pool: from any shared state and
    under any scheduling a goroutine in [getConn] or [invalidate] has a next step,
    and each of its steps brings it nearer to its end, at most nine steps away. *)
Theorem getConn_terminates g t :
  (0 < rank t <= 9)%nat ->
  (exists g' t', tstep g t g' t') /\
  (forall g' t', tstep g t g' t' ->
     match t' with Some t' => (0 < rank t' < rank t)%nat | None => True end).
Proof.
  intros Hr. split; [apply tstep_progress|]. intros g' t' Hs.
  destruct Hs as [| | | | |key e b p H| | | |key c r p H| | | | | | | | | | |];
    simpl in *; try lia.
  - destruct b; simpl; lia.
  - destruct r; simpl; lia.
Qed.

Lemma getConn_terminates_witness :
  (exists g' t', tstep (Shared 0 (Pool 1 ∅ ∅ 0 false) 0 []) (TGet ($"u@h")) g' t') /\
  (forall g' t', tstep (Shared 0 (Pool 1 ∅ ∅ 0 false) 0 []) (TGet ($"u@h")) g' t' ->
     match t' with Some t' => (0 < rank t' < 9)%nat | None => True end).
Proof. apply (getConn_terminates _ (TGet ($"u@h"))). simpl. lia. Defined.

(** One step of the goroutine at position [l1 ++ t :: l2]. *)
Lemma run_thread s l1 t l2 g' t' s' :
  threads s = l1 ++ t :: l2 -> tstep (sh s) t g' t' ->
  rtc step (Cfg g' (l1 ++ option_list t' ++ l2)) s' -> rtc step s s'.
Proof. intros Ht Hs Hr. eapply rtc_l; [by eapply s_thread | exact Hr]. Qed.

(** A [getConn] that runs together with [Close] leaks its connection: it dials
    before and stores after [Close] has emptied the pool, and once all goroutines
    have ended, [evictLoop] included, the connection is open in a pool that
    nothing cleans any more. *)
Theorem Close_race_leak d key :
  0 <= d ->
  exists s, rtc step (start (Pool d ∅ ∅ 0 false)) s /\ threads s = [] /\
    stopCh (sh_pool (sh s)) = true /\ closed (sh s) = [] /\
    entries (sh_pool (sh s)) !! key = Some (Entry 0 0).
Proof.
  intros Hd.
  exists (Cfg (Shared 0 (Pool d (<[key := Entry 0 0]> ∅) (<[0%nat := 0]> ∅) 1 true) 1 []) []).
  split; [|do 3 (split; [done|]); apply lookup_insert_eq].
  eapply rtc_l; [apply (s_getConn _ key)|].
  eapply (run_thread _ [TEvict] _ []); [done | by apply t_lookup_miss |].
  eapply (run_thread _ [TEvict] _ []); [done | by apply t_dial |].
  eapply rtc_l; [by apply s_Close|].
  eapply (run_thread _ [TEvict; TInsert key 0] _ []); [done | by apply t_close_all |].
  eapply (run_thread _ [TEvict; TInsert key 0] _ []); [done | by apply t_closed |].
  eapply (run_thread _ [] _ [TInsert key 0]); [done | by apply t_evict_stop |].
  eapply (run_thread _ [] _ []); [done | by apply t_insert |].
  eapply (run_thread _ [] _ []); [done | by apply t_use_done |]. apply rtc_refl.
Qed.

Lemma Close_race_leak_witness :
  exists s, rtc step (start (Pool 10 ∅ ∅ 0 false)) s /\ threads s = [] /\
    stopCh (sh_pool (sh s)) = true /\ closed (sh s) = [] /\
    entries (sh_pool (sh s)) !! ($"u@h") = Some (Entry 0 0).
Proof. apply (Close_race_leak 10 ($"u@h")). lia. Defined.

(** The eviction closes connections that are in use: [lastUsed] is the instant
    of [getConn], so an operation on a pooled connection that lasts longer than the
    idle timeout, such as a long upload, has its connection closed under it, with
    no other client, no [Close] and no error. *)
Theorem evict_closes_in_use d key :
  0 <= d ->
  exists s, rtc step (start (Pool d ∅ ∅ 0 false)) s /\
    threads s = [TEvict; TUse key 0] /\ closed (sh s) = [0%nat] /\
    stopCh (sh_pool (sh s)) = false.
Proof.
  intros Hd.
  exists (Cfg (Shared (d + 1) (Pool d ∅ (<[0%nat := 0]> ∅) 1 false) 1 [0%nat]) [TEvict; TUse key 0]).
  split; [|done].
  eapply rtc_l; [apply (s_getConn _ key)|].
  eapply (run_thread _ [TEvict] _ []); [done | by apply t_lookup_miss |].
  eapply (run_thread _ [TEvict] _ []); [done | by apply t_dial |].
  eapply (run_thread _ [TEvict] _ []); [done | by apply t_insert |].
  eapply rtc_l; [apply (s_time _ (d + 1)); simpl; lia|].
  set (e := Entry 0 0). set (p := Pool d (<[key := e]> ∅) (<[0%nat := 0]> ∅) 1 false).
  assert (pool_expire (fun _ => d + 1) p = ([0%nat], set_entries p ∅)) as Hexp.
  { assert (is_idle p (fun _ => d + 1) (key, e) = true) as Hidle
      by (apply Z.ltb_lt; unfold p, e; cbn [snd fst addr lastUsed idleTimeout];
          rewrite lookup_insert_eq; simpl; lia).
    unfold pool_expire. simpl. f_equal.
    - rewrite map_filter_insert_True by done.
      rewrite map_filter_empty. unfold conns_of. by rewrite insert_empty, map_to_list_singleton.
    - f_equal. rewrite map_filter_insert_False by by rewrite Hidle.
      by rewrite delete_empty, map_filter_empty. }
  eapply (run_thread _ [] _ [TUse key 0]); [done | |].
  { eapply (t_evict _ (fun _ => d + 1) (d + 1)); [exact Hexp | simpl; lia]. }
  eapply (run_thread _ [] _ [TUse key 0]); [done | by apply t_evicting |].
  eapply (run_thread _ [] _ [TUse key 0]); [done | by apply t_evicted |]. apply rtc_refl.
Qed.

Lemma evict_closes_in_use_witness :
  exists s, rtc step (start (Pool 10 ∅ ∅ 0 false)) s /\
    threads s = [TEvict; TUse ($"u@h") 0] /\ closed (sh s) = [0%nat] /\
    stopCh (sh_pool (sh s)) = false.
Proof. apply (evict_closes_in_use 10 ($"u@h")). lia. Defined.

(** One operation fails and invalidates its connection. *)
Lemma pool_ownership_witness :
  let s := Cfg (Shared 0 (Pool (30 * Second) (delete ($"u@h") (<[$"u@h" := Entry 0 0]> ∅))
                  (<[0%nat := 0]> ∅) 1 false) 1 [0%nat]) [TEvict] in
  NoDup (closed (sh s)) /\
  (forall key e, entries (sh_pool (sh s)) !! key = Some e -> conn e ∉ closed (sh s)) /\
  (forall c, (c < opened (sh s))%nat ->
     c ∈ closed (sh s) \/ (exists key e, entries (sh_pool (sh s)) !! key = Some e /\ conn e = c) \/
     exists t, t ∈ threads s /\ c ∈ owned t).
Proof.
  intros s. apply (pool_ownership 0 (Pool (30 * Second) ∅ ∅ 0 false)); [reflexivity|].
  eapply rtc_l; [apply (s_getConn _ ($"u@h"))|].
  eapply (run_thread _ [TEvict] _ []); [done | by apply t_lookup_miss |].
  eapply (run_thread _ [TEvict] _ []); [done | by apply t_dial |].
  eapply (run_thread _ [TEvict] _ []); [done | by apply t_insert |].
  eapply (run_thread _ [TEvict] _ []); [done | by apply t_use_fail |].
  eapply (run_thread _ [TEvict] _ []); [done | by apply t_inval |].
  apply rtc_refl.
Defined.
