(* ===== verification/SftpClient.v ===== *)
(** * Package [webssh]: the operations of [SFTPClient] and [NewSSHClient]

    The operations of [sftp_client.go] as one goroutine runs them, over the pool of
    [SftpPool] and the remote side, which third-party packages implement
    ([golang.org/x/crypto/ssh], [github.com/pkg/sftp]) and which is the class
    [Remote].  The options are passed by pointer and [NewSSHClient] writes to them,
    so they are part of the state. *)

From S2P Require Import Prelude GoStr GoPath GoTime SftpPool.
From Stdlib Require Import SpecFloat.

Local Open Scope Z_scope.

(** ** Options and file information *)

Record SSHClientOption := SSHOption {
  Addr : bytes; User : bytes; Password : bytes; PrivateKey : bytes
}.

(** [os.FileInfo]; the mode is the 32-bit word of [fs.FileMode]. *)
Record FileStat := MkStat { st_name : bytes; st_size : Z; st_mode : Z; st_mtime : Z }.

Definition ModeDir : Z := 2 ^ 31.
Definition ModeSymlink : Z := 2 ^ 27.

Definition has_mode (m bit : Z) : bool := negb (Z.land m bit =? 0).

Definition IsDir (i : FileStat) : bool := has_mode (st_mode i) ModeDir.

(** [fs.FileMode.String] *)
Fixpoint mode_chars (m : Z) (bit : nat) (cs : bytes) (unset : bytes) : bytes :=
  match cs with
  | [] => []
  | c :: cs' => (if Z.testbit m (Z.of_nat bit) then [c] else unset) ++ mode_chars m (pred bit) cs' unset
  end.

Definition Mode_String (m : Z) : bytes :=
  let kind := mode_chars m 31 ($"dalTLDpSugct?") [] in
  (if bool_decide (kind = []) then $"-" else kind) ++ mode_chars m 8 ($"rwxrwxrwx") ($"-").

Record FileInfo := MkFileInfo {
  fi_Name : bytes; fi_Size : Z; fi_Mode : bytes; fi_ModTime : Z;
  fi_IsDir : bool; fi_IsLink : bool; fi_LinkTarget : bytes
}.

Record ListResult := MkListResult { Path : bytes; Files : list FileInfo }.

(** ** The remote side *)

Inductive auth :=
  | PasswordAuth (password : bytes)
  | PublicKeys (signer : nat).

Record ClientConfig := MkConfig { cfg_User : bytes; cfg_Auth : list auth; cfg_Timeout : Z }.

Inductive walk_step :=
  | WalkErr (e : error)
  | WalkStat (info : option FileStat).

Class Remote := {
  remote : Type;
  time_Now : remote -> Z;
  ParsePrivateKey : bytes -> result nat;
  ssh_Dial : bytes -> ClientConfig -> State remote (result nat);
  ssh_Close : nat -> State remote unit;
  sftp_NewClient : nat -> State remote (result nat);
  sftp_Close : nat -> State remote unit;
  sftp_Getwd : nat -> State remote (result bytes);
  sftp_ReadDir : nat -> bytes -> State remote (result (list FileStat));
  sftp_Stat : nat -> bytes -> State remote (result FileStat);
  sftp_Lstat : nat -> bytes -> State remote (result FileStat);
  sftp_ReadLink : nat -> bytes -> State remote (result bytes);
  sftp_Walk : nat -> bytes -> State remote (list walk_step);
  sftp_Open : nat -> bytes -> State remote (result nat);
  sftp_OpenFile : nat -> bytes -> Z -> State remote (result nat);
  file_WriteTo : nat -> State remote (bytes * option error);
  file_ReadFrom : nat -> bytes -> State remote (result Z);
  file_Read : nat -> Z -> State remote (bytes * option error);
  file_Close : nat -> State remote unit;
  sftp_RemoveAll : nat -> bytes -> State remote (result unit);
  sftp_Remove : nat -> bytes -> State remote (result unit);
  sftp_MkdirAll : nat -> bytes -> State remote (result unit);
  sftp_Rename : nat -> bytes -> bytes -> State remote (result unit);
  sftp_PosixRename : nat -> bytes -> bytes -> State remote (result unit);
  sftp_Symlink : nat -> bytes -> bytes -> State remote (result unit);
  sftp_Link : nat -> bytes -> bytes -> State remote (result unit);
  sftp_Chmod : nat -> bytes -> Z -> State remote (result unit);
  sftp_Chown : nat -> bytes -> Z -> Z -> State remote (result unit);
  sftp_Chtimes : nat -> bytes -> Z -> Z -> State remote (result unit);
  sftp_StatVFS : nat -> bytes -> State remote (result (list Z));
  sftp_RealPath : nat -> bytes -> State remote (result bytes);
  sftp_Truncate : nat -> bytes -> Z -> State remote (result unit);
  sftp_Glob : nat -> bytes -> State remote (result (list bytes))
}.

Section client.
Context `{Remote}.

(** The options, the pool, the remote side, and as history the connections closed. *)
Record env := Env {
  e_opt : SSHClientOption; e_pool : pool; e_rem : remote; e_closed : list nat
}.

Local Abbreviation M A := (State env A).

Definition rem {A : Type} (m : State remote A) : M A := fun s =>
  let '(a, r) := m (e_rem s) in (a, Env (e_opt s) (e_pool s) r (e_closed s)).

(** A critical section of the pool. *)
Definition locked {A : Type} (f : pool -> A * pool) : M A := fun s =>
  let '(a, p) := f (e_pool s) in (a, Env (e_opt s) p (e_rem s) (e_closed s)).

Definition conn_Close (c : nat) : M unit := fun s =>
  let '(_, r) := sftp_Close c (e_rem s) in (tt, Env (e_opt s) (e_pool s) r (e_closed s ++ [c])).

Definition now : M Z := gets (fun s => time_Now (e_rem s)).

(** ** [ssh_client.go] *)

Definition NewSSHClientWithPassword (option : SSHClientOption) : M (result nat) :=
  let config := MkConfig (User option) [PasswordAuth (Password option)] (5 * Second) in
  rem (ssh_Dial (Addr option) config).

Definition NewSSHClientWithPrivateKey (option : SSHClientOption) : M (result nat) :=
  match ParsePrivateKey (PrivateKey option) with
  | Err e => mret (Err e)
  | Ok signer =>
      let config := MkConfig (User option) [PublicKeys signer] (5 * Second) in
      rem (ssh_Dial (Addr option) config)
  end.

(** The default port is written through the pointer. *)
Definition with_port (o : SSHClientOption) : SSHClientOption :=
  if Contains (Addr o) ($":") then o
  else SSHOption (Addr o ++ $":22") (User o) (Password o) (PrivateKey o).

Definition NewSSHClient : M (result nat) :=
  modify (fun s => Env (with_port (e_opt s)) (e_pool s) (e_rem s) (e_closed s));;
  option ← gets e_opt;
  if bool_decide (Password option <> []) then NewSSHClientWithPassword option
  else if bool_decide (PrivateKey option <> []) then NewSSHClientWithPrivateKey option
  else mret (Err (ENew ($"SSHClient: no Password or PrivateKey"))).

(** ** The pool operations *)

Definition connKey (o : SSHClientOption) : bytes := User o ++ $"@" ++ Addr o.

Definition dial : M (result nat) :=
  r ← NewSSHClient;
  match r with
  | Err e => mret (Err (EWrap ($"SSH 连接失败") e))
  | Ok sshClient =>
      r ← rem (sftp_NewClient sshClient);
      match r with
      | Err e => rem (ssh_Close sshClient);; mret (Err (EWrap ($"SFTP 初始化失败") e))
      | Ok conn => mret (Ok conn)
      end
  end.

(** The last part of [getConn]. *)
Definition getConn_dial (key : bytes) : M (result nat) :=
  conn ←? dial;
  t ← now;
  existing ← locked (pool_insert key conn t);
  match existing with
  | Some c => conn_Close conn;; mret (Ok c)
  | None => mret (Ok conn)
  end.

Definition getConn : M (result nat) :=
  key ← gets (fun s => connKey (e_opt s));
  e ← gets (fun s => entries (e_pool s) !! key);
  match e with
  | Some e =>
      wd ← rem (sftp_Getwd (conn e));
      match wd with
      | Ok _ =>
          t ← now;
          locked (fun p => (tt, pool_touch key e t p));;
          mret (Ok (conn e))
      | Err _ =>
          dropped ← locked (pool_drop key e);
          (if dropped : bool then conn_Close (conn e) else mret tt);;
          getConn_dial key
      end
  | None => getConn_dial key
  end.

Definition invalidate : M unit :=
  key ← gets (fun s => connKey (e_opt s));
  c ← locked (pool_remove key);
  match c with
  | Some c => conn_Close c
  | None => mret tt
  end.

Fixpoint close_each (cs : list nat) : M unit :=
  match cs with
  | [] => mret tt
  | c :: cs' => conn_Close c;; close_each cs'
  end.

(** [close] of a closed channel panics. *)
Definition Close : M (outcome unit) :=
  stopped ← gets (fun s => stopCh (e_pool s));
  if stopped : bool then mret Panic
  else
    locked (fun p => (tt, Pool (idleTimeout p) (entries p) (lastUsed p) (heap_next p) true));;
    conns ← locked pool_take_all;
    close_each conns;; mret (Ret tt).

(** One tick of [evictLoop]. *)
Definition evict_tick (clock : bytes -> Z) : M unit :=
  expired ← locked (pool_expire clock);
  close_each expired.

(** ** The operations *)

(** The shape that most operations share: the operation on a pooled connection,
    and [invalidate] and a wrapped error when it fails. *)
Definition pooled {A : Type} (msg : bytes) (f : nat -> State remote (result A)) : M (result A) :=
  conn ←? getConn;
  r ← rem (f conn);
  match r with
  | Err e => invalidate;; mret (Err (EWrap msg e))
  | Ok a => mret (Ok a)
  end.

Definition Mkdir (dirPath : bytes) := pooled ($"创建目录失败") (fun c => sftp_MkdirAll c dirPath).
Definition Rename (oldPath newPath : bytes) :=
  pooled ($"重命名失败") (fun c => sftp_Rename c oldPath newPath).
Definition Stat (p : bytes) := pooled ($"获取文件信息失败") (fun c => sftp_Stat c p).
Definition Lstat (p : bytes) := pooled ($"获取文件信息失败") (fun c => sftp_Lstat c p).
Definition ReadLink (p : bytes) := pooled ($"读取符号链接失败") (fun c => sftp_ReadLink c p).
Definition Symlink (oldname newname : bytes) :=
  pooled ($"创建符号链接失败") (fun c => sftp_Symlink c oldname newname).
Definition Link (oldname newname : bytes) :=
  pooled ($"创建硬链接失败") (fun c => sftp_Link c oldname newname).
Definition Chmod (path : bytes) (mode : Z) := pooled ($"修改权限失败") (fun c => sftp_Chmod c path mode).
Definition Chown (path : bytes) (uid gid : Z) :=
  pooled ($"修改所有者失败") (fun c => sftp_Chown c path uid gid).
Definition Chtimes (path : bytes) (atime mtime : Z) :=
  pooled ($"修改时间失败") (fun c => sftp_Chtimes c path atime mtime).
Definition PosixRename (oldname newname : bytes) :=
  pooled ($"POSIX 重命名失败") (fun c => sftp_PosixRename c oldname newname).
Definition StatVFS (path : bytes) := pooled ($"获取文件系统信息失败") (fun c => sftp_StatVFS c path).
Definition RealPath (path : bytes) := pooled ($"解析真实路径失败") (fun c => sftp_RealPath c path).
Definition Truncate (path : bytes) (size : Z) :=
  pooled ($"截断文件失败") (fun c => sftp_Truncate c path size).
Definition Glob (pattern : bytes) := pooled ($"模式匹配失败") (fun c => sftp_Glob c pattern).

Definition Remove (targetPath : bytes) (recursive : bool) : M (result unit) :=
  if recursive then pooled ($"递归删除失败") (fun c => sftp_RemoveAll c targetPath)
  else pooled ($"删除失败") (fun c => sftp_Remove c targetPath).

(** The body of the loop of [List]. *)
Definition list_entry (conn : nat) (dirPath : bytes) (e : FileStat) : State remote FileInfo :=
  let isLink := has_mode (st_mode e) ModeSymlink in
  '(isDir, linkTarget) ←
    (if isLink then
       let fullPath := JoinPath [dirPath; st_name e] in
       info ← sftp_Stat conn fullPath;
       target ← sftp_ReadLink conn fullPath;
       mret (match info with Ok i => IsDir i | Err _ => false end,
             match target with Ok t => t | Err _ => [] end)
     else mret (IsDir e, []));
  mret (MkFileInfo (st_name e) (st_size e) (Mode_String (st_mode e)) (st_mtime e)
          isDir isLink linkTarget).

Definition List_ (dirPath : bytes) : M (result ListResult) :=
  conn ←? getConn;
  dirPath ←
    (if bool_decide (dirPath = []) || bool_decide (dirPath = $"~") then
       wd ← rem (sftp_Getwd conn);
       mret (match wd with Ok wd => wd | Err _ => $"/" end)
     else mret dirPath);
  entries ← rem (sftp_ReadDir conn dirPath);
  match entries with
  | Err e => invalidate;; mret (Err (EWrap ($"读取目录失败") e))
  | Ok entries =>
      files ← rem (st_mapM (list_entry conn dirPath) entries);
      mret (Ok (MkListResult dirPath files))
  end.

(** The loop of [DirSize] over the steps of the walker; the sum is an [int64]. *)
Fixpoint dir_size_loop (steps : list walk_step) (totalSize : Z) : M (result Z) :=
  match steps with
  | [] => mret (Ok totalSize)
  | WalkErr e :: _ => invalidate;; mret (Err (EWrap ($"遍历目录失败") e))
  | WalkStat None :: steps' => dir_size_loop steps' totalSize
  | WalkStat (Some info) :: steps' =>
      if has_mode (st_mode info) ModeSymlink then dir_size_loop steps' totalSize
      else if negb (IsDir info) then dir_size_loop steps' (i64 (totalSize + st_size info))
      else dir_size_loop steps' totalSize
  end.

Definition DirSize (dirPath : bytes) : M (result Z) :=
  conn ←? getConn;
  steps ← rem (sftp_Walk conn dirPath);
  dir_size_loop steps 0.

(** The bytes that reached [dst], and the error. *)
Definition Download (filePath : bytes) : M (bytes * option error) :=
  conn ← dial;
  match conn with
  | Err e => mret ([], Some e)
  | Ok conn =>
      f ← rem (sftp_Open conn filePath);
      match f with
      | Err e => conn_Close conn;; mret ([], Some (EWrap ($"打开文件失败") e))
      | Ok f =>
          '(data, err) ← rem (file_WriteTo f);
          rem (file_Close f);; conn_Close conn;;
          mret (data, err)
      end
  end.

(** [os.O_WRONLY|os.O_CREATE|os.O_TRUNC] on Linux. *)
Definition O_WRONLY_CREATE_TRUNC : Z := Z.lor 1 (Z.lor 64 512).

Definition Upload (destPath src : bytes) : M (result unit) :=
  conn ←? getConn;
  f ← rem (sftp_OpenFile conn destPath O_WRONLY_CREATE_TRUNC);
  match f with
  | Err e => mret (Err (EWrap ($"创建文件失败") e))
  | Ok f =>
      n ← rem (file_ReadFrom f src);
      rem (file_Close f);;
      match n with
      | Err e => mret (Err (EWrap ($"写入文件失败") e))
      | Ok _ => mret (Ok tt)
      end
  end.

(** [float64(a)/float64(b) > 0.1] in IEEE 754 double precision. *)
Definition float64 (z : Z) : spec_float := binary_normalize 53 1024 z 0 false.
Definition tenth : spec_float := S754_finite false 7205759403792794 (-56).
Definition ratio_gt_tenth (a b : Z) : bool := SFltb tenth (SFdiv 53 1024 (float64 a) (float64 b)).

Definition non_printable (b : ascii) : bool :=
  (code b <? 9) || ((13 <? code b) && (code b <? 32)) || (code b =? 127).

Definition is_text (buf : bytes) : bool :=
  if existsb (fun b => code b =? 0) buf then false
  else
    let nonPrintable := Z.of_nat (length (List.filter non_printable buf)) in
    let n := Z.of_nat (length buf) in
    negb ((0 <? n) && ratio_gt_tenth nonPrintable n).

Definition IsTextFile (filePath : bytes) : M (result bool) :=
  conn ←? getConn;
  f ← rem (sftp_Open conn filePath);
  match f with
  | Err e => mret (Err (EWrap ($"打开文件失败") e))
  | Ok f =>
      '(buf, err) ← rem (file_Read f 512);
      rem (file_Close f);;
      match err with
      | Some e =>
          if bool_decide (buf = []) then mret (Err (EWrap ($"读取文件失败") e))
          else mret (Ok (is_text buf))
      | None => mret (Ok (is_text buf))
      end
  end.

(** The last part of [Move]. *)
Definition move_rename (conn : nat) (srcPath dstPath : bytes) : M (result unit) :=
  r ← rem (sftp_Rename conn srcPath dstPath);
  match r with
  | Err e => invalidate;; mret (Err (EWrap ($"移动文件失败") e))
  | Ok _ => mret (Ok tt)
  end.

Definition Move (srcPath dstPath : bytes) (overwrite : bool) : M (result unit) :=
  conn ←? getConn;
  info ← rem (sftp_Stat conn dstPath);
  match info with
  | Ok info =>
      if negb overwrite then mret (Err (ENew ($"目标路径已存在: " ++ dstPath)))
      else
        let dstPath := if IsDir info then JoinPath [dstPath; Base srcPath] else dstPath in
        r ← rem (sftp_Remove conn dstPath);
        match r with
        | Err e => invalidate;; mret (Err (EWrap ($"删除目标路径失败") e))
        | Ok _ => move_rename conn srcPath dstPath
        end
  | Err _ => move_rename conn srcPath dstPath
  end.

(** ** The pool between operations *)

(** What dialling leaves alone: the pool and the closed connections.  It only
    writes the default port into the options. *)
Lemma NewSSHClient_frame s :
  let '(_, s') := NewSSHClient s in
  e_opt s' = with_port (e_opt s) /\ e_pool s' = e_pool s /\ e_closed s' = e_closed s.
Proof.
  unfold NewSSHClient, NewSSHClientWithPassword, NewSSHClientWithPrivateKey, modify, gets, rem,
    mbind, State_bind. simpl.
  destruct (bool_decide (Password (with_port (e_opt s)) <> [])).
  - by destruct (ssh_Dial _ _ _).
  - destruct (bool_decide (PrivateKey (with_port (e_opt s)) <> [])); [|done].
    destruct (ParsePrivateKey _); [|done]. by destruct (ssh_Dial _ _ _).
Qed.

Lemma dial_frame s :
  let '(_, s') := dial s in
  e_opt s' = with_port (e_opt s) /\ e_pool s' = e_pool s /\ e_closed s' = e_closed s.
Proof.
  unfold dial, mbind, State_bind. pose proof (NewSSHClient_frame s) as Hn.
  destruct (NewSSHClient s) as [[c|e] s1]; [|done].
  unfold rem at 1. destruct (sftp_NewClient c (e_rem s1)) as [[k|e] r]; [done|].
  unfold rem. by destruct (ssh_Close c _).
Qed.

Lemma with_port_idemp o : with_port (with_port o) = with_port o.
Proof.
  unfold with_port. destruct (Contains (Addr o) ($":")) eqn:E; [by rewrite E|]. cbn [Addr].
  assert (Contains (Addr o ++ $":22") ($":") = true) as ->; [|done].
  by apply Contains_app_r.
Qed.

Lemma getConn_dial_spec key s :
  entries (e_pool s) !! key = None ->
  let '(r, s') := getConn_dial key s in
  e_opt s' = with_port (e_opt s) /\ e_closed s' = e_closed s /\
  match r with
  | Ok c => exists t a, entries (e_pool s') = <[key := Entry a c]> (entries (e_pool s)) /\
              lastUsed (e_pool s') !! a = Some t
  | Err _ => e_pool s' = e_pool s
  end.
Proof.
  intros Hk. unfold getConn_dial. pose proof (dial_frame s) as Hd.
  destruct (dial s) as [[c|e] s1] eqn:E.
  - rewrite (try_bind_ok _ _ _ _ _ E). unfold now, gets, locked, mbind, State_bind.
    destruct Hd as (Ho & Hp & Hc). unfold pool_insert. rewrite Hp, Hk. simpl.
    split; [done|]. split; [done|]. exists (time_Now (e_rem s1)), (heap_next (e_pool s)).
    split; [done|]. apply lookup_insert_eq.
  - rewrite (try_bind_err _ _ _ _ _ E). naive_solver.
Qed.

(** The connection that [getConn] returns is the one of the pool. *)
Lemma getConn_pooled s c s' :
  getConn s = (Ok c, s') ->
  exists a, entries (e_pool s') !! connKey (e_opt s) = Some (Entry a c).
Proof.
  unfold getConn, gets. unfold mbind, State_bind. cbn beta.
  destruct (entries (e_pool s) !! connKey (e_opt s)) as [[a c0]|] eqn:Ek.
  - unfold rem at 1. destruct (sftp_Getwd (conn (Entry a c0)) (e_rem s)) as [[wd|e] r].
    + unfold now, gets, locked. cbn [e_pool e_opt].
      intros [= <- <-]. exists a. cbn [e_pool]. unfold pool_touch, is_current. rewrite Ek.
      by rewrite bool_decide_eq_true_2.
    + unfold locked. unfold pool_drop, is_current. cbn [e_pool]. rewrite Ek.
      rewrite bool_decide_eq_true_2 by done. unfold conn_Close. cbn [e_pool e_opt e_rem e_closed conn].
      destruct (sftp_Close c0 _) as [u r'].
      set (s1 := Env _ _ _ _).
      pose proof (getConn_dial_spec (connKey (e_opt s)) s1 (lookup_delete_eq _ _)) as Hs.
      intros E. rewrite E in Hs. destruct Hs as (_ & _ & t & a' & -> & _).
      exists a'. apply lookup_insert_eq.
  - pose proof (getConn_dial_spec (connKey (e_opt s)) s Ek) as Hs.
    intros E. rewrite E in Hs. destruct Hs as (_ & _ & t & a' & -> & _).
    exists a'. apply lookup_insert_eq.
Qed.

Lemma getConn_opt s r s' :
  getConn s = (r, s') -> e_opt s' = e_opt s \/ e_opt s' = with_port (e_opt s).
Proof.
  unfold getConn, gets. unfold mbind, State_bind. cbn beta.
  destruct (entries (e_pool s) !! connKey (e_opt s)) as [[a c0]|] eqn:Ek.
  - unfold rem at 1. destruct (sftp_Getwd (conn (Entry a c0)) (e_rem s)) as [[wd|e] r1].
    + unfold now, gets, locked. cbn [e_pool e_opt]. intros [= <- <-]. by left.
    + unfold locked. unfold pool_drop, is_current. cbn [e_pool]. rewrite Ek.
      rewrite bool_decide_eq_true_2 by done. unfold conn_Close. cbn [e_pool e_opt e_rem e_closed conn].
      destruct (sftp_Close c0 _) as [u r'].
      set (s1 := Env _ _ _ _).
      pose proof (getConn_dial_spec (connKey (e_opt s)) s1 (lookup_delete_eq _ _)) as Hs.
      intros E. rewrite E in Hs. right. apply Hs.
  - pose proof (getConn_dial_spec (connKey (e_opt s)) s Ek) as Hs.
    intros E. rewrite E in Hs. right. apply Hs.
Qed.

Lemma invalidate_spec s :
  let '(_, s') := invalidate s in
  e_opt s' = e_opt s /\
  entries (e_pool s') = delete (connKey (e_opt s)) (entries (e_pool s)) /\
  e_closed s' = e_closed s ++
    match entries (e_pool s) !! connKey (e_opt s) with Some e => [conn e] | None => [] end.
Proof.
  unfold invalidate, gets, locked, mbind, State_bind, pool_remove. cbn beta.
  destruct (entries (e_pool s) !! connKey (e_opt s)) as [e|] eqn:E.
  - unfold conn_Close. cbn [e_pool e_opt e_rem e_closed]. by destruct (sftp_Close (conn e) (e_rem s)).
  - simpl. rewrite delete_id by done. by rewrite app_nil_r.
Qed.

(** ** Operations that fail *)

Lemma pooled_error {A : Type} (msg : bytes) (f : nat -> State remote (result A)) s c s1 e r1 :
  getConn s = (Ok c, s1) -> f c (e_rem s1) = (Err e, r1) ->
  pooled msg f s =
  (Err (EWrap msg e), snd (invalidate (Env (e_opt s1) (e_pool s1) r1 (e_closed s1)))).
Proof.
  intros Hg Hf. unfold pooled. rewrite (try_bind_ok _ _ _ _ _ Hg).
  unfold rem, mbind, State_bind. rewrite Hf. by destruct (invalidate _).
Qed.

(** ** The sum of [DirSize] *)

Definition counted (st : walk_step) : Z :=
  match st with
  | WalkStat (Some info) =>
      if has_mode (st_mode info) ModeSymlink then 0
      else if negb (IsDir info) then st_size info else 0
  | _ => 0
  end.

Definition is_walk_err (st : walk_step) : bool :=
  match st with WalkErr _ => true | _ => false end.

Lemma i64_add_l a b : i64 (i64 a + b) = i64 (a + b).
Proof.
  unfold i64. f_equal.
  replace ((a + 2 ^ 63) mod 2 ^ 64 - 2 ^ 63 + b + 2 ^ 63)
    with ((a + 2 ^ 63) mod 2 ^ 64 + b) by lia.
  rewrite Zplus_mod_idemp_l. f_equal. lia.
Qed.

Lemma dir_size_loop_sum steps acc s :
  forallb (fun st => negb (is_walk_err st)) steps = true -> i64 acc = acc ->
  dir_size_loop steps acc s = (Ok (i64 (acc + foldr (fun st n => counted st + n) 0 steps)), s).
Proof.
  revert acc. induction steps as [|st steps IH]; intros acc Hok Hacc.
  { simpl. by rewrite Z.add_0_r, Hacc. }
  cbn [forallb foldr] in *. apply andb_true_iff in Hok as [Hst Hok].
  destruct st as [e|[info|]]; [done| |]; cbn [dir_size_loop counted].
  - destruct (has_mode (st_mode info) ModeSymlink); [by apply IH|].
    destruct (negb (IsDir info)); [|by apply IH].
    rewrite IH by (try done; apply i64_id, i64_range).
    by rewrite i64_add_l, Z.add_assoc.
  - by apply IH.
Qed.
End client.

(** ** Properties *)

(** When an operation on a pooled connection fails, and the address of the
    options has a port, the connection is closed, exactly once, it is no longer in
    the pool, so that the next operation dials again, and no other connection is
    touched. *)
Theorem pooled_error_invalidates `{Remote} {A : Type} (msg : bytes)
    (f : nat -> State remote (result A)) s c s1 e r1 :
  Contains (Addr (e_opt s)) ($":") = true ->
  getConn s = (Ok c, s1) -> f c (e_rem s1) = (Err e, r1) ->
  let '(r, s') := pooled msg f s in
  r = Err (EWrap msg e) /\ e_closed s' = e_closed s1 ++ [c] /\
  entries (e_pool s') = delete (connKey (e_opt s)) (entries (e_pool s1)).
Proof.
  intros Hport Hg Hf. rewrite (pooled_error msg f s c s1 e r1) by done. split; [done|].
  assert (e_opt s1 = e_opt s) as Ho.
  { destruct (getConn_opt _ _ _ Hg) as [->| ->]; [done|]. unfold with_port. by rewrite Hport. }
  destruct (getConn_pooled _ _ _ Hg) as [a Ha].
  pose proof (invalidate_spec (Env (e_opt s1) (e_pool s1) r1 (e_closed s1))) as Hi.
  destruct (invalidate _) as [u s']. destruct Hi as (_ & He & Hc). cbn [e_opt e_pool e_closed] in *.
  cbn [snd]. rewrite Ho, Ha in Hc. by rewrite He, Hc, Ho.
Qed.

(** When the address has no port, the first operation that fails leaves its
    broken connection in the pool, and open: dialling writes [":22"] into the
    options, so that [invalidate] looks for another key than the one [getConn]
    stored the connection under. *)
Theorem pooled_error_misses_key `{Remote} {A : Type} (msg : bytes)
    (f : nat -> State remote (result A)) s c s1 e r1 :
  Contains (Addr (e_opt s)) ($":") = false ->
  entries (e_pool s) = ∅ ->
  getConn s = (Ok c, s1) -> f c (e_rem s1) = (Err e, r1) ->
  let '(r, s') := pooled msg f s in
  r = Err (EWrap msg e) /\ e_closed s' = e_closed s /\
  exists a, entries (e_pool s') !! connKey (e_opt s) = Some (Entry a c).
Proof.
  intros Hport Hemp Hg Hf. rewrite (pooled_error msg f s c s1 e r1) by done. split; [done|].
  assert (getConn s = getConn_dial (connKey (e_opt s)) s) as Hd.
  { unfold getConn, gets, mbind, State_bind. by rewrite Hemp. }
  rewrite Hd in Hg. pose proof (getConn_dial_spec (connKey (e_opt s)) s) as Hs.
  rewrite Hg, Hemp in Hs. destruct Hs as (Ho & Hc1 & t & a & He1 & _); [done|].
  pose proof (invalidate_spec (Env (e_opt s1) (e_pool s1) r1 (e_closed s1))) as Hi.
  destruct (invalidate _) as [u s']. destruct Hi as (_ & He & Hc). cbn [e_opt e_pool e_closed] in *.
  assert (connKey (e_opt s1) <> connKey (e_opt s)) as Hne.
  { rewrite Ho. unfold connKey, with_port. rewrite Hport. cbn [User Addr]. intros E.
    apply app_inv_head in E. apply (f_equal length) in E. rewrite !length_app in E. simpl in E. lia. }
  cbn [snd]. rewrite He1, lookup_insert_ne in Hc by done. rewrite lookup_empty, app_nil_r in Hc.
  split; [congruence|]. exists a. rewrite He, lookup_delete_ne, He1 by done. apply lookup_insert_eq.
Qed.

(** [Download] works on a connection of its own: the pool is as it was, and
    once the dial has succeeded the connection is closed exactly once, whether the
    file opens or not and whether the transfer fails or not. *)
Theorem Download_private `{Remote} filePath s :
  let '(_, s') := Download filePath s in
  e_pool s' = e_pool s /\
  e_closed s' = e_closed s ++ match fst (dial s) with Ok c => [c] | Err _ => [] end.
Proof.
  unfold Download. unfold mbind at 1, State_bind at 1. pose proof (dial_frame s) as Hd.
  destruct (dial s) as [[c|e] s1]; destruct Hd as (_ & Hp & Hc); cbn [fst].
  2: { simpl. by rewrite app_nil_r. }
  unfold rem, conn_Close, mbind, State_bind.
  destruct (sftp_Open c filePath (e_rem s1)) as [[fh|e] r]; cbn [e_rem e_opt e_pool e_closed].
  - destruct (file_WriteTo fh r) as [[data err] r2]. cbn [e_rem e_opt e_pool e_closed].
    destruct (file_Close fh r2) as [u r3]. cbn [e_rem e_opt e_pool e_closed].
    destruct (sftp_Close c r3) as [u' r4]. simpl. by rewrite Hp, Hc.
  - destruct (sftp_Close c r) as [u r2]. simpl. by rewrite Hp, Hc.
Qed.

(** [DirSize] is the 64-bit sum of the sizes of the entries of the walk that are
    neither symbolic links nor directories, when the walk has no error; in
    particular the exact sum when that fits in 63 bits. *)
Theorem DirSize_sum `{Remote} dirPath s c s1 steps r1 :
  getConn s = (Ok c, s1) -> sftp_Walk c dirPath (e_rem s1) = (steps, r1) ->
  forallb (fun st => negb (is_walk_err st)) steps = true ->
  let total := foldr (fun st n => counted st + n) 0 steps in
  fst (DirSize dirPath s) = Ok (i64 total) /\
  (in_i64 total -> fst (DirSize dirPath s) = Ok total).
Proof.
  intros Hg Hw Hok total.
  assert (fst (DirSize dirPath s) = Ok (i64 total)) as E.
  { unfold DirSize. rewrite (try_bind_ok _ _ _ _ _ Hg). unfold rem, mbind, State_bind.
    rewrite Hw. by rewrite dir_size_loop_sum. }
  split; [done|]. intros Hin. by rewrite E, i64_id.
Qed.

(** [Move] with [overwrite] into an existing directory always fails when the
    directory has no entry of the moved name: the target becomes the path inside the
    directory, which [Remove] does not find, and the rename is never tried. *)
Theorem Move_into_directory_fails `{Remote} srcPath dstPath s c s1 info r1 :
  (forall k p r e r', sftp_Stat k p r = (Err e, r') ->
     exists e' r'', sftp_Remove k p r = (Err e', r'')) ->
  getConn s = (Ok c, s1) ->
  sftp_Stat c dstPath (e_rem s1) = (Ok info, r1) -> IsDir info = true ->
  is_ok (fst (sftp_Stat c (JoinPath [dstPath; Base srcPath]) r1)) = false ->
  exists e r2, sftp_Remove c (JoinPath [dstPath; Base srcPath]) r1 = (Err e, r2) /\
    Move srcPath dstPath true s =
    (Err (EWrap ($"删除目标路径失败") e),
     snd (invalidate (Env (e_opt s1) (e_pool s1) r2 (e_closed s1)))).
Proof.
  intros Hlaw Hg Hst Hdir Habs.
  destruct (sftp_Stat c (JoinPath [dstPath; Base srcPath]) r1) as [[i|e0] r0] eqn:E0; [done|].
  destruct (Hlaw _ _ _ _ _ E0) as (e & r2 & Er). exists e, r2. split; [done|].
  unfold Move. rewrite (try_bind_ok _ _ _ _ _ Hg). unfold rem, mbind, State_bind.
  rewrite Hst. cbn [negb e_rem]. rewrite Hdir. cbn [e_rem e_pool e_opt e_closed].
  rewrite Er. by destruct (invalidate _).
Qed.

(** ** A concrete remote side for the examples *)

Module DemoRemote.

Record server := Server { next : nat; tree : gmap bytes FileStat }.

Definition fail {A : Type} : State server (result A) := fun r => (Err (EOther 0), r).
Definition skip : State server unit := fun r => (tt, r).

Definition stat (p : bytes) : State server (result FileStat) := fun r =>
  (match tree r !! p with Some i => Ok i | None => Err ENotExist end, r).

Definition remove (p : bytes) : State server (result unit) := fun r =>
  match tree r !! p with
  | Some _ => (Ok tt, Server (next r) (delete p (tree r)))
  | None => (Err ENotExist, r)
  end.

#[export] Instance remote_server : Remote := {|
  remote := server;
  time_Now := fun _ => 0;
  ParsePrivateKey := fun _ => Ok 0%nat;
  ssh_Dial := fun _ _ r => (Ok 0%nat, r);
  ssh_Close := fun _ => skip;
  sftp_NewClient := fun _ r => (Ok (next r), Server (S (next r)) (tree r));
  sftp_Close := fun _ => skip;
  sftp_Getwd := fun _ r => (Ok ($"/"), r);
  sftp_ReadDir := fun _ _ => fail;
  sftp_Stat := fun _ p => stat p;
  sftp_Lstat := fun _ p => stat p;
  sftp_ReadLink := fun _ _ => fail;
  sftp_Walk := fun _ _ r => (map (fun kv => WalkStat (Some (snd kv))) (map_to_list (tree r)), r);
  sftp_Open := fun _ _ => fail;
  sftp_OpenFile := fun _ _ _ => fail;
  file_WriteTo := fun _ r => (([], None), r);
  file_ReadFrom := fun _ _ => fail;
  file_Read := fun _ _ r => (([], None), r);
  file_Close := fun _ => skip;
  sftp_RemoveAll := fun _ p => remove p;
  sftp_Remove := fun _ p => remove p;
  sftp_MkdirAll := fun _ _ => fail;
  sftp_Rename := fun _ _ _ => fail;
  sftp_PosixRename := fun _ _ _ => fail;
  sftp_Symlink := fun _ _ _ => fail;
  sftp_Link := fun _ _ _ => fail;
  sftp_Chmod := fun _ _ _ => fail;
  sftp_Chown := fun _ _ _ _ => fail;
  sftp_Chtimes := fun _ _ _ _ => fail;
  sftp_StatVFS := fun _ _ => fail;
  sftp_RealPath := fun _ _ => fail;
  sftp_Truncate := fun _ _ _ => fail;
  sftp_Glob := fun _ _ => fail
|}.

Definition dir : FileStat := MkStat ($"d") 4096 (2 ^ 31 + 493) 0.
Definition doc : FileStat := MkStat ($"a.txt") 120 420 0.

Definition env_of (addr : bytes) : env :=
  Env (SSHOption addr ($"u") ($"pw") []) (Pool (30 * Second) ∅ ∅ 0 false)
    (Server 0 {[ $"/d" := dir; $"/a.txt" := doc ]}) [].

(** The environment after a [getConn] that has dialled. *)
Definition dialled (addr : bytes) : env := snd (getConn (env_of addr)).

Lemma getConn_port : getConn (env_of ($"h:22")) = (Ok 0%nat, dialled ($"h:22")).
Proof. reflexivity. Qed.

Lemma getConn_no_port : getConn (env_of ($"h")) = (Ok 0%nat, dialled ($"h")).
Proof. reflexivity. Qed.

End DemoRemote.
Import DemoRemote.

Lemma pooled_error_invalidates_witness :
  let '(r, s') := Mkdir ($"/x") (env_of ($"h:22")) in
  is_ok r = false /\ e_closed s' = [0%nat] /\ entries (e_pool s') !! ($"u@h:22") = None.
Proof.
  pose proof (pooled_error_invalidates ($"创建目录失败") (fun c => sftp_MkdirAll c ($"/x"))
    (env_of ($"h:22")) 0 (dialled ($"h:22")) (EOther 0) (e_rem (dialled ($"h:22")))
    eq_refl getConn_port eq_refl) as H.
  unfold Mkdir. destruct (pooled _ _ (env_of ($"h:22"))) as [r s']. destruct H as (-> & -> & ->).
  split; [reflexivity|]. split; [reflexivity|]. apply lookup_delete_eq.
Defined.

Lemma pooled_error_misses_key_witness :
  let '(r, s') := Mkdir ($"/x") (env_of ($"h")) in
  is_ok r = false /\ e_closed s' = [] /\
  exists a, entries (e_pool s') !! ($"u@h") = Some (Entry a 0).
Proof.
  pose proof (pooled_error_misses_key ($"创建目录失败") (fun c => sftp_MkdirAll c ($"/x"))
    (env_of ($"h")) 0 (dialled ($"h")) (EOther 0) (e_rem (dialled ($"h")))
    eq_refl eq_refl getConn_no_port eq_refl) as H.
  unfold Mkdir. destruct (pooled _ _ (env_of ($"h"))) as [r s']. destruct H as (-> & -> & He).
  split; [reflexivity|]. split; [reflexivity|]. exact He.
Defined.

Lemma DirSize_sum_witness :
  fst (DirSize ($"/") (env_of ($"h:22"))) = Ok 120.
Proof.
  destruct (DirSize_sum ($"/") (env_of ($"h:22")) 0 (dialled ($"h:22"))
    [WalkStat (Some doc); WalkStat (Some DemoRemote.dir)] (e_rem (dialled ($"h:22")))
    getConn_port eq_refl eq_refl) as [_ H].
  apply H. by apply (bool_decide_unpack _).
Defined.

Lemma Move_into_directory_fails_witness :
  exists e, fst (Move ($"/a.txt") ($"/d") true (env_of ($"h:22"))) =
            Err (EWrap ($"删除目标路径失败") e).
Proof.
  destruct (Move_into_directory_fails ($"/a.txt") ($"/d") (env_of ($"h:22")) 0 (dialled ($"h:22"))
              DemoRemote.dir (e_rem (dialled ($"h:22")))) as (e & r2 & _ & ->).
  - intros k p r e r'. simpl. unfold stat, remove. destruct (tree r !! p); [done|].
    intros [= _ <-]. by do 2 eexists.
  - exact getConn_port.
  - reflexivity.
  - reflexivity.
  - reflexivity.
  - by exists e.
Defined.
