(* ===== verification/SshSession.v ===== *)
(** * Package [webssh]: the terminal session ([session.go])

    The reader that filters window-size messages out of the websocket stream, and
    the sequence of calls of [ConnectWithOptions] with its deferred clean-ups.  The
    websocket yields a sequence of reads and then an error; the calls on the SSH
    session are events. *)

From S2P Require Import Prelude GoStr.

Local Open Scope Z_scope.

Definition DefaultResizeControlPrefix : bytes := chr 0 :: $"webssh:resize:".

(** ** [parseTerminalResize] *)

Definition colon : ascii := ":"%char.

Definition parseTerminalResize (data prefix : bytes) : Z * Z * bool :=
  if bool_decide (prefix = []) || negb (HasPrefix data prefix) then (0, 0, false)
  else
    let size := TrimPrefix data prefix in
    match Split size colon with
    | [a; b] =>
        match Atoi a with
        | None => (0, 0, true)
        | Some cols =>
            match Atoi b with
            | None => (0, 0, true)
            | Some rows =>
                if (cols <? 10) || (rows <? 3) || (1000 <? cols) || (1000 <? rows) then (0, 0, true)
                else (cols, rows, true)
            end
        end
    | _ => (0, 0, true)
    end.

(** ** [terminalResizeReader] *)

Record resizeReader := ResizeReader {
  chunks : list bytes;           (* what the next reads of the websocket give *)
  read_err : error;              (* and the error after them *)
  prefix : bytes;
  pending : bytes;
  cols : Z;
  rows : Z;
  ready : bool;
  changes : list (Z * Z)         (* the calls [WindowChange(rows, cols)] *)
}.

Definition newTerminalResizeReader (chunks : list bytes) (e : error) (prefix : bytes) : resizeReader :=
  ResizeReader chunks e prefix [] 0 0 false [].

Definition Enable : State resizeReader unit := modify (fun r =>
  ResizeReader (chunks r) (read_err r) (prefix r) (pending r) (cols r) (rows r) true
    (if (0 <? cols r) && (0 <? rows r) then changes r ++ [(rows r, cols r)] else changes r)).

Definition Resize (c w : Z) : State resizeReader unit := modify (fun r =>
  ResizeReader (chunks r) (read_err r) (prefix r) (pending r) c w (ready r)
    (if ready r then changes r ++ [(w, c)] else changes r)).

Definition set_stream (cs : list bytes) (p : bytes) : State resizeReader unit := modify (fun r =>
  ResizeReader cs (read_err r) (prefix r) p (cols r) (rows r) (ready r) (changes r)).

(** The loop of [Read] once nothing is pending; each turn reads the websocket. *)
Fixpoint read_loop (plen : nat) (cs : list bytes) : State resizeReader (bytes * option error) :=
  match cs with
  | [] => e ← gets read_err; mret ([], Some e)
  | data :: cs' =>
      if bool_decide (data = []) then set_stream cs' [];; mret ([], None)
      else
        pre ← gets prefix;
        match parseTerminalResize data pre with
        | (c, w, true) => set_stream cs' [];; Resize c w;; read_loop plen cs'
        | _ => set_stream cs' (drop plen data);; mret (take plen data, None)
        end
  end.

(** [Read] into a buffer of [plen] bytes. *)
Definition Read (plen : nat) : State resizeReader (bytes * option error) :=
  p ← gets pending;
  if bool_decide (p <> []) then
    cs ← gets chunks;
    set_stream cs (drop plen p);; mret (take plen p, None)
  else
    cs ← gets chunks; read_loop plen cs.

(** ** [ConnectWithOptions] *)

Record ConnectOptions := MkConnectOptions {
  ResizeControlPrefix : bytes; InitialWidth : Z; InitialHeight : Z
}.

Inductive event :=
  | EvWrite (msg : bytes)                (* [ws.Write] *)
  | EvRequestPty (height width : Z)
  | EvEnable
  | EvCloseSession
  | EvCloseClient
  | EvCloseWs.

(** The terminal size that is requested; [w] and [h] are those of [term.GetSize]. *)
Definition terminal_size (w h : Z) (o : ConnectOptions) : Z * Z :=
  let width := if 0 <? InitialWidth o then InitialWidth o else w in
  let height := if 0 <? InitialHeight o then InitialHeight o else h in
  let resizable := bool_decide (ResizeControlPrefix o <> []) in
  ((if (width <=? 0) && resizable then 120 else width),
   (if (height <=? 0) && resizable then 40 else height)).

Section connect.
Variable Error_ : error -> bytes.         (* [err.Error()] *)
(** The outcomes of the calls on the SSH side, [None] for success. *)
Variables (newClient newSession requestPty shell wait : option error).
Variables (termWidth termHeight : Z).

Definition crlf : bytes := [cr; nl].

(** The events in order, deferred calls last, and the returned error. *)
Definition ConnectWithOptions (o : ConnectOptions) : list event * option error :=
  match newClient with
  | Some e => ([EvWrite ($"> " ++ Error_ e ++ crlf); EvCloseWs], Some e)
  | None =>
      match newSession with
      | Some e => ([EvWrite (Error_ e ++ crlf); EvCloseClient; EvCloseWs], Some e)
      | None =>
          let defers := [EvCloseSession; EvCloseClient; EvCloseWs] in
          let '(width, height) := terminal_size termWidth termHeight o in
          let pty := [EvRequestPty height width] in
          match requestPty with
          | Some e => (pty ++ EvWrite (Error_ e ++ crlf) :: defers, Some e)
          | None =>
              let enable := if bool_decide (ResizeControlPrefix o <> []) then [EvEnable] else [] in
              match shell with
              | Some e => (pty ++ enable ++ EvWrite (Error_ e ++ crlf) :: defers, Some e)
              | None =>
                  match wait with
                  | Some e => (pty ++ enable ++ EvWrite (Error_ e ++ crlf) :: defers, Some e)
                  | None => (pty ++ enable ++ defers, None)
                  end
              end
          end
      end
  end.

Definition Connect : list event * option error := ConnectWithOptions (MkConnectOptions [] 0 0).
Definition ConnectWithResize : list event * option error :=
  ConnectWithOptions (MkConnectOptions DefaultResizeControlPrefix 0 0).
End connect.

(** ** What the parser accepts *)

Definition in_window (c w : Z) : Prop := 10 <= c <= 1000 /\ 3 <= w <= 1000.

Lemma parse_resize_iff data pre c w :
  pre <> [] -> in_window c w ->
  parseTerminalResize data pre = (c, w, true) <->
  exists a b, data = pre ++ a ++ colon :: b /\ (colon ∉ a) /\ (colon ∉ b) /\
    Atoi a = Some c /\ Atoi b = Some w.
Proof.
  intros Hpre Hin. unfold parseTerminalResize. rewrite bool_decide_eq_false_2 by done.
  rewrite orb_false_l. split.
  - destruct (HasPrefix data pre) eqn:Hp; [|done]. cbn [negb].
    apply HasPrefix_spec in Hp as [r ->]. rewrite TrimPrefix_app.
    pose proof (Join_Split r colon) as Hj.
    destruct (Split r colon) as [|a [|b [|]]] eqn:Es;
      try (intros [= <- <-]; unfold in_window in Hin; lia).
    destruct (Atoi a) as [ca|] eqn:Ea; [|intros [= <- <-]; unfold in_window in Hin; lia].
    destruct (Atoi b) as [cb|] eqn:Eb; [|intros [= <- <-]; unfold in_window in Hin; lia].
    destruct (_ || _) eqn:Eg; [intros [= <- <-]; unfold in_window in Hin; lia|].
    intros [= -> ->]. exists a, b. simpl in Hj. rewrite <- Hj.
    split; [done|]. split; [|split; [|done]]; apply (Split_elem r); rewrite Es; set_solver.
  - intros (a & b & -> & Ha & Hb & Hca & Hcb).
    rewrite (proj2 (HasPrefix_spec _ _)) by (by eexists). cbn [negb].
    rewrite TrimPrefix_app, Split_app, Split_no_sep, Hca, Hcb by done.
    unfold in_window in Hin.
    destruct (Z.ltb_spec c 10), (Z.ltb_spec w 3), (Z.ltb_spec 1000 c), (Z.ltb_spec 1000 w);
      simpl; done || lia.
Qed.

(** The result is a size in range or (0, 0). *)
Lemma parse_resize_range data pre c w ok :
  parseTerminalResize data pre = (c, w, ok) -> in_window c w \/ (c = 0 /\ w = 0).
Proof.
  unfold parseTerminalResize, in_window. intros E.
  repeat (case_match; simplify_eq; try by right).
  left. repeat match goal with H : (_ || _) = false |- _ => apply orb_false_iff in H as [? ?] end.
  lia.
Qed.

(** ** The data that reaches the shell *)

Definition is_control (pre data : bytes) : bool := snd (parseTerminalResize data pre).

(** The data in a sequence of reads, control messages left out. *)
Definition payload (pre : bytes) (cs : list bytes) : bytes :=
  concat (List.filter (fun d => negb (is_control pre d)) cs).

Definition unread (r : resizeReader) : bytes := pending r ++ payload (prefix r) (chunks r).

(** What a step of the reader keeps: the bytes still to be delivered, after those
    it returns; it consumes a read of the websocket unless it reports its error,
    which it does only when everything has been delivered. *)
Definition read_ok (plen : nat) (r : resizeReader) (out : bytes) (err : option error)
    (r' : resizeReader) : Prop :=
  out ++ unread r' = unread r /\ prefix r' = prefix r /\ read_err r' = read_err r /\
  (length out <= plen)%nat /\
  (err <> None -> err = Some (read_err r) /\ unread r = []).

Lemma payload_cons pre d cs :
  payload pre (d :: cs) = (if is_control pre d then [] else d) ++ payload pre cs.
Proof. unfold payload. simpl. by destruct (is_control pre d). Qed.

Lemma is_control_nil pre : is_control pre [] = false.
Proof.
  unfold is_control, parseTerminalResize. case_bool_decide as Hpre; [done|].
  by destruct pre.
Qed.

Lemma read_loop_ok plen cs r :
  pending r = [] -> chunks r = cs ->
  let '((out, err), r') := read_loop plen cs r in read_ok plen r out err r'.
Proof.
  revert r. induction cs as [|d cs IH]; intros r Hp Hc; cbn [read_loop].
  - unfold gets, mbind, State_bind, mret, State_ret, read_ok. simpl. unfold unread. rewrite Hp, Hc.
    split_and!; try done. simpl. lia.
  - unfold set_stream, Resize, gets, modify, mbind, State_bind, mret, State_ret.
    assert (unread r = (if is_control (prefix r) d then [] else d) ++ payload (prefix r) cs) as Hu
      by (unfold unread; by rewrite Hp, Hc, payload_cons).
    case_bool_decide as Hd.
    + subst d. rewrite is_control_nil in Hu. unfold read_ok. rewrite Hu.
      split_and!; try done. simpl. lia.
    + unfold is_control in Hu.
      destruct (parseTerminalResize d (prefix r)) as [[c w] [|]] eqn:E; cbn [snd] in Hu.
      * set (r1 := ResizeReader _ _ _ _ _ _ _ _).
        specialize (IH r1 eq_refl eq_refl). destruct (read_loop plen cs r1) as [[out err] r'].
        unfold read_ok in *. by rewrite Hu.
      * unfold read_ok. rewrite Hu. unfold unread. cbn [pending chunks prefix read_err].
        rewrite app_assoc, take_drop. split_and!; try done. rewrite length_take. lia.
Qed.

Lemma Read_ok plen r :
  let '((out, err), r') := Read plen r in read_ok plen r out err r'.
Proof.
  unfold Read, gets, set_stream, modify, mbind, State_bind, mret, State_ret.
  case_bool_decide as Hp.
  - unfold read_ok, unread. cbn [pending chunks prefix read_err].
    rewrite app_assoc, take_drop. split_and!; try done. rewrite length_take. lia.
  - apply (read_loop_ok plen (chunks r) r); done.
Qed.

(** Every size the session is told is in range, or (0, 0). *)
Definition changes_ok (r : resizeReader) : Prop :=
  Forall (fun p => in_window (snd p) (fst p) \/ p = (0, 0)) (changes r) /\
  (in_window (cols r) (rows r) \/ (cols r = 0 /\ rows r = 0)).

Lemma changes_ok_Resize c w r :
  in_window c w \/ (c = 0 /\ w = 0) -> changes_ok r -> changes_ok (snd (Resize c w r)).
Proof.
  intros Hr [Hc _]. split; [|done]. simpl. destruct (ready r); [|done].
  apply Forall_app. split; [done|]. constructor; [|done]. simpl.
  destruct Hr as [|[-> ->]]; [by left | by right].
Qed.

Lemma changes_ok_Enable r : changes_ok r -> changes_ok (snd (Enable r)).
Proof.
  intros [Hc Hs]. split; [|done]. simpl. destruct ((0 <? cols r) && (0 <? rows r)) eqn:E; [|done].
  apply Forall_app. split; [done|]. constructor; [|done]. simpl. left.
  apply andb_true_iff in E as [?%Z.ltb_lt ?%Z.ltb_lt]. destruct Hs as [|[Hz _]]; [done | lia].
Qed.

Lemma read_loop_changes plen cs r : changes_ok r -> changes_ok (snd (read_loop plen cs r)).
Proof.
  revert r. induction cs as [|d cs IH]; intros r Hr; cbn [read_loop]; [done|].
  case_bool_decide; [done|]. unfold gets, mbind, State_bind.
  destruct (parseTerminalResize d (prefix r)) as [[c w] [|]] eqn:E; [|done].
  unfold set_stream, modify. cbn beta iota. set (r1 := ResizeReader _ _ _ _ _ _ _ _).
  pose proof (changes_ok_Resize c w r1 (parse_resize_range _ _ _ _ _ E) Hr) as Hch.
  destruct (Resize c w r1) as [u r2]. by apply IH.
Qed.

Lemma Read_changes plen r : changes_ok r -> changes_ok (snd (Read plen r)).
Proof.
  intros Hr. unfold Read, gets, mbind, State_bind. case_bool_decide; [done|].
  by apply read_loop_changes.
Qed.

(** A run of the session: reads of any lengths, with [Enable] among them. *)
Inductive reader_op :=
  | OpRead (plen : nat)
  | OpEnable.

Definition run_reader (o : reader_op) : State resizeReader (bytes * option error) :=
  match o with
  | OpRead plen => Read plen
  | OpEnable => Enable;; mret ([], None)
  end.

Lemma run_reader_stream os r :
  let '(outs, r') := st_mapM run_reader os r in
  concat (map fst outs) ++ unread r' = unread r /\ read_err r' = read_err r /\
  (Exists (fun o => snd o <> None) outs -> unread r' = []) /\
  (changes_ok r -> changes_ok r').
Proof.
  revert r. induction os as [|o os IH]; intros r.
  { split; [done|]. split; [done|]. split; [|done]. by inversion 1. }
  cbn [st_mapM]. unfold mbind, State_bind, mret, State_ret.
  assert (let '((out, err), r1) := run_reader o r in
          out ++ unread r1 = unread r /\ read_err r1 = read_err r /\
          (err <> None -> unread r1 = []) /\ (changes_ok r -> changes_ok r1)) as Ho.
  { destruct o as [plen|]; simpl.
    - pose proof (Read_ok plen r) as H1. pose proof (Read_changes plen r) as H2.
      destruct (Read plen r) as [[out err] r1]. destruct H1 as (H1 & _ & H3 & _ & H5).
      split; [done|]. split; [done|]. split; [|done]. intros He. destruct (H5 He) as [_ Hu].
      rewrite Hu in H1. by apply app_eq_nil in H1 as [_ ?].
    - split; [done|]. split; [done|]. split; [done|]. apply (changes_ok_Enable r). }
  destruct (run_reader o r) as [[out err] r1]. destruct Ho as (H1 & H2 & H3 & H4).
  specialize (IH r1). destruct (st_mapM run_reader os r1) as [outs r'].
  destruct IH as (I1 & I2 & I3 & I4). simpl. rewrite <- app_assoc, I1.
  split; [done|]. split; [congruence|]. split; [|tauto].
  intros [He|He]%Exists_cons; [|by apply I3].
  rewrite (H3 He) in I1. by apply app_eq_nil in I1 as [_ ?].
Qed.

(** ** Properties *)

(** C8: whatever the lengths of the reads and whenever the window is enabled, the
    shell receives the data of the websocket in order and complete, with exactly
    the control messages left out: what has been delivered is a prefix of it, and
    all of it once the error of the websocket is reported.  And the session is never
    told a window size that is neither between 10x3 and 1000x1000 nor 0x0. *)
Theorem resize_reader_stream cs e pre os :
  let '(outs, r') := st_mapM run_reader os (newTerminalResizeReader cs e pre) in
  concat (map fst outs) `prefix_of` payload pre cs /\
  (Exists (fun o => snd o <> None) outs -> concat (map fst outs) = payload pre cs) /\
  Forall (fun p => in_window (snd p) (fst p) \/ p = (0, 0)) (changes r').
Proof.
  pose proof (run_reader_stream os (newTerminalResizeReader cs e pre)) as H.
  destruct (st_mapM run_reader os _) as [outs r']. destruct H as (H1 & _ & H3 & H4).
  unfold unread in H1 at 2. simpl in H1. split; [|split].
  - exists (unread r'). by rewrite H1.
  - intros He. by rewrite (H3 He), app_nil_r in H1.
  - apply H4. split; [constructor|]. by right.
Qed.

(** A window size is taken from a message if and only if the message is the
    prefix followed by two decimal numbers separated by a colon and in range. *)
Theorem resize_message_spec data pre c w :
  pre <> [] -> in_window c w ->
  parseTerminalResize data pre = (c, w, true) <->
  exists a b, data = pre ++ a ++ colon :: b /\ (colon ∉ a) /\ (colon ∉ b) /\
    Atoi a = Some c /\ Atoi b = Some w.
Proof. apply parse_resize_iff. Qed.

Lemma resize_message_spec_witness :
  parseTerminalResize (DefaultResizeControlPrefix ++ $"80:24") DefaultResizeControlPrefix =
  (80, 24, true).
Proof.
  apply resize_message_spec; [done|unfold in_window; lia|].
  exists ($"80"), ($"24"). split; [reflexivity|].
  split; [by apply (bool_decide_unpack _)|]. split; [by apply (bool_decide_unpack _)|].
  split; reflexivity.
Defined.

(** A control message that carries no size in range is not ignored: the bounds
    test rejects it, but the rejected size is returned as 0x0 with [ok], and the
    session is told a window of zero rows and columns. *)
Theorem malformed_resize_zero data r plen :
  prefix r <> [] -> HasPrefix data (prefix r) = true ->
  (forall c w, in_window c w -> parseTerminalResize data (prefix r) <> (c, w, true)) ->
  pending r = [] -> ready r = true -> chunks r = [data] ->
  changes (snd (Read plen r)) = changes r ++ [(0, 0)].
Proof.
  intros Hpre Hp Hbad Hpend Hready Hc.
  assert (parseTerminalResize data (prefix r) = (0, 0, true)) as E.
  { destruct (parseTerminalResize data (prefix r)) as [[c w] ok] eqn:E.
    assert (ok = true) as ->.
    { unfold parseTerminalResize in E. rewrite bool_decide_eq_false_2, Hp in E by done.
      simpl in E. repeat case_match; congruence. }
    destruct (parse_resize_range _ _ _ _ _ E) as [Hin|[-> ->]]; [|done]. by destruct (Hbad c w). }
  unfold Read, gets, mbind, State_bind. rewrite Hpend. rewrite bool_decide_eq_false_2 by tauto.
  cbv beta iota. rewrite Hc.
  cbn [read_loop]. rewrite bool_decide_eq_false_2.
  2: { intros ->. destruct (prefix r); [done|]. by apply HasPrefix_spec in Hp as [? ?]. }
  unfold gets, mbind, State_bind. rewrite E. unfold set_stream, Resize, modify. simpl.
  by rewrite Hready.
Qed.

Lemma malformed_resize_zero_witness :
  changes (snd (Read 100 (ResizeReader [DefaultResizeControlPrefix ++ $"5000:24"] (EOther 0)
    DefaultResizeControlPrefix [] 80 24 true [(24, 80)]))) = [(24, 80); (0, 0)].
Proof.
  apply (malformed_resize_zero (DefaultResizeControlPrefix ++ $"5000:24")); try reflexivity; [done|].
  intros c w Hin. assert (parseTerminalResize (DefaultResizeControlPrefix ++ $"5000:24")
    DefaultResizeControlPrefix = (0, 0, true)) as E by reflexivity.
  cbn [prefix]. rewrite E. intros [= <- <-]. unfold in_window in Hin. lia.
Defined.

(** On every path [ConnectWithOptions] closes what it has opened, in the
    reverse order: the session if it was opened, then the client if it was opened,
    then, last and always, the websocket; and an error is written to the websocket
    before it is closed, and returned. *)
Theorem ConnectWithOptions_closes Error_ nc ns pty sh wt tw th o :
  let '(evs, err) := ConnectWithOptions Error_ nc ns pty sh wt tw th o in
  let closes := match nc, ns with
                | Some _, _ => [EvCloseWs]
                | None, Some _ => [EvCloseClient; EvCloseWs]
                | None, None => [EvCloseSession; EvCloseClient; EvCloseWs]
                end in
  err = match nc with Some e => Some e | None => match ns with Some e => Some e | None =>
        match pty with Some e => Some e | None => match sh with Some e => Some e | None => wt end end end end /\
  exists pre, evs = pre ++ closes /\
    Forall (fun e => match e with EvCloseSession | EvCloseClient | EvCloseWs => False | _ => True end) pre /\
    match err with Some e => exists p, last pre = Some (EvWrite (p ++ Error_ e ++ crlf)) | None => True end.
Proof.
  unfold ConnectWithOptions. destruct (terminal_size tw th o) as [width height].
  set (en := if bool_decide (ResizeControlPrefix o <> []) then [EvEnable] else []).
  assert (Forall (fun e => match e with EvCloseSession | EvCloseClient | EvCloseWs => False
                                      | _ => True end) en) as Hen
    by (unfold en; case_match; repeat constructor).
  destruct nc as [e|]; [|destruct ns as [e|]; [|destruct pty as [e|]; [|
    destruct sh as [e|]; [|destruct wt as [e|]]]]]; (split; [done|]).
  - exists [EvWrite ($"> " ++ Error_ e ++ crlf)]. split; [done|]. split; [by repeat constructor|].
    by exists ($"> ").
  - exists [EvWrite (Error_ e ++ crlf)]. split; [done|]. split; [by repeat constructor|].
    by exists [].
  - exists [EvRequestPty height width; EvWrite (Error_ e ++ crlf)]. split; [done|].
    split; [by repeat constructor|]. by exists [].
  - exists (EvRequestPty height width :: en ++ [EvWrite (Error_ e ++ crlf)]).
    split; [simpl; by rewrite <- app_assoc|].
    split; [constructor; [done|]; apply Forall_app; by repeat constructor|].
    exists []. rewrite app_comm_cons. apply last_snoc.
  - exists (EvRequestPty height width :: en ++ [EvWrite (Error_ e ++ crlf)]).
    split; [simpl; by rewrite <- app_assoc|].
    split; [constructor; [done|]; apply Forall_app; by repeat constructor|].
    exists []. rewrite app_comm_cons. apply last_snoc.
  - exists (EvRequestPty height width :: en). split; [done|]. split; [by constructor | done].
Qed.
