(* ===== verification/Upgrade.v ===== *)
(** * Package [upgrade]: checking for and installing a new binary

    [helper.go], [updater.go] and [upgrade.go] over the file system of [GoFs], whose
    system calls may fail one by one.  The HTTP requests of package [request], the
    JSON decoder and [net/url] are parameters; logging and [Restart] (which replaces
    the process) are left out. *)

From S2P Require Import Prelude GoStr GoFs GoHash.

Local Open Scope Z_scope.

(** ** helper.go *)

(** The errors of the package, with the rollback error a constructor of its own. *)
Inductive upd_error :=
  | UErr (e : error)
  | ErrRollback (err rollback : error).

#[export] Instance upd_error_eq_dec : EqDecision upd_error.
Proof. solve_decision. Defined.

(** [Unwrap]: what [errors.Is] sees. *)
Definition Unwrap (e : upd_error) : error :=
  match e with UErr e => e | ErrRollback err _ => err end.

(** The nil slice and the empty slice are not distinguished. *)
Definition parseChecksum (value : bytes) : result bytes :=
  if bool_decide (value = []) then Ok []
  else
    match DecodeString value with
    | Err e => Err e
    | Ok decoded =>
        if negb (length decoded =? 32)%nat then Err (ENew ($"invalid checksum length"))
        else Ok decoded
    end.

Definition ErrWrongChecksum : error := ENew ($"updated file has wrong checksum").

Definition verifyChecksum (filePath checksum : bytes) : State fs (result unit) :=
  if bool_decide (checksum = []) then mret (Ok tt)
  else
    file ←? os_Open filePath;
    data ←? io_Copy file;
    if bool_decide (checksum = sha256 data) then mret (Ok tt) else mret (Err ErrWrongChecksum).

Definition backup_path (targetPath oldVersion : bytes) : bytes := targetPath ++ $"-" ++ oldVersion.

(** The last part of [commitBinary]. *)
Definition commit_rename (newBinary targetPath backupPath : bytes) (targetMoved : bool)
    : State fs (option upd_error) :=
  r ← os_Rename newBinary targetPath;
  match r with
  | Err err =>
      if targetMoved then
        rb ← os_Rename backupPath targetPath;
        match rb with
        | Err rollbackErr => mret (Some (ErrRollback err rollbackErr))
        | Ok _ => mret (Some (UErr err))
        end
      else mret (Some (UErr err))
  | Ok _ =>
      (if targetMoved then _ ← os_Remove backupPath; mret tt else mret tt);;
      mret None
  end.

Definition commitBinary (newBinary targetPath : bytes) (targetMode : Z) (oldVersion : bytes)
    : State fs (option upd_error) :=
  v ← verifyChecksum newBinary [];
  match v with
  | Err err => mret (Some (UErr err))
  | Ok _ =>
      c ← os_Chmod newBinary targetMode;
      match c with
      | Err err => mret (Some (UErr err))
      | Ok _ =>
          let backupPath := backup_path targetPath oldVersion in
          st ← os_Stat targetPath;
          match st with
          | Ok _ =>
              rm ← os_Remove backupPath;
              match rm with
              | Err err =>
                  if os_IsNotExist err then
                    mv ← os_Rename targetPath backupPath;
                    match mv with
                    | Err err => mret (Some (UErr err))
                    | Ok _ => commit_rename newBinary targetPath backupPath true
                    end
                  else mret (Some (UErr err))
              | Ok _ =>
                  mv ← os_Rename targetPath backupPath;
                  match mv with
                  | Err err => mret (Some (UErr err))
                  | Ok _ => commit_rename newBinary targetPath backupPath true
                  end
              end
          | Err err =>
              if os_IsNotExist err then commit_rename newBinary targetPath backupPath false
              else mret (Some (UErr err))
          end
      end
  end.

(** ** updater.go *)

Record BinaryUpdater := MkUpdater {
  NewVersion : bytes; OldVersion : bytes; TargetPath : bytes; TargetMode : Z;
  NewBinary : bytes; Checksum : bytes
}.

Definition Init (os_Executable : result bytes) (u : BinaryUpdater) : State fs (result BinaryUpdater) :=
  let newv := if bool_decide (NewVersion u = []) then $"new" else NewVersion u in
  let oldv := if bool_decide (OldVersion u = []) then $"old" else OldVersion u in
  target ←? mret (if bool_decide (TargetPath u = []) then os_Executable else Ok (TargetPath u));
  mode ←
    (if TargetMode u =? 0 then
       st ← os_Stat target;
       mret (match st with Ok info => Z.land (perm info) 511 | Err _ => 493 end)
     else mret (TargetMode u));
  let newb := if bool_decide (NewBinary u = []) then target ++ $"-" ++ newv ++ $".tmp"
              else NewBinary u in
  mret (Ok (MkUpdater newv oldv target mode newb (Checksum u))).

Definition VerifyChecksum (u : BinaryUpdater) : State fs (result unit) :=
  verifyChecksum (NewBinary u) (Checksum u).

Definition CommitBinary (u : BinaryUpdater) : State fs (option upd_error) :=
  commitBinary (NewBinary u) (TargetPath u) (TargetMode u) (OldVersion u).

(** ** upgrade.go *)

Record UpdateInfo := MkInfo {
  Type_ : bytes; Error_ : bytes; Message : bytes; Release : bytes; Version : bytes;
  Package : bytes; Checksum_ : bytes
}.

Definition no_info : UpdateInfo := MkInfo [] [] [] [] [] [] [].

Definition ErrNoUpdate : error := ESentinel ($"no update").

Record Updater := MkUpd {
  u_Server : bytes; u_Version : bytes; u_TargetPath : bytes; u_TargetMode : Z
}.

Definition NewUpdater (server version : bytes) : Updater := MkUpd server version [] 0.

Record UpdateParam := MkParam { p_Server : bytes; p_Version : bytes }.

Section upgrade.
(** [net/url] and the build constants. *)
Context {URL : Type} (url_Parse : bytes -> result URL) (url_Query : URL -> gmap bytes (list bytes)).
Context (url_String : URL -> gmap bytes (list bytes) -> bytes) (GOOS GOARCH : bytes).
(** [request.Get], [json.Unmarshal] into a pointer to a pointer to [UpdateInfo],
    which the document [null] sets to nil, [os.Executable], and the download
    handler, which writes the package to a file and returns its path. *)
Context (request_Get : bytes -> result bytes).
Context (Unmarshal : bytes -> option UpdateInfo * option error).
Context (os_Executable : result bytes).
Context (handler : bytes -> bytes -> State fs (result bytes)).

(** [q.Set] for the three parameters, then the query replaces the one of the URL. *)
Definition buildUpdateURL (u : Updater) : result bytes :=
  if bool_decide (u_Server u = []) then Err (ENew ($"server url is required"))
  else
    match url_Parse (u_Server u) with
    | Err e => Err e
    | Ok parsed =>
        let q := url_Query parsed in
        let q := <[$"ver" := [u_Version u]]> q in
        let q := <[$"os" := [GOOS]]> q in
        let q := <[$"arch" := [GOARCH]]> q in
        Ok (url_String parsed q)
    end.

(** The pointer and the error that [Check] returns; a field of a nil pointer
    panics. *)
Definition Check_ (u : Updater) : outcome (option UpdateInfo * option error) :=
  match buildUpdateURL u with
  | Err e => Ret (Some no_info, Some e)
  | Ok urlStr =>
      match request_Get urlStr with
      | Err e => Ret (Some no_info, Some e)
      | Ok body =>
          match Unmarshal body with
          | (info, Some e) => Ret (info, Some e)
          | (None, None) => Panic
          | (Some info, None) =>
              if bool_decide (Error_ info <> []) then Ret (Some info, Some (ENew (Error_ info)))
              else if bool_decide (Package info = []) then Ret (Some info, Some ErrNoUpdate)
              else Ret (Some info, None)
          end
      end
  end.

(** The part of [Apply] that touches files. *)
Definition install (u : Updater) (info : UpdateInfo) : State fs (option upd_error) :=
  match (if bool_decide (Checksum_ info = []) then Ok [] else parseChecksum (Checksum_ info)) with
  | Err e => mret (Some (UErr e))
  | Ok checksum =>
      i ← Init os_Executable
            (MkUpdater (Version info) (u_Version u) (u_TargetPath u) (u_TargetMode u) [] checksum);
      match i with
      | Err e => mret (Some (UErr e))
      | Ok b =>
          d ← handler (Package info) (NewBinary b);
          match d with
          | Err e => mret (Some (UErr e))
          | Ok output =>
              let b := if bool_decide (output = []) then b
                       else MkUpdater (NewVersion b) (OldVersion b) (TargetPath b) (TargetMode b)
                              output (Checksum b) in
              v ← VerifyChecksum b;
              match v with
              | Err e => mret (Some (UErr e))
              | Ok _ => CommitBinary b
              end
          end
      end
  end.

Definition Apply (u : Updater) : State fs (outcome (option upd_error)) :=
  match Check_ u with
  | Panic => mret Panic
  | Ret (_, Some err) =>
      if errors_Is err ErrNoUpdate then mret (Ret (Some (UErr ErrNoUpdate)))
      else mret (Ret (Some (UErr err)))
  | Ret (None, None) => mret Panic
  | Ret (Some info, None) =>
      if negb (HasPrefix (Package info) ($"https://")) then mret (Ret (Some (UErr ErrNoUpdate)))
      else r ← install u info; mret (Ret r)
  end.

Definition ApplyUpdate (p : UpdateParam) : State fs (outcome (option upd_error)) :=
  Apply (NewUpdater (p_Server p) (p_Version p)).

Definition CheckUpdate (p : UpdateParam) : outcome (option UpdateInfo * option error) :=
  Check_ (NewUpdater (p_Server p) (p_Version p)).

(** *** Restart

    What [Restart] does to the process: it returns with an error, has another program run
    in its place, or starts one and exits. *)
Inductive restarted :=
  | Returned (e : error)
  | Replaced (self : bytes) (args env : list bytes)
  | Exited (code : Z) (self : bytes) (args env : list bytes).

(** [windows]: [runtime.GOOS]; [exec_error]: why [syscall.Exec] came back, if it did;
    [start]: what starting a process ends with.  [os.Args] without a program name makes
    the slice [args[1:]] panic. *)
Definition Restart (windows : bool) (os_Args os_Environ : list bytes) (exec_error : option error)
    (start : result unit) (u : Updater) : outcome restarted :=
  match (if bool_decide (u_TargetPath u = []) then os_Executable else Ok (u_TargetPath u)) with
  | Err e => Ret (Returned e)
  | Ok self =>
      if windows then
        match os_Args with
        | [] => Panic
        | _ :: args =>
            match start with
            | Err e => Ret (Returned e)
            | Ok _ => Ret (Exited 0 self (self :: args) os_Environ)
            end
        end
      else
        match exec_error with
        | Some e => Ret (Returned e)
        | None => Ret (Replaced self os_Args os_Environ)
        end
  end.

(** The function [Restart] of the package. *)
Definition Restart_self (windows : bool) (os_Args os_Environ : list bytes) (exec_error : option error)
    (start : result unit) : outcome restarted :=
  Restart windows os_Args os_Environ exec_error start (NewUpdater [] []).
End upgrade.

(** [defaultDownloadHandler], over the [Download] of package [request]. *)
Definition defaultDownloadHandler (request_Download : bytes -> bytes -> bool -> State fs (result bytes))
    (pkgURL outputPath : bytes) : State fs (result bytes) :=
  _ ←? request_Download pkgURL outputPath true;
  mret (Ok outputPath).

(** ** The replacement of the binary *)


Section commit.
Variables (newb target backup : bytes).
Hypothesis (Hnt : newb <> target) (Hnb : newb <> backup) (Htb : target <> backup).

(** The last part, on a file system [m0] at the start of [commitBinary]. *)
Lemma commit_rename_spec (m0 : gmap bytes fnode) n moved w :
  files w !! newb = Some n ->
  (if moved : bool then files w !! target = None /\ files w !! backup = m0 !! target /\
                        is_Some (m0 !! target)
   else files w !! target = m0 !! target) ->
  let '(r, w') := commit_rename newb target backup moved w in
  match r with
  | None => files w' !! target = Some n
  | Some (UErr _) => files w' !! target = m0 !! target
  | Some (ErrRollback _ _) =>
      files w' !! target = None /\ files w' !! backup = m0 !! target /\ is_Some (m0 !! target) /\
      (2 <= fault_count w)%nat
  end.
Proof.
  intros Hn Hm. unfold commit_rename. unfold mbind, State_bind, mret, State_ret.
  pose proof (os_Rename_spec newb target w) as H1.
  destruct (os_Rename newb target w) as [[[]|e] w1]; cbn [outcome_of] in H1; rewrite Hn in H1.
  - destruct H1 as [H1 _]. cbn in H1. injection H1 as H1. destruct moved.
    + pose proof (os_Remove_spec backup w1) as H2.
      destruct (os_Remove backup w1) as [[[]|e] w2]; cbn [outcome_of] in H2.
      * destruct H2 as [H2 _]. destruct (files w1 !! backup); [|done]. cbn in H2. injection H2 as <-.
        rewrite lookup_delete_ne, <- H1 by done. apply lookup_insert_eq.
      * destruct H2 as [-> _]. rewrite <- H1. apply lookup_insert_eq.
    + rewrite <- H1. apply lookup_insert_eq.
  - destruct H1 as [H1 [Hc|(_ & ? & _)]]; [|done]. destruct moved; [|by rewrite H1].
    destruct Hm as (Ht & Hb & [n0 Hn0]). pose proof (os_Rename_spec backup target w1) as H2.
    destruct (os_Rename backup target w1) as [[[]|e2] w2]; cbn [outcome_of] in H2;
      rewrite H1, Hb, Hn0 in H2.
    + destruct H2 as [H2 _]. cbn in H2. injection H2 as <-. rewrite Hn0. apply lookup_insert_eq.
    + destruct H2 as [H2 [Hc2|(_ & ? & _)]]; [|done]. rewrite H2.
      split_and!; [done | done | by eexists | lia].
Qed.

(** From the state after the old backup has been removed, or was not there. *)
Lemma commit_move_spec (m0 : gmap bytes fnode) n nt w :
  files w !! newb = Some n -> files w !! target = Some nt -> m0 !! target = Some nt ->
  let '(r, w') := (mv ← os_Rename target backup;
                   match mv with
                   | Err err => mret (Some (UErr err))
                   | Ok _ => commit_rename newb target backup true
                   end) w in
  match r with
  | None => files w' !! target = Some n
  | Some (UErr _) => files w' !! target = m0 !! target
  | Some (ErrRollback _ _) =>
      files w' !! target = None /\ files w' !! backup = m0 !! target /\ is_Some (m0 !! target) /\
      (2 <= fault_count w)%nat
  end.
Proof.
  intros Hn Ht H0. unfold mbind, State_bind, mret, State_ret.
  pose proof (os_Rename_spec target backup w) as H1.
  destruct (os_Rename target backup w) as [[[]|e] w1]; cbn [outcome_of] in H1; rewrite Ht in H1.
  - destruct H1 as [H1 Hc]. cbn in H1. injection H1 as H1. rewrite <- Hc.
    apply (commit_rename_spec m0 n true); rewrite <- H1.
    + by rewrite lookup_insert_ne, lookup_delete_ne.
    + rewrite lookup_insert_ne, lookup_delete_eq, lookup_insert_eq by done.
      split_and!; [done | done | by eexists].
  - destruct H1 as [-> _]. by rewrite Ht, H0.
Qed.
End commit.

Lemma backup_path_ne target old : target <> backup_path target old.
Proof.
  intros E. apply (f_equal length) in E. unfold backup_path in E. rewrite !length_app in E.
  simpl in E. lia.
Qed.

Lemma commitBinary_outcome newBinary target mode old w :
  newBinary <> target -> newBinary <> backup_path target old ->
  let '(r, w') := commitBinary newBinary target mode old w in
  match r with
  | None => exists n, files w !! newBinary = Some n /\
      files w' !! target = Some (FNode (content n) mode)
  | Some (UErr _) => files w' !! target = files w !! target
  | Some (ErrRollback _ _) =>
      files w' !! target = None /\ files w' !! backup_path target old = files w !! target /\
      is_Some (files w !! target) /\ (2 <= fault_count w)%nat
  end.
Proof.
  intros Hnt Hnb. pose proof (backup_path_ne target old) as Htb.
  unfold commitBinary. set (backup := backup_path target old) in *. cbv zeta.
  unfold mbind at 1, State_bind at 1. unfold verifyChecksum. rewrite bool_decide_eq_true_2 by done.
  unfold mret at 1, State_ret at 1. unfold mbind at 1, State_bind at 1.
  pose proof (os_Chmod_spec newBinary mode w) as H1.
  destruct (os_Chmod newBinary mode w) as [[[]|e] w1]; cbn [outcome_of] in H1.
  2: { destruct H1 as [H1 _]. unfold mret, State_ret. by rewrite H1. }
  destruct (files w !! newBinary) as [n|] eqn:En; [|by destruct H1]. destruct H1 as [H1 Hc1].
  cbn in H1. injection H1 as H1. set (n' := FNode (content n) mode) in *.
  assert (files w1 !! newBinary = Some n') as Hn1 by (rewrite <- H1; apply lookup_insert_eq).
  assert (files w1 !! target = files w !! target) as Ht1
    by (rewrite <- H1; by rewrite lookup_insert_ne).
  unfold mbind at 1, State_bind at 1. pose proof (os_Stat_spec target w1) as H2.
  destruct (os_Stat target w1) as [[nt|e] w2]; destruct H2 as [H2 Hnt2]; cbn [outcome_of] in H2.
  - rewrite Hnt2 in H2. destruct H2 as [H2 Hc2]. cbn in H2. injection H2 as H2.
    rewrite Ht1 in Hnt2. unfold mbind at 1, State_bind at 1.
    pose proof (os_Remove_spec backup w2) as H3.
    destruct (os_Remove backup w2) as [[[]|e] w3]; cbn [outcome_of] in H3.
    + destruct H3 as [H3 Hc3]. destruct (files w2 !! backup); [|done]. cbn in H3. injection H3 as H3.
      pose proof (commit_move_spec newBinary target backup Hnt Hnb Htb (files w) n' nt w3) as Hm.
      rewrite <- Hc1, <- Hc2, <- Hc3.
      destruct ((mv ← os_Rename target backup; _) w3) as [[[e|e1 e2]|] w'];
        (apply Hm || (exists n; split; [done|]; apply Hm)); rewrite <- ?H3, ?lookup_delete_ne, <- ?H2 by done;
        try done; by rewrite Ht1.
    + destruct H3 as [H3 Hc3]. destruct (os_IsNotExist e).
      2: { unfold mret, State_ret. by rewrite H3, <- H2. }
      pose proof (commit_move_spec newBinary target backup Hnt Hnb Htb (files w) n' nt w3) as Hm.
      rewrite H3, <- H2, Ht1 in Hm. specialize (Hm Hn1 Hnt2 Hnt2).
      destruct ((mv ← os_Rename target backup; _) w3) as [[[e'|e1 e2]|] w']; [done| |by exists n].
      split_and!; try apply Hm. destruct Hm as (_ & _ & _ & Hm). lia.
  - destruct H2 as [H2 Hc2]. destruct (os_IsNotExist e).
    2: { unfold mret, State_ret. by rewrite H2. }
    pose proof (commit_rename_spec newBinary target backup Htb (files w) n' false w2) as Hm.
    rewrite H2 in Hm. specialize (Hm Hn1 Ht1).
    destruct (commit_rename newBinary target backup false w2) as [[[e'|e1 e2]|] w']; [done| |by exists n].
    split_and!; try apply Hm. destruct Hm as (_ & _ & _ & Hm). lia.
Qed.

(** C5: whatever system calls fail in [commitBinary], the program survives: if it
    returns nil the target is the new binary with the requested mode; if it returns
    an ordinary error the target is exactly what it was; and only if two calls fail
    is it an [ErrRollback], the target missing but the old binary complete at the
    backup path. *)
Theorem commitBinary_safe newBinary target mode old w :
  newBinary <> target -> newBinary <> backup_path target old ->
  let '(r, w') := commitBinary newBinary target mode old w in
  match r with
  | None => exists n, files w !! newBinary = Some n /\
      files w' !! target = Some (FNode (content n) mode)
  | Some (UErr _) => files w' !! target = files w !! target
  | Some (ErrRollback _ _) =>
      files w' !! target = None /\ files w' !! backup_path target old = files w !! target /\
      is_Some (files w !! target) /\ (2 <= fault_count w)%nat
  end.
Proof. apply commitBinary_outcome. Qed.

(** ** The whole update *)











(** ** Properties *)


(** A server that answers with the JSON document [null] crashes the updater:
    decoding into the address of the pointer sets the pointer to nil, and the first
    field access panics. *)
Theorem Check_null_panics {URL : Type} parse query str goos goarch get unmarshal exe handler u url body w :
  buildUpdateURL (URL := URL) parse query str goos goarch u = Ok url -> get url = Ok body ->
  unmarshal body = (None, None) ->
  Check_ parse query str goos goarch get unmarshal u = Panic /\
  Apply parse query str goos goarch get unmarshal exe handler u w = (Panic, w).
Proof.
  intros Hu Hg Hj. unfold Apply, Check_. by rewrite Hu, Hg, Hj.
Qed.

(** The checksum of an update is the hexadecimal form, in either case, of
    exactly 32 bytes, or absent: encoding a digest and parsing it gives it back, and
    nothing else is accepted. *)
Theorem parseChecksum_spec value d :
  parseChecksum value = Ok d <->
  (value = [] /\ d = []) \/ (DecodeString value = Ok d /\ length d = 32%nat).
Proof.
  unfold parseChecksum. case_bool_decide as Hv.
  - subst. split; [intros [= <-]; by left|]. intros [[_ ->]|[[= <-] Hl]]; done.
  - destruct (DecodeString value) as [dec|e].
    + destruct (Nat.eqb_spec (length dec) 32); simpl.
      * split; [intros [= <-]; by right|]. by intros [[? _]|[[= <-] _]].
      * split; [done|]. by intros [[? _]|[[= <-] ?]].
    + split; [done|]. by intros [[? _]|[? _]].
Qed.

(** ** Concrete updates *)

Module Demo.

(** A handler that keeps what it is sent at the output path, and puts the program that it
    unpacks from it, here all but its first byte, beside it. *)
Definition handler (pkg out : bytes) : State fs (result bytes) :=
  _ ←? os_WriteFile out pkg 420;
  _ ←? os_WriteFile (out ++ $".bin") (tail pkg) 420;
  mret (Ok (out ++ $".bin")).





Definition pkg : bytes := $"https://example.org/v2".

Definition info : UpdateInfo :=
  MkInfo [] [] [] [] ($"2") pkg (EncodeToString (sha256 (tail pkg))).

Definition upd : Updater := MkUpd ($"https://example.org") ($"1") ($"/app") 493.

Definition disk : fs := FS {[ $"/app" := FNode ($"old program") 493 ]} [].

Definition apply (w : fs) : outcome (option upd_error) * fs :=
  Apply (URL := unit) (fun _ => Ok tt) (fun _ => ∅) (fun _ _ => []) ($"linux") ($"amd64")
    (fun _ => Ok []) (fun _ => (Some info, None)) (Ok ($"/app")) handler upd w.

End Demo.

(** The second rename fails, and is rolled back. *)
Lemma commitBinary_safe_witness :
  let w := FS {[ $"/app" := FNode ($"old") 493; $"/new" := FNode ($"new") 420 ]}
              [None; None; None; None; Some (EOther 5)] in
  let '(r, w') := commitBinary ($"/new") ($"/app") 493 ($"1") w in
  r = Some (UErr (EOther 5)) /\ files w' !! ($"/app") = Some (FNode ($"old") 493).
Proof.
  intros w. pose proof (commitBinary_safe ($"/new") ($"/app") 493 ($"1") w) as H.
  destruct (commitBinary _ _ _ _ w) as [r w'] eqn:E.
  assert (r = Some (UErr (EOther 5))) as ->
    by (change r with (fst (r, w')); rewrite <- E; vm_compute; reflexivity).
  split; [done|]. rewrite H by done. reflexivity.
Defined.

#[local] Opaque sha256 EncodeToString DecodeString.


Lemma Check_null_panics_witness :
  Apply (URL := unit) (fun _ => Ok tt) (fun _ => ∅) (fun _ _ => []) ($"linux") ($"amd64")
    (fun _ => Ok ($"null"))
    (fun b => if bool_decide (b = $"null") then (None, None) else (Some no_info, None))
    (Ok ($"/app")) Demo.handler Demo.upd Demo.disk = (Panic, Demo.disk).
Proof.
  eapply (Check_null_panics (URL := unit)); [reflexivity|reflexivity|reflexivity].
Defined.
