(* ===== verification/Etcd.v ===== *)
(** * Package [etcd]: the HTTP client ([client.go])

    The state of a client is the round-robin counter and the cached token; the
    network is a parameter, and as history the client keeps the requests it has
    sent.  JSON bodies are JSON values; reading the answers of the server
    ([json.Unmarshal] into the anonymous structures) is a parameter. *)

From S2P Require Import Prelude GoStr GoTime GoBase64.

Local Open Scope Z_scope.

(** ** Requests *)

Inductive json :=
  | JStr (s : bytes)
  | JNum (n : Z)
  | JBool (b : bool)
  | JObj (fields : list (bytes * json)).

Record request := Request { url : bytes; body : json; authorization : option bytes }.

Record response := Response { status : Z; raw : bytes }.

Definition StatusUnauthorized : Z := 401.

Definition b64 (s : bytes) : bytes := b64_Encode s.

Record Config := MkConfig {
  cfg_Endpoints : list bytes; cfg_Username : bytes; cfg_Password : bytes; DialTimeout : Z
}.

Class Network := {
  net : Type;
  http_Do : request -> State net (result response);
  token_of : bytes -> result bytes;            (* the answer of authenticate *)
  values_of : bytes -> result (list bytes)     (* the values of a range answer *)
}.

Section client.
Context `{Network}.

Record Client := MkClient {
  endpoints : list bytes;
  username : bytes;
  password : bytes;
  timeout : Z;
  robin : Z;                   (* a 64-bit counter *)
  token : bytes;
  network : net;
  sent : list request
}.

Definition New (cfg : Config) (n : net) : Client :=
  let timeout := if DialTimeout cfg =? 0 then 5 * Second else DialTimeout cfg in
  MkClient (cfg_Endpoints cfg) (cfg_Username cfg) (cfg_Password cfg) timeout 0 [] n [].

Local Abbreviation M A := (State Client A).

Definition set_token (t : bytes) : M unit := modify (fun c =>
  MkClient (endpoints c) (username c) (password c) (timeout c) (robin c) t (network c) (sent c)).

(** [c.httpClient.Do] *)
Definition Do (req : request) : M (result response) := fun c =>
  let '(r, n) := http_Do req (network c) in
  (r, MkClient (endpoints c) (username c) (password c) (timeout c) (robin c) (token c) n
        (sent c ++ [req])).

(** [c.robin.Add(1) % uint64(len(c.endpoints))] *)
Definition endpoint : M bytes := fun c =>
  match endpoints c with
  | [] => ($"http://localhost:2379", c)
  | _ =>
      let r := u64 (robin c + 1) in
      (nth (Z.to_nat (r mod Z.of_nat (length (endpoints c)))) (endpoints c) [],
       MkClient (endpoints c) (username c) (password c) (timeout c) r (token c) (network c) (sent c))
  end.

(** The header of a request and the token it uses. *)
Definition setAuth : M (option bytes * bytes) :=
  t ← gets token;
  mret (if bool_decide (t <> []) then Some t else None, t).

Definition resetToken (t : bytes) : M unit :=
  cur ← gets token;
  if bool_decide (cur = t) then set_token [] else mret tt.

Definition authenticate : M (result bytes) :=
  name ← gets username;
  pass ← gets password;
  ep ← endpoint;
  resp ←? Do (Request (ep ++ $"/v3/auth/authenticate")
                (JObj [($"name", JStr name); ($"password", JStr pass)]) None);
  if 300 <=? status resp then mret (Err (ENew ($"etcd authenticate 失败 " ++ Itoa (status resp) ++ $": " ++ raw resp)))
  else
    match token_of (raw resp) with
    | Err e => mret (Err (EWrap ($"etcd authenticate 响应解析失败") e))
    | Ok t => mret (Ok t)
    end.

Definition ensureToken : M (result unit) :=
  name ← gets username;
  cur ← gets token;
  if bool_decide (name = []) || bool_decide (cur <> []) then mret (Ok tt)
  else
    t ←? authenticate;
    set_token t;; mret (Ok tt).

Definition doOnce (path : bytes) (body : json) : M (result (response * bytes)) :=
  ep ← endpoint;
  '(auth, usedToken) ← setAuth;
  resp ←? Do (Request (ep ++ path) body auth);
  mret (Ok (resp, usedToken)).

(** The messages of [do]; [unreachable_error] is the one after the loop. *)
Definition status_error (path : bytes) (resp : response) : error :=
  ENew ($"etcd " ++ path ++ $" 失败 " ++ Itoa (status resp) ++ $": " ++ raw resp).
Definition unreachable_error (path : bytes) : error := ENew ($"etcd " ++ path ++ $" 认证失败").

(** [for attempt := range 2], from [attempt]; the result after the loop is [end_]. *)
Fixpoint do_loop (n : nat) (attempt : Z) (path : bytes) (body : json) (end_ : result bytes)
    : M (result bytes) :=
  match n with
  | O => mret end_
  | S n' =>
      _ ←? ensureToken;
      ru ←? doOnce path body;
      let '(resp, usedToken) := ru in
      name ← gets username;
      if (status resp =? StatusUnauthorized) && (attempt =? 0) && bool_decide (name <> []) then
        resetToken usedToken;;
        do_loop n' (attempt + 1) path body end_
      else if 300 <=? status resp then mret (Err (status_error path resp))
      else mret (Ok (raw resp))
  end.

Definition do (path : bytes) (body : json) : M (result bytes) :=
  do_loop 2 0 path body (Err (unreachable_error path)).

Definition Get (key : bytes) : M (result bytes) :=
  raw ←? do ($"/v3/kv/range") (JObj [($"key", JStr (b64 key)); ($"limit", JNum 1)]);
  match values_of raw with
  | Err e => mret (Err (EWrap ($"etcd Get 响应解析失败") e))
  | Ok [] => mret (Ok [])
  | Ok (v :: _) =>
      match b64_Decode v with
      | Err e => mret (Err (EWrap ($"etcd Get value 解码失败") e))
      | Ok decoded => mret (Ok decoded)
      end
  end.

Definition Put (key value : bytes) : M (result unit) :=
  _ ←? do ($"/v3/kv/put") (JObj [($"key", JStr (b64 key)); ($"value", JStr (b64 value))]);
  mret (Ok tt).

(** ** Counting requests *)

(** The requests that a computation sends, whatever the network answers. *)
Definition sends {A : Type} (m : M A) (n : nat) : Prop :=
  forall c, let '(_, c') := m c in
    (exists l, sent c' = sent c ++ l /\ length l <= n)%nat /\ username c' = username c.

Lemma sends_ret {A : Type} (a : A) : sends (mret a) 0.
Proof. intros c. simpl. split; [|done]. exists []. by rewrite app_nil_r. Qed.

Lemma sends_bind {A B : Type} (m : M A) (f : A -> M B) n1 n2 :
  sends m n1 -> (forall a, sends (f a) n2) -> sends (m ≫= f) (n1 + n2).
Proof.
  intros Hm Hf c. unfold mbind, State_bind. specialize (Hm c). destruct (m c) as [a c1].
  specialize (Hf a c1). destruct (f a c1) as [b c2].
  destruct Hm as [(l1 & E1 & H1) U1], Hf as [(l2 & E2 & H2) U2].
  split; [|congruence]. exists (l1 ++ l2). rewrite E2, E1, <- app_assoc. split; [done|].
  rewrite length_app. lia.
Qed.

Lemma sends_try {A B : Type} (m : M (result A)) (f : A -> M (result B)) n1 n2 :
  sends m n1 -> (forall a, sends (f a) n2) -> sends (try_bind m f) (n1 + n2).
Proof.
  intros Hm Hf. unfold try_bind. apply sends_bind; [done|]. intros [a|e]; [apply Hf|].
  intros c. simpl. split; [|done]. exists []. rewrite app_nil_r. simpl. split; [done | lia].
Qed.

Lemma sends_weaken {A : Type} (m : M A) n1 n2 : sends m n1 -> (n1 <= n2)%nat -> sends m n2.
Proof.
  intros Hm Hn c. specialize (Hm c). destruct (m c) as [a c1]. destruct Hm as [(l & E & Hl) U].
  split; [|done]. exists l. split; [done | lia].
Qed.

Lemma sends_Do req : sends (Do req) 1.
Proof.
  intros c. unfold Do. destruct (http_Do req (network c)) as [r n]. split; [|done].
  exists [req]. simpl. split; [done | lia].
Qed.

Lemma sends_endpoint : sends endpoint 0.
Proof.
  intros c. unfold endpoint. destruct (endpoints c); (split; [|done]); exists []; by rewrite app_nil_r.
Qed.

Lemma sends_gets {A : Type} (f : Client -> A) : sends (gets f) 0.
Proof. intros c. simpl. split; [|done]. exists []. by rewrite app_nil_r. Qed.

Lemma sends_set_token t : sends (set_token t) 0.
Proof. intros c. simpl. split; [|done]. exists []. by rewrite app_nil_r. Qed.

Lemma sends_resetToken t : sends (resetToken t) 0.
Proof.
  apply (sends_bind _ _ 0 0); [apply sends_gets|]. intros cur.
  case_bool_decide; [apply sends_set_token | apply sends_ret].
Qed.

Lemma sends_authenticate : sends authenticate 1.
Proof.
  apply (sends_bind _ _ 0 1); [apply sends_gets|]. intros name.
  apply (sends_bind _ _ 0 1); [apply sends_gets|]. intros pass.
  apply (sends_bind _ _ 0 1); [apply sends_endpoint|]. intros ep.
  apply (sends_try _ _ 1 0); [apply sends_Do|]. intros resp.
  destruct (300 <=? status resp); [apply sends_ret|].
  destruct (token_of (raw resp)); apply sends_ret.
Qed.

Lemma sends_ensureToken : sends ensureToken 1.
Proof.
  apply (sends_bind _ _ 0 1); [apply sends_gets|]. intros name.
  apply (sends_bind _ _ 0 1); [apply sends_gets|]. intros cur.
  destruct (_ || _); [eapply sends_weaken; [apply sends_ret | lia]|].
  apply (sends_try _ _ 1 0); [apply sends_authenticate|]. intros t.
  apply (sends_bind _ _ 0 0); [apply sends_set_token|]. intros _. apply sends_ret.
Qed.

Lemma sends_doOnce path body : sends (doOnce path body) 1.
Proof.
  apply (sends_bind _ _ 0 1); [apply sends_endpoint|]. intros ep.
  apply (sends_bind _ _ 0 1); [|intros [auth used]].
  { apply (sends_bind _ _ 0 0); [apply sends_gets|]. intros t. apply sends_ret. }
  apply (sends_try _ _ 1 0); [apply sends_Do|]. intros resp. apply sends_ret.
Qed.

Lemma sends_do_loop n attempt path body end_ : sends (do_loop n attempt path body end_) (2 * n).
Proof.
  revert attempt. induction n as [|n IH]; intros attempt; [apply sends_ret|]. cbn [do_loop].
  replace (2 * S n)%nat with (1 + (1 + (0 + 2 * n)))%nat by lia.
  apply sends_try; [apply sends_ensureToken|]. intros _.
  apply sends_try; [apply sends_doOnce|]. intros [resp used].
  apply sends_bind; [apply sends_gets|]. intros name.
  destruct (_ && _).
  - apply (sends_bind _ _ 0 (2 * n)); [apply sends_resetToken|]. intros _. apply IH.
  - destruct (300 <=? status resp); (eapply sends_weaken; [apply sends_ret | lia]).
Qed.

(** ** The result of [do] does not come from after the loop *)

Lemma do_loop_end n attempt path body e1 e2 :
  attempt <> 0 -> st_eq (do_loop (S n) attempt path body e1) (do_loop (S n) attempt path body e2).
Proof.
  intros Ha c. cbn [do_loop]. unfold try_bind, mbind, State_bind.
  destruct (ensureToken c) as [[u|e] c1]; [|done].
  destruct (doOnce path body c1) as [[[resp used]|e] c2]; [|done]. unfold gets.
  rewrite (proj2 (Z.eqb_neq attempt 0)) by done. by rewrite andb_false_r.
Qed.

(** ** Round robin *)

Lemma map_nth_seq (l : list bytes) d : map (fun i => nth i l d) (seq 0 (length l)) = l.
Proof.
  induction l as [|x l IH]; [done|]. cbn [length seq map]. f_equal.
  by rewrite <- seq_shift, map_map.
Qed.

(** The next [n] endpoints. *)
Definition next_endpoints (n : nat) : M (list bytes) := st_mapM (fun _ => endpoint) (repeat tt n).

Lemma next_endpoints_spec n c :
  endpoints c <> [] -> 0 <= robin c -> robin c + Z.of_nat n < 2 ^ 64 ->
  fst (next_endpoints n c) =
  map (fun i => nth (Z.to_nat ((robin c + 1 + Z.of_nat i) mod Z.of_nat (length (endpoints c))))
                  (endpoints c) []) (seq 0 n).
Proof.
  unfold next_endpoints. revert c. induction n as [|n IH]; intros c He H0 Hn; [done|].
  cbn [repeat st_mapM seq map]. unfold mbind, State_bind, mret, State_ret.
  assert (endpoint c = (nth (Z.to_nat ((robin c + 1) mod Z.of_nat (length (endpoints c)))) (endpoints c) [],
            MkClient (endpoints c) (username c) (password c) (timeout c) (robin c + 1) (token c)
              (network c) (sent c))) as ->.
  { unfold endpoint. destruct (endpoints c) eqn:E; [done|].
    rewrite (u64_id (robin c + 1)) by (unfold in_u64; lia). by rewrite <- E. }
  set (c1 := MkClient _ _ _ _ _ _ _ _). specialize (IH c1 He).
  destruct (st_mapM _ (repeat tt n) c1) as [l c2]. cbn [fst] in IH |- *.
  rewrite IH by (simpl; lia). rewrite Z.add_0_r. f_equal.
  rewrite <- seq_shift, map_map. apply map_ext. intros i. cbn [robin c1 endpoints].
  do 2 f_equal. f_equal. lia.
Qed.
End client.

(** ** Properties *)

(** [do] sends at most four requests, two of them to authenticate, whatever
    the server answers; and the error after its loop is never the result: replaced
    by any other value it makes no difference, as the comment in the code says. *)
Theorem do_bounded `{Network} path body end_ :
  st_eq (do path body) (do_loop 2 0 path body end_) /\
  forall c, exists l, sent (snd (do path body c)) = sent c ++ l /\ (length l <= 4)%nat.
Proof.
  split.
  - intros c. unfold do. remember 1%nat as one. cbn [do_loop]. unfold try_bind, mbind, State_bind.
    destruct (ensureToken c) as [[u|e] c1]; [|done].
    destruct (doOnce path body c1) as [[[resp used]|e] c2]; [|done].
    destruct (gets username c2) as [name c3]. destruct (_ && _); [|done].
    destruct (resetToken used c3) as [u' c4]. subst one. by apply do_loop_end.
  - intros c. pose proof (sends_do_loop 2 0 path body (Err (unreachable_error path)) c) as Hs.
    unfold do. destruct (do_loop 2 0 path body _ c) as [r c']. apply Hs.
Qed.

(** The requests are spread evenly: as long as the counter does not wrap, any
    [n] consecutive requests to [n] endpoints use each endpoint once. *)
Theorem endpoint_fair `{Network} c :
  endpoints c <> [] -> 0 <= robin c ->
  robin c + Z.of_nat (length (endpoints c)) < 2 ^ 64 ->
  fst (next_endpoints (length (endpoints c)) c) ≡ₚ endpoints c.
Proof.
  intros He H0 Hn. rewrite next_endpoints_spec by done.
  set (eps := endpoints c) in *. set (n := length eps) in *.
  assert (0 < n)%nat as Hpos by (unfold n; destruct eps; simpl; [done | lia]).
  transitivity (map (fun i => nth i eps []) (seq 0 n)); [|by unfold n; rewrite map_nth_seq].
  rewrite <- (map_map (fun i => Z.to_nat ((robin c + 1 + Z.of_nat i) mod Z.of_nat n))
                      (fun i => nth i eps [])).
  apply Permutation_map. apply NoDup_Permutation_bis.
  - apply NoDup_ListNoDup. apply NoDup_fmap_2_strong; [|apply NoDup_seq].
    intros i j Hi%elem_of_seq Hj%elem_of_seq E.
    apply (f_equal Z.of_nat) in E. rewrite !Z2Nat.id in E by (apply Z.mod_pos_bound; lia).
    assert ((Z.of_nat i - Z.of_nat j) mod Z.of_nat n = 0) as Hm.
    { replace (Z.of_nat i - Z.of_nat j)
        with ((robin c + 1 + Z.of_nat i) - (robin c + 1 + Z.of_nat j)) by lia.
      rewrite Zminus_mod, E, Z.sub_diag. by apply Z.mod_0_l; lia. }
    apply Z.mod_divide in Hm as [q Hq]; [|lia]. destruct (Z.eq_dec q 0) as [->|]; [lia|]. nia.
  - by rewrite length_map, !length_seq.
  - intros k Hk%list_elem_of_In%list_elem_of_fmap. destruct Hk as (i & -> & _).
    apply in_seq. pose proof (Z.mod_pos_bound (robin c + 1 + Z.of_nat i) (Z.of_nat n)). lia.
Qed.

Definition url_net : Network := {|
  net := unit;
  http_Do := fun req n => (Ok (Response 200 (url req)), n);
  token_of := fun _ => Ok [];
  values_of := fun _ => Ok []
|}.

Lemma endpoint_fair_witness :
  fst (next_endpoints 2 (@New url_net (MkConfig [$"a"; $"b"] [] [] 0) tt)) ≡ₚ [$"a"; $"b"].
Proof.
  apply (@endpoint_fair url_net (@New url_net (MkConfig [$"a"; $"b"] [] [] 0) tt)); [done | done |].
  simpl. lia.
Defined.

(** What the client relies on of an etcd server without authentication, at any
    endpoint: a put stores the value under the key, a range answers with the values
    of the key and stores nothing.  Keys and values are in base64 on the wire. *)
Class EtcdServer `{Network} := {
  store : net -> gmap bytes bytes;
  put_stores : forall ep auth k v n,
    exists raw n',
      http_Do (Request (ep ++ $"/v3/kv/put") (JObj [($"key", JStr k); ($"value", JStr v)]) auth) n =
        (Ok (Response 200 raw), n') /\ store n' = <[k := v]> (store n);
  range_answers : forall ep auth k n,
    exists raw n',
      http_Do (Request (ep ++ $"/v3/kv/range") (JObj [($"key", JStr k); ($"limit", JNum 1)]) auth) n =
        (Ok (Response 200 raw), n') /\ store n' = store n /\
      values_of raw = Ok (option_list (store n !! k))
}.

Section server.
Context `{EtcdServer}.

(** The value of a key as [Get] reports it: the empty string when it is absent. *)
Definition value_at (c : Client) (key : bytes) : result bytes :=
  match store (network c) !! b64 key with
  | Some v => match b64_Decode v with
              | Err e => Err (EWrap ($"etcd Get value 解码失败") e)
              | Ok s => Ok s
              end
  | None => Ok []
  end.

(** One exchange without authentication, when the server accepts it. *)
Lemma do_accepted path body c :
  username c = [] ->
  (forall ep auth, exists raw n', http_Do (Request (ep ++ path) body auth) (network c) =
     (Ok (Response 200 raw), n')) ->
  exists ep auth raw c', do path body c = (Ok raw, c') /\ username c' = [] /\
    http_Do (Request (ep ++ path) body auth) (network c) = (Ok (Response 200 raw), network c').
Proof.
  intros Hu Hs. unfold do. remember 1%nat as one. cbn [do_loop].
  assert (ensureToken c = (Ok tt, c)) as E1.
  { unfold ensureToken, gets, mbind, State_bind. rewrite Hu. by rewrite bool_decide_eq_true_2. }
  rewrite (try_bind_ok _ _ _ _ _ E1).
  destruct (endpoint c) as [ep c1] eqn:Ee.
  assert (network c1 = network c /\ username c1 = [] /\ token c1 = token c) as (En & Eu & Et).
  { unfold endpoint in Ee. destruct (endpoints c); by injection Ee as <- <-. }
  set (auth := if bool_decide (token c1 <> []) then Some (token c1) else None).
  destruct (Hs ep auth) as (rw & n' & Er).
  assert (exists c2, doOnce path body c = (Ok (Response 200 rw, token c1), c2) /\
            network c2 = n' /\ username c2 = []) as (c2 & E2 & En2 & Eu2).
  { unfold doOnce, setAuth, gets, mbind, State_bind, mret, State_ret. rewrite Ee.
    fold auth. unfold try_bind, Do, mbind, State_bind. rewrite En, Er. eexists. split; [done|]. done. }
  rewrite (try_bind_ok _ _ _ _ _ E2). cbn [status raw]. unfold gets, mbind, State_bind.
  exists ep, auth, rw, c2. split; [done|]. split; [done|]. by rewrite En2.
Qed.

Lemma Get_value key c :
  username c = [] ->
  exists c', Get key c = (value_at c key, c') /\ username c' = [] /\
    store (network c') = store (network c).
Proof.
  intros Hu. unfold Get.
  set (body := JObj [($"key", JStr (b64 key)); ($"limit", JNum 1)]).
  destruct (do_accepted ($"/v3/kv/range") body c Hu) as (ep & auth & raw & c' & E & Hu' & Hd).
  { intros ep auth. destruct (range_answers ep auth (b64 key) (network c)) as (raw & n' & E & _).
    by exists raw, n'. }
  destruct (range_answers ep auth (b64 key) (network c)) as (raw' & n' & E' & Hst & Hv).
  fold body in E'. rewrite Hd in E'. injection E' as <- <-.
  exists c'. rewrite (try_bind_ok _ _ _ _ _ E), Hv. unfold value_at.
  split; [|done]. destruct (store (network c) !! b64 key) as [v|]; simpl; [|done].
  by destruct (b64_Decode v).
Qed.
End server.

(** C25: against an etcd server that stores what is put, a [Put] succeeds, a [Get] of
    the same key then returns the value, byte for byte, and a [Get] of any other key
    returns what it returned before. *)
Theorem Put_Get_roundtrip `{EtcdServer} key value c :
  username c = [] ->
  exists c', Put key value c = (Ok tt, c') /\
    forall k, fst (Get k c') = if decide (k = key) then Ok value else fst (Get k c).
Proof.
  intros Hu. unfold Put.
  set (body := JObj [($"key", JStr (b64 key)); ($"value", JStr (b64 value))]).
  destruct (do_accepted ($"/v3/kv/put") body c Hu) as (ep & auth & raw & c' & E & Hu' & Hd).
  { intros ep auth. destruct (put_stores ep auth (b64 key) (b64 value) (network c)) as (raw & n' & E & _).
    by exists raw, n'. }
  destruct (put_stores ep auth (b64 key) (b64 value) (network c)) as (raw' & n' & E' & Hst).
  fold body in E'. rewrite Hd in E'. injection E' as <- <-.
  exists c'. rewrite (try_bind_ok _ _ _ _ _ E). split; [done|]. intros k.
  destruct (Get_value k c' Hu') as (c1 & -> & _). destruct (Get_value k c Hu) as (c2 & -> & _).
  cbn [fst]. unfold value_at. rewrite Hst. case_decide as Hk.
  - subst k. rewrite lookup_insert_eq. unfold b64. by rewrite base64_roundtrip.
  - rewrite lookup_insert_ne; [done|]. intros Hb. apply Hk. unfold b64 in Hb.
    apply (f_equal b64_Decode) in Hb. rewrite !base64_roundtrip in Hb. congruence.
Qed.

(** A server that is a map. *)
Module MapServer.

Definition serve (req : request) (m : gmap bytes bytes) : result response * gmap bytes bytes :=
  match body req with
  | JObj [(_, JStr k); (_, JStr v)] => (Ok (Response 200 []), <[k := v]> m)
  | JObj [(_, JStr k); (_, JNum _)] =>
      (Ok (Response 200 (match m !! k with Some v => "v"%char :: v | None => [] end)), m)
  | _ => (Ok (Response 400 []), m)
  end.

#[export] Instance map_net : Network := {|
  net := gmap bytes bytes;
  http_Do := serve;
  token_of := fun raw => Ok raw;
  values_of := fun raw => Ok (match raw with [] => [] | _ :: v => [v] end)
|}.

#[export, refine] Instance map_server : EtcdServer := {| store := fun m => m |}.
Proof.
  - intros ep auth k v n. by do 2 eexists.
  - intros ep auth k n. cbn in n. do 2 eexists. split; [done|]. split; [done|]. simpl.
    by destruct (n !! k).
Defined.

End MapServer.

Lemma Put_Get_roundtrip_witness :
  let c := @New MapServer.map_net (MkConfig [$"http://e:2379"] [] [] 0) ∅ in
  fst (@Get MapServer.map_net ($"k") (snd (@Put MapServer.map_net ($"k") ($"v1") c))) = Ok ($"v1").
Proof.
  intros c.
  destruct (@Put_Get_roundtrip MapServer.map_net MapServer.map_server ($"k") ($"v1") c) as (c' & E & H);
    [done|].
  rewrite E. cbn [snd]. rewrite H. done.
Defined.

(** C11: an expired token is replaced within one call: when the first request is
    answered 401, the token it used is dropped, a new one is obtained, and the
    request is sent again with the new token, which is kept. *)
Theorem do_refreshes_token `{Network} path bd c ep t t2 r1 n1 r2 n2 r3 n3 :
  endpoints c = [ep] -> username c <> [] -> token c = t -> t <> [] -> t2 <> [] ->
  http_Do (Request (ep ++ path) bd (Some t)) (network c) = (Ok (Response 401 r1), n1) ->
  http_Do (Request (ep ++ $"/v3/auth/authenticate")
             (JObj [($"name", JStr (username c)); ($"password", JStr (password c))]) None) n1 =
    (Ok (Response 200 r2), n2) -> token_of r2 = Ok t2 ->
  http_Do (Request (ep ++ path) bd (Some t2)) n2 = (Ok (Response 200 r3), n3) ->
  exists c', do path bd c = (Ok r3, c') /\ token c' = t2 /\
    map authorization (sent c') = map authorization (sent c) ++ [Some t; None; Some t2].
Proof.
  intros He Hu Ht Hne Hne2 H1 H2 Htok H3. destruct c as [eps u p to rb tk nw sn].
  cbn [endpoints username token network password sent] in *. subst eps tk.
  assert (forall rb t nw sn, endpoint (MkClient [ep] u p to rb t nw sn) =
            (ep, MkClient [ep] u p to (u64 (rb + 1)) t nw sn)) as Hep.
  { intros rb' t' nw' sn'. unfold endpoint. cbn [endpoints robin length]. by rewrite Z.mod_1_r. }
  assert (forall rb nw sn, ensureToken (MkClient [ep] u p to rb t nw sn) =
            (Ok tt, MkClient [ep] u p to rb t nw sn)) as Htok1.
  { intros rb' nw' sn'. unfold ensureToken, gets, mbind, State_bind. cbn [username token].
    by rewrite bool_decide_eq_false_2, bool_decide_eq_true_2. }
  assert (forall rb t nw sn r nw' auth, auth = (if bool_decide (t <> []) then Some t else None) ->
            http_Do (Request (ep ++ path) bd auth) nw = (Ok r, nw') ->
            doOnce path bd (MkClient [ep] u p to rb t nw sn) =
            (Ok (r, t), MkClient [ep] u p to (u64 (rb + 1)) t nw' (sn ++ [Request (ep ++ path) bd auth])))
    as Honce.
  { intros rb' t' nw' sn' r nw'' auth -> Hd. unfold doOnce, setAuth, gets. unfold mbind, State_bind.
    rewrite Hep. cbn [token mret State_ret]. unfold try_bind, Do, mbind, State_bind. cbn [network].
    by rewrite Hd. }
  eexists. split.
  { unfold do. cbn [do_loop]. rewrite (try_bind_ok _ _ _ _ _ (Htok1 _ _ _)).
  rewrite (try_bind_ok _ _ _ _ _ (Honce _ _ _ _ _ _ (Some t)
             ltac:(by rewrite bool_decide_eq_true_2) H1)).
  erewrite st_bind_run by reflexivity. cbn [username status].
  rewrite bool_decide_eq_true_2 by done. cbn [andb Z.eqb Pos.eqb StatusUnauthorized].
  erewrite st_bind_run.
  2: { unfold resetToken. erewrite st_bind_run by reflexivity. cbn [token].
       rewrite bool_decide_eq_true_2 by done. reflexivity. }
  cbn [endpoints username password timeout robin network sent].
  set (c1 := MkClient [ep] u p to (u64 (rb + 1)) [] n1 _).
  assert (ensureToken c1 = (Ok tt, MkClient [ep] u p to (u64 (u64 (rb + 1) + 1)) t2 n2
            ((sn ++ [Request (ep ++ path) bd (Some t)]) ++
             [Request (ep ++ $"/v3/auth/authenticate")
                (JObj [($"name", JStr u); ($"password", JStr p)]) None]))) as E2.
  { unfold ensureToken. erewrite st_bind_run by reflexivity. erewrite st_bind_run by reflexivity.
    cbn [username token c1]. rewrite bool_decide_eq_false_2, bool_decide_eq_false_2 by tauto.
    cbn [orb]. erewrite try_bind_ok; cycle 1.
    { unfold authenticate. erewrite st_bind_run by reflexivity. erewrite st_bind_run by reflexivity.
    erewrite st_bind_run by apply Hep.
    erewrite try_bind_ok by (unfold Do; cbn [network username password c1]; rewrite H2; reflexivity).
    cbn [status raw]. change (300 <=? 200) with false. cbn iota. rewrite Htok. reflexivity. }
    reflexivity. }
  rewrite (try_bind_ok _ _ _ _ _ E2).
  rewrite (try_bind_ok _ _ _ _ _ (Honce _ _ _ _ _ _ (Some t2)
             ltac:(by rewrite bool_decide_eq_true_2) H3)).
  erewrite st_bind_run by reflexivity. cbn [status raw]. reflexivity. }
  split; [done|]. cbn [sent]. by rewrite !map_app, <- !app_assoc.
Qed.

Lemma do_refreshes_token_witness :
  let expired : Network := {|
    net := unit;
    http_Do := fun req n =>
      (Ok (match authorization req with
           | Some t => if bool_decide (t = $"new") then Response 200 ($"ok") else Response 401 []
           | None => Response 200 ($"new")
           end), n);
    token_of := fun raw => Ok raw;
    values_of := fun _ => Ok [] |} in
  exists c', @do expired ($"/v3/kv/range") (JObj [])
      (@MkClient expired [$"e"] ($"root") ($"pw") 0 0 ($"old") tt []) = (Ok ($"ok"), c') /\
    token c' = $"new" /\ map authorization (sent c') = [Some ($"old"); None; Some ($"new")].
Proof.
  intros expired.
  apply (@do_refreshes_token expired ($"/v3/kv/range") (JObj [])
    (@MkClient expired [$"e"] ($"root") ($"pw") 0 0 ($"old") tt []) ($"e") ($"old") ($"new")
    [] tt ($"new") tt ($"ok") tt); done.
Defined.
