(* ===== verification/EtcdWatch.v ===== *)
(** * Package [etcd]: watching a key ([watch.go])

    [watchOnce] reads one response stream line by line; [Watch] calls it again and
    again with a back-off.  What other goroutines decide — whether the context is
    done when it is polled, whether the error channel has room — is an oracle, one
    answer after the other.  [time.After] waits are actions of the trace. *)

From S2P Require Import Prelude GoStr GoTime GoBase64 Etcd.

Local Open Scope Z_scope.

(** ** [watchOnce] *)

Record WatchEvent := MkEvent { Type_ : bytes; Value : bytes }.

(** A decoded line of the stream: the error message, and the events with their
    type and base64 value. *)
Record watchResponse := MkResponse { err_message : bytes; resp_events : list (bytes * bytes) }.

Definition errWatchAuthExpired : error := ESentinel ($"etcd watch 认证过期，已重置 token").

(** The oracle, the events delivered and the errors delivered. *)
Record wstate := WState { oracle : list bool; out_events : list WatchEvent; out_errs : list error }.

(** The next answer; when the script is over the context is not done and the error
    channel has room. *)
Definition ask (dflt : bool) : State wstate bool := fun s =>
  (default dflt (head (oracle s)), WState (tail (oracle s)) (out_events s) (out_errs s)).

Definition emit (e : WatchEvent) : State wstate unit := modify (fun s =>
  WState (oracle s) (out_events s ++ [e]) (out_errs s)).

(** The non-blocking send on [errs]. *)
Definition try_send (e : error) : State wstate unit :=
  room ← ask true;
  if room : bool then modify (fun s => WState (oracle s) (out_events s) (out_errs s ++ [e]))
  else mret tt.

(** Whether a loop goes on; [None] when the context is done. *)
Fixpoint events_loop (evs : list (bytes * bytes)) (connected : bool) : State wstate (option unit * bool) :=
  match evs with
  | [] => mret (Some tt, connected)
  | (ty, v) :: evs' =>
      let send val :=
        done_ ← ask false;
        (if done_ : bool then mret (None, true)
         else emit (MkEvent ty val);; events_loop evs' true) in
      if bool_decide (ty = $"PUT") then
        match b64_Decode v with
        | Err e => try_send (EWrap ($"etcd watch value 解码失败") e);; events_loop evs' connected
        | Ok decoded => send decoded
        end
      else send []
  end.

Section watch.
Variable Unmarshal : bytes -> option watchResponse.

Fixpoint lines_loop (lines : list bytes) (connected : bool) : State wstate (option unit * bool) :=
  match lines with
  | [] => mret (Some tt, connected)
  | line :: lines' =>
      done_ ← ask false;
      if done_ : bool then mret (None, connected)
      else if bool_decide (line = []) then lines_loop lines' connected
      else
        match Unmarshal line with
        | None => lines_loop lines' connected
        | Some msg =>
            if bool_decide (err_message msg <> []) then
              try_send (ENew ($"etcd watch 服务端错误: " ++ err_message msg));;
              lines_loop lines' connected
            else
              '(go, connected) ← events_loop (resp_events msg) connected;
              match go with
              | Some _ => lines_loop lines' connected
              | None => mret (None, connected)
              end
        end
  end.

(** What the stream is: the status and either the lines with the error that ends
    the scan, or no connection at all. *)
Inductive stream :=
  | NoStream (e : error)
  | Stream (status : Z) (body : bytes) (lines : list bytes) (scan_err : option error).

(** [watchOnce] after [ensureToken] has succeeded; [has_user] tells whether a user is
    configured.  The result is [None] for a normal exit, [Some] of the error
    otherwise, and whether an event has been received. *)
Definition watchOnce (has_user : bool) (st : stream) : State wstate (option error * bool) :=
  match st with
  | NoStream e =>
      done_ ← ask false;
      mret (if done_ : bool then None else Some e, false)
  | Stream status body lines scan_err =>
      if (status =? StatusUnauthorized) && has_user then mret (Some errWatchAuthExpired, false)
      else if 300 <=? status then
        mret (Some (ENew ($"etcd watch 失败 " ++ Itoa status ++ $": " ++ body)), false)
      else
        '(go, connected) ← lines_loop lines false;
        match go with
        | None => mret (None, connected)
        | Some _ =>
            match scan_err with
            | Some e =>
                done_ ← ask false;
                mret (if done_ : bool then None else Some e, connected)
            | None => mret (Some (ENew ($"watch 连接已关闭")), connected)
            end
        end
  end.
End watch.

(** ** [Watch] *)

Definition initBackoff : Z := Second.
Definition maxBackoff : Z := 30 * Second.

Record wloop := WLoop { backoff : Z; authImmediateRetryUsed : bool }.

Definition wstart : wloop := WLoop initBackoff false.

(** What a round does after [watchOnce]: connect again at once, or wait first. *)
Inductive retry :=
  | RetryNow
  | RetryAfter (d : Z).

Definition next_backoff (b : Z) : Z :=
  if b <? maxBackoff then (if maxBackoff <? b * 2 then maxBackoff else b * 2) else b.

(** The end of a round of the loop, for an error that is not a normal exit. *)
Definition watch_round (err : error) (connected : bool) : State wloop retry := fun s =>
  let authExpired := errors_Is err errWatchAuthExpired in
  let b := if connected then initBackoff else backoff s in
  let used := if connected || negb authExpired then false else authImmediateRetryUsed s in
  if authExpired && negb used then (RetryNow, WLoop b true)
  else (RetryAfter b, WLoop (next_backoff b) used).

(** The rounds of a run, each with the outcome of [watchOnce]; the run ends with a
    normal exit, or when the context is done at one of the polls of the loop. *)
Record round := Round {
  done_before : bool; outcome_ : option error * bool; done_waiting : bool
}.

Fixpoint Watch (rounds : list round) : State wloop (list retry) :=
  match rounds with
  | [] => mret []
  | r :: rounds' =>
      if done_before r then mret []
      else
        match outcome_ r with
        | (None, _) => mret []
        | (Some err, connected) =>
            act ← watch_round err connected;
            match act with
            | RetryNow => acts ← Watch rounds'; mret (act :: acts)
            | RetryAfter _ =>
                if done_waiting r then mret [act]
                else acts ← Watch rounds'; mret (act :: acts)
            end
        end
  end.

(** ** The events of a stream *)

Definition decode_event (p : bytes * bytes) : option WatchEvent :=
  if bool_decide (fst p = $"PUT") then
    match b64_Decode (snd p) with
    | Ok v => Some (MkEvent (fst p) v)
    | Err _ => None
    end
  else Some (MkEvent (fst p) []).

Definition line_events (Unmarshal : bytes -> option watchResponse) (line : bytes) : list WatchEvent :=
  if bool_decide (line = []) then []
  else
    match Unmarshal line with
    | Some msg => if bool_decide (err_message msg <> []) then [] else omap decode_event (resp_events msg)
    | None => []
    end.

Definition some_event (l : list WatchEvent) : bool := match l with [] => false | _ => true end.

Lemma some_event_app l1 l2 : some_event (l1 ++ l2) = some_event l1 || some_event l2.
Proof. by destruct l1. Qed.

(** A context that is never done: every poll of it answers false.  The answers about
    the room of the error channel are free, so only whole scripts of [false] and the
    default are considered. *)
Definition quiet (s : wstate) : Prop := Forall (fun b => b = false) (oracle s).

Lemma quiet_tail l : Forall (fun b => b = false) l -> Forall (fun b => b = false) (tail l).
Proof. by destruct 1. Qed.

Lemma ask_quiet s : quiet s -> exists s', ask false s = (false, s') /\ quiet s' /\
  out_events s' = out_events s.
Proof.
  unfold quiet, ask. intros Hq. exists (WState (tail (oracle s)) (out_events s) (out_errs s)).
  split; [|split; [apply (quiet_tail _ Hq)|done]].
  f_equal. by destruct Hq as [|b l -> _].
Qed.

Lemma try_send_quiet e s : quiet s ->
  exists s', try_send e s = (tt, s') /\ quiet s' /\ out_events s' = out_events s.
Proof.
  intros Hq. unfold try_send, ask, mbind, State_bind. cbn beta iota.
  destruct (default true (head (oracle s))).
  - eexists. split; [reflexivity|]. split; [apply (quiet_tail _ Hq) | done].
  - eexists. split; [reflexivity|]. split; [apply (quiet_tail _ Hq) | done].
Qed.

Lemma events_loop_quiet evs connected s :
  quiet s ->
  exists s', events_loop evs connected s =
      ((Some tt, connected || some_event (omap decode_event evs)), s') /\
    quiet s' /\ out_events s' = out_events s ++ omap decode_event evs.
Proof.
  revert connected s. induction evs as [|[ty v] evs IH]; intros connected s Hq.
  { exists s. simpl. by rewrite orb_false_r, app_nil_r. }
  assert (forall val s, quiet s -> exists s', (done_ ← ask false;
            if done_ : bool then mret (None, true)
            else emit (MkEvent ty val);; events_loop evs true) s = ((Some tt, true), s') /\
            quiet s' /\ out_events s' = out_events s ++ MkEvent ty val :: omap decode_event evs) as Hsend.
  { intros val s0 Hq0. destruct (ask_quiet s0 Hq0) as (s1 & E1 & Hq1 & He1).
    rewrite (st_bind_run _ _ _ _ _ E1). cbn iota.
    erewrite st_bind_run by reflexivity.
    destruct (IH true (WState (oracle s1) (out_events s1 ++ [MkEvent ty val]) (out_errs s1)))
      as (s2 & E2 & Hq2 & He2); [done|].
    exists s2. split; [exact E2|]. split; [done|]. rewrite He2. cbn [out_events].
    by rewrite He1, <- app_assoc. }
  cbn [events_loop]. cbv zeta.
  assert (omap decode_event ((ty, v) :: evs) = match decode_event (ty, v) with
            | Some e => e :: omap decode_event evs | None => omap decode_event evs end) as -> by done.
  assert (decode_event (ty, v) = if bool_decide (ty = $"PUT") then
            match b64_Decode v with Ok d => Some (MkEvent ty d) | Err _ => None end
            else Some (MkEvent ty [])) as -> by done.
  destruct (bool_decide (ty = $"PUT")).
  - destruct (b64_Decode v) as [d|e].
    + destruct (Hsend d s Hq) as (s' & -> & Hq' & He'). exists s'. by rewrite orb_true_r.
    + destruct (try_send_quiet (EWrap ($"etcd watch value 解码失败") e) s Hq) as (s1 & E1 & Hq1 & He1).
      rewrite (st_bind_run _ _ _ _ _ E1).
      destruct (IH connected s1 Hq1) as (s2 & -> & Hq2 & He2). exists s2.
      split; [done|]. split; [done|]. by rewrite He2, He1.
  - destruct (Hsend [] s Hq) as (s' & -> & Hq' & He'). exists s'. by rewrite orb_true_r.
Qed.

Lemma lines_loop_quiet Unmarshal lines connected s :
  quiet s ->
  exists s', lines_loop Unmarshal lines connected s =
      ((Some tt, connected || some_event (flat_map (line_events Unmarshal) lines)), s') /\
    quiet s' /\ out_events s' = out_events s ++ flat_map (line_events Unmarshal) lines.
Proof.
  revert connected s. induction lines as [|line lines IH]; intros connected s Hq.
  { exists s. simpl. by rewrite orb_false_r, app_nil_r. }
  cbn [lines_loop flat_map]. destruct (ask_quiet s Hq) as (s1 & E1 & Hq1 & He1).
  rewrite (st_bind_run _ _ _ _ _ E1). cbn iota. rewrite some_event_app.
  assert (line_events Unmarshal line = if bool_decide (line = []) then [] else
            match Unmarshal line with
            | Some msg => if bool_decide (err_message msg <> []) then []
                          else omap decode_event (resp_events msg)
            | None => [] end) as -> by done.
  destruct (bool_decide (line = [])).
  { destruct (IH connected s1 Hq1) as (s2 & -> & Hq2 & He2). exists s2. by rewrite He2, He1. }
  destruct (Unmarshal line) as [msg|].
  2: { destruct (IH connected s1 Hq1) as (s2 & -> & Hq2 & He2). exists s2. by rewrite He2, He1. }
  destruct (bool_decide (err_message msg <> [])).
  - set (e := ENew _). destruct (try_send_quiet e s1 Hq1) as (s2 & E2 & Hq2 & He2).
    rewrite (st_bind_run _ _ _ _ _ E2).
    destruct (IH connected s2 Hq2) as (s3 & -> & Hq3 & He3). exists s3. by rewrite He3, He2, He1.
  - destruct (events_loop_quiet (resp_events msg) connected s1 Hq1) as (s2 & E2 & Hq2 & He2).
    rewrite (st_bind_run _ _ _ _ _ E2). cbn iota.
    destruct (IH (connected || some_event (omap decode_event (resp_events msg))) s2 Hq2)
      as (s3 & -> & Hq3 & He3).
    exists s3. rewrite orb_assoc. split; [done|]. split; [done|].
    by rewrite He3, He2, He1, <- app_assoc.
Qed.

(** ** The retries *)

Definition backoff_ok (b : Z) : Prop := initBackoff <= b <= maxBackoff.

Lemma next_backoff_ok b : backoff_ok b -> backoff_ok (next_backoff b).
Proof.
  unfold backoff_ok, next_backoff, initBackoff, maxBackoff, Second. intros Hb.
  destruct (Z.ltb_spec b (30 * 1000000000)); [|lia].
  destruct (Z.ltb_spec (30 * 1000000000) (b * 2)); lia.
Qed.

(** What [watchOnce] guarantees of its results: an expired token is reported before
    any event. *)
Definition outcome_ok (o : option error * bool) : Prop :=
  match o with
  | (Some err, true) => errors_Is err errWatchAuthExpired = false
  | _ => True
  end.

Lemma watchOnce_outcome_ok Unmarshal has_user st s :
  (forall e, (st = NoStream e \/ exists n b l, st = Stream n b l (Some e)) ->
     errors_Is e errWatchAuthExpired = false) ->
  outcome_ok (fst (watchOnce Unmarshal has_user st s)).
Proof.
  intros Hst. unfold watchOnce. destruct st as [e|n b l se].
  - unfold ask, mbind, State_bind. simpl. by destruct (default false _).
  - destruct (_ && has_user); [done|]. destruct (300 <=? n); [done|].
    unfold mbind, State_bind. destruct (lines_loop Unmarshal l false s) as [[[[]|] c] s1]; [|done].
    destruct se as [e|].
    + specialize (Hst e ltac:(right; by do 3 eexists)).
      unfold ask. simpl. destruct (default false _); simpl; [done|]. by destruct c.
    + simpl. by destruct c.
Qed.

Lemma watch_round_spec err c s :
  outcome_ok (Some err, c) -> backoff_ok (backoff s) ->
  let '(act, s') := watch_round err c s in
  backoff_ok (backoff s') /\
  match act with
  | RetryNow => authImmediateRetryUsed s = false /\ authImmediateRetryUsed s' = true
  | RetryAfter d => backoff_ok d
  end.
Proof.
  intros Ho Hb. unfold watch_round.
  assert (backoff_ok (if c then initBackoff else backoff s)) as Hb'
    by (destruct c; [unfold backoff_ok, initBackoff, maxBackoff, Second; lia | done]).
  destruct (errors_Is err errWatchAuthExpired) eqn:E; cbn [andb negb orb].
  - destruct c; [by simpl in Ho; congruence|]. cbn [orb].
    destruct (authImmediateRetryUsed s); cbn [negb]; (split; [|done]);
      cbn [backoff]; [by apply next_backoff_ok | done].
  - split; [|done]. cbn [backoff]. by apply next_backoff_ok.
Qed.

(** No two immediate retries in a row, waits between one and thirty seconds. *)
Fixpoint paced (after_now : bool) (acts : list retry) : Prop :=
  match acts with
  | [] => True
  | RetryNow :: acts' => after_now = false /\ paced true acts'
  | RetryAfter d :: acts' => backoff_ok d /\ paced false acts'
  end.

Lemma paced_weaken acts : paced true acts -> paced false acts.
Proof. destruct acts as [|[|d] acts]; simpl; [done | by intros [? _] | done]. Qed.

Lemma Watch_paced rounds s :
  Forall (fun r => outcome_ok (outcome_ r)) rounds -> backoff_ok (backoff s) ->
  paced (authImmediateRetryUsed s) (fst (Watch rounds s)).
Proof.
  revert s. induction rounds as [|r rounds IH]; intros s Hr Hb; [done|].
  apply Forall_cons in Hr as [Ho Hr]. cbn [Watch]. destruct (done_before r); [done|].
  destruct (outcome_ r) as [[err|] c]; [|done]. unfold mbind, State_bind.
  pose proof (watch_round_spec err c s Ho Hb) as Hw.
  destruct (watch_round err c s) as [act s1]. destruct Hw as [Hb1 Hact].
  specialize (IH s1 Hr Hb1).
  destruct act as [|d].
  - destruct (Watch rounds s1) as [acts s2]. simpl in *. destruct Hact as [-> Hu].
    split; [done|]. by rewrite Hu in IH.
  - destruct (done_waiting r); [done|]. destruct (Watch rounds s1) as [acts s2]. simpl in *.
    split; [done|]. destruct (authImmediateRetryUsed s1); [by apply paced_weaken | done].
Qed.

(** A failure that is neither an expired token nor after an event. *)
Definition plain_failure (r : round) : Prop :=
  done_before r = false /\ done_waiting r = false /\
  exists err, outcome_ r = (Some err, false) /\ errors_Is err errWatchAuthExpired = false.

Definition nth_backoff (k : nat) : Z := Z.min (2 ^ Z.of_nat k * Second) maxBackoff.

Lemma next_backoff_nth k : next_backoff (nth_backoff k) = nth_backoff (S k).
Proof.
  unfold next_backoff, nth_backoff, maxBackoff, Second. rewrite Nat2Z.inj_succ, Z.pow_succ_r by lia.
  assert (0 < 2 ^ Z.of_nat k) by (apply Z.pow_pos_nonneg; lia).
  set (p := 2 ^ Z.of_nat k) in *.
  destruct (Z.ltb_spec (Z.min (p * 1000000000) (30 * 1000000000)) (30 * 1000000000));
    [destruct (Z.ltb_spec (30 * 1000000000) (Z.min (p * 1000000000) (30 * 1000000000) * 2))|]; lia.
Qed.

Lemma Watch_failures rounds k u :
  Forall plain_failure rounds ->
  fst (Watch rounds (WLoop (nth_backoff k) u)) =
  map (fun i => RetryAfter (nth_backoff i)) (seq k (length rounds)).
Proof.
  intros Hf. revert k u. induction Hf as [|r rounds (Hd & Hw & err & Ho & He) _ IH]; intros k u; [done|].
  cbn [Watch length seq map]. rewrite Hd, Ho. unfold mbind, State_bind, watch_round. rewrite He.
  cbn [andb negb orb]. rewrite Hw. cbn [backoff]. rewrite next_backoff_nth.
  specialize (IH (S k) false). destruct (Watch rounds _) as [acts s2]. simpl in *. by rewrite IH.
Qed.

(** ** Properties *)

(** C24: while the context is not done, one watch connection delivers every event of
    every decodable line of the stream, in order and exactly once, with the decoded
    value; it skips events whose value does not decode; and it reports the connection
    as healthy exactly when it has delivered an event. *)
Theorem watchOnce_delivers Unmarshal has_user status body lines s :
  quiet s -> status <> StatusUnauthorized -> status < 300 ->
  let '((err, connected), s') := watchOnce Unmarshal has_user (Stream status body lines None) s in
  let delivered := flat_map (line_events Unmarshal) lines in
  err = Some (ENew ($"watch 连接已关闭")) /\ connected = some_event delivered /\
  out_events s' = out_events s ++ delivered.
Proof.
  intros Hq H1 H2. unfold watchOnce. rewrite (proj2 (Z.eqb_neq _ _)) by done. cbn [andb].
  rewrite (proj2 (Z.leb_gt _ _)) by done.
  destruct (lines_loop_quiet Unmarshal lines false s Hq) as (s' & E & _ & He).
  rewrite (st_bind_run _ _ _ _ _ E). done.
Qed.

Lemma watchOnce_delivers_witness :
  let dec line := if bool_decide (line = $"put") then Some (MkResponse [] [($"PUT", $"djE=")])
                  else if bool_decide (line = $"bad") then Some (MkResponse [] [($"PUT", $"?"); ($"DELETE", [])])
                  else None in
  out_events (snd (watchOnce dec true (Stream 200 [] [$"put"; []; $"junk"; $"bad"] None) (WState [] [] []))) =
  [MkEvent ($"PUT") ($"v1"); MkEvent ($"DELETE") []].
Proof.
  intros dec.
  pose proof (watchOnce_delivers dec true 200 [] [$"put"; []; $"junk"; $"bad"] (WState [] [] [])) as H.
  destruct (watchOnce _ _ _ _) as [[err c] s']. cbn [snd].
  destruct H as (_ & _ & ->); [constructor | done | lia |]. reflexivity.
Defined.

(** A watch does not spin: whatever the connections end with, two reconnections
    without a wait never follow each other, and every wait is between one and thirty
    seconds. *)
Theorem Watch_no_busy_loop rounds :
  Forall (fun r => outcome_ok (outcome_ r)) rounds -> paced false (fst (Watch rounds wstart)).
Proof.
  intros Hr. apply (Watch_paced rounds wstart Hr).
  unfold backoff_ok, wstart, initBackoff, maxBackoff, Second. simpl. lia.
Qed.

Lemma Watch_no_busy_loop_witness :
  paced false (fst (Watch [Round false (Some errWatchAuthExpired, false) false;
                           Round false (Some errWatchAuthExpired, false) false] wstart)) /\
  fst (Watch [Round false (Some errWatchAuthExpired, false) false;
              Round false (Some errWatchAuthExpired, false) false] wstart) =
  [RetryNow; RetryAfter Second].
Proof. split; [|reflexivity]. apply Watch_no_busy_loop. by repeat constructor. Defined.

(** C10: the waits of consecutive failures double from one second and stay at thirty. *)
Theorem Watch_backoff rounds :
  Forall plain_failure rounds ->
  fst (Watch rounds wstart) = map (fun i => RetryAfter (nth_backoff i)) (seq 0 (length rounds)).
Proof. apply (Watch_failures rounds 0 false). Qed.

Lemma Watch_backoff_witness :
  fst (Watch (repeat (Round false (Some (EOther 0), false) false) 6) wstart) =
  [RetryAfter (1 * Second); RetryAfter (2 * Second); RetryAfter (4 * Second); RetryAfter (8 * Second);
   RetryAfter (16 * Second); RetryAfter (30 * Second)].
Proof.
  rewrite (Watch_backoff (repeat (Round false (Some (EOther 0), false) false) 6)); [reflexivity|].
  apply Forall_forall. intros r Hr%list_elem_of_In%repeat_spec. subst r.
  split; [done|]. split; [done|]. by exists (EOther 0).
Defined.
