(* ===== verification/EtcdCallers.v ===== *)
(** * Package [etcd]: concurrent callers of one client ([client.go])

    [do] of [Etcd] runs alone.  Here any number of goroutines are in [do] at once: the
    mutex is held while a token is obtained, read or reset, and between these critical
    sections, and between a request and its answer, the others run.  A goroutine alone
    computes [do] of [Etcd]. *)

From stdpp Require Import relations.
From S2P Require Import Prelude GoStr Etcd.

Local Open Scope Z_scope.

(** ** A goroutine in [do] *)

Section callers.
Context `{Network}.

(** Where a goroutine is; [attempt] is the variable of the loop. *)
Inductive pc :=
  | Ensuring (attempt : Z)                               (* before [ensureToken] *)
  | Authenticating (attempt : Z)                         (* with the mutex *)
  | AuthSending (attempt : Z) (req : request)            (* with the mutex *)
  | Storing (attempt : Z) (r : result bytes)             (* with the mutex *)
  | Choosing (attempt : Z)                               (* before [endpoint] *)
  | Preparing (attempt : Z) (ep : bytes)                 (* before [setAuth] *)
  | Sending (attempt : Z) (req : request) (used : bytes)
  | Answered (attempt : Z) (resp : response) (used : bytes)
  | Resetting (attempt : Z) (used : bytes)               (* before [resetToken] *)
  | Finished (r : result bytes).

(** The parts of [authenticate]: its request, and what it makes of the answer. *)
Definition auth_request (ep : bytes) (c : Client) : request :=
  Request (ep ++ $"/v3/auth/authenticate")
    (JObj [($"name", JStr (username c)); ($"password", JStr (password c))]) None.

Definition auth_answer (r : result response) : result bytes :=
  match r with
  | Err e => Err e
  | Ok resp =>
      if 300 <=? status resp then Err (ENew ($"etcd authenticate 失败 " ++ Itoa (status resp) ++ $": " ++ raw resp))
      else match token_of (raw resp) with
           | Err e => Err (EWrap ($"etcd authenticate 响应解析失败") e)
           | Ok t => Ok t
           end
  end.

(** The next step of goroutine [i], which has called [do path body]: where it is then, who
    holds the mutex, and the client; nothing when it waits for the mutex or has returned. *)
Definition advance (i : nat) (path : bytes) (body : json) (p : pc) (mu : option nat) (c : Client)
    : option (pc * option nat * Client) :=
  match p with
  | Ensuring a =>
      if bool_decide (username c = []) then Some (Choosing a, mu, c)
      else
        match mu with
        | Some _ => None
        | None => if bool_decide (token c <> []) then Some (Choosing a, None, c)
                  else Some (Authenticating a, Some i, c)
        end
  | Authenticating a =>
      let '(ep, c) := endpoint c in Some (AuthSending a (auth_request ep c), mu, c)
  | AuthSending a req =>
      let '(r, c) := Do req c in Some (Storing a (auth_answer r), mu, c)
  | Storing a (Err e) => Some (Finished (Err e), None, c)
  | Storing a (Ok t) => Some (Choosing a, None, snd (set_token t c))
  | Choosing a => let '(ep, c) := endpoint c in Some (Preparing a ep, mu, c)
  | Preparing a ep =>
      match mu with
      | Some _ => None
      | None =>
          let '(auth, used, c) := setAuth c in
          Some (Sending a (Request (ep ++ path) body auth) used, None, c)
      end
  | Sending a req used =>
      let '(r, c) := Do req c in
      match r with
      | Err e => Some (Finished (Err e), mu, c)
      | Ok resp => Some (Answered a resp used, mu, c)
      end
  | Answered a resp used =>
      if (status resp =? StatusUnauthorized) && (a =? 0) && bool_decide (username c <> []) then
        Some (Resetting a used, mu, c)
      else if 300 <=? status resp then Some (Finished (Err (status_error path resp)), mu, c)
      else Some (Finished (Ok (raw resp)), mu, c)
  | Resetting a used =>
      match mu with
      | Some _ => None
      | None => Some (Ensuring (a + 1), None, snd (resetToken used c))
      end
  | Finished _ => None
  end.

(** ** A goroutine alone *)

(** Its steps until it returns, with the mutex free at the start. *)
Fixpoint alone (fuel : nat) (path : bytes) (body : json) (p : pc) (mu : option nat) (c : Client)
    : option (result bytes * Client) :=
  match fuel with
  | O => None
  | S fuel =>
      match p with
      | Finished r => Some (r, c)
      | _ => '(p, mu, c) ← advance 0 path body p mu c; alone fuel path body p mu c
      end
  end.

(** The steps that are left at most. *)
Definition attempt_rank (a : Z) : nat := if a =? 0 then 9 else 0.

Definition rank (p : pc) : nat :=
  match p with
  | Ensuring a => 8 + attempt_rank a
  | Authenticating a => 7 + attempt_rank a
  | AuthSending a _ => 6 + attempt_rank a
  | Storing a _ => 5 + attempt_rank a
  | Choosing a => 4 + attempt_rank a
  | Preparing a _ => 3 + attempt_rank a
  | Sending a _ _ => 2 + attempt_rank a
  | Answered a _ _ => 1 + attempt_rank a
  | Resetting a _ => 9 + attempt_rank (a + 1)
  | Finished _ => 0
  end.

(** [authenticate] is its parts. *)
Lemma authenticate_parts c :
  authenticate c =
    (let '(ep, c1) := endpoint c in let '(r, c2) := Do (auth_request ep c1) c1 in (auth_answer r, c2)).
Proof.
  unfold authenticate, mbind, State_bind, gets.
  destruct (endpoint c) as [ep c1] eqn:E.
  assert (username c1 = username c /\ password c1 = password c) as [Hu Hp]
    by (unfold endpoint in E; destruct (endpoints c); by injection E as <- <-).
  unfold auth_request. rewrite Hu, Hp. unfold try_bind, mbind, State_bind.
  destruct (Do _ c1) as [[resp|e] c2]; [|done]. cbn [auth_answer].
  destruct (300 <=? status resp); [done|]. by destruct (token_of (raw resp)).
Qed.

Lemma alone_mono path body f f' p mu c x :
  alone f path body p mu c = Some x -> (f <= f')%nat -> alone f' path body p mu c = Some x.
Proof.
  revert f' p mu c. induction f as [|f IH]; intros f' p mu c Hx Hf; [done|].
  destruct f' as [|f']; [lia|]. cbn [alone] in *.
  destruct p; try (apply bind_Some in Hx as ([[p' mu'] c'] & -> & Hx); cbn [mbind option_bind]; apply IH; [done|lia]).
  done.
Qed.

(** [ensureToken] in at most four steps. *)
Lemma alone_ensure path body f a c x :
  (match ensureToken c with
   | (Ok _, c1) => alone f path body (Choosing a) None c1
   | (Err e, c1) => Some (Err e, c1)
   end) = Some x ->
  alone (5 + f) path body (Ensuring a) None c = Some x.
Proof.
  unfold ensureToken. erewrite st_bind_run by reflexivity. erewrite st_bind_run by reflexivity.
  cbn [alone advance Nat.add]. destruct (bool_decide (username c = [])) eqn:Eu; cbn [orb].
  { intros Hx. cbn [mbind option_bind]. by eapply alone_mono in Hx; [|apply (Nat.le_add_l _ 4)]. }
  destruct (bool_decide (token c <> [])) eqn:Et.
  { intros Hx. cbn [mbind option_bind]. by eapply alone_mono in Hx; [|apply (Nat.le_add_l _ 4)]. }
  pose proof (authenticate_parts c) as Ha. cbn [mbind option_bind alone advance].
  destruct (endpoint c) as [ep c1]. cbn [mbind option_bind alone advance].
  destruct (Do _ c1) as [r c2]. cbn [mbind option_bind alone advance].
  destruct (auth_answer r) as [t|e].
  - rewrite (try_bind_ok _ _ _ _ _ Ha). cbn [mbind option_bind]. intros Hx.
    by eapply alone_mono in Hx; [|apply (Nat.le_add_l _ 1)].
  - by rewrite (try_bind_err _ _ _ _ _ Ha).
Qed.

(** [doOnce] in three. *)
Lemma doOnce_parts path body c :
  doOnce path body c =
    (let '(ep, c1) := endpoint c in
     let '(r, c2) := Do (Request (ep ++ path) body (if bool_decide (token c1 <> []) then Some (token c1) else None)) c1 in
     (match r with Ok resp => Ok (resp, token c1) | Err e => Err e end, c2)).
Proof.
  unfold doOnce, setAuth, gets, try_bind, mbind, State_bind, mret, State_ret.
  destruct (endpoint c) as [ep c1]. by destruct (Do _ c1) as [[resp|e] c2].
Qed.

Lemma alone_once path body f a c :
  alone (3 + f) path body (Choosing a) None c =
  match doOnce path body c with
  | (Ok (resp, used), c1) => alone f path body (Answered a resp used) None c1
  | (Err e, c1) => alone f path body (Finished (Err e)) None c1
  end.
Proof.
  rewrite doOnce_parts. cbn [alone advance Nat.add]. destruct (endpoint c) as [ep c1].
  cbn [mbind option_bind alone advance].
  change (setAuth c1) with (if bool_decide (token c1 <> []) then Some (token c1) else None, token c1, c1).
  cbn [mbind option_bind alone advance]. by destruct (Do _ c1) as [[resp|e] c2].
Qed.

(** The loop from the first attempt. *)
Lemma alone_loop path body n a end_ c :
  (a = 0 /\ n = 2%nat) \/ (a <> 0 /\ n = 1%nat) ->
  alone (10 * n) path body (Ensuring a) None c = Some (do_loop n a path body end_ c).
Proof.
  revert a c. induction n as [|n IH]; intros a c Hn; [lia|].
  replace (10 * S n)%nat with (5 + (3 + (2 + 10 * n)))%nat by lia. apply alone_ensure.
  cbn [do_loop]. destruct (ensureToken c) as [[u|e] c1] eqn:E1.
  2: { by rewrite (try_bind_err _ _ _ _ _ E1). }
  rewrite (try_bind_ok _ _ _ _ _ E1), alone_once. destruct (doOnce path body c1) as [[[resp used]|e] c2] eqn:E2.
  2: { rewrite (try_bind_err _ _ _ _ _ E2). done. }
  rewrite (try_bind_ok _ _ _ _ _ E2). erewrite st_bind_run by reflexivity.
  cbn [alone advance Nat.add]. destruct (_ && _) eqn:E3.
  - apply andb_true_iff in E3 as [[_ Ha%Z.eqb_eq]%andb_true_iff _].
    cbn [mbind option_bind alone advance]. destruct (resetToken used c2) as [u' c3] eqn:E4.
    erewrite st_bind_run by exact E4. cbn [snd]. apply IH. lia.
  - destruct (300 <=? status resp); reflexivity.
Qed.

(** A goroutine that runs alone computes [do]: the steps are those of the code. *)
Theorem alone_do path body c : alone 20 path body (Ensuring 0) None c = Some (do path body c).
Proof. apply (alone_loop path body 2). by left. Qed.

(** ** Many goroutines *)

Record call := MkCall { call_path : bytes; call_body : json; at_ : pc }.

(** What the server was asked for and refused: a request for a token with what came of it,
    and a request that it answered 401, with the token that was sent. *)
Inductive event :=
  | Asked (r : result bytes)
  | Refused (used : bytes).

(** The event of a step from [p] to [p']. *)
Definition event_of (p p' : pc) : list event :=
  match p, p' with
  | AuthSending _ _, Storing _ r => [Asked r]
  | Sending _ _ used, Answered _ resp _ => if status resp =? StatusUnauthorized then [Refused used] else []
  | _, _ => []
  end.

(** The client, who holds its mutex, the goroutines, and the events so far, the first one
    first; the code keeps no such list. *)
Record callers := MkCallers { client : Client; mu : option nat; calls : list call; history : list event }.

(** One goroutine takes its next step. *)
Inductive step (s : callers) : callers -> Prop :=
  | step_at i k p' mu' c' :
      calls s !! i = Some k ->
      advance i (call_path k) (call_body k) (at_ k) (mu s) (client s) = Some (p', mu', c') ->
      step s (MkCallers c' mu' (<[i := MkCall (call_path k) (call_body k) p']> (calls s)) (history s ++ event_of (at_ k) p')).

(** The same, executable: the goroutines of a schedule take their steps in turn. *)
Fixpoint schedule (turns : list nat) (s : callers) : option callers :=
  match turns with
  | [] => Some s
  | i :: turns =>
      k ← calls s !! i;
      '(p', mu', c') ← advance i (call_path k) (call_body k) (at_ k) (mu s) (client s);
      schedule turns (MkCallers c' mu' (<[i := MkCall (call_path k) (call_body k) p']> (calls s)) (history s ++ event_of (at_ k) p'))
  end.

Lemma schedule_steps turns s s' : schedule turns s = Some s' -> rtc step s s'.
Proof.
  revert s. induction turns as [|i turns IH]; intros s Hs; cbn [schedule] in Hs; [by injection Hs as ->|].
  apply bind_Some in Hs as (k & Hk & ([[p' mu'] c'] & Ha & Hs)%bind_Some).
  eapply rtc_l; [by eapply step_at|by apply IH].
Qed.

(** Calls of [do], made at any time; until its first step a goroutine has not begun. *)
Definition begin (c : Client) (ks : list (bytes * json)) : callers :=
  MkCallers c None (map (fun k => MkCall (fst k) (snd k) (Ensuring 0)) ks) [].

(** *** Every schedule ends *)

Lemma advance_rank i path body p mu c p' mu' c' :
  advance i path body p mu c = Some (p', mu', c') -> (rank p' < rank p)%nat.
Proof.
  destruct p as [a|a|a req|a r|a|a ep|a req used|a resp used|a used|r]; cbn [advance]; intros Ha.
  - destruct (bool_decide _); [injection Ha as <- <- <-; simpl; lia|]. destruct mu; [done|].
    destruct (bool_decide _); injection Ha as <- <- <-; simpl; lia.
  - destruct (endpoint c). injection Ha as <- <- <-. simpl; lia.
  - destruct (Do req c). injection Ha as <- <- <-. simpl; lia.
  - destruct r; injection Ha as <- <- <-; simpl; lia.
  - destruct (endpoint c). injection Ha as <- <- <-. simpl; lia.
  - destruct mu; [done|]. destruct (setAuth c) as [[auth used] c1]. injection Ha as <- <- <-. simpl; lia.
  - destruct (Do req c) as [[resp|e] c1]; injection Ha as <- <- <-; simpl; lia.
  - destruct (_ && _) eqn:E.
    + apply andb_true_iff in E as [[_ ->%Z.eqb_eq]%andb_true_iff _]. injection Ha as <- <- <-. vm_compute. lia.
    + destruct (300 <=? status resp); injection Ha as <- <- <-; simpl; lia.
  - destruct mu; [done|]. injection Ha as <- <- <-. simpl; lia.
  - done.
Qed.

Definition total (ks : list call) : nat := sum_list_with (fun k => rank (at_ k)) ks.

Lemma total_insert ks i k k' :
  ks !! i = Some k -> (rank (at_ k') < rank (at_ k) -> total (<[i := k']> ks) < total ks)%nat.
Proof.
  unfold total. revert i. induction ks as [|x ks IH]; intros [|i] Hi Hr; try done; cbn in *.
  - injection Hi as ->. lia.
  - by apply Nat.add_lt_mono_l, (IH i).
Qed.

Lemma step_total s s' : step s s' -> (total (calls s') < total (calls s))%nat.
Proof. intros [i k p' mu' c' Hk Ha]. cbn [calls]. eapply total_insert; [exact Hk|]. cbn [at_]. by eapply advance_rank. Qed.

(** The mutex is held by a goroutine that obtains a token, and by no other. *)
Definition holding (p : pc) : bool :=
  match p with Authenticating _ | AuthSending _ _ | Storing _ _ => true | _ => false end.

Definition mutex_ok (s : callers) : Prop :=
  (forall i k, calls s !! i = Some k -> holding (at_ k) = true -> mu s = Some i) /\
  (forall i, mu s = Some i -> exists k, calls s !! i = Some k /\ holding (at_ k) = true).

Lemma begin_mutex c ks : mutex_ok (begin c ks).
Proof.
  split; [|done]. intros i k Hk Hh. cbn in Hk. rewrite list_lookup_fmap in Hk.
  apply fmap_Some in Hk as (x & _ & ->). done.
Qed.

(** A step takes, keeps or gives back the mutex. *)
Lemma advance_mutex i path body p m c p' m' c' :
  advance i path body p m c = Some (p', m', c') -> (holding p = true -> m = Some i) ->
  (m' = m /\ holding p' = holding p) \/
  (m = None /\ m' = Some i /\ holding p' = true) \/
  (m = Some i /\ m' = None /\ holding p' = false).
Proof.
  destruct p as [a|a|a req|a r|a|a ep|a req used|a resp used|a used|r]; cbn [advance holding]; intros Ha Hm.
  - destruct (bool_decide _); [injection Ha as <- <- <-; auto|]. destruct m; [done|].
    destruct (bool_decide _); injection Ha as <- <- <-; auto.
  - destruct (endpoint c). injection Ha as <- <- <-. auto.
  - destruct (Do req c). injection Ha as <- <- <-. auto.
  - specialize (Hm eq_refl). destruct r; injection Ha as <- <- <-; auto.
  - destruct (endpoint c). injection Ha as <- <- <-. auto.
  - destruct m; [done|]. destruct (setAuth c) as [[auth used] c1]. injection Ha as <- <- <-. auto.
  - destruct (Do req c) as [[resp|e] c1]; injection Ha as <- <- <-; auto.
  - destruct (_ && _); [injection Ha as <- <- <-; auto|].
    destruct (300 <=? status resp); injection Ha as <- <- <-; auto.
  - destruct m; [done|]. injection Ha as <- <- <-. auto.
  - done.
Qed.

Lemma step_mutex s s' : mutex_ok s -> step s s' -> mutex_ok s'.
Proof.
  intros [H1 H2] [i k p' mu' c' Hk Ha]. assert (i < length (calls s))%nat as Hi by by eapply lookup_lt_Some.
  pose proof (advance_mutex _ _ _ _ _ _ _ _ _ Ha (H1 i k Hk)) as Hm. split; cbn [calls mu].
  - intros j kj Hj Hh. destruct (decide (i = j)) as [<-|Hne].
    + rewrite list_lookup_insert_eq in Hj by done. injection Hj as <-. cbn [at_] in Hh.
      destruct Hm as [[-> He]|[(_ & -> & _)|(_ & _ & He)]]; [|done|congruence]. apply (H1 i k Hk). congruence.
    + rewrite list_lookup_insert_ne in Hj by done. specialize (H1 j kj Hj Hh).
      destruct Hm as [[-> _]|[(? & _)|(? & _)]]; congruence.
  - intros j Hj. destruct (decide (i = j)) as [<-|Hne].
    + rewrite list_lookup_insert_eq by done. eexists. split; [done|]. cbn [at_].
      destruct Hm as [[-> ->]|[(_ & _ & ?)|(_ & ? & _)]]; [|done|congruence].
      destruct (H2 i Hj) as (k' & Hk' & Hh). congruence.
    + rewrite list_lookup_insert_ne by done. apply H2. destruct Hm as [[-> _]|[(_ & ? & _)|(_ & ? & _)]]; congruence.
Qed.

Lemma holding_advances i path body p m c : holding p = true -> is_Some (advance i path body p m c).
Proof.
  destruct p as [|a|a req|a [t|e]| | | | | |]; intros [=]; cbn [advance]; try by eexists.
  - destruct (endpoint c). by eexists.
  - destruct (Do req c). by eexists.
Qed.

Lemma free_advances i path body p c :
  (forall r, p <> Finished r) -> is_Some (advance i path body p None c).
Proof.
  destruct p as [| |a req|a [t|e]|a|a ep|a req used|a resp used|a used|r]; intros Hp; cbn [advance];
    try (by eexists).
  - destruct (bool_decide _); [by eexists|]. destruct (bool_decide _); by eexists.
  - destruct (endpoint c). by eexists.
  - destruct (Do req c). by eexists.
  - destruct (endpoint c). by eexists.
  - destruct (Do req c) as [[resp|e] c1]; by eexists.
  - destruct (_ && _); [by eexists|]. destruct (300 <=? status resp); by eexists.
  - by destruct (Hp r).
Qed.

(** A state where nobody can step is one where everybody has returned. *)
Lemma stuck_finished s : mutex_ok s -> (forall s', ~ step s s') -> forall k, k ∈ calls s -> exists r, at_ k = Finished r.
Proof.
  intros [H1 H2] Hstuck. destruct (mu s) as [j|] eqn:Em.
  - destruct (H2 j eq_refl) as (k & Hk & Hh). exfalso.
    destruct (holding_advances j (call_path k) (call_body k) (at_ k) (mu s) (client s) Hh) as [[[p' m'] c'] Ha].
    by eapply Hstuck, step_at.
  - intros k [i Hi]%list_elem_of_lookup. destruct (at_ k) as [| | | | | | | | |r] eqn:Ek; [..|by eexists]; exfalso;
      (destruct (free_advances i (call_path k) (call_body k) (at_ k) (client s)) as [[[p' m'] c'] Ha];
        [by rewrite Ek|]; rewrite <- Em in Ha; by eapply Hstuck, step_at).
Qed.
End callers.

(** ** One refresh for all of them

    Nothing is assumed of the server: it may refuse the credentials, drop tokens whenever
    it likes, or answer 401 for ever. *)
Section refresh.
Context `{Network}.
Variable t0 : bytes.                           (* the token that the client has at the start *)

(** The token that was granted last, or the one of the start. *)
Fixpoint last_token (t : bytes) (h : list event) : bytes :=
  match h with
  | [] => t
  | Asked (Ok t') :: h => last_token t' h
  | _ :: h => last_token t h
  end.

(** A new token may be asked for: there was none, or the server has refused it. *)
Definition may_ask (h : list event) : Prop := last_token t0 h = [] \/ Refused (last_token t0 h) ∈ h.

(** Whenever a token was asked for, it might be. *)
Definition justified (h : list event) : Prop := forall h1 r h2, h = h1 ++ Asked r :: h2 -> may_ask h1.

Lemma last_token_app t h h' : last_token t (h ++ h') = last_token (last_token t h) h'.
Proof. revert t. induction h as [|[[t'|e]|used] h IH]; intros t; cbn [last_token app]; auto. Qed.

Lemma last_token_refused t h h' :
  (forall r, Asked r ∉ h') -> last_token t (h ++ h') = last_token t h.
Proof.
  intros Hn. rewrite last_token_app. generalize (last_token t h) as u. induction h' as [|[r|used] h' IH]; intros u; cbn [last_token].
  - done.
  - destruct (Hn r). by left.
  - apply IH. intros r Hr. apply (Hn r). by right.
Qed.

Lemma may_ask_refused h h' : (forall r, Asked r ∉ h') -> may_ask h -> may_ask (h ++ h').
Proof.
  intros Hn Hm. unfold may_ask. rewrite last_token_refused by done.
  destruct Hm as [?|?]; [by left|right]. apply elem_of_app. by left.
Qed.

Lemma justified_nil : justified [].
Proof. intros h1 r h2 E. by destruct h1. Qed.

Lemma justified_snoc h e : justified h -> (forall r, e = Asked r -> may_ask h) -> justified (h ++ [e]).
Proof.
  intros Hj He h1 r h2 E. destruct h2 as [|x h2 _] using rev_ind.
  - apply app_inj_tail in E as [<- ->]. by eapply He.
  - rewrite app_comm_cons, app_assoc in E. apply app_inj_tail in E as [-> _]. by eapply Hj.
Qed.

(** What a goroutine knows of the events. *)
Definition pc_ok (h : list event) (p : pc) : Prop :=
  match p with
  | Storing _ (Ok t) => last_token t0 h = t
  | Answered _ resp used => status resp = StatusUnauthorized -> Refused used ∈ h
  | Resetting _ used => Refused used ∈ h
  | _ => True
  end.

(** A token was granted and is not stored yet. *)
Definition granted (p : pc) : bool := match p with Storing _ (Ok _) => true | _ => false end.

(** The client's token, when nobody is about to store one. *)
Definition token_ok (tk : bytes) (h : list event) : Prop :=
  tk = last_token t0 h \/ (tk = [] /\ may_ask h).

Record refresh_inv (s : callers) : Prop := {
  ri_mutex : mutex_ok s;
  ri_history : justified (history s);
  ri_pc : forall i k, calls s !! i = Some k -> pc_ok (history s) (at_ k);
  ri_empty : mu s <> None -> token (client s) = [];
  ri_token : (forall k, k ∈ calls s -> granted (at_ k) = false) -> token_ok (token (client s)) (history s)
}.

Lemma endpoint_keeps (c : Client) : token (snd (endpoint c)) = token c.
Proof. unfold endpoint. by destruct (endpoints c). Qed.

Lemma Do_keeps req (c : Client) : token (snd (Do req c)) = token c.
Proof. unfold Do. by destruct (http_Do req (network c)). Qed.

Lemma event_asked p p' r : Asked r ∈ event_of p p' -> exists a req, p = AuthSending a req.
Proof.
  destruct p, p'; cbn [event_of]; intros Hr; try (by apply elem_of_nil in Hr); [by do 2 eexists|].
  case_match; [|by apply elem_of_nil in Hr]. by apply list_elem_of_singleton in Hr.
Qed.

Lemma pc_ok_mono h h' p : (granted p = true -> forall r, Asked r ∉ h') -> pc_ok h p -> pc_ok (h ++ h') p.
Proof.
  intros Hn. destruct p as [a|a|a req|a [t|e]|a|a ep|a req used|a resp used|a used|r]; cbn [pc_ok granted] in *; try done.
  - intros <-. by apply last_token_refused, Hn.
  - intros Hp Hst. apply elem_of_app. left. by apply Hp.
  - intros Hp. apply elem_of_app. by left.
Qed.

Lemma granted_holding p : granted p = true -> holding p = true.
Proof. by destruct p. Qed.

(** A step that does not ask for a token, taken by a goroutine that is not about to store
    one: what it knows then, and the token of the client. *)
Lemma advance_quiet i path body p m (c : Client) p' m' c' h :
  advance i path body p m c = Some (p', m', c') ->
  (forall a req, p <> AuthSending a req) -> granted p = false -> pc_ok h p -> (m <> None -> token c = []) ->
  pc_ok (h ++ event_of p p') p' /\ granted p' = false /\ (m' <> None -> token c' = []) /\
  (token_ok (token c) h -> token_ok (token c') (h ++ event_of p p')).
Proof.
  intros Ha Hna Hg Hp Hm.
  assert (forall used, token_ok (token c) h -> token_ok (token c) (h ++ [Refused used])) as Hrefused.
  { intros used. assert (forall r, Asked r ∉ [Refused used]) as Hn by (intros r Hr; by apply list_elem_of_singleton in Hr).
    intros [E|[E Hmay]]; [left; by rewrite last_token_refused|right; split; [done|by apply may_ask_refused]]. }
  destruct p as [a|a|a req|a [t|e]|a|a ep|a req used|a resp used|a used|r]; cbn [advance pc_ok granted] in *; try done;
    try (by destruct (Hna a req)).
  - destruct (bool_decide (username c = [])); [injection Ha as <- <- <-|destruct m; [done|]; case_bool_decide as Et; injection Ha as <- <- <-];
      cbn [event_of pc_ok]; rewrite app_nil_r; try done.
  - pose proof (endpoint_keeps c) as Et. destruct (endpoint c) as [ep c1]. injection Ha as <- <- <-. cbn [snd event_of pc_ok] in *.
    by rewrite Et, app_nil_r.
  - injection Ha as <- <- <-. cbn [event_of]. by rewrite app_nil_r.
  - pose proof (endpoint_keeps c) as Et. destruct (endpoint c) as [ep c1]. injection Ha as <- <- <-. cbn [snd event_of pc_ok] in *.
    by rewrite Et, app_nil_r.
  - destruct m; [done|]. cbn in Ha. injection Ha as <- <- <-. cbn [event_of pc_ok]. by rewrite app_nil_r.
  - pose proof (Do_keeps req c) as Et. destruct (Do req c) as [[resp|e] c1]; injection Ha as <- <- <-;
      cbn [snd event_of pc_ok] in *; rewrite Et; [|by rewrite app_nil_r].
    destruct (Z.eqb_spec (status resp) StatusUnauthorized) as [Es|Es]; [|by rewrite app_nil_r].
    split_and!; try done; [|by apply Hrefused]. intros _. apply elem_of_app. right. by left.
  - destruct (_ && _) eqn:E; [|destruct (300 <=? status resp)]; injection Ha as <- <- <-; cbn [event_of pc_ok];
      rewrite app_nil_r; split_and!; try done.
    apply andb_true_iff in E as [[E%Z.eqb_eq _]%andb_true_iff _]. by apply Hp.
  - destruct m; [done|]. injection Ha as <- <- <-. cbn [event_of pc_ok]. rewrite app_nil_r. split_and!; try done.
    assert (token (snd (resetToken used c)) = if bool_decide (token c = used) then [] else token c) as ->.
    { unfold resetToken, gets, mbind, State_bind. by case_bool_decide. }
    case_bool_decide as E; [|done]. intros [Ht|[Ht Hmay]]; right; (split; [done|]); [|done].
    right. by rewrite <- Ht, E.
Qed.

Lemma begin_inv (c : Client) ks : token c = t0 -> refresh_inv (begin c ks).
Proof.
  intros Ht. split; [apply begin_mutex|apply justified_nil| |done|by left].
  intros i k Hk. cbn in Hk. rewrite list_lookup_fmap in Hk. by apply fmap_Some in Hk as (x & _ & ->).
Qed.

(** The goroutines after a step. *)
Lemma after_step (P : call -> Prop) (ks : list call) i (k' : call) :
  (i < length ks)%nat ->
  (forall j k, <[i := k']> ks !! j = Some k -> P k) <->
  P k' /\ (forall j k, ks !! j = Some k -> j <> i -> P k).
Proof.
  intros Hi. split.
  - intros Hall. split; [apply (Hall i); by rewrite list_lookup_insert_eq|].
    intros j k Hj Hne. apply (Hall j). by rewrite list_lookup_insert_ne.
  - intros [Hk Hall] j k Hj. destruct (decide (i = j)) as [<-|Hne].
    + rewrite list_lookup_insert_eq in Hj by done. by injection Hj as <-.
    + rewrite list_lookup_insert_ne in Hj by done. by eapply Hall.
Qed.

Lemma not_granted (ks : list call) (i : nat) : (forall j k, ks !! j = Some k -> holding (at_ k) = true -> j = i) ->
  forall j k, ks !! j = Some k -> j <> i -> granted (at_ k) = false.
Proof.
  intros Hu j k Hj Hne. destruct (granted (at_ k)) eqn:Eg; [|done]. apply granted_holding, (Hu j k Hj) in Eg. done.
Qed.

Lemma step_inv s s' : refresh_inv s -> step s s' -> refresh_inv s'.
Proof.
  intros Hs Hst. pose proof Hst as Hst'. destruct Hst as [i k p' m' c' Hk Ha].
  assert (i < length (calls s))%nat as Hi by by eapply lookup_lt_Some.
  pose proof Hs as [Hmx Hj Hp He Ht]. pose proof (step_mutex _ _ Hmx Hst') as Hmx'.
  assert (holding (at_ k) = true -> forall j kj, calls s !! j = Some kj -> holding (at_ kj) = true -> j = i) as Huniq.
  { intros Hh j kj Hj' Hh'. pose proof (proj1 Hmx i k Hk Hh). pose proof (proj1 Hmx j kj Hj' Hh'). congruence. }
  assert (forall P : call -> Prop, (forall x, x ∈ <[i:=MkCall (call_path k) (call_body k) p']> (calls s) -> P x) <->
    (forall j x, <[i:=MkCall (call_path k) (call_body k) p']> (calls s) !! j = Some x -> P x)) as Hin.
  { intros P. setoid_rewrite list_elem_of_lookup. naive_solver. }
  destruct (at_ k) as [a|a|a req|a [t|e]|a|a ep|a req used|a resp used|a used|r] eqn:Ek.
  3: { (* a token is asked for *)
    cbn [advance] in Ha. pose proof (Do_keeps req (client s)) as Et. destruct (Do req (client s)) as [r c1].
    injection Ha as <- <- <-. cbn [snd event_of] in *. specialize (Huniq eq_refl).
    pose proof (not_granted _ _ Huniq) as Hng.
    assert (token (client s) = []) as Hempty by (apply He; by rewrite (proj1 Hmx i k Hk) by (by rewrite Ek)).
    assert (may_ask (history s)) as Hmay.
    { destruct Ht as [Ht|[_ Hm]]; [|left; congruence|done]. intros x [j Hx]%list_elem_of_lookup.
      destruct (decide (j = i)) as [->|Hne]; [|by eapply Hng]. replace x with k by congruence. by rewrite Ek. }
    split; cbn [client mu calls history]; try done.
    - apply justified_snoc; [done|]. by intros r' _.
    - apply after_step; [done|]. split.
      + cbn [at_ pc_ok]. destruct (auth_answer r) as [t|e]; [|done]. by rewrite last_token_app.
      + intros j kj Hj' Hne. apply pc_ok_mono; [|by eapply Hp]. intros Hgr. by rewrite (Hng j kj Hj' Hne) in Hgr.
    - intros _. by rewrite Et.
    - rewrite Hin, after_step by done. cbn [at_ granted]. intros [Hg _]. destruct (auth_answer r) as [t|e]; [done|].
      right. rewrite Et. split; [done|]. unfold may_ask. rewrite last_token_app. cbn [last_token].
      destruct Hmay as [?|?]; [by left|right]. apply elem_of_app. by left. }
  3: { (* the token is stored *)
    cbn [advance] in Ha. injection Ha as <- <- <-. cbn [event_of]. rewrite app_nil_r.
    pose proof (Hp i k Hk) as Hlast. rewrite Ek in Hlast. cbn [pc_ok] in Hlast.
    split; cbn [client mu calls history set_token modify snd token]; try done.
    - apply after_step; [done|]. split; [done|]. intros j kj Hj' _. by eapply Hp.
    - intros _. by left. }
  all: destruct (advance_quiet _ _ _ _ _ _ _ _ _ (history s) Ha) as (Hp' & Hg' & He' & Ht');
    [done|done|rewrite <- Ek; by eapply Hp|done|]; rewrite <- Ek in *;
    (assert (forall r, Asked r ∉ event_of (at_ k) p') as Hna
      by (intros r' Hr'; apply event_asked in Hr' as (a' & req' & Hr'); congruence));
    split; cbn [client mu calls history]; try done;
    [destruct (event_of (at_ k) p') as [|e1 [|]] eqn:Eev; [by rewrite app_nil_r| |by destruct (at_ k), p'; try done; cbn [event_of] in Eev; destruct (_ =? _)];
       apply justified_snoc; [done|]; intros r' ->; destruct (Hna r'); by left
    |apply after_step; [done|]; split; [exact Hp'|]; intros j kj Hj' _; apply pc_ok_mono; [done|by eapply Hp]
    |rewrite Hin, after_step by done; intros [_ Hall]; apply Ht', Ht; intros x [j Hx]%list_elem_of_lookup;
       destruct (decide (j = i)) as [->|Hne]; [replace x with k by congruence; by rewrite Ek|by eapply Hall]].
Qed.

Lemma reach_inv s s' : refresh_inv s -> rtc step s s' -> refresh_inv s'.
Proof. intros Hs. by induction 1; eauto using step_inv. Qed.

(** Nobody is about to store a token while the mutex is free. *)
Lemma free_token s : refresh_inv s -> mu s = None -> token_ok (token (client s)) (history s).
Proof.
  intros [Hm _ _ _ Ht] Hn. apply Ht. intros k [i Hk]%list_elem_of_lookup.
  destruct (granted (at_ k)) eqn:Eg; [|done]. apply granted_holding, (proj1 Hm i k Hk) in Eg. congruence.
Qed.
End refresh.

(** ** Properties *)

(** C12: However the goroutines that use one client are scheduled, whichever token it has
    at the start and whatever the server answers: whenever a token is asked for, the client
    had none, or the token that was granted last (or the one of the start) has been refused
    by then, so that callers whose requests are refused together get one token and do not
    replace each other's; and while the last token has not been refused the client has it. *)
Theorem one_refresh `{Network} (c : Client) ks s :
  rtc step (begin c ks) s ->
  (forall h1 r h2, history s = h1 ++ Asked r :: h2 ->
     last_token (token c) h1 = [] \/ Refused (last_token (token c) h1) ∈ h1) /\
  (mu s = None -> Refused (last_token (token c) (history s)) ∉ history s ->
     token (client s) = last_token (token c) (history s)).
Proof.
  intros Hr. pose proof (reach_inv (token c) _ _ (begin_inv _ c ks eq_refl) Hr) as Hi.
  split; [exact (ri_history _ _ Hi)|]. intros Hn Href.
  destruct (free_token _ _ Hi Hn) as [?|[-> [?|?]]]; [done|done|contradiction].
Qed.

(** A server that has dropped the token [old] and grants [new]. *)
Module Renewing.
#[export] Instance net : Network := {|
  net := unit;
  http_Do := fun req n =>
    (Ok (match authorization req with
         | Some t => if bool_decide (t = $"old") then Response 401 [] else Response 200 ($"ok")
         | None => Response 200 ($"new")
         end), n);
  token_of := fun raw => Ok raw;
  values_of := fun _ => Ok []
|}.

Definition c : Client := MkClient [$"http://e:2379"] ($"root") ($"pw") 0 0 ($"old") tt [].
Definition two : callers := begin c [($"/v3/kv/range", JObj []); ($"/v3/kv/put", JObj [])].

(** Both send the old token and are refused; the second obtains a token, and the first,
    which resets only then, leaves it where it is. *)
Definition order : list nat :=
  [0; 0; 0; 0; 1; 1; 1; 1; 0; 1; 1; 1; 1; 1; 1; 0; 1; 0; 1; 0; 1; 0; 1; 0; 0]%nat.
End Renewing.

Lemma one_refresh_witness :
  exists s, schedule Renewing.order Renewing.two = Some s /\
    history s = [Refused ($"old"); Refused ($"old"); Asked (Ok ($"new"))] /\
    map at_ (calls s) = [Finished (Ok ($"ok")); Finished (Ok ($"ok"))] /\
    Refused ($"old") ∈ [Refused ($"old"); Refused ($"old")] /\ token (client s) = $"new".
Proof.
  destruct (schedule Renewing.order Renewing.two) as [s|] eqn:E; [|vm_compute in E; discriminate].
  exists s. split; [reflexivity|].
  destruct (one_refresh Renewing.c [($"/v3/kv/range", JObj []); ($"/v3/kv/put", JObj [])] s) as [H1 H2];
    [by eapply schedule_steps|].
  vm_compute in E. injection E as <-. split; [reflexivity|]. split; [reflexivity|]. split.
  - destruct (H1 [Refused ($"old"); Refused ($"old")] (Ok ($"new")) [] eq_refl) as [Hn|Hr]; [discriminate|exact Hr].
  - apply H2; [reflexivity|]. intros Hin. cbn in Hin. set_solver.
Defined.

(** C29: Calls end: every schedule of any number of calls is over after at most seventeen
    steps for each, and a schedule that cannot go on is one where all of them have
    returned; the mutex is not left behind, whatever fails. *)
Theorem callers_return `{Network} (c : Client) ks :
  (forall n s, nsteps step n (begin c ks) s -> (n <= 17 * length ks)%nat) /\
  (forall s, rtc step (begin c ks) s -> (forall s', ~ step s s') -> forall k, k ∈ calls s -> exists r, at_ k = Finished r).
Proof.
  split.
  - intros n s Hn. assert (forall s0 s1 m, nsteps step m s0 s1 -> m + total (calls s1) <= total (calls s0))%nat as Hd.
    { intros s0 s1 m. revert s0. induction m as [|m IH]; intros s0 Hs; inversion_clear Hs as [|? ? y ? H1 H2]; [done|].
      apply step_total in H1. apply IH in H2. lia. }
    apply Hd in Hn. enough (total (calls (begin c ks)) = 17 * length ks)%nat by lia.
    cbn [calls begin]. clear. induction ks as [|k ks IH]; [done|]. cbn [map length]. unfold total in *. cbn [sum_list_with].
    rewrite IH. cbn. lia.
  - intros s Hr. apply stuck_finished. remember (begin c ks) as s0 eqn:E. assert (mutex_ok s0) as Hm by (subst; apply begin_mutex).
    clear E. induction Hr as [|s0 s1 s Hs _ IH]; [done|]. by apply IH, (step_mutex s0).
Qed.

Lemma callers_return_witness :
  exists s, schedule Renewing.order Renewing.two = Some s /\ (length Renewing.order <= 17 * 2)%nat /\
    forall k, k ∈ calls s -> exists r, at_ k = Finished r.
Proof.
  destruct (schedule Renewing.order Renewing.two) as [s|] eqn:E; [|vm_compute in E; discriminate].
  exists s. split; [reflexivity|]. split; [vm_compute; lia|].
  apply (callers_return Renewing.c [($"/v3/kv/range", JObj []); ($"/v3/kv/put", JObj [])]); [by eapply schedule_steps|].
  intros s' [i k p' mu' c' Hk Ha]. vm_compute in E. injection E as <-.
  destruct i as [|[|i]]; vm_compute in Hk; [injection Hk as <-; discriminate..|discriminate].
Defined.
