(* ===== verification/EtcdWatchRun.v ===== *)
(** * Package [etcd]: a watch and its client ([watch.go], [client.go])

    [watchOnce] from its first line to its last, over the client that obtains, uses and
    drops the token, and the loop of [Watch] around it: the connections of [EtcdWatch] are
    made by the client of [Etcd].  The rounds of the loop that are looked at are a number;
    what the scanner makes of the body of an answer is a variable. *)

From S2P Require Import Prelude GoStr GoTime GoBase64 Etcd EtcdWatch.

Local Open Scope Z_scope.

Section run.
Context `{Network}.
Variable Unmarshal : bytes -> option watchResponse.
Variable lines_of : bytes -> list bytes * option error.

Definition watch_request (ep key : bytes) (auth : option bytes) : request :=
  Request (ep ++ $"/v3/watch")
    (JObj [($"create_request", JObj [($"key", JStr (b64 key)); ($"progress_notify", JBool false)])]) auth.

Definition watchOnce_run (key : bytes) (c : Client) (w : wstate) : (option error * bool) * Client * wstate :=
  match ensureToken c with
  | (Err e, c) => ((Some e, false), c, w)
  | (Ok _, c) =>
      let '(ep, c) := endpoint c in
      let '(auth, usedToken, c) := setAuth c in
      let '(resp, c) := Do (watch_request ep key auth) c in
      let has_user := bool_decide (username c <> []) in
      match resp with
      | Err e => let '(r, w) := watchOnce Unmarshal has_user (NoStream e) w in (r, c, w)
      | Ok resp =>
          let c := if (status resp =? StatusUnauthorized) && has_user then snd (resetToken usedToken c) else c in
          let '(lines, scan_err) := lines_of (raw resp) in
          let '(r, w) := watchOnce Unmarshal has_user (Stream (status resp) (raw resp) lines scan_err) w in (r, c, w)
      end
  end.

(** The goroutine of [Watch] for its first rounds: what it does after each. *)
Fixpoint Watch_run (rounds : nat) (key : bytes) (c : Client) (w : wstate) (l : wloop) : list retry * Client * wstate :=
  match rounds with
  | O => ([], c, w)
  | S rounds =>
      let '(done_, w) := ask false w in
      if done_ : bool then ([], c, w)
      else
        let '(err, connected, c, w) := watchOnce_run key c w in
        match err with
        | None => ([], c, w)
        | Some err =>
            let '(act, l) := watch_round err connected l in
            let '(_, w) := try_send (EWrap ($"etcd watch 断开，准备重连") err) w in
            match act with
            | RetryNow => let '(acts, c, w) := Watch_run rounds key c w l in (act :: acts, c, w)
            | RetryAfter _ =>
                let '(done_, w) := ask false w in
                if done_ : bool then ([act], c, w)
                else let '(acts, c, w) := Watch_run rounds key c w l in (act :: acts, c, w)
            end
        end
  end.

(** The loop is that of [EtcdWatch] on the outcomes of its connections. *)
Lemma Watch_run_rounds n key c w l :
  exists rounds, (length rounds <= n)%nat /\ fst (fst (Watch_run n key c w l)) = fst (Watch rounds l).
Proof.
  revert c w l. induction n as [|n IH]; intros c w l; [by exists []|]. cbn [Watch_run].
  destruct (ask false w) as [[] w1]; [exists []; split; [cbn; lia|done]|].
  destruct (watchOnce_run key c w1) as [[[[err|] connected] c1] w2]; [|exists []; split; [cbn; lia|done]].
  destruct (watch_round err connected l) as [act l1] eqn:Er. destruct (try_send _ w2) as [u w3].
  assert (forall d1 rounds, (length rounds <= n)%nat -> fst (Watch (Round false (Some err, connected) d1 :: rounds) l) =
            match act with
            | RetryNow => act :: fst (Watch rounds l1)
            | RetryAfter _ => if d1 then [act] else act :: fst (Watch rounds l1)
            end) as Hround.
  { intros d1 rounds _. cbn [Watch done_before outcome_ done_waiting]. unfold mbind, State_bind. rewrite Er.
    destruct act as [|d]; [|destruct d1]; try done; by destruct (Watch rounds l1). }
  destruct act as [|d].
  - destruct (IH c1 w3 l1) as (rounds & Hn & Hw). destruct (Watch_run n key c1 w3 l1) as [[acts c2] w4]. cbn [fst] in *.
    exists (Round false (Some err, connected) false :: rounds). split; [cbn; lia|]. rewrite Hround by done. by rewrite Hw.
  - destruct (ask false w3) as [[] w4].
    + exists [Round false (Some err, connected) true]. split; [cbn; lia|]. by rewrite Hround by (cbn; lia).
    + destruct (IH c1 w4 l1) as (rounds & Hn & Hw). destruct (Watch_run n key c1 w4 l1) as [[acts c2] w5]. cbn [fst] in *.
      exists (Round false (Some err, connected) false :: rounds). split; [cbn; lia|]. rewrite Hround by done. by rewrite Hw.
Qed.
End run.

(** ** The pace of the reconnections *)

(** What [acts] may be after a wait whose successor is [b], or after a reconnection without
    a wait when [now] holds: no two of those in a row, and a wait is one second or twice the
    one before, up to thirty seconds. *)
Fixpoint spaced (b : Z) (now : bool) (acts : list retry) : Prop :=
  match acts with
  | [] => True
  | RetryNow :: acts => now = false /\ spaced b true acts
  | RetryAfter d :: acts => (d = Second \/ d = b) /\ spaced (Z.min (2 * d) (30 * Second)) false acts
  end.

Section pace.
Context `{Network}.
Variable Unmarshal : bytes -> option watchResponse.
Variable lines_of : bytes -> list bytes * option error.

(** The errors of the scanner are not the one of this package. *)
Hypothesis scan_errors : forall body e, snd (lines_of body) = Some e -> errors_Is e errWatchAuthExpired = false.

Lemma spaced_weaken b acts : spaced b true acts -> spaced b false acts.
Proof. by destruct acts as [|[|d] acts]; [|intros [? _]|]. Qed.

Lemma watchOnce_run_outcome key c w :
  outcome_ok (fst (fst (watchOnce_run Unmarshal lines_of key c w))).
Proof.
  unfold watchOnce_run. destruct (ensureToken c) as [[u|e] c1]; [|done].
  destruct (endpoint c1) as [ep c2]. destruct (setAuth c2) as [[auth used] c3].
  destruct (Do _ c3) as [[resp|e] c4].
  - destruct (lines_of (raw resp)) as [lines scan_err] eqn:El.
    match goal with |- context [watchOnce ?u ?h ?st ?w] => pose proof (watchOnce_outcome_ok u h st w) as Ho end.
    destruct (watchOnce _ _ _ w) as [r w1]. apply Ho. intros e [[=]|(n & b & l & [= _ _ _ Hse])].
    apply (scan_errors (raw resp)). by rewrite El.
  - unfold watchOnce, mbind, State_bind. by destruct (ask false w) as [[] w1].
Qed.

Lemma next_backoff_min b : next_backoff b = if b <? maxBackoff then Z.min (2 * b) (30 * Second) else b.
Proof.
  unfold next_backoff, maxBackoff. destruct (b <? 30 * Second); [|done].
  destruct (Z.ltb_spec (30 * Second) (b * 2)); lia.
Qed.

(** A round of the loop keeps the pace. *)
Lemma watch_round_spaced err connected l acts :
  outcome_ok (Some err, connected) -> backoff_ok (backoff l) ->
  let '(act, l') := watch_round err connected l in
  backoff_ok (backoff l') /\
  (spaced (backoff l') (authImmediateRetryUsed l') acts -> spaced (backoff l) (authImmediateRetryUsed l) (act :: acts)).
Proof.
  intros Ho Hb. pose proof (watch_round_spec err connected l Ho Hb) as Hok.
  assert (forall d, backoff_ok d -> next_backoff d = Z.min (2 * d) (30 * Second)) as Hnext.
  { intros d Hd. rewrite next_backoff_min. unfold backoff_ok, initBackoff, maxBackoff, Second in *.
    destruct (Z.ltb_spec d (30 * 1000000000)); lia. }
  assert (backoff_ok initBackoff) as Hi by (unfold backoff_ok, initBackoff, maxBackoff, Second; lia).
  unfold watch_round in *. destruct (errors_Is err errWatchAuthExpired) eqn:Ee; cbn [andb negb orb] in *.
  - destruct connected; [by cbn in Ho; rewrite Ee in Ho|]. cbn [orb] in *.
    destruct (authImmediateRetryUsed l) eqn:Eu; cbn [negb backoff authImmediateRetryUsed spaced] in *.
    + destruct Hok as [Hok _]. split; [done|]. rewrite Hnext by done. intros Hs. split; [by right|]. by apply spaced_weaken.
    + destruct Hok as [Hok _]. done.
  - rewrite orb_true_r in *. cbn [backoff authImmediateRetryUsed spaced] in *. destruct Hok as [Hok _]. split; [done|].
    rewrite Hnext by (by destruct connected). intros Hs. split; [destruct connected; [by left|by right]|done].
Qed.

Lemma Watch_run_spaced n key c w l :
  backoff_ok (backoff l) ->
  spaced (backoff l) (authImmediateRetryUsed l) (fst (fst (Watch_run Unmarshal lines_of n key c w l))).
Proof.
  revert c w l. induction n as [|n IH]; intros c w l Hb; [done|]. cbn [Watch_run].
  destruct (ask false w) as [[] w1]; [done|].
  pose proof (watchOnce_run_outcome key c w1) as Ho.
  destruct (watchOnce_run _ _ key c w1) as [[[[err|] connected] c1] w2]; [|done]. cbn [fst] in Ho.
  pose proof (fun acts => watch_round_spaced err connected l acts Ho Hb) as Hr.
  destruct (watch_round err connected l) as [act l1]. destruct (try_send _ w2) as [u w3].
  destruct act as [|d].
  - specialize (IH c1 w3 l1 (proj1 (Hr []))). destruct (Watch_run _ _ n key c1 w3 l1) as [[acts c2] w4]. by apply Hr.
  - destruct (ask false w3) as [[] w4]; [by apply Hr|].
    specialize (IH c1 w4 l1 (proj1 (Hr []))). destruct (Watch_run _ _ n key c1 w4 l1) as [[acts c2] w5]. by apply Hr.
Qed.
End pace.

(** ** Properties *)

(** C13: Whatever the server answers and whatever the token is worth — refused again and
    again, too — a watch keeps its pace however long it runs: it never connects twice in a
    row without a wait, the first wait is a second, and a later one is a second again or
    twice the one before, up to thirty seconds. *)
Theorem Watch_run_pace `{Network} Unmarshal lines_of n key (c : Client) w :
  (forall body e, snd (lines_of body) = Some e -> errors_Is e errWatchAuthExpired = false) ->
  spaced Second false (fst (fst (Watch_run Unmarshal lines_of n key c w wstart))).
Proof.
  intros Hs. apply (Watch_run_spaced Unmarshal lines_of Hs n key c w wstart).
  unfold backoff_ok, wstart, initBackoff, maxBackoff, Second. cbn [backoff]. lia.
Qed.

(** A server that grants tokens and refuses every one of them. *)
Module Refusing.
#[export] Instance net : Network := {|
  net := unit;
  http_Do := fun req n =>
    (Ok (match authorization req with Some _ => Response 401 [] | None => Response 200 ($"new") end), n);
  token_of := fun raw => Ok raw;
  values_of := fun _ => Ok []
|}.

Definition c : Client := MkClient [$"http://e:2379"] ($"root") ($"pw") 0 0 [] tt [].
End Refusing.

Lemma Watch_run_pace_witness :
  let acts := fst (fst (Watch_run (fun _ => None) (fun _ => ([], None)) 5 ($"k") Refusing.c (WState [] [] []) wstart)) in
  acts = [RetryNow; RetryAfter Second; RetryAfter (2 * Second); RetryAfter (4 * Second); RetryAfter (8 * Second)] /\
  spaced Second false acts.
Proof.
  split; [vm_compute; reflexivity|].
  apply (Watch_run_pace (fun _ => None) (fun _ => ([], None)) 5 ($"k") Refusing.c (WState [] [] [])). intros body e E. discriminate.
Defined.
