(* ===== verification/WebSocket.v ===== *)
(** * Package [websocket]: the stream over messages and the server's checks

    [conn.go], [server.go], [keepalive.go], [client.go] and [message.go].  The
    connection of [gorilla/websocket] is the class [Ws]; its documented behaviour is
    the class [WsLaws]. *)

From S2P Require Import Prelude GoStr GoTime.

Local Open Scope Z_scope.

Definition TextMessage : Z := 1.
Definition BinaryMessage : Z := 2.
Definition PingMessage : Z := 9.

Definition EOF : error := ESentinel ($"EOF").

(** ** The underlying connection *)

Class Ws := {
  ws : Type;
  ws_reader : Type;
  ws_Now : ws -> Z;
  ws_NextReader : State ws (result ws_reader);
  ws_Read : ws_reader -> nat -> State ws (bytes * option error);
  ws_WriteMessage : Z -> bytes -> State ws (option error);
  ws_WriteControl : Z -> bytes -> Z -> State ws (option error);
  ws_SetWriteDeadline : Z -> State ws unit;
  ws_SetReadDeadline : Z -> State ws unit;
  ws_SetReadLimit : Z -> State ws unit;
  ws_SetPongTimeout : Z -> State ws unit;   (* a pong moves the read deadline *)
  ws_Close : State ws (option error)
}.

(** ** conn.go *)

Section conn.
Context `{Ws}.

Record Conn := MkConn {
  c_ws : ws; rdBuf : option ws_reader; msgType : Z; writeTimeout : Z
}.

Definition newConn (w : ws) : Conn := MkConn w None TextMessage 0.
Definition newConnWithWriteTimeout (w : ws) (timeout : Z) : Conn := MkConn w None TextMessage timeout.

Definition SetMessageType (t : Z) : State Conn unit := modify (fun c =>
  MkConn (c_ws c) (rdBuf c) t (writeTimeout c)).

Definition on_ws {A : Type} (m : State ws A) : State Conn A := fun c =>
  let '(a, w) := m (c_ws c) in (a, MkConn w (rdBuf c) (msgType c) (writeTimeout c)).

Definition set_rdBuf (r : option ws_reader) : State Conn unit := modify (fun c =>
  MkConn (c_ws c) r (msgType c) (writeTimeout c)).

(** The loop of [Read]; [None] when the fuel is used up. *)
Fixpoint Read_fuel (fuel : nat) (plen : nat) : State Conn (option (bytes * option error)) :=
  match fuel with
  | O => mret None
  | S fuel' =>
      r ← gets rdBuf;
      match r with
      | Some r =>
          '(data, err) ← on_ws (ws_Read r plen);
          if bool_decide (data <> []) then
            (if bool_decide (err = Some EOF) then set_rdBuf None else mret tt);;
            mret (Some (data, None))
          else if bool_decide (err = Some EOF) then
            set_rdBuf None;; Read_fuel fuel' plen
          else mret (Some ([], err))
      | None =>
          r ← on_ws ws_NextReader;
          match r with
          | Err e => mret (Some ([], Some e))
          | Ok r => set_rdBuf (Some r);; Read_fuel fuel' plen
          end
      end
  end.

(** [_ = c.ws.SetWriteDeadline(time.Now().Add(c.writeTimeout))] *)
Definition write_deadline : State Conn unit :=
  t ← gets writeTimeout;
  if 0 <? t then
    now ← gets (fun c => ws_Now (c_ws c));
    on_ws (ws_SetWriteDeadline (now + t))
  else mret tt.

Definition Write (p : bytes) : State Conn (result Z) :=
  write_deadline;;
  ty ← gets msgType;
  err ← on_ws (ws_WriteMessage ty p);
  match err with
  | Some e => mret (Err e)
  | None => mret (Ok (Z.of_nat (length p)))
  end.

(** [WriteJSON] of a marshalled value: a text message. *)
Definition WriteJSON (marshalled : result bytes) : State Conn (option error) :=
  write_deadline;;
  match marshalled with
  | Err e => mret (Some e)
  | Ok p => on_ws (ws_WriteMessage TextMessage p)
  end.

(** The message is read and decoded by the library; a message that [Read] has begun is
    left as it is. *)
Definition ReadJSON {V : Type} (ws_ReadJSON : State ws (result V)) : State Conn (result V) := on_ws ws_ReadJSON.

Definition Ping (data : bytes) : State Conn (option error) :=
  t ← gets writeTimeout;
  now ← gets (fun c => ws_Now (c_ws c));
  let timeout := if t <=? 0 then 10 * Second else t in
  on_ws (ws_WriteControl PingMessage data (now + timeout)).

Definition Close : State Conn (option error) := on_ws ws_Close.

Definition Die (msg : bytes) : State Conn unit :=
  _ ← Write msg; _ ← Close; mret tt.

(** ** message.go *)

Record Message (P : Type) := MkMessage {
  m_Method : bytes; TaskID : Z; m_Success : bool; m_Message : bytes; Payload : P
}.
Arguments Payload {P}.

(** The payload of a decoded message becomes text again and is decoded to the type that is
    asked for. *)
Definition GetPayload {P V : Type} (Marshal : P -> result bytes) (Unmarshal : bytes -> result V)
    (m : Message P) : result V :=
  match Marshal (Payload m) with
  | Err e => Err e
  | Ok payload => Unmarshal payload
  end.

(** ** server.go *)

Record ServerConfig := MkServerConfig {
  AllowedOrigins : list bytes; AllowEmptyOrigin : bool;
  ReadLimit : Z; ReadTimeout : Z; WriteTimeout : Z; PongTimeout : Z
}.

Definition star : ascii := "*"%char.

(** [strings.SplitN(pattern, "*", 2)] cuts at the first star. *)
Definition matchOrigin (origin pattern : bytes) : bool :=
  if bool_decide (origin = pattern) then true
  else
    match cut pattern star with
    | Some (a, b) => HasPrefix origin a && HasSuffix origin b
    | None => false
    end.

Definition CheckOrigin (c : ServerConfig) (origin : bytes) : bool :=
  match AllowedOrigins c with
  | [] => true
  | _ => if bool_decide (origin = []) then AllowEmptyOrigin c
         else existsb (matchOrigin origin) (AllowedOrigins c)
  end.

Definition applyConnOptions (c : ServerConfig) : State ws unit :=
  (if 0 <? ReadLimit c then ws_SetReadLimit (ReadLimit c) else mret tt);;
  (if 0 <? ReadTimeout c then
     now ← gets ws_Now; ws_SetReadDeadline (now + ReadTimeout c)
   else mret tt);;
  (if 0 <? PongTimeout c then
     (now ← gets ws_Now; ws_SetReadDeadline (now + PongTimeout c));;
     ws_SetPongTimeout (PongTimeout c)
   else mret tt).

(** What [Handler] does with a request: the status of a refusal, nothing when the
    upgrade has failed, or the connection that the handler gets. *)
Inductive served :=
  | Refused (status : Z)
  | NotUpgraded
  | Served (c : Conn).

Definition Handler (c : ServerConfig) (origin : bytes) (upgrade : result ws) : served :=
  if negb (CheckOrigin c origin) then Refused 403
  else
    match upgrade with
    | Err _ => NotUpgraded
    | Ok w =>
        let '(_, w) := applyConnOptions c w in
        Served (newConnWithWriteTimeout w (WriteTimeout c))
    end.

(** The headers [CorsMiddleware] sets, and whether it stops with 204. *)
Definition CorsMiddleware (c : ServerConfig) (origin method : bytes) : list (bytes * bytes) * bool :=
  let headers :=
    if CheckOrigin c origin then
      (if bool_decide (origin <> []) then [($"Access-Control-Allow-Origin", origin)] else []) ++
      [($"Access-Control-Allow-Methods", $"GET, POST, PUT, DELETE, OPTIONS");
       ($"Access-Control-Allow-Headers", $"Content-Type, Authorization");
       ($"Access-Control-Allow-Credentials", $"true")]
    else [] in
  (headers, bool_decide (method = $"OPTIONS")).

(** ** keepalive.go *)

(** What the [select] of the goroutine sees: the stop, or a tick. *)
Inductive ka_event := KaStop | KaTick.

(** The goroutine of [KeepAlive], and the errors of its pings. *)
Fixpoint keepalive_loop (evs : list ka_event) : State Conn (list (option error)) :=
  match evs with
  | [] => mret []
  | KaStop :: _ => mret []
  | KaTick :: evs' =>
      err ← Ping [];
      match err with
      | Some _ => mret [err]
      | None => errs ← keepalive_loop evs'; mret (err :: errs)
      end
  end.

Definition KeepAlive (interval : Z) (evs : list ka_event) : State Conn (list (option error)) :=
  if interval <=? 0 then mret [] else keepalive_loop evs.

(** ** client.go *)

(** The request headers and the subprotocols of the dialer. *)
Definition NewClient (dial : bytes -> list (bytes * bytes) -> list bytes -> result ws)
    (url protocol origin : bytes) : result Conn :=
  let header := if bool_decide (origin <> []) then [($"Origin", origin)] else [] in
  let subprotocols := if bool_decide (protocol <> []) then [protocol] else [] in
  match dial url header subprotocols with
  | Err e => Err e
  | Ok w => Ok (newConn w)
  end.
End conn.

(** ** Documented behaviour of the connection *)

(** The messages not yet started and the rest of the current one; a reader gives the
    current message piece by piece, then [EOF], which may come with the last piece,
    and the connection does not break within a message; the read deadline moves only
    when it is set. *)
Class WsLaws `{Ws} := {
  messages : ws -> list bytes;
  current : ws -> bytes;
  deadline : ws -> option Z;
  next_reader_ok : forall w,
    let '(r, w') := ws_NextReader w in
    deadline w' = deadline w /\
    match r with
    | Ok _ => messages w = current w' :: messages w'
    | Err e => messages w = [] /\ messages w' = [] /\ current w' = current w /\ e <> EOF
    end;
  read_ok : forall r n w, (0 < n)%nat ->
    let '((d, err), w') := ws_Read r n w in
    deadline w' = deadline w /\ messages w' = messages w /\ current w = d ++ current w' /\
    (length d <= n)%nat /\
    (d = [] -> err = Some EOF) /\
    (err = None \/ (err = Some EOF /\ current w' = []));
  write_ok : forall t p w,
    let '(_, w') := ws_WriteMessage t p w in
    deadline w' = deadline w /\ messages w' = messages w /\ current w' = current w;
  write_deadline_ok : forall t w,
    let '(_, w') := ws_SetWriteDeadline t w in
    deadline w' = deadline w /\ messages w' = messages w /\ current w' = current w;
  set_deadline_ok : forall t w,
    let '(_, w') := ws_SetReadDeadline t w in
    deadline w' = Some t /\ ws_Now w' = ws_Now w;
  set_limit_ok : forall n w,
    let '(_, w') := ws_SetReadLimit n w in ws_Now w' = ws_Now w /\ deadline w' = deadline w;
  set_pong_ok : forall n w,
    let '(_, w') := ws_SetPongTimeout n w in deadline w' = deadline w
}.

Section laws.
Context `{WsLaws}.

(** The bytes that are still to be read; a connection that is between messages has
    read its current one to the end. *)
Definition unread (c : Conn) : bytes :=
  match rdBuf c with Some _ => current (c_ws c) | None => [] end ++ concat (messages (c_ws c)).

Definition fuel_for (c : Conn) : nat :=
  2 * length (messages (c_ws c)) + (match rdBuf c with Some _ => 1 | None => 0 end) + 1.

Lemma Read_fuel_spec fuel plen c :
  (0 < plen)%nat -> (fuel_for c <= fuel)%nat ->
  exists data err c', Read_fuel fuel plen c = (Some (data, err), c') /\
    data ++ unread c' = unread c /\ (length data <= plen)%nat /\
    match err with
    | None => data <> []
    | Some e => data = [] /\ unread c = []
    end /\ deadline (c_ws c') = deadline (c_ws c) /\ (fuel_for c' <= fuel_for c)%nat.
Proof.
  intros Hp. revert c. induction fuel as [|fuel IH]; intros c Hf.
  { unfold fuel_for in Hf. lia. }
  cbn [Read_fuel]. erewrite st_bind_run by reflexivity. destruct (rdBuf c) as [r|] eqn:Er.
  - unfold on_ws at 1. unfold mbind at 1, State_bind at 1.
    pose proof (read_ok r plen (c_ws c) Hp) as Hr.
    destruct (ws_Read r plen (c_ws c)) as [[d err] w].
    destruct Hr as (Hdl & Hm & Hc & Hl & Hd & He). rewrite Er. cbn beta iota.
    case_bool_decide as Hne.
    + set (c1 := MkConn w (Some r) (msgType c) (writeTimeout c)).
      assert (exists c', ((if bool_decide (err = Some EOF) then set_rdBuf None else mret tt);;
                mret (Some (d, None))) c1 = (Some (d, None), c') /\
                unread c' = current w ++ concat (messages w) /\ c_ws c' = w /\
                (fuel_for c' <= fuel_for c1)%nat) as (c' & -> & Hu & Hw & Hfu).
      { case_bool_decide as Heof.
        - eexists. split; [reflexivity|]. unfold unread, fuel_for. cbn [rdBuf c_ws c1].
          split; [|split; [done | lia]]. destruct He as [->|[_ ->]]; [done|]. done.
        - eexists. split; [reflexivity|]. done. }
      exists d, None, c'. split; [done|]. rewrite Hu, Hw. unfold unread. rewrite Er, Hm, Hc.
      split; [by rewrite app_assoc|]. split; [done|]. split; [done|]. split; [done|].
      unfold fuel_for in *. rewrite Er. cbn [c1 c_ws rdBuf] in Hfu. rewrite Hm in Hfu.
      rewrite Hw in *. lia.
    + rewrite (Hd Hne), bool_decide_eq_true_2 by done.
      erewrite st_bind_run by reflexivity. cbn [c_ws rdBuf].
      set (c1 := MkConn w None (msgType c) (writeTimeout c)).
      destruct (IH c1) as (data & err' & c' & E & Hu & Hlen & Hres & Hdl' & Hfu).
      { unfold fuel_for in *. rewrite Er in Hf. cbn [c1 c_ws rdBuf]. rewrite Hm. lia. }
      exists data, err', c'. split; [done|].
      assert (unread c1 = unread c) as Hu1.
      { unfold unread. cbn [c1 rdBuf c_ws]. rewrite Er, Hm, Hc, Hne.
        destruct He as [->|[_ ->]]; [discriminate (Hd Hne)|]. done. }
      rewrite <- Hu1. split; [done|]. split; [done|]. split; [done|].
      split; [by rewrite Hdl'|]. unfold fuel_for in *. rewrite Er. cbn [c1 c_ws rdBuf] in Hfu.
      rewrite Hm in Hfu. lia.
  - unfold on_ws at 1. unfold mbind at 1, State_bind at 1.
    pose proof (next_reader_ok (c_ws c)) as Hn. destruct (ws_NextReader (c_ws c)) as [[r|e] w].
    + destruct Hn as [Hdl Hn]. cbn beta iota. erewrite st_bind_run by reflexivity.
      cbn [c_ws rdBuf msgType writeTimeout].
      set (c1 := MkConn w (Some r) (msgType c) (writeTimeout c)).
      destruct (IH c1) as (data & err' & c' & E & Hu & Hlen & Hres & Hdl' & Hfu).
      { unfold fuel_for in *. rewrite Er, Hn in Hf. cbn [c1 c_ws rdBuf length] in *. lia. }
      exists data, err', c'. split; [done|].
      assert (unread c1 = unread c) as Hu1
        by (unfold unread; cbn [c1 rdBuf c_ws]; by rewrite Er, Hn).
      rewrite <- Hu1. split; [done|]. split; [done|]. split; [done|].
      split; [by rewrite Hdl'|]. unfold fuel_for in *. rewrite Er. cbn [c1 c_ws rdBuf] in Hfu.
      rewrite Hn. cbn [length]. lia.
    + destruct Hn as (Hdl & Hm & Hm' & Hcur & He).
      exists [], (Some e). eexists. split; [reflexivity|].
      unfold unread. cbn [rdBuf c_ws]. rewrite Er, Hm, Hm'. split; [done|]. split; [simpl; lia|].
      split; [done|]. split; [done|]. unfold fuel_for. cbn [rdBuf c_ws]. rewrite Er, Hm, Hm'. done.
Qed.

(** Reads of the given lengths, one after the other. *)
Definition reads (fuel : nat) (plens : list nat) : State Conn (list (option (bytes * option error))) :=
  st_mapM (Read_fuel fuel) plens.

Lemma reads_spec fuel plens c :
  Forall (fun n => 0 < n)%nat plens -> (fuel_for c <= fuel)%nat ->
  exists outs c', reads fuel plens c = (map Some outs, c') /\
    concat (map fst outs) ++ unread c' = unread c /\
    Forall2 (fun n o => (length (fst o) <= n)%nat /\ (fst o <> [] <-> snd o = None)) plens outs /\
    (Exists (fun o => snd o <> None) outs -> concat (map fst outs) = unread c) /\
    deadline (c_ws c') = deadline (c_ws c).
Proof.
  intros Hp. revert c. induction Hp as [|n plens Hn Hp IH]; intros c Hf.
  { exists [], c. split; [done|]. split; [done|]. split; [constructor|]. split; [|done].
    by inversion 1. }
  unfold reads. cbn [st_mapM].
  destruct (Read_fuel_spec fuel n c Hn Hf) as (d & err & c1 & E & Hu & Hl & Hres & Hdl & Hfu).
  rewrite (st_bind_run _ _ _ _ _ E).
  destruct (IH c1 ltac:(lia)) as (outs & c2 & E2 & Hu2 & Hall & Hex & Hdl2). unfold reads in E2.
  rewrite (st_bind_run _ _ _ _ _ E2). exists ((d, err) :: outs), c2.
  split; [done|]. cbn [map concat fst]. split; [by rewrite <- app_assoc, Hu2|].
  split; [|split; [|congruence]].
  - constructor; [|done]. simpl. split; [done|]. destruct err as [e|]; [|done].
    destruct Hres as [-> _]. done.
  - intros [He|He]%Exists_cons.
    + simpl in He. destruct err as [e|]; [|done]. destruct Hres as [-> Hnil].
      rewrite Hnil in Hu. simpl in Hu. rewrite Hu in Hu2. apply app_eq_nil in Hu2 as [-> _].
      by rewrite Hnil.
    + rewrite (Hex He). exact Hu.
Qed.

Lemma write_deadline_frame c :
  let '(_, c') := write_deadline c in deadline (c_ws c') = deadline (c_ws c).
Proof.
  unfold write_deadline, gets, mbind, State_bind. destruct (0 <? writeTimeout c); [|done].
  unfold on_ws. pose proof (write_deadline_ok (ws_Now (c_ws c) + writeTimeout c) (c_ws c)) as H'.
  destruct (ws_SetWriteDeadline _ (c_ws c)) as [u w]. apply H'.
Qed.

Lemma Write_frame p c : deadline (c_ws (snd (Write p c))) = deadline (c_ws c).
Proof.
  unfold Write. unfold mbind at 1, State_bind at 1. pose proof (write_deadline_frame c) as Hd.
  destruct (write_deadline c) as [u c1]. rewrite <- Hd. unfold gets, on_ws, mbind, State_bind.
  pose proof (write_ok (msgType c1) p (c_ws c1)) as Hw.
  destruct (ws_WriteMessage (msgType c1) p (c_ws c1)) as [[e|] w]; apply Hw.
Qed.
End laws.

(** ** Properties *)

(** C6: [Read] makes one stream of the messages: whatever the lengths of the buffers
    and however the messages are cut into pieces, empty messages included, a read
    ends, it gives at least one byte or an error and never neither, the bytes of the
    reads are those of the messages in order, none lost and none twice, and an error
    comes only when all of them have been given. *)
Theorem Read_stream `{WsLaws} plens c :
  Forall (fun n => 0 < n)%nat plens ->
  exists fuel outs c', reads fuel plens c = (map Some outs, c') /\
    concat (map fst outs) ++ unread c' = unread c /\
    Forall2 (fun n o => (length (fst o) <= n)%nat /\ (fst o <> [] <-> snd o = None)) plens outs /\
    (Exists (fun o => snd o <> None) outs -> concat (map fst outs) = unread c).
Proof.
  intros Hp. exists (fuel_for c).
  destruct (reads_spec (fuel_for c) plens c Hp ltac:(lia)) as (outs & c' & E & H1 & H2 & H3 & _).
  by exists outs, c'.
Qed.

(** An origin matches a pattern if and only if they are equal, or the origin
    starts with what is before the first star and ends with what is after it; when
    the origin is long enough for both, exactly if the star stands for some text. *)
Theorem matchOrigin_spec origin pattern :
  (matchOrigin origin pattern = true <->
   origin = pattern \/ exists a b, pattern = a ++ star :: b /\ (star ∉ a) /\
     HasPrefix origin a = true /\ HasSuffix origin b = true) /\
  (forall a b, pattern = a ++ star :: b -> (star ∉ a) -> (length a + length b <= length origin)%nat ->
     matchOrigin origin pattern = true <-> exists mid, origin = a ++ mid ++ b).
Proof.
  assert (matchOrigin origin pattern = true <->
   origin = pattern \/ exists a b, pattern = a ++ star :: b /\ (star ∉ a) /\
     HasPrefix origin a = true /\ HasSuffix origin b = true) as Hiff.
  { unfold matchOrigin. case_bool_decide as He; [split; [by left | done]|].
    destruct (cut pattern star) as [[a b]|] eqn:Ec.
    - apply cut_Some in Ec as [Hc Hs]. rewrite andb_true_iff. split.
      + intros [Ha Hb]. right. by exists a, b.
      + intros [?|(a' & b' & Hc' & Hs' & Ha & Hb)]; [done|].
        assert (cut pattern star = Some (a, b)) as E1 by by apply cut_Some.
        assert (cut pattern star = Some (a', b')) as E2 by by apply cut_Some.
        rewrite E1 in E2. by injection E2 as -> ->.
    - apply cut_None in Ec. split; [done|]. intros [?|(a & b & -> & _)]; [done|].
      destruct Ec. set_solver. }
  split; [done|]. intros a b Hp Ha Hlen. rewrite Hiff. split.
  - intros [->|(a' & b' & Hp' & Ha' & H1 & H2)].
    { exists [star]. by rewrite Hp. }
    assert (cut pattern star = Some (a, b)) as E1 by by apply cut_Some.
    assert (cut pattern star = Some (a', b')) as E2 by by apply cut_Some.
    rewrite E1 in E2. injection E2 as <- <-.
    apply HasPrefix_spec in H1 as [x ->]. apply HasSuffix_spec in H2 as [y Hy].
    rewrite length_app in Hlen. apply app_eq_inv in Hy as [(k & Hk1 & Hk2)|(k & Hk1 & Hk2)].
    + assert (k = []) as ->.
      { apply nil_length_inv. apply (f_equal length) in Hk2. rewrite length_app in Hk2. lia. }
      exists []. by rewrite Hk2.
    + exists k. by rewrite Hk2.
  - intros [mid ->]. right. exists a, b. split; [done|]. split; [done|].
    split; [apply HasPrefix_spec; by eexists|].
    apply HasSuffix_spec. exists (a ++ mid). by rewrite app_assoc.
Qed.

(** [ReadTimeout] is not a timeout of a read: it is one instant, fixed when the
    connection is made.  Without a pong timeout no amount of reading or writing
    moves it, so that the connection stops being readable [ReadTimeout] after it was
    opened, however active it is. *)
Theorem ReadTimeout_absolute `{WsLaws} cfg origin w plens msg :
  0 < ReadTimeout cfg -> PongTimeout cfg <= 0 -> CheckOrigin cfg origin = true ->
  Forall (fun n => 0 < n)%nat plens ->
  exists c fuel, Handler cfg origin (Ok w) = Served c /\
    deadline (c_ws c) = Some (ws_Now w + ReadTimeout cfg) /\
    let '(_, c1) := reads fuel plens c in
    deadline (c_ws (snd (Write msg c1))) = Some (ws_Now w + ReadTimeout cfg).
Proof.
  intros Hr Hp Ho Hl. unfold Handler. rewrite Ho. cbn [negb].
  assert (let '(_, w') := applyConnOptions cfg w in deadline w' = Some (ws_Now w + ReadTimeout cfg)) as Ha.
  { unfold applyConnOptions. rewrite (proj2 (Z.ltb_lt 0 (ReadTimeout cfg))) by done.
    rewrite (proj2 (Z.ltb_ge 0 (PongTimeout cfg))) by done. unfold mbind, State_bind, gets.
    assert (let '(_, w1) := (if 0 <? ReadLimit cfg then ws_SetReadLimit (ReadLimit cfg) else mret tt) w in
              ws_Now w1 = ws_Now w) as H1.
    { destruct (0 <? ReadLimit cfg); [|done]. pose proof (set_limit_ok (ReadLimit cfg) w) as Hs.
      destruct (ws_SetReadLimit _ w). apply Hs. }
    destruct ((if 0 <? ReadLimit cfg then ws_SetReadLimit (ReadLimit cfg) else mret tt) w) as [u w1].
    rewrite H1.
    pose proof (set_deadline_ok (ws_Now w + ReadTimeout cfg) w1) as H2.
    destruct (ws_SetReadDeadline _ w1) as [u' w2]. apply H2. }
  destruct (applyConnOptions cfg w) as [u w'].
  set (c := newConnWithWriteTimeout w' (WriteTimeout cfg)).
  exists c, (fuel_for c). split; [done|]. split; [done|].
  destruct (reads_spec (fuel_for c) plens c Hl ltac:(lia)) as (outs & c1 & -> & _ & _ & _ & Hd).
  by rewrite Write_frame, Hd.
Qed.

(** With no allowed origins configured, the CORS answer to any site allows it by
    name and with credentials. *)
Theorem Cors_reflects_any_origin cfg origin method :
  AllowedOrigins cfg = [] -> origin <> [] ->
  let '(headers, _) := CorsMiddleware cfg origin method in
  ($"Access-Control-Allow-Origin", origin) ∈ headers /\
  ($"Access-Control-Allow-Credentials", $"true") ∈ headers.
Proof.
  intros Ha Ho. unfold CorsMiddleware, CheckOrigin. rewrite Ha, bool_decide_eq_true_2 by done.
  split; [by left|]. apply elem_of_app. right. right. right. by left.
Qed.

(** ** A concrete connection for the examples *)

Module Loopback.

Record link := Link { msgs : list bytes; cur : bytes; dl : option Z }.

#[export] Instance link_ws : Ws := {|
  ws := link; ws_reader := unit;
  ws_Now := fun _ => 1000;
  ws_NextReader := fun l =>
    match msgs l with
    | [] => (Err (ENew ($"closed")), l)
    | m :: ms => (Ok tt, Link ms m (dl l))
    end;
  ws_Read := fun _ n l =>
    match cur l with
    | [] => (([], Some EOF), l)
    | _ => ((take n (cur l), None), Link (msgs l) (drop n (cur l)) (dl l))
    end;
  ws_WriteMessage := fun _ _ l => (None, l);
  ws_WriteControl := fun _ _ _ l => (None, l);
  ws_SetWriteDeadline := fun _ l => (tt, l);
  ws_SetReadDeadline := fun t l => (tt, Link (msgs l) (cur l) (Some t));
  ws_SetReadLimit := fun _ l => (tt, l);
  ws_SetPongTimeout := fun _ l => (tt, l);
  ws_Close := fun l => (None, l)
|}.

#[export, refine] Instance link_laws : WsLaws := {| messages := msgs; current := cur; deadline := dl |}.
Proof.
  - intros [[|m ms] c d]; simpl; done.
  - intros r n [ms [|x c] d] Hn; simpl; [split_and!; (done || simpl; lia || by right)|].
    destruct n as [|n]; [lia|]. simpl. rewrite take_drop.
    split_and!; try done; [rewrite length_take; lia | by left].
  - intros t p l. done.
  - intros t l. done.
  - intros t l. done.
  - intros t l. done.
  - intros t l. done.
Defined.

End Loopback.

#[local] Existing Instance Loopback.link_ws.
#[local] Existing Instance Loopback.link_laws.

Lemma Read_stream_witness :
  exists fuel outs c',
    @reads Loopback.link_ws fuel [4; 4; 4; 4]%nat
      (newConn (H := Loopback.link_ws) (Loopback.Link [$"hello"; []; $"you"] [] None)) = (map Some outs, c') /\
    concat (map fst outs) ++ unread c' = $"helloyou".
Proof.
  destruct (@Read_stream Loopback.link_ws Loopback.link_laws [4; 4; 4; 4]%nat
    (newConn (H := Loopback.link_ws) (Loopback.Link [$"hello"; []; $"you"] [] None)))
    as (fuel & outs & c' & E & Hu & _); [repeat constructor; lia|].
  by exists fuel, outs, c'.
Defined.

Lemma matchOrigin_spec_witness :
  matchOrigin ($"https://a.example.com") ($"https://*.example.com") = true.
Proof.
  destruct (matchOrigin_spec ($"https://a.example.com") ($"https://*.example.com")) as [_ H].
  apply (H ($"https://") ($".example.com")); [reflexivity|by apply (bool_decide_unpack _)|simpl; lia|].
  by exists ($"a").
Defined.

Lemma ReadTimeout_absolute_witness :
  let cfg := MkServerConfig [] false 0 (5 * Second) 0 0 in
  exists c fuel,
    Handler (H := Loopback.link_ws) cfg ($"https://x") (Ok (Loopback.Link [$"hi"] [] None)) = Served c /\
    deadline (c_ws c) = Some (1000 + 5 * Second) /\
    let '(_, c1) := reads fuel [4; 4]%nat c in
    deadline (c_ws (snd (Write ($"x") c1))) = Some (1000 + 5 * Second).
Proof.
  intros cfg.
  apply (@ReadTimeout_absolute Loopback.link_ws Loopback.link_laws cfg ($"https://x")
    (Loopback.Link [$"hi"] [] None) [4; 4]%nat ($"x")); [done|done|done|repeat constructor; lia].
Defined.

Lemma Cors_reflects_any_origin_witness :
  let '(headers, _) := CorsMiddleware (MkServerConfig [] false 0 0 0 0) ($"https://evil.example") ($"GET") in
  ($"Access-Control-Allow-Origin", $"https://evil.example") ∈ headers /\
  ($"Access-Control-Allow-Credentials", $"true") ∈ headers.
Proof.
  apply (Cors_reflects_any_origin (MkServerConfig [] false 0 0 0 0) ($"https://evil.example") ($"GET"));
    [reflexivity | done].
Defined.
