(* ===== verification/Sse.v ===== *)
(** * Package [httpd]: server-sent events ([sse.go])

    The writers over a response whose writes may fail part-way, and, as the
    specification, the event stream parser of the WHATWG standard that a browser
    runs.  The mutex of the writer makes each [Write] and [WriteEvent] one step. *)

From S2P Require Import Prelude GoStr.

(** ** The response *)

(** A write that fails has sent the given number of its bytes. *)
Record response := MkResponse {
  headers : list (bytes * bytes);
  status : Z;
  body : bytes;
  flushed : nat;                           (* how much of the body was flushed *)
  faults : list (option (nat * error))
}.

Definition set_body (b : bytes) (n : nat) : State response unit :=
  modify (fun r => MkResponse (headers r) (status r) b n (faults r)).

(** [Fprintf] makes one call of the [Write] of the response. *)
Definition w_Write (p : bytes) : State response (option error) := fun r =>
  let r' := MkResponse (headers r) (status r) (body r) (flushed r) (tail (faults r)) in
  match head (faults r) with
  | Some (Some (n, e)) => (Some e, snd (set_body (body r ++ take n p) (flushed r) r'))
  | _ => (None, snd (set_body (body r ++ p) (flushed r) r'))
  end.

Definition w_Flush : State response unit := fun r => set_body (body r) (length (body r)) r.

(** ** [NewWriter] *)

Definition sse_headers : list (bytes * bytes) :=
  [($"Content-Type", $"text/event-stream; charset=utf-8"); ($"Cache-Control", $"no-cache");
   ($"Connection", $"keep-alive"); ($"X-Accel-Buffering", $"no")].

(** [is_flusher]: whether the response implements [http.Flusher]. *)
Definition NewWriter (is_flusher : bool) : State response (result unit) :=
  if negb is_flusher then mret (Err (ENew ($"当前响应不支持流式输出")))
  else
    modify (fun r => MkResponse (headers r ++ sse_headers) 200 (body r) (flushed r) (faults r));;
    w_Flush;; mret (Ok tt).

(** The same writer, with [WriteEvent]. *)
Definition NewEventWriter (is_flusher : bool) : State response (result unit) := NewWriter is_flusher.

(** ** [Write] *)

(** [strings.ReplaceAll(s, "\r\n", "\n")] *)
Fixpoint crlf_to_lf (s : bytes) : bytes :=
  match s with
  | [] => []
  | c :: s' =>
      if bool_decide (c = cr) && bool_decide (head s' = Some nl) then crlf_to_lf s'
      else c :: crlf_to_lf s'
  end.

Definition event_text (p : bytes) : bytes := TrimRight (crlf_to_lf p) [nl].

Fixpoint write_lines (lines : list bytes) : State response (option error) :=
  match lines with
  | [] => mret None
  | line :: lines' =>
      err ← w_Write ($"data: " ++ line ++ [nl]);
      match err with
      | Some e => mret (Some e)
      | None => write_lines lines'
      end
  end.

Definition Write (p : bytes) : State response (result Z) :=
  let text := event_text p in
  if bool_decide (text = []) then mret (Ok (Z.of_nat (length p)))
  else
    err ← write_lines (Split text nl);
    match err with
    | Some e => mret (Err e)
    | None =>
        err ← w_Write [nl];
        match err with
        | Some e => mret (Err e)
        | None => w_Flush;; mret (Ok (Z.of_nat (length p)))
        end
    end.

(** ** [WriteEvent] *)

Definition WriteEvent (event data : bytes) : State response (option error) :=
  err ← w_Write ($"event: " ++ event ++ [nl] ++ $"data: " ++ data ++ [nl; nl]);
  match err with
  | Some e => mret (Some e)
  | None => w_Flush;; mret None
  end.

(** ** The parser of the receiver

    From the HTML standard, "interpreting an event stream": a line ends with CRLF,
    LF or CR, a value loses one leading space, an empty line dispatches the event
    unless its data is empty, and what follows the last line end is dropped.  The
    fields [id] and [retry] have no part in what is dispatched. *)

Definition stream_lines (s : bytes) : list bytes :=
  removelast (Split (map (fun c => if bool_decide (c = cr) then nl else c) (crlf_to_lf s)) nl).

Definition field (line : bytes) : bytes * bytes :=
  match cut line ":"%char with
  | Some (name, v) => (name, TrimPrefix v ($" "))
  | None => (line, [])
  end.

Definition message : bytes := $"message".

Fixpoint dispatch (lines : list bytes) (type data : bytes) : list (bytes * bytes) :=
  match lines with
  | [] => []
  | line :: lines' =>
      if bool_decide (line = []) then
        let sent := if bool_decide (data = []) then []
                    else [(if bool_decide (type = []) then message else type, removelast data)] in
        sent ++ dispatch lines' [] []
      else
        let '(name, v) := field line in
        if bool_decide (name = $"event") then dispatch lines' v data
        else if bool_decide (name = $"data") then dispatch lines' type (data ++ v ++ [nl])
        else dispatch lines' type data
  end.

Definition receive (s : bytes) : list (bytes * bytes) := dispatch (stream_lines s) [] [].

(** ** The calls of a handler *)

Inductive call :=
  | CWrite (p : bytes)
  | CEvent (event data : bytes).

Definition run_call (c : call) : State response bool :=
  match c with
  | CWrite p => r ← Write p; mret (is_ok r)
  | CEvent ev data => e ← WriteEvent ev data; mret (bool_decide (e = None))
  end.

Definition one_line (s : bytes) : Prop := (nl ∉ s) /\ (cr ∉ s).

(** What a call may carry: text whose only line ends are LF and CRLF, or an event
    name and data of one line. *)
Definition call_ok (c : call) : Prop :=
  match c with
  | CWrite p => cr ∉ crlf_to_lf p
  | CEvent ev data => one_line ev /\ one_line data
  end.

(** The events a call stands for. *)
Definition events_of (c : call) : list (bytes * bytes) :=
  match c with
  | CWrite p => if bool_decide (event_text p = []) then [] else [(message, event_text p)]
  | CEvent ev data => [(if bool_decide (ev = []) then message else ev, data)]
  end.

(** The lines that a call writes. *)
Definition lines_of (c : call) : list bytes :=
  match c with
  | CWrite p =>
      if bool_decide (event_text p = []) then []
      else map (fun l => $"data: " ++ l) (Split (event_text p) nl) ++ [[]]
  | CEvent ev data => [$"event: " ++ ev; $"data: " ++ data; []]
  end.

Definition unlines (ls : list bytes) : bytes := flat_map (fun l => l ++ [nl]) ls.

(** ** Lemmas *)

Lemma crlf_to_lf_no_cr s : cr ∉ s -> crlf_to_lf s = s.
Proof.
  induction s as [|c s IH]; intros H; [done|]. cbn [crlf_to_lf].
  rewrite bool_decide_eq_false_2 by set_solver. simpl. f_equal. apply IH. set_solver.
Qed.

Lemma removelast_Split_unlines ls q :
  Forall (fun l => nl ∉ l) ls ->
  removelast (Split (unlines ls ++ q) nl) = ls ++ removelast (Split q nl).
Proof.
  induction 1 as [|l ls Hl _ IH]; [done|]. cbn [unlines flat_map]. fold (unlines ls).
  rewrite <- !app_assoc. change ([nl] ++ unlines ls ++ q) with (nl :: (unlines ls ++ q)).
  rewrite Split_app by done. cbn [removelast app]. rewrite <- IH.
  pose proof (Split_nonempty (unlines ls ++ q) nl). by destruct (Split _ nl).
Qed.

Lemma unlines_no_cr ls : Forall one_line ls -> cr ∉ unlines ls.
Proof.
  induction 1 as [|l ls [_ Hl] _ IH]; [apply not_elem_of_nil|].
  cbn [unlines flat_map]. fold (unlines ls). rewrite !elem_of_app, list_elem_of_singleton.
  intros [[?|?]|?]; done.
Qed.

Lemma one_line_nl ls : Forall one_line ls -> Forall (fun l => nl ∉ l) ls.
Proof. intros H. eapply Forall_impl; [exact H|]. by intros ? []. Qed.

Lemma stream_lines_no_cr s : cr ∉ s -> stream_lines s = removelast (Split s nl).
Proof.
  intros Hcr. unfold stream_lines. rewrite crlf_to_lf_no_cr by done.
  rewrite (map_ext_in _ id), map_id; [done|]. intros c Hc.
  rewrite bool_decide_eq_false_2; [done|]. intros ->. by apply Hcr, list_elem_of_In.
Qed.

Lemma stream_lines_unlines ls q :
  Forall one_line ls -> cr ∉ q -> stream_lines (unlines ls ++ q) = ls ++ stream_lines q.
Proof.
  intros Hls Hq. rewrite !stream_lines_no_cr.
  - by apply removelast_Split_unlines, one_line_nl.
  - done.
  - rewrite elem_of_app. intros [H|H]; [by eapply unlines_no_cr | done].
Qed.

Lemma field_prefix name v :
  ":"%char ∉ name -> field (name ++ $": " ++ v) = (name, v).
Proof.
  intros Hn. unfold field. change ($": " ++ v) with (":"%char :: ($" " ++ v)).
  rewrite (proj2 (cut_Some _ ":"%char name ($" " ++ v))) by done.
  by rewrite TrimPrefix_app.
Qed.

Lemma field_data v : field ($"data: " ++ v) = ($"data", v).
Proof. apply (field_prefix ($"data")). by compute_done. Qed.

Lemma field_event v : field ($"event: " ++ v) = ($"event", v).
Proof. apply (field_prefix ($"event")). by compute_done. Qed.

Lemma dispatch_data v ls ty d :
  dispatch (($"data: " ++ v) :: ls) ty d = dispatch ls ty (d ++ v ++ [nl]).
Proof. cbn [dispatch]. rewrite bool_decide_eq_false_2 by done. by rewrite field_data. Qed.

Lemma dispatch_event v ls ty d : dispatch (($"event: " ++ v) :: ls) ty d = dispatch ls v d.
Proof. cbn [dispatch]. rewrite bool_decide_eq_false_2 by done. by rewrite field_event. Qed.

(** Consecutive data lines are one text. *)
Lemma dispatch_data_lines ws rest ty d :
  ws <> [] ->
  dispatch (map (fun l => $"data: " ++ l) ws ++ [] :: rest) ty d =
  (if bool_decide (ty = []) then message else ty, d ++ Join ws [nl]) :: dispatch rest [] [].
Proof.
  revert d. induction ws as [|w ws IH]; intros d Hne; [done|].
  cbn [map app]. rewrite dispatch_data. destruct ws as [|w' ws].
  - cbn [map app dispatch Join]. rewrite (bool_decide_eq_true_2 ([] = [])) by done.
    rewrite bool_decide_eq_false_2 by (by destruct d, w).
    by rewrite app_assoc, removelast_last.
  - rewrite IH by done. do 2 f_equal.
    change (Join (w :: w' :: ws) [nl]) with (w ++ [nl] ++ Join (w' :: ws) [nl]).
    by rewrite <- !app_assoc.
Qed.

Lemma dispatch_call c rest :
  dispatch (lines_of c ++ rest) [] [] = events_of c ++ dispatch rest [] [].
Proof.
  destruct c as [p|ev data]; cbn [lines_of events_of].
  - case_bool_decide as Ht; [done|].
    rewrite <- app_assoc. cbn [app]. rewrite dispatch_data_lines by apply Split_nonempty.
    by rewrite Join_Split, bool_decide_eq_true_2.
  - cbn [app]. rewrite dispatch_event. rewrite dispatch_data. cbn [dispatch].
    rewrite (bool_decide_eq_true_2 ([] = [])) by done.
    rewrite bool_decide_eq_false_2 by (by destruct data). cbn [app].
    by rewrite removelast_last.
Qed.

Lemma TrimLeft_suffix s cutset : exists p, s = p ++ TrimLeft s cutset.
Proof.
  induction s as [|c s [p IH]]; [by exists []|]. cbn [TrimLeft]. case_match; [|by exists []].
  exists (c :: p). cbn [app]. by f_equal.
Qed.

Lemma TrimRight_prefix s cutset : exists q, s = TrimRight s cutset ++ q.
Proof.
  unfold TrimRight. destruct (TrimLeft_suffix (reverse s) cutset) as [p Hp].
  exists (reverse p). apply (inj reverse). by rewrite reverse_app, !reverse_involutive.
Qed.

Lemma one_line_app a b : one_line a -> one_line b -> one_line (a ++ b).
Proof. unfold one_line. rewrite !elem_of_app. tauto. Qed.

Lemma elem_of_Join c w ws sep : c ∈ w -> w ∈ ws -> c ∈ Join ws sep.
Proof.
  intros Hc Hw. induction ws as [|v ws IH]; [by apply not_elem_of_nil in Hw|].
  destruct ws as [|v' ws].
  - by apply list_elem_of_singleton in Hw as ->.
  - change (Join (v :: v' :: ws) sep) with (v ++ sep ++ Join (v' :: ws) sep).
    rewrite !elem_of_app. apply elem_of_cons in Hw as [->|Hw]; auto.
Qed.

Lemma elem_of_Split c w s sep : c ∈ w -> w ∈ Split s sep -> c ∈ s.
Proof. intros Hc Hw. rewrite <- (Join_Split s sep). by eapply elem_of_Join. Qed.

Lemma one_line_labels : one_line ($"data: ") /\ one_line ($"event: ") /\ one_line [].
Proof. unfold one_line. repeat split; by compute_done. Qed.

Lemma one_line_lines c : call_ok c -> Forall one_line (lines_of c).
Proof.
  destruct one_line_labels as (Hd & He & Hn).
  destruct c as [p|ev data]; cbn [call_ok lines_of].
  - intros Hcr. case_bool_decide; [constructor|].
    apply Forall_app. split; [|by constructor].
    apply Forall_forall. intros l Hl. apply list_elem_of_In, in_map_iff in Hl as (w & <- & Hw).
    apply list_elem_of_In in Hw. apply one_line_app; [done|]. split; [by eapply Split_elem|].
    intros Hc. apply Hcr. destruct (TrimRight_prefix (crlf_to_lf p) [nl]) as [q Hq].
    rewrite Hq. apply elem_of_app. left. by eapply elem_of_Split.
  - intros [H1 H2]. apply Forall_cons. split; [by apply one_line_app|].
    apply Forall_cons. split; [by apply one_line_app | by apply Forall_singleton].
Qed.

(** ** The writers with faults *)

(** What a computation appends to the body, and that it flushes at the end. *)
Definition appends (r r' : response) (q : bytes) : Prop :=
  body r' = body r ++ q /\ (faults r = [] -> faults r' = []).

Lemma w_Write_spec p r :
  let '(e, r') := w_Write p r in
  exists q, appends r r' q /\ flushed r' = flushed r /\ q `prefix_of` p /\
    (e = None -> q = p) /\ (faults r = [] -> e = None).
Proof.
  unfold w_Write, set_body, modify, appends.
  destruct (faults r) as [|[[n e]|] fs]; simpl.
  - exists p. split; [done|]. by split.
  - exists (take n p). do 2 (split; [done|]). split; [|done]. exists (drop n p). by rewrite take_drop.
  - exists p. split; [done|]. by split.
Qed.

Lemma write_lines_spec ls r :
  let '(e, r') := write_lines ls r in
  let all := unlines (map (fun l => $"data: " ++ l) ls) in
  exists q, appends r r' q /\ flushed r' = flushed r /\ q `prefix_of` all /\
    (e = None -> q = all) /\ (faults r = [] -> e = None).
Proof.
  revert r. induction ls as [|l ls IH]; intros r; cbn [write_lines].
  - exists []. unfold appends. rewrite app_nil_r. done.
  - unfold mbind, State_bind. pose proof (w_Write_spec ($"data: " ++ l ++ [nl]) r) as H.
    cbn [map unlines flat_map]. fold (unlines (map (fun l => $"data: " ++ l) ls)).
    set (all := unlines _) in *.
    destruct (w_Write _ r) as [[e|] r1]; destruct H as (q & [Hb Hf] & Hl & Hp & Hq & Hn).
    + exists q. split; [done|]. split; [done|]. split; [|by split].
      rewrite <- (app_assoc _ l [nl]). by apply prefix_app_r.
    + specialize (IH r1). destruct (write_lines ls r1) as [e r2].
      destruct IH as (q' & [Hb' Hf'] & Hl' & Hp' & Hq' & Hn'). rewrite (Hq eq_refl) in Hb.
      exists (($"data: " ++ l ++ [nl]) ++ q'). split; [split; [|auto]|].
      { by rewrite Hb', Hb, <- !app_assoc. }
      split; [congruence|]. rewrite <- (app_assoc _ l [nl]).
      split; [by apply prefix_app|]. split; [|auto]. intros He. by rewrite Hq'.
Qed.

(** Whatever fails, a call appends a prefix of its lines; if it reports success all
    of them, and everything written so far is flushed. *)
Lemma run_call_spec c r :
  flushed r = length (body r) ->
  let '(ok, r') := run_call c r in
  exists q, appends r r' q /\ q `prefix_of` unlines (lines_of c) /\
    (ok = true -> q = unlines (lines_of c) /\ flushed r' = length (body r')) /\
    (faults r = [] -> ok = true).
Proof.
  intros Hfl. destruct c as [p|ev data]; cbn [run_call lines_of].
  - unfold Write. case_bool_decide.
    + exists []. unfold appends. simpl. rewrite app_nil_r. done.
    + unfold mbind, State_bind. pose proof (write_lines_spec (Split (event_text p) nl) r) as H1.
      unfold unlines at 1 2. rewrite flat_map_app. fold (unlines (map (fun l => $"data: " ++ l) (Split (event_text p) nl))).
      change (flat_map (fun l => l ++ [nl]) [[]]) with [nl].
      set (all := unlines _) in *.
      destruct (write_lines _ r) as [[e|] r1]; destruct H1 as (q & [Hb Hf] & _ & Hp & Hq & Hn).
      * exists q. split; [done|]. split; [by apply prefix_app_r|]. split; [done|]. intros H0. by specialize (Hn H0).
      * pose proof (w_Write_spec [nl] r1) as H2. rewrite (Hq eq_refl) in Hb.
        destruct (w_Write [nl] r1) as [[e|] r2]; destruct H2 as (q2 & [Hb2 Hf2] & _ & Hp2 & Hq2 & Hn2);
          (exists (all ++ q2)); (split; [split; [simpl; by rewrite Hb2, Hb, <- app_assoc | auto]|]);
          (split; [by apply prefix_app|]).
        -- split; [done|]. intros H0. by specialize (Hn2 (Hf H0)).
        -- rewrite (Hq2 eq_refl). by split.
  - unfold WriteEvent, mbind, State_bind.
    pose proof (w_Write_spec ($"event: " ++ ev ++ [nl] ++ $"data: " ++ data ++ [nl; nl]) r) as H1.
    assert (unlines [$"event: " ++ ev; $"data: " ++ data; []] =
            $"event: " ++ ev ++ [nl] ++ $"data: " ++ data ++ [nl; nl]) as ->
      by (cbn [unlines flat_map]; by rewrite <- !app_assoc).
    destruct (w_Write _ r) as [[e|] r1]; destruct H1 as (q & [Hb Hf] & _ & Hp & Hq & Hn);
      exists q; (split; [done|]); (split; [done|]).
    + split; [done|]. intros H0. by specialize (Hn H0).
    + split; [|done]. intros _. by rewrite (Hq eq_refl).
Qed.

(** ** What is received when a write fails half-way *)

Lemma prefix_no_cr q ls : Forall one_line ls -> q `prefix_of` unlines ls -> cr ∉ q.
Proof.
  intros Hls [t Ht] Hq. apply (unlines_no_cr ls); [done|]. rewrite Ht. set_solver.
Qed.

Lemma stream_lines_prefix q ls :
  Forall one_line ls -> q `prefix_of` unlines ls -> exists k, stream_lines q = take k ls.
Proof.
  intros Hls Hq. rewrite stream_lines_no_cr by (by eapply prefix_no_cr).
  apply one_line_nl in Hls. revert q Hq. induction Hls as [|l ls Hl Hls IH]; intros q Hq.
  - apply prefix_nil_inv in Hq as ->. by exists 0%nat.
  - cbn [unlines flat_map] in Hq. fold (unlines ls) in Hq. destruct Hq as [t Ht].
    apply app_eq_inv in Ht as [(u & Hu & _)|(u & -> & Hu)].
    + destruct u as [|c u _] using rev_ind.
      * rewrite app_nil_r in Hu. subst q. exists 1%nat. rewrite Split_app by done. by destruct ls.
      * exists 0%nat. rewrite app_assoc in Hu. apply app_inj_tail in Hu as [Hu _].
        rewrite Split_no_sep; [done|]. intros H. apply Hl. rewrite Hu. set_solver.
    + destruct (IH u) as [k Hk]; [by exists t|]. exists (S k). rewrite <- app_assoc.
      change ([nl] ++ u) with (nl :: u). rewrite Split_app by done. cbn [take]. rewrite <- Hk.
      pose proof (Split_nonempty u nl). by destruct (Split u nl).
Qed.

(** The calls of a handler up to the first that reports an error: those that
    succeeded, and those left, the failed one first. *)
Fixpoint serve (cs : list call) : State response (list call * list call) :=
  match cs with
  | [] => mret ([], [])
  | c :: cs' =>
      ok ← run_call c;
      if ok : bool then '(sent, rest) ← serve cs'; mret (c :: sent, rest)
      else mret ([], c :: cs')
  end.

Lemma dispatch_no_end ws ty d : dispatch (map (fun l => $"data: " ++ l) ws) ty d = [].
Proof.
  revert d. induction ws as [|w ws IH]; intros d; [done|]. cbn [map]. rewrite dispatch_data. apply IH.
Qed.

(** A part of the lines of one call dispatches nothing unless it is all of them. *)
Lemma dispatch_partial c k :
  take k (lines_of c) = lines_of c \/ dispatch (take k (lines_of c)) [] [] = [].
Proof.
  destruct c as [p|ev data]; cbn [lines_of].
  - case_bool_decide; [left; by destruct k|].
    set (ws := Split (event_text p) nl).
    destruct (decide (k <= length ws)%nat) as [Hk|Hk].
    + right. rewrite take_app_le by (by rewrite length_map). rewrite firstn_map.
      apply dispatch_no_end.
    + left. apply take_ge. rewrite length_app, length_map. simpl. lia.
  - destruct k as [|[|[|k]]]; [by right|right|right|left; by destruct k].
    + cbn [take]. by rewrite dispatch_event.
    + cbn [take]. by rewrite dispatch_event, dispatch_data.
Qed.

Lemma lines_of_calls cs : Forall call_ok cs -> Forall one_line (flat_map lines_of cs).
Proof.
  induction 1; [constructor|]. cbn [flat_map]. apply Forall_app. auto using one_line_lines.
Qed.

Lemma dispatch_calls cs ls :
  dispatch (flat_map lines_of cs ++ ls) [] [] = flat_map events_of cs ++ dispatch ls [] [].
Proof.
  induction cs as [|c cs IH]; [done|]. cbn [flat_map]. by rewrite <- !app_assoc, dispatch_call, IH.
Qed.

Lemma receive_cut cs c q :
  Forall call_ok (cs ++ [c]) -> q `prefix_of` unlines (lines_of c) ->
  let got := receive (unlines (flat_map lines_of cs) ++ q) in
  got = flat_map events_of cs \/ got = flat_map events_of (cs ++ [c]).
Proof.
  intros [Hcs Hc%Forall_singleton%one_line_lines]%Forall_app Hq. cbv zeta. unfold receive.
  rewrite stream_lines_unlines by eauto using lines_of_calls, prefix_no_cr.
  destruct (stream_lines_prefix q (lines_of c)) as [k ->]; [done|done|].
  rewrite dispatch_calls, flat_map_app. cbn [flat_map].
  destruct (dispatch_partial c k) as [->| ->]; [right|left; by rewrite app_nil_r].
  f_equal. rewrite <- (app_nil_r (lines_of c)), dispatch_call. done.
Qed.

Lemma serve_spec cs r :
  flushed r = length (body r) ->
  let '((sent, rest), r') := serve cs r in
  cs = sent ++ rest /\ (faults r = [] -> rest = []) /\
  (rest = [] -> flushed r' = length (body r')) /\
  exists q, body r' = body r ++ unlines (flat_map lines_of sent) ++ q /\
    match rest with
    | [] => q = []
    | c :: _ => q `prefix_of` unlines (lines_of c)
    end.
Proof.
  revert r. induction cs as [|c cs IH]; intros r Hfl; cbn [serve].
  - do 3 (split; [done|]). exists []. by rewrite app_nil_r.
  - unfold mbind, State_bind. pose proof (run_call_spec c r Hfl) as H.
    destruct (run_call c r) as [[|] r1]; destruct H as (q & [Hb Hf] & Hp & Hok & Hn).
    + destruct (Hok eq_refl) as [-> Hfl1]. specialize (IH r1 Hfl1).
      destruct (serve cs r1) as [[sent rest] r2]. destruct IH as (-> & Hf2 & Hfl2 & q2 & Hb2 & Hq2).
      split; [done|]. split; [auto|]. split; [done|]. exists q2. split; [|done].
      cbn [flat_map]. unfold unlines at 1. rewrite flat_map_app.
      fold (unlines (lines_of c)) (unlines (flat_map lines_of sent)).
      by rewrite Hb2, Hb, <- !app_assoc.
    + split; [done|]. split; [intros H0; by specialize (Hn H0)|]. split; [done|].
      exists q. by rewrite Hb.
Qed.

(** C15: what the writer sends, a browser receives, for calls of [Write] whose text has
    no carriage return of its own (those before a newline do no harm) and calls of
    [WriteEvent] whose event and data are one line each: whatever writes fail and wherever
    they are cut, the events received are those of the calls that reported success,
    complete and in order, and at most the event of the first call that failed after
    them, complete or not at all; without faults it is every call, and all that was
    written has been flushed.  Without the condition it does not hold: see
    [WriteEvent_injection]. *)
Theorem serve_receive r cs :
  Forall call_ok cs -> body r = [] ->
  let '(res, r') := (NewWriter true;; serve cs) r in
  let '(sent, rest) := res in
  cs = sent ++ rest /\
  (receive (body r') = flat_map events_of sent \/
   exists c rest', rest = c :: rest' /\ receive (body r') = flat_map events_of (sent ++ [c])) /\
  (faults r = [] -> rest = [] /\ receive (take (flushed r') (body r')) = flat_map events_of cs).
Proof.
  intros Hok Hb. unfold mbind, State_bind.
  destruct (NewWriter true r) as [u r1] eqn:E.
  assert (body r1 = [] /\ flushed r1 = length (body r1) /\ faults r1 = faults r) as (Hb1 & Hfl1 & Hf1)
    by (injection E as <- <-; cbn; by rewrite Hb).
  pose proof (serve_spec cs r1 Hfl1) as H. destruct (serve cs r1) as [[sent rest] r2].
  destruct H as (-> & Hn & Hfl & q & Hq & Hrest). rewrite Hb1 in Hq. cbn [app] in Hq.
  split; [done|]. destruct rest as [|c rest].
  - subst q. rewrite app_nil_r in *.
    assert (receive (body r2) = flat_map events_of sent) as Hr.
    { rewrite Hq, <- (app_nil_r (unlines _)). unfold receive.
      rewrite stream_lines_unlines by (auto using lines_of_calls; by apply not_elem_of_nil).
      rewrite dispatch_calls. by rewrite app_nil_r. }
    split; [by left|]. intros _. split; [done|]. by rewrite Hfl, take_ge by done.
  - assert (Forall call_ok (sent ++ [c])) as Hok'.
    { rewrite (cons_middle c sent rest), app_assoc in Hok. by apply Forall_app in Hok as [? _]. }
    pose proof (receive_cut sent c q Hok' Hrest) as [H|H]; rewrite <- Hq in H.
    + split; [by left|]. rewrite Hf1 in Hn. intros H0. by specialize (Hn H0).
    + split; [right; by exists c, rest|]. rewrite Hf1 in Hn. intros H0. by specialize (Hn H0).
Qed.

Definition demo_calls : list call :=
  [CWrite ($"a" ++ [cr; nl; nl] ++ $" b" ++ [nl]); CWrite [nl]; CEvent ($"done") ($"1")].

Lemma serve_receive_witness :
  let '(_, r') := (NewWriter true;; serve demo_calls) (MkResponse [] 0 [] 0 []) in
  receive (take (flushed r') (body r')) = [(message, $"a" ++ [nl; nl] ++ $" b"); ($"done", $"1")].
Proof.
  assert (Forall call_ok demo_calls) as Hok.
  { unfold demo_calls. rewrite !Forall_cons. unfold call_ok, one_line.
    split_and!; try done; by compute_done. }
  pose proof (serve_receive (MkResponse [] 0 [] 0 []) demo_calls Hok eq_refl) as H.
  destruct ((NewWriter true;; serve demo_calls) (MkResponse [] 0 [] 0 [])) as [[sent rest] r'].
  destruct H as (_ & _ & H). destruct (H eq_refl) as [_ ->]. reflexivity.
Defined.

(** [WriteEvent] does not split its data into lines as [Write] does: data with an
    empty line in it is received as two events, the second of a type and with data
    that the data chose; and of data with a line end the rest is lost. *)
Theorem WriteEvent_injection r ev ev' a b :
  one_line ev -> one_line ev' -> one_line a -> one_line b -> ev <> [] -> ev' <> [] ->
  body r = [] -> faults r = [] ->
  let '(_, r') := WriteEvent ev (a ++ [nl; nl] ++ $"event: " ++ ev' ++ [nl] ++ $"data: " ++ b) r in
  receive (body r') = [(ev, a); (ev', b)].
Proof.
  intros He He' Ha Hb Hne Hne' Hr Hf. unfold WriteEvent, mbind, State_bind, w_Write. rewrite Hf, Hr.
  cbn [head app body snd set_body modify w_Flush mret State_ret].
  set (s := _ ++ _).
  assert (s = unlines (flat_map lines_of [CEvent ev a; CEvent ev' b])) as ->.
  { unfold s, unlines. cbn [flat_map lines_of app].
    by repeat first [rewrite <- app_assoc | progress cbn [app]]. }
  rewrite <- (app_nil_r (unlines _)). unfold receive.
  rewrite stream_lines_unlines;
    [|apply lines_of_calls; by rewrite !Forall_cons | by apply not_elem_of_nil].
  rewrite dispatch_calls. cbn [flat_map events_of app]. by rewrite !bool_decide_eq_false_2.
Qed.

Lemma WriteEvent_injection_witness :
  let '(_, r') := WriteEvent ($"log")
    ($"x" ++ [nl; nl] ++ $"event: " ++ $"admin" ++ [nl] ++ $"data: " ++ $"y")
    (MkResponse [] 200 [] 0 []) in
  receive (body r') = [($"log", $"x"); ($"admin", $"y")].
Proof.
  apply WriteEvent_injection; try done; unfold one_line; split; by compute_done.
Defined.
