(* ===== verification/Relay.v ===== *)
(** * Package [relay]: two-way forwarding ([relay.go], [tcp_relay.go])

    [Bridge] runs two goroutines, each an [io.Copy] in one direction, and the caller,
    which waits for the first to end, closes both endpoints and waits for the second.
    A configuration has the program point of each of the three and what each
    direction has read and written; the peers decide when data, ends of file and
    errors come. *)

From S2P Require Import Prelude WebSocket.

Local Open Scope nat_scope.

(** ** Endpoints *)

(** The reader and the writer of an endpoint are its peer, which the steps below
    leave free; [Closer] tells whether there is one. *)
Record Endpoint := MkEndpoint { Closer : bool }.

Definition NewEndpoint (closer : bool) : Endpoint := MkEndpoint closer.

(** [is_closer]: whether the value implements [io.Closer]. *)
Definition NewReadWriter (is_closer : bool) : Endpoint :=
  if is_closer then MkEndpoint true else MkEndpoint false.

(** ** One direction *)

(** Where [copyData] is: about to read, about to write a chunk, returned from
    [io.Copy], or done. *)
Inductive point :=
  | Reading
  | Writing (chunk : bytes)
  | Returned (err : option error)
  | Sent (err : option error).

Record dir := MkDir { at_ : point; got : bytes; put_ : bytes }.

Definition new_dir : dir := MkDir Reading [] [].

(** A step is the peers' doing ([Peer]) or cannot fail to come ([Own]): a read or a
    write on an endpoint that has been closed returns an error. *)
Inductive who := Peer | Own.

(** The steps of [io.Copy] from a source to a destination, each closed or not. *)
Inductive copy_step (src_closed dst_closed : bool) : who -> dir -> dir -> Prop :=
  | cp_read g p chunk :
      chunk <> [] ->
      copy_step src_closed dst_closed Peer (MkDir Reading g p) (MkDir (Writing chunk) (g ++ chunk) p)
  | cp_eof g p :
      copy_step src_closed dst_closed Peer (MkDir Reading g p) (MkDir (Returned None) g p)
  | cp_read_err g p e :
      copy_step src_closed dst_closed Peer (MkDir Reading g p) (MkDir (Returned (Some e)) g p)
  | cp_write g p chunk :
      copy_step src_closed dst_closed Peer (MkDir (Writing chunk) g p) (MkDir Reading g (p ++ chunk))
  | cp_write_err g p chunk n e :
      copy_step src_closed dst_closed Peer (MkDir (Writing chunk) g p)
        (MkDir (Returned (Some e)) g (p ++ take n chunk))
  | cp_read_closed g p e :
      src_closed = true ->
      copy_step src_closed dst_closed Own (MkDir Reading g p) (MkDir (Returned (Some e)) g p)
  | cp_write_closed g p chunk e :
      dst_closed = true ->
      copy_step src_closed dst_closed Own (MkDir (Writing chunk) g p) (MkDir (Returned (Some e)) g p).

(** ** [Bridge] *)

Inductive caller :=
  | WaitFirst
  | CloseA (err : option error)
  | CloseB (err : option error)
  | WaitSecond (err : option error)
  | Done (err : option error).

Record bridge := MkBridge {
  ab : dir;                            (* from [a.Reader] to [b.Writer] *)
  ba : dir;                            (* from [b.Reader] to [a.Writer] *)
  ch : list (option error);            (* the channel, of capacity two *)
  pc : caller;
  closesA : nat;                       (* the calls of [Close] *)
  closesB : nat;
  ended : list (option error)          (* history: the errors in the order sent *)
}.

Definition bridge_start : bridge := MkBridge new_dir new_dir [] WaitFirst 0 0 [].

(** [if err == io.EOF { return nil }] *)
Definition bridge_result (err : option error) : option error :=
  if bool_decide (err = Some EOF) then None else err.

(** [closeEndpoint] *)
Definition closeEndpoint (e : Endpoint) (closes : nat) : nat :=
  if Closer e then S closes else closes.

Section bridge.
Variables a b : Endpoint.

Inductive bridge_step (s : bridge) : who -> bridge -> Prop :=
  | b_ab w d :
      copy_step (0 <? closesA s) (0 <? closesB s) w (ab s) d ->
      bridge_step s w (MkBridge d (ba s) (ch s) (pc s) (closesA s) (closesB s) (ended s))
  | b_ba w d :
      copy_step (0 <? closesB s) (0 <? closesA s) w (ba s) d ->
      bridge_step s w (MkBridge (ab s) d (ch s) (pc s) (closesA s) (closesB s) (ended s))
  | b_send_ab g p e :
      ab s = MkDir (Returned e) g p ->
      bridge_step s Own (MkBridge (MkDir (Sent e) g p) (ba s) (ch s ++ [e]) (pc s)
                           (closesA s) (closesB s) (ended s ++ [e]))
  | b_send_ba g p e :
      ba s = MkDir (Returned e) g p ->
      bridge_step s Own (MkBridge (ab s) (MkDir (Sent e) g p) (ch s ++ [e]) (pc s)
                           (closesA s) (closesB s) (ended s ++ [e]))
  | b_first e q :
      pc s = WaitFirst -> ch s = e :: q ->
      bridge_step s Own (MkBridge (ab s) (ba s) q (CloseA e) (closesA s) (closesB s) (ended s))
  | b_closeA e :
      pc s = CloseA e ->
      bridge_step s Own (MkBridge (ab s) (ba s) (ch s) (CloseB e)
                           (closeEndpoint a (closesA s)) (closesB s) (ended s))
  | b_closeB e :
      pc s = CloseB e ->
      bridge_step s Own (MkBridge (ab s) (ba s) (ch s) (WaitSecond e)
                           (closesA s) (closeEndpoint b (closesB s)) (ended s))
  | b_second e e' q :
      pc s = WaitSecond e -> ch s = e' :: q ->
      bridge_step s Own (MkBridge (ab s) (ba s) q (Done (bridge_result e))
                           (closesA s) (closesB s) (ended s)).

Definition bridge_next (s s' : bridge) : Prop := exists w, bridge_step s w s'.

End bridge.

(** ** [TCPRelay] *)

Record TCPParam := MkTCPParam { TargetAddr : bytes; BinaryMode : bool }.

Inductive relay_event :=
  | RSetMessageType (t : Z)
  | RDial (addr : bytes)
  | RBridge                                (* [Bridge], which closes both endpoints *)
  | RCloseConn
  | RCloseWs.

(** [dial] and [bridged] are the outcomes of [net.Dial] and of [Bridge]; the deferred
    calls of [Close] come last, in the reverse order. *)
Definition TCPRelay (dial bridged : option error) (p : TCPParam) : list relay_event * option error :=
  let set := if BinaryMode p then [RSetMessageType BinaryMessage] else [] in
  match dial with
  | Some err => (set ++ [RDial (TargetAddr p); RCloseWs], Some err)
  | None => (set ++ [RDial (TargetAddr p); RBridge; RCloseConn; RCloseWs], bridged)
  end.

(** ** The invariant *)

(** What a direction has written of what it has read. *)
Definition dir_ok (d : dir) : Prop :=
  match at_ d with
  | Reading | Returned None | Sent None => put_ d = got d
  | Writing chunk => got d = put_ d ++ chunk
  | Returned (Some _) | Sent (Some _) => put_ d `prefix_of` got d
  end.

Lemma dir_ok_prefix d : dir_ok d -> put_ d `prefix_of` got d.
Proof.
  unfold dir_ok. destruct (at_ d) as [|c|[e|]|[e|]]; intros H; try done; try (by rewrite H).
  exists c. done.
Qed.

Lemma copy_step_ok sc dc w d d' : copy_step sc dc w d d' -> dir_ok d -> dir_ok d'.
Proof.
  unfold dir_ok. destruct 1; simpl; intros Hd; try done; try (by rewrite Hd).
  - rewrite Hd. apply prefix_app, prefix_take.
  - rewrite Hd. by apply prefix_app_r.
Qed.

Definition sent_of (d : dir) : list (option error) :=
  match at_ d with Sent e => [e] | _ => [] end.

Lemma copy_step_sent sc dc w d d' : copy_step sc dc w d d' -> sent_of d = [] /\ sent_of d' = [].
Proof. by destruct 1. Qed.

Definition caller_ok (p : caller) (taken : list (option error)) : Prop :=
  match p, taken with
  | WaitFirst, [] => True
  | (CloseA e | CloseB e | WaitSecond e), [e'] => e' = e
  | Done r, [e; _] => r = bridge_result e
  | _, _ => False
  end.

Definition one_if (b : bool) : nat := if b then 1 else 0.

Section invariant.
Variables a b : Endpoint.

Record bridge_inv (s : bridge) : Prop := {
  bi_ab : dir_ok (ab s);
  bi_ba : dir_ok (ba s);
  bi_ch : exists taken, ended s = taken ++ ch s /\ caller_ok (pc s) taken;
  bi_sent : ended s ≡ₚ sent_of (ab s) ++ sent_of (ba s);
  bi_A : closesA s = match pc s with WaitFirst | CloseA _ => 0 | _ => one_if (Closer a) end;
  bi_B : closesB s = match pc s with
                     | WaitFirst | CloseA _ | CloseB _ => 0
                     | _ => one_if (Closer b)
                     end
}.

Lemma bridge_inv_start : bridge_inv bridge_start.
Proof. split; try done. by exists []. Qed.

Lemma bridge_inv_step s w s' : bridge_inv s -> bridge_step a b s w s' -> bridge_inv s'.
Proof.
  intros [Hab Hba (tk & Hch & Hpc) Hsent HA HB] Hs.
  destruct Hs as [w d Hd|w d Hd|g p e Hd|g p e Hd|e q Hp Hc|e Hp|e Hp|e e' q Hp Hc];
    split; simpl; eauto using copy_step_ok.
  - apply copy_step_sent in Hd as [H1 H2]. by rewrite H2, <- H1.
  - apply copy_step_sent in Hd as [H1 H2]. by rewrite H2, <- H1.
  - by rewrite Hd in Hab.
  - exists tk. by rewrite Hch, app_assoc.
  - unfold sent_of in *. rewrite Hd in Hsent. simpl in *. by rewrite Hsent, Permutation_app_comm.
  - by rewrite Hd in Hba.
  - exists tk. by rewrite Hch, app_assoc.
  - unfold sent_of in *. rewrite Hd in Hsent. simpl in *. rewrite app_nil_r in Hsent. by rewrite Hsent.
  - rewrite Hp in Hpc. destruct tk; [|done]. exists [e]. by rewrite Hch, Hc.
  - by rewrite HA, Hp.
  - by rewrite HB, Hp.
  - rewrite Hp in Hpc. by exists tk.
  - rewrite HA, Hp. unfold closeEndpoint, one_if. by destruct (Closer a).
  - by rewrite HB, Hp.
  - rewrite Hp in Hpc. by exists tk.
  - by rewrite HA, Hp.
  - rewrite HB, Hp. unfold closeEndpoint, one_if. by destruct (Closer b).
  - rewrite Hp in Hpc. destruct tk as [|e0 [|]]; try done. simpl in Hpc. subst e0.
    exists [e; e']. by rewrite Hch, Hc.
  - by rewrite HA, Hp.
  - by rewrite HB, Hp.
Qed.

Lemma bridge_inv_reach s : rtc (bridge_next a b) bridge_start s -> bridge_inv s.
Proof.
  intros H. remember bridge_start as s0 eqn:E.
  assert (bridge_inv s0) as H0 by (subst; apply bridge_inv_start). clear E.
  induction H as [|s0 s1 s2 [w Hs] _ IH]; [done|]. apply IH. by eapply bridge_inv_step.
Qed.

End invariant.

(** ** Termination *)

Definition dir_rank (d : dir) : nat :=
  match at_ d with Reading | Writing _ => 2 | Returned _ => 1 | Sent _ => 0 end.

Definition caller_rank (p : caller) : nat :=
  match p with WaitFirst => 4 | CloseA _ => 3 | CloseB _ => 2 | WaitSecond _ => 1 | Done _ => 0 end.

Definition bridge_rank (s : bridge) : nat :=
  dir_rank (ab s) + dir_rank (ba s) + caller_rank (pc s).

Definition finished (s : bridge) : bool := if pc s is Done _ then true else false.

(** One of the directions has come to its end. *)
Definition ending (s : bridge) : Prop := dir_rank (ab s) <= 1 \/ dir_rank (ba s) <= 1.

Lemma copy_step_rank sc dc w d d' :
  copy_step sc dc w d d' -> dir_rank d' <= dir_rank d /\ (w = Own -> dir_rank d' < dir_rank d).
Proof. destruct 1; unfold dir_rank; simpl; split; intros; try done; lia. Qed.

Lemma bridge_step_rank a b s w s' :
  bridge_step a b s w s' ->
  bridge_rank s' <= bridge_rank s /\ (w = Own -> bridge_rank s' < bridge_rank s) /\
  (ending s -> ending s').
Proof.
  unfold bridge_rank, ending.
  destruct 1 as [w d Hd|w d Hd|g p e Hd|g p e Hd|e q Hp Hc|e Hp|e Hp|e e' q Hp Hc]; simpl;
    rewrite ?Hd, ?Hp; try apply copy_step_rank in Hd as [H1 H2];
    unfold dir_rank in *; simpl in *;
    (split_and!; [lia | intros Hw; try specialize (H2 Hw); lia | lia]).
Qed.

(** A direction between closed endpoints has a step of its own. *)
Lemma copy_step_own d :
  dir_rank d = 2 -> exists d', copy_step true true Own d d'.
Proof.
  destruct d as [[|c|e|e] g p]; try done; intros _.
  - eexists. by apply (cp_read_closed _ _ _ _ (EOther 0)).
  - eexists. by apply (cp_write_closed _ _ _ _ _ (EOther 0)).
Qed.

Lemma send_own a b s :
  dir_rank (ab s) = 1 \/ dir_rank (ba s) = 1 -> exists s', bridge_step a b s Own s'.
Proof.
  destruct s as [[[| | |] ? ?] [[| | |] ? ?] ? ? ? ? ?];
    unfold dir_rank; simpl; intros [H|H]; try done;
    eexists; (by eapply b_send_ab) || (by eapply b_send_ba).
Qed.

Lemma dir_rank_cases d :
  dir_rank d = 2 \/ dir_rank d = 1 \/ (dir_rank d = 0 /\ length (sent_of d) = 1).
Proof. destruct d as [[| | |] ? ?]; unfold dir_rank; simpl; auto. Qed.

Lemma ending_own a b s :
  Closer a = true -> Closer b = true -> bridge_inv a b s -> ending s -> finished s = false ->
  exists s', bridge_step a b s Own s'.
Proof.
  intros Ha Hb [_ _ (tk & Hch & Hpc) Hsent HA HB] He Hf.
  apply (f_equal length) in Hch as Hlen. rewrite Hsent, !length_app in Hlen.
  destruct (decide (dir_rank (ab s) = 1 \/ dir_rank (ba s) = 1)) as [H|H]; [by apply send_own|].
  unfold ending in He. unfold finished in Hf.
  destruct (pc s) as [|e|e|e|r] eqn:Hp; [| | | |done].
  - destruct tk; [|done]. destruct (ch s) as [|e q] eqn:Hc; [|eexists; by eapply b_first].
    destruct (dir_rank_cases (ab s)) as [?|[?|[? ?]]], (dir_rank_cases (ba s)) as [?|[?|[? ?]]];
      simpl in Hlen; lia.
  - eexists. by eapply b_closeA.
  - eexists. by eapply b_closeB.
  - destruct tk as [|e0 [|]]; [done| |done].
    destruct (ch s) as [|e' q] eqn:Hc; [|eexists; by eapply b_second].
    rewrite Ha in HA. rewrite Hb in HB. simpl in HA, HB, Hlen.
    destruct (dir_rank_cases (ab s)) as [H1|[?|[? ?]]]; [|lia|].
    + destruct (copy_step_own _ H1) as [d Hd]. eexists. apply b_ab. by rewrite HA, HB.
    + destruct (dir_rank_cases (ba s)) as [H2|[?|[? ?]]]; [|lia|lia].
      destruct (copy_step_own _ H2) as [d Hd]. eexists. apply b_ba. by rewrite HA, HB.
Qed.

(** C16: in every interleaving of the two goroutines, their peers and the caller, each
    side is sent a prefix of what the other side said, in order, and all of it when
    that direction ended without an error; and when [Bridge] returns, both goroutines
    have ended, each endpoint has been closed exactly once if it can be, and the
    result is the error of the direction that ended first, or nil. *)
Theorem Bridge_forwards a b s :
  rtc (bridge_next a b) bridge_start s ->
  (put_ (ab s) `prefix_of` got (ab s) /\ put_ (ba s) `prefix_of` got (ba s)) /\
  (at_ (ab s) = Sent None -> put_ (ab s) = got (ab s)) /\
  (at_ (ba s) = Sent None -> put_ (ba s) = got (ba s)) /\
  forall r, pc s = Done r ->
    exists e1 e2, ended s = [e1; e2] /\ r = bridge_result e1 /\
      ((at_ (ab s) = Sent e1 /\ at_ (ba s) = Sent e2) \/
       (at_ (ab s) = Sent e2 /\ at_ (ba s) = Sent e1)) /\
      closesA s = one_if (Closer a) /\ closesB s = one_if (Closer b).
Proof.
  intros [Hab Hba (tk & Hch & Hpc) Hsent HA HB]%bridge_inv_reach.
  split; [by auto using dir_ok_prefix|].
  split; [intros E; by unfold dir_ok in Hab; rewrite E in Hab|].
  split; [intros E; by unfold dir_ok in Hba; rewrite E in Hba|].
  intros r Hp. rewrite Hp in Hpc, HA, HB. destruct tk as [|e1 [|e2 [|]]]; try done.
  simpl in Hpc. subst r. apply (f_equal length) in Hch as Hlen. apply Permutation_length in Hsent as Hl2.
  unfold sent_of in *.
  destruct (ab s) as [[| | |x] ? ?], (ba s) as [[| | |y] ? ?]; simpl in *; try lia.
  destruct (ch s); [|simpl in *; lia]. simpl in Hch. rewrite Hch in Hsent.
  exists e1, e2. do 2 (split; [done|]). split; [|done].
  apply Permutation_length_2_inv in Hsent as [[= -> ->]|[= -> ->]]; auto.
Qed.

(** C37: once one direction has ended, and both endpoints have a closer, [Bridge]
    returns without the help of its peers: in every reachable state its own steps
    alone lead to its end; no step of a peer puts it off, and each own step brings it
    nearer, so that there are at most eight of them. *)
Theorem Bridge_terminates a b s :
  rtc (bridge_next a b) bridge_start s -> Closer a = true -> Closer b = true -> ending s ->
  (exists s', rtc (fun x y => bridge_step a b x Own y) s s' /\ finished s' = true) /\
  bridge_rank s <= 8 /\
  forall w s', bridge_step a b s w s' ->
    ending s' /\ bridge_rank s' <= bridge_rank s /\ (w = Own -> bridge_rank s' < bridge_rank s).
Proof.
  intros Hi%bridge_inv_reach Ha Hb He. split; [|split].
  - remember (bridge_rank s) as n eqn:Hn. assert (bridge_rank s <= n) as Hle by lia. clear Hn.
    revert s Hi He Hle. induction n as [|n IH]; intros s Hi He Hle;
      destruct (finished s) eqn:Hf; try (exists s; by split).
    + destruct (ending_own a b s) as [s' Hs]; try done.
      apply bridge_step_rank in Hs as (_ & H & _). specialize (H eq_refl). lia.
    + destruct (ending_own a b s) as [s' Hs]; try done.
      destruct (bridge_step_rank _ _ _ _ _ Hs) as (_ & H & H').
      destruct (IH s') as (s'' & Hr & Hf'); [by eapply bridge_inv_step|auto|specialize (H eq_refl); lia|].
      exists s''. split; [by eapply rtc_l|done].
  - unfold bridge_rank, dir_rank, caller_rank. repeat case_match; lia.
  - intros w s' Hs. destruct (bridge_step_rank _ _ _ _ _ Hs) as (H1 & H2 & H3). auto.
Qed.

(** Without closers [Bridge] can wait for ever after one direction has ended. *)
Lemma Bridge_without_closer_waits :
  exists s, rtc (bridge_next (NewEndpoint false) (NewEndpoint false)) bridge_start s /\ ending s /\
    finished s = false /\
    forall s', ~ bridge_step (NewEndpoint false) (NewEndpoint false) s Own s'.
Proof.
  exists (MkBridge (MkDir (Sent None) [] []) new_dir [] (WaitSecond None) 0 0 [None]).
  split; [|split; [left; unfold dir_rank; simpl; lia|]].
  - eapply rtc_l; [exists Peer; apply b_ab, cp_eof|].
    eapply rtc_l; [exists Own; by eapply b_send_ab|].
    eapply rtc_l; [exists Own; by eapply b_first|].
    eapply rtc_l; [exists Own; by eapply b_closeA|].
    eapply rtc_l; [exists Own; by eapply b_closeB|]. apply rtc_refl.
  - split; [done|]. intros s' Hs. inversion Hs as [? ? Hd|? ? Hd| | | | | | ]; simplify_eq/=;
      inversion Hd; simplify_eq/=.
Qed.

(** ** An example: one side says hello and ends, the other is silent *)

Module RelayDemo.

Definition hello : bytes := $"hello".

Definition half : bridge :=
  MkBridge (MkDir (Sent None) hello hello) new_dir [None] WaitFirst 0 0 [None].

Lemma half_reached : rtc (bridge_next (NewReadWriter true) (NewReadWriter true)) bridge_start half.
Proof.
  eapply rtc_l; [exists Peer; apply b_ab, (cp_read _ _ _ _ hello); done|].
  eapply rtc_l; [exists Peer; apply b_ab, cp_write|].
  eapply rtc_l; [exists Peer; apply b_ab, cp_eof|].
  eapply rtc_l; [exists Own; by eapply b_send_ab|]. apply rtc_refl.
Defined.

End RelayDemo.

Lemma Bridge_forwards_witness : put_ (ab RelayDemo.half) = got (ab RelayDemo.half).
Proof.
  destruct (Bridge_forwards (NewReadWriter true) (NewReadWriter true) RelayDemo.half)
    as (_ & H & _); [apply RelayDemo.half_reached|]. by apply H.
Defined.

Lemma Bridge_terminates_witness :
  exists s', rtc (fun x y => bridge_step (NewReadWriter true) (NewReadWriter true) x Own y)
               RelayDemo.half s' /\ finished s' = true.
Proof.
  destruct (Bridge_terminates (NewReadWriter true) (NewReadWriter true) RelayDemo.half)
    as (H & _); [apply RelayDemo.half_reached|done|done| |done].
  left. unfold dir_rank. simpl. lia.
Defined.

(** ** [TCPRelay] *)

(** On both paths the websocket is closed last, the TCP connection is closed if and
    only if it was opened, and the error is that of the dial or of [Bridge]. *)
Lemma TCPRelay_closes dial bridged p :
  let '(evs, err) := TCPRelay dial bridged p in
  last evs = Some RCloseWs /\ (RCloseConn ∈ evs <-> dial = None) /\
  err = match dial with Some e => Some e | None => bridged end.
Proof.
  unfold TCPRelay. destruct dial as [e|], (BinaryMode p); simpl;
    split_and!; try done; set_solver.
Qed.
