(* ===== verification/Filer.v ===== *)
(** * Package [filer]: files and directories on the local disk

    [entry.go], [entry_unix.go], [ops.go], [marshal.go] and [embed.go] over the file
    system of [GoTree].  The account database ([os/user]) and the JSON and YAML
    encoders are parameters. *)

From S2P Require Import Prelude GoStr GoPath GoTree GoGlob GoTreeFacts TreeWalk TreeMove SftpClient.

Local Open Scope Z_scope.

(** ** What a path is ([ops.go]) *)

Definition IsDir (p : bytes) : State os bool :=
  r ← os_Stat p;
  mret (match r with Ok (_, n) => is_dir n | Err _ => false end).

Definition IsLink (p : bytes) : State os bool :=
  r ← os_Lstat p;
  mret (match r with Ok (_, n) => is_link n | Err _ => false end).

Definition os_IsExist (e : error) : bool := bool_decide (e = EExist \/ e = ENOTEMPTY).
Definition os_IsNotExist (e : error) : bool := bool_decide (e = ENotExist).

Definition Exist (p : bytes) : State os bool :=
  r ← os_Stat p;
  mret (match r with Ok _ => true | Err e => os_IsExist e end).

Definition NotExist (p : bytes) : State os bool :=
  r ← os_Stat p;
  mret (match r with Ok _ => false | Err e => os_IsNotExist e end).

(** One read of at most 512 bytes, then the tests that [SftpClient.IsTextFile] makes too.
    Reading an empty file gives no byte and [io.EOF]. *)
Definition IsText (p : bytes) : State os bool :=
  h ← os_Open p;
  match h with
  | Err _ => mret false
  | Ok h =>
      r ← f_ReadAll h;
      match r with
      | Err _ | Ok [] => mret false
      | Ok data => mret (is_text (take 512 data))
      end
  end.

(** ** [Move] and [DirSize] ([ops.go]) *)

Definition Glob (pattern : bytes) : State os (result (list bytes)) :=
  matches ←? GoGlob.Glob pattern; mret (Ok matches).

Definition Move (srcPath dstPath : bytes) (overwrite : bool) : State os (result unit) :=
  st ← os_Stat dstPath;
  match st with
  | Ok (_, info) =>
      if negb overwrite then mret (Err EExist)
      else
        let dstPath := if is_dir info then JoinPath [dstPath; Base srcPath] else dstPath in
        _ ←? os_RemoveAll dstPath;
        os_Rename srcPath dstPath
  | Err _ => os_Rename srcPath dstPath
  end.

(** The closure captures [totalSize], an [int64]. *)
Definition add_size (n : Z) : State (os * Z) unit := modify (fun s => (fst s, i64 (snd s + n))).

Definition size_callback (path : bytes) (isdir : bool) (d_Info : State (os * Z) (result node))
    (err : option error) : State (os * Z) (option error) :=
  match err with
  | Some e => mret (Some e)
  | None =>
      info ← d_Info;
      match info with
      | Err e => mret (Some e)
      | Ok n =>
          if isdir then mret (if is_link n then Some SkipDir else None)
          else add_size (node_size n);; mret None
      end
  end.

Definition DirSize (fuel : nat) (dirPath : bytes) : State os (result Z) := fun w =>
  let '(err, (w', totalSize)) := WalkDir lift_os size_callback fuel dirPath (w, 0) in
  (match err with Some e => Err e | None => Ok totalSize end, w').

(** ** Entries ([entry.go]) *)

Record FileInfo := MkFileInfo {
  Name : bytes; Size : Z; Mode : Z; ModTime : Z; Symlink : bytes;
  Owner : bytes; Group : bytes; f_IsDir : bool; Data : bytes
}.

Definition Read (file : bytes) : State os (result bytes) := os_ReadFile file.
Definition ReadText (file : bytes) : State os (result bytes) := os_ReadFile file.

Definition Readlink (file : bytes) : State os bytes :=
  l ← IsLink file;
  if l : bool then
    r ← os_Readlink file;
    mret (match r with Ok rp => rp | Err _ => [] end)
  else mret [].

(** The directory is made when it is missing. *)
Definition ensure_dir (file : bytes) : State os (result unit) :=
  let dir := Dir file in
  missing ← NotExist dir;
  if missing : bool then os_MkdirAll dir 511 else mret (Ok tt).

Definition Append (file data : bytes) : State os (result unit) :=
  _ ←? ensure_dir file;
  f ←? os_OpenFile file false 420;
  f_Write f data.

Definition Write (file data : bytes) : State os (result unit) :=
  _ ←? ensure_dir file;
  os_WriteFile file data 420.

Section accounts.
Variables LookupId LookupGroupId : Z -> result bytes.

(** [entry_unix.go]; of an error no name is given. *)
Definition getFileOwner (n : node) : bytes * bytes :=
  match LookupId (m_uid (node_meta n)), LookupGroupId (m_gid (node_meta n)) with
  | Ok usr, Ok grp => (usr, grp)
  | _, _ => ([], [])
  end.

Definition file_info (name : bytes) (n : node) (link : bytes) (isdir : bool) : FileInfo :=
  let '(uName, gName) := getFileOwner n in
  MkFileInfo name (node_size n) (Z.land (m_perm (node_meta n)) 511) (m_time (node_meta n))
    link uName gName isdir [].

Fixpoint list_loop (dir : bytes) (names : list bytes) : State os (result (list FileInfo)) :=
  match names with
  | [] => mret (Ok [])
  | name :: rest =>
      info ←? os_Lstat (dir ++ slash :: name);
      let fp := JoinPath [dir; name] in
      link ← Readlink fp;
      isdir ← IsDir fp;
      infos ←? list_loop dir rest;
      mret (Ok (file_info name (snd info) link isdir :: infos))
  end.

Definition List_ (dir : bytes) : State os (result (list FileInfo)) :=
  names ←? os_ReadDir dir;
  list_loop dir (map fst names).

Definition Info (file : bytes) (read : bool) : State os (result FileInfo) :=
  info ←? os_Stat file;
  let '(name, n) := info in
  link ← Readlink file;
  let detail := file_info name n link (is_dir n) in
  if read && negb (is_dir n) then
    data ←? os_ReadFile file;
    mret (Ok (MkFileInfo (Name detail) (Size detail) (Mode detail) (ModTime detail)
                (Symlink detail) (Owner detail) (Group detail) (f_IsDir detail) data))
  else mret (Ok detail).

End accounts.

(** ** Saving values ([marshal.go]) *)

Section marshal.
Context {V : Type}.
Variable MarshalIndent : V -> result bytes.       (* [json.MarshalIndent] *)
Variable json_Unmarshal : bytes -> result V.
Variable yaml_Marshal : V -> result bytes.
Variable yaml_Unmarshal : bytes -> result V.

Definition save (marshal : V -> result bytes) (file : bytes) (data : V) : State os (result unit) :=
  buf ←? mret (marshal data);
  Write file buf.

Definition load (unmarshal : bytes -> result V) (file : bytes) : State os (result V) :=
  bytes ←? Read file;
  mret (unmarshal bytes).

Definition SaveJson := save MarshalIndent.
Definition ReadJsonT := load json_Unmarshal.
Definition SaveYaml := save yaml_Marshal.
Definition ReadYamlT := load yaml_Unmarshal.
End marshal.

(** ** Releasing embedded files ([embed.go])

    [fs.WalkDir] over an embedded tree calls back with its entries, parents first, or
    with an error; [root] is one of them.  [MkdirTemp] is given the name it picks.
    [DirEntry.Type] keeps the type bits of a mode, and [Perm] the permission bits. *)

Definition ModeType : Z := 2^31 + 2^27 + 2^26 + 2^25 + 2^24 + 2^21 + 2^19.

Record efs_entry := EfsEntry { e_path : bytes; e_dir : bool; e_mode : Z; e_data : result bytes }.

Fixpoint release_loop (root tempDir : bytes) (entries : list (result efs_entry))
    : State os (result unit) :=
  match entries with
  | [] => mret (Ok tt)
  | Err err :: _ => mret (Err err)
  | Ok d :: rest =>
      relPath ←? mret (Rel root (e_path d));
      let targetPath := JoinPath [tempDir; relPath] in
      _ ←? (if e_dir d then os_MkdirAll targetPath 493
            else
              data ←? mret (e_data d);
              os_WriteFile targetPath data (Z.land (Z.land (e_mode d) ModeType) 511));
      release_loop root tempDir rest
  end.

Definition ReleaseEmbedFS (entries : list (result efs_entry)) (root tempDir : bytes)
    : State os (result bytes) :=
  _ ←? os_Mkdir tempDir 448;
  err ← release_loop root tempDir entries;
  match err with
  | Err e => _ ← os_RemoveAll tempDir; mret (Err e)
  | Ok _ => mret (Ok tempDir)
  end.

(** ** Looking ([IsDir], [Exist], [NotExist]) *)

Lemma os_Stat_run q n w :
  tree_ok (nodes w) -> faults w = [] -> nodes w !! q = Some n -> os_Stat (abs q) w = (Ok (Base (abs q), n), w).
Proof. intros. unfold os_Stat. by rewrite (look_run q true _ w n). Qed.

Lemma os_Lstat_run q n w :
  tree_ok (nodes w) -> faults w = [] -> nodes w !! q = Some n -> os_Lstat (abs q) w = (Ok (Base (abs q), n), w).
Proof. intros. unfold os_Lstat. by rewrite (look_run q false _ w n). Qed.

Lemma os_Stat_missing q w :
  tree_ok (nodes w) -> Forall plain q -> faults w = [] -> nodes w !! q = None ->
  exists e, os_Stat (abs q) w = (Err e, w).
Proof. intros. unfold os_Stat. by apply look_missing. Qed.

Lemma IsDir_run q w :
  tree_ok (nodes w) -> Forall plain q -> faults w = [] -> IsDir (abs q) w = (dir_at (nodes w) q, w).
Proof.
  intros Hok Hq Hf. unfold IsDir, dir_at. destruct (nodes w !! q) as [n|] eqn:E.
  - rewrite (st_bind_run _ _ _ _ _ (os_Stat_run q n w Hok Hf E)). by destruct n.
  - destruct (os_Stat_missing q w) as [e Ee]; [done..|]. by rewrite (st_bind_run _ _ _ _ _ Ee).
Qed.

Lemma IsLink_run q n w :
  tree_ok (nodes w) -> faults w = [] -> nodes w !! q = Some n -> IsLink (abs q) w = (false, w).
Proof.
  intros Hok Hf Hn. unfold IsLink. rewrite (st_bind_run _ _ _ _ _ (os_Lstat_run q n w Hok Hf Hn)).
  by rewrite (proj2 Hok q n Hn).
Qed.

Lemma Readlink_run q n w :
  tree_ok (nodes w) -> faults w = [] -> nodes w !! q = Some n -> Readlink (abs q) w = ([], w).
Proof. intros Hok Hf Hn. unfold Readlink. by rewrite (st_bind_run _ _ _ _ _ (IsLink_run q n w Hok Hf Hn)). Qed.

(** A question about a path changes nothing. *)
Lemma NotExist_change q w P :
  tree_ok (nodes w) -> Forall plain q ->
  let '(b, w') := NotExist (abs q) w in
  change P w w' /\ nodes w' = nodes w /\ (b = true -> is_Some (nodes w !! q) -> faults w <> []).
Proof.
  intros Hok Hq. unfold NotExist, mbind, State_bind.
  pose proof (os_Stat_abs q w P Hok Hq) as H.
  destruct (os_Stat (abs q) w) as [[[nm n]|e] w1] eqn:E; destruct H as (Hc & Hn & _);
    (split; [done|]; split; [done|]); [done|].
  intros _ [n Hs] Hf. by rewrite (os_Stat_run q n w Hok Hf Hs) in E.
Qed.

Lemma NotExist_missing q w :
  tree_ok (nodes w) -> Forall plain q -> faults w = [] -> clear_way (nodes w) q -> nodes w !! q = None ->
  NotExist (abs q) w = (true, w).
Proof.
  intros Hok Hq Hf Hway Hn. unfold NotExist, os_Stat.
  by rewrite (st_bind_run _ _ _ _ _ (look_missing_clear q true _ w Hok Hq Hf Hway Hn)).
Qed.

(** ** Writing and appending *)

(** The directories on the way may be new, and the file may have changed. *)
Definition written (p : fpath) (c : bytes) (t : tree) (k : fpath) : Prop :=
  (t !! k = None /\ k `prefix_of` p) \/ k = p ++ [c].

Lemma ensure_dir_change p c w :
  tree_ok (nodes w) -> Forall plain p -> plain c ->
  let '(r, w') := ensure_dir (abs (p ++ [c])) w in
  grow (fun k => k `prefix_of` p) w w' /\
  (faults w = [] -> clear_way (nodes w) p -> r = Ok tt /\ dir_at (nodes w') p = true).
Proof.
  intros Hok Hp Hc. unfold ensure_dir. rewrite Dir_abs by done.
  pose proof (NotExist_change p w (fun k => nodes w !! k = None /\ k `prefix_of` p) Hok Hp) as H.
  unfold mbind, State_bind. destruct (NotExist (abs p) w) as [b w1] eqn:E1. destruct H as (H1 & Hn1 & Hb).
  destruct b.
  - pose proof (os_MkdirAll_change 511 p w1 (ch_ok _ _ _ H1) Hp) as H2.
    destruct (os_MkdirAll (abs p) 511 w1) as [r w2] eqn:E2. destruct H2 as [H2 Hd].
    split; [by eapply grow_trans|]. intros Hf Hway.
    destruct (os_MkdirAll_run 511 p w1) as [w2' E2'];
      [apply (ch_ok _ _ _ H1)|by apply (ch_faults _ _ _ H1)|done|by rewrite Hn1|].
    rewrite E2 in E2'. injection E2' as -> _. split; [done|]. apply dir_at_Some. by apply Hd.
  - split; [done|]. intros Hf Hway. split; [done|]. rewrite Hn1.
    destruct (Hway p) as [Hno|]; [done| |done].
    by rewrite NotExist_missing in E1.
Qed.

Lemma dir_at_keep Q w w' k : grow Q w w' -> dir_at (nodes w) k = true -> dir_at (nodes w') k = true.
Proof. intros Hg [m Hm]%dir_at_Some. apply dir_at_Some. exists m. by eapply grow_keep. Qed.

(** A write that fails has appended a part of the data. *)
Lemma f_Write_part h data w old m :
  nodes w !! h = Some (NFile old m) ->
  let '(r, w') := f_Write h data w in
  exists d m', d `prefix_of` data /\ nodes w' !! h = Some (NFile (old ++ d) m') /\ (r = Ok tt -> d = data).
Proof.
  intros Hh. unfold f_Write. rewrite syscall_eq.
  destruct (default None (head (faults w))) as [[n e]|].
  - exists (take n data). eexists. split; [exists (drop n data); by rewrite take_drop|]. split; [|done].
    unfold append_to. cbn [next_call nodes]. rewrite Hh. cbn. by rewrite lookup_insert_eq.
  - unfold mbind, State_bind, append_to. cbn [next_call nodes]. rewrite Hh. cbn.
    exists data. eexists. split; [done|]. split; [|done]. by rewrite lookup_insert_eq.
Qed.

(** Opening the file for writing, once its directory is there. *)
Lemma open_in_dir p c (trunc : bool) w w1 :
  tree_ok (nodes w) -> Forall plain p -> plain c -> grow (fun k => k `prefix_of` p) w w1 ->
  let '(r, w2) := os_OpenFile (abs (p ++ [c])) trunc 420 w1 in
  change (written p c (nodes w)) w w2 /\
  (forall h, r = Ok h -> h = p ++ [c] /\ exists m, nodes w2 !! (p ++ [c]) =
     Some (NFile (if trunc then [] else
                  match nodes w !! (p ++ [c]) with Some (NFile old _) => old | _ => [] end) m)) /\
  (forall e, r = Err e -> nodes w2 !! (p ++ [c]) = nodes w !! (p ++ [c])) /\
  (faults w = [] -> dir_at (nodes w1) p = true -> dir_at (nodes w) (p ++ [c]) = false -> r = Ok (p ++ [c])).
Proof.
  intros Hok Hp Hc H1. assert (Forall plain (p ++ [c])) as Hpc
    by (apply Forall_app; split; [done|by apply Forall_singleton]).
  assert (nodes w1 !! (p ++ [c]) = nodes w !! (p ++ [c])) as Hsame.
  { apply (ch_keep _ _ _ H1). intros [_ H%prefix_length]. rewrite length_app in H. simpl in H. lia. }
  pose proof (os_OpenFile_abs (p ++ [c]) trunc 420 w1 (ch_ok _ _ _ H1) Hpc) as H2.
  destruct (os_OpenFile _ _ _ w1) as [r w2] eqn:E2. destruct H2 as [H2 Hh]. split; [|split; [|split]].
  - eapply change_trans; [|refine (change_mono _ _ _ _ _ H2); by intros k [-> _]; right].
    refine (change_mono _ _ _ _ _ H1). by intros k Hk; left.
  - intros h ->. destruct (Hh h eq_refl) as (-> & _ & d & m & Hm & ->). split; [done|]. exists m.
    by rewrite <- Hsame.
  - intros e ->. rewrite <- Hsame. unfold os_OpenFile in E2.
    match type of E2 with path_call _ _ ?f _ = _ =>
      pose proof (path_call_abs (p ++ [c]) true f w1 (ch_ok _ _ _ H1) Hpc) as H3 end.
    rewrite E2 in H3. destruct H3 as (_ & _ & H3). by rewrite H3.
  - intros Hf Hd Hnd. apply dir_at_Some in Hd as [m Hm].
    destruct (os_OpenFile_run (p ++ [c]) trunc 420 w1) as [w2' E];
      [apply (ch_ok _ _ _ H1)|by apply (ch_faults _ _ _ H1)|by eapply has_parent_dir| |congruence].
    unfold dir_at in *. by rewrite Hsame.
Qed.

(** What [Append] and [Write] do to the file: with [trunc] it is emptied first. *)
Lemma write_in_dir p c (trunc : bool) data w :
  tree_ok (nodes w) -> Forall plain p -> plain c ->
  let old := if trunc then [] else
             match nodes w !! (p ++ [c]) with Some (NFile old _) => old | _ => [] end in
  let '(r, w') := (_ ←? ensure_dir (abs (p ++ [c]));
                   f ←? os_OpenFile (abs (p ++ [c])) trunc 420;
                   f_Write f data) w in
  change (written p c (nodes w)) w w' /\
  (r = Ok tt -> exists m, nodes w' !! (p ++ [c]) = Some (NFile (old ++ data) m)) /\
  (nodes w' !! (p ++ [c]) = nodes w !! (p ++ [c]) \/
   exists d m, d `prefix_of` data /\ nodes w' !! (p ++ [c]) = Some (NFile (old ++ d) m)) /\
  (faults w = [] -> clear_way (nodes w) p -> dir_at (nodes w) (p ++ [c]) = false -> r = Ok tt).
Proof.
  intros Hok Hp Hc old. pose proof (ensure_dir_change p c w Hok Hp Hc) as H1.
  destruct (ensure_dir (abs (p ++ [c])) w) as [[u|e] w1] eqn:E1; destruct H1 as [H1 Hr1].
  2: { rewrite (try_bind_err _ _ _ _ _ E1). split; [|split; [done|split]].
       - refine (change_mono _ _ _ _ _ H1). by intros k Hk; left.
       - left. apply (ch_keep _ _ _ H1). intros [_ H%prefix_length]. rewrite length_app in H. simpl in H. lia.
       - intros Hf Hway. by destruct (Hr1 Hf Hway). }
  rewrite (try_bind_ok _ _ _ _ _ E1).
  pose proof (open_in_dir p c trunc w w1 Hok Hp Hc H1) as H2.
  destruct (os_OpenFile (abs (p ++ [c])) trunc 420 w1) as [[h|e] w2] eqn:E2; destruct H2 as (H2 & Hh & He & Hr2).
  2: { rewrite (try_bind_err _ _ _ _ _ E2). split; [done|split; [done|split]].
       - left. by apply (He e).
       - intros Hf Hway Hd. destruct (Hr1 Hf Hway) as [_ Hd1]. by specialize (Hr2 Hf Hd1 Hd). }
  rewrite (try_bind_ok _ _ _ _ _ E2). destruct (Hh h eq_refl) as [-> [m Hm]]. fold old in Hm.
  pose proof (f_Write_change (p ++ [c]) data w2 (written p c (nodes w)) (ch_ok _ _ _ H2)) as H3.
  pose proof (f_Write_part (p ++ [c]) data w2 _ _ Hm) as H4.
  destruct (f_Write (p ++ [c]) data w2) as [r w3]. destruct H3 as (H3 & Ho & Hf3); [by right|].
  split; [by eapply change_trans|]. split; [|split].
  - intros ->. by eapply Ho.
  - right. destruct H4 as (d & m' & Hd & H4 & _). by exists d, m'.
  - intros Hf _ _. apply Hf3. by apply (ch_faults _ _ _ H2).
Qed.

Lemma Read_run q data m w :
  tree_ok (nodes w) -> faults w = [] -> nodes w !! q = Some (NFile data m) -> Read (abs q) w = (Ok data, w).
Proof. apply os_ReadFile_run. Qed.

(** With no file on the way and no failing call, [Write] makes the missing directories
    and changes nothing but those and the file. *)
Lemma Write_run p c data w :
  tree_ok (nodes w) -> faults w = [] -> Forall plain p -> plain c ->
  clear_way (nodes w) p -> dir_at (nodes w) (p ++ [c]) = false ->
  exists w', Write (abs (p ++ [c])) data w = (Ok tt, w') /\ Read (abs (p ++ [c])) w' = (Ok data, w') /\
    tree_ok (nodes w') /\ faults w' = [] /\ (exists m, nodes w' !! (p ++ [c]) = Some (NFile data m)) /\
    forall k, ~ written p c (nodes w) k -> nodes w' !! k = nodes w !! k.
Proof.
  intros Hok Hf Hp Hc Hway Hd. pose proof (write_in_dir p c true data w Hok Hp Hc) as H.
  change (_ ←? ensure_dir _; f ←? _; f_Write f data) with (Write (abs (p ++ [c])) data) in H.
  destruct (Write (abs (p ++ [c])) data w) as [r w']. destruct H as (Hch & Hs & _ & Hr).
  specialize (Hr Hf Hway Hd) as ->. destruct (Hs eq_refl) as [m Hm].
  pose proof (ch_ok _ _ _ Hch) as Hok'. pose proof (ch_faults _ _ _ Hch Hf) as Hf'.
  exists w'. split; [done|]. split; [by eapply Read_run|]. repeat (split; [by eauto|]).
  apply (ch_keep _ _ _ Hch).
Qed.

(** Whatever fails, [Append] loses nothing of what the file held: the file is as
    before, or a part of the data follows it; all of the data if [Append] reports no
    error. *)
Theorem Append_keeps p c data old m w :
  tree_ok (nodes w) -> Forall plain p -> plain c -> nodes w !! (p ++ [c]) = Some (NFile old m) ->
  let '(r, w') := Append (abs (p ++ [c])) data w in
  exists d m', d `prefix_of` data /\ nodes w' !! (p ++ [c]) = Some (NFile (old ++ d) m') /\
    (r = Ok tt -> d = data) /\ forall k, ~ written p c (nodes w) k -> nodes w' !! k = nodes w !! k.
Proof.
  intros Hok Hp Hc Hold. pose proof (write_in_dir p c false data w Hok Hp Hc) as H.
  change (_ ←? ensure_dir _; f ←? _; f_Write f data) with (Append (abs (p ++ [c])) data) in H.
  cbn zeta in H. destruct (Append (abs (p ++ [c])) data w) as [r w']. rewrite Hold in H.
  destruct H as (Hch & Hs & Hpart & _). pose proof (ch_keep _ _ _ Hch) as Hk.
  assert (r = Ok tt \/ r <> Ok tt) as [->|Hr] by (destruct r as [[]|]; [by left|by right]).
  - destruct (Hs eq_refl) as [m' Hm']. by exists data, m'.
  - destruct Hpart as [E|(d & m' & Hd & E)].
    + exists [], m. rewrite app_nil_r, E. split; [apply prefix_nil|]. by split.
    + by exists d, m'.
Qed.

(** A file that is there has only directories on its way. *)
Lemma wf_clear_way t p c n : wf_tree t -> t !! (p ++ [c]) = Some n -> clear_way t p.
Proof.
  intros Hwf Hn k [r ->]. right. apply dir_at_Some. rewrite <- app_assoc in Hn.
  eapply wf_ancestor; [done|exact Hn|]. by destruct r.
Qed.

Lemma Append_run p c data old m w :
  tree_ok (nodes w) -> faults w = [] -> Forall plain p -> plain c -> nodes w !! (p ++ [c]) = Some (NFile old m) ->
  exists w' m', Append (abs (p ++ [c])) data w = (Ok tt, w') /\ tree_ok (nodes w') /\ faults w' = [] /\
    nodes w' !! (p ++ [c]) = Some (NFile (old ++ data) m').
Proof.
  intros Hok Hf Hp Hc Hold. pose proof (write_in_dir p c false data w Hok Hp Hc) as H.
  change (_ ←? ensure_dir _; f ←? _; f_Write f data) with (Append (abs (p ++ [c])) data) in H.
  cbn zeta in H. destruct (Append (abs (p ++ [c])) data w) as [r w1] eqn:E1. rewrite Hold in H.
  destruct H as (Hch & Hs & _ & Hr).
  specialize (Hr Hf (wf_clear_way _ _ _ _ (proj1 Hok) Hold)).
  unfold dir_at in Hr. rewrite Hold in Hr. specialize (Hr eq_refl) as ->. destruct (Hs eq_refl) as [m' Hm'].
  exists w1, m'. split; [done|]. split; [apply (ch_ok _ _ _ Hch)|]. split; [by apply (ch_faults _ _ _ Hch)|done].
Qed.

(** Chunks appended one after the other. *)
Lemma Append_chunks p c chunks old m w :
  tree_ok (nodes w) -> faults w = [] -> Forall plain p -> plain c -> nodes w !! (p ++ [c]) = Some (NFile old m) ->
  exists rs w', st_mapM (fun d => Append (abs (p ++ [c])) d) chunks w = (rs, w') /\
    Forall (fun r => r = Ok tt) rs /\ Read (abs (p ++ [c])) w' = (Ok (old ++ concat chunks), w').
Proof.
  intros Hok Hf Hp Hc Hold. revert old m w Hok Hf Hold.
  induction chunks as [|d chunks IH]; intros old m w Hok Hf Hold.
  - exists [], w. split; [done|]. split; [done|]. cbn. rewrite app_nil_r. by eapply Read_run.
  - destruct (Append_run p c d old m w Hok Hf Hp Hc Hold) as (w1 & m1 & E1 & Hok1 & Hf1 & Hm1).
    destruct (IH _ _ _ Hok1 Hf1 Hm1) as (rs & w' & E2 & Hrs & HR). exists (Ok tt :: rs), w'. split.
    { cbn [st_mapM]. rewrite (st_bind_run _ _ _ _ _ E1). by rewrite (st_bind_run _ _ _ _ _ E2). }
    split; [by constructor|]. cbn [concat]. by rewrite app_assoc.
Qed.

(** C38: What [Write] stores and [Append] adds is what [Read] returns: with no file on the
    way and no failing call [Write] makes the missing directories and succeeds, every
    [Append] after it succeeds, and the contents are the data and the chunks in order. *)
Theorem Write_Append_Read p c data chunks w :
  tree_ok (nodes w) -> faults w = [] -> Forall plain p -> plain c ->
  clear_way (nodes w) p -> dir_at (nodes w) (p ++ [c]) = false ->
  exists w1 rs w2, Write (abs (p ++ [c])) data w = (Ok tt, w1) /\
    st_mapM (fun d => Append (abs (p ++ [c])) d) chunks w1 = (rs, w2) /\ Forall (fun r => r = Ok tt) rs /\
    Read (abs (p ++ [c])) w2 = (Ok (data ++ concat chunks), w2).
Proof.
  intros Hok Hf Hp Hc Hway Hd.
  destruct (Write_run p c data w Hok Hf Hp Hc Hway Hd) as (w1 & Hw & _ & Hok1 & Hf1 & [m Hm] & _).
  destruct (Append_chunks p c chunks data m w1 Hok1 Hf1 Hp Hc Hm) as (rs & w2 & Ha & Hrs & Hr).
  by exists w1, rs, w2.
Qed.

(** ** Saving and loading *)

(** What the encoders promise on the values [P]: what they encode they decode again. *)
Class Marshaler {V : Type} (P : V -> Prop) (marshal : V -> result bytes) (unmarshal : bytes -> result V) : Prop := {
  marshal_ok : forall v, P v -> exists raw, marshal v = Ok raw /\ unmarshal raw = Ok v
}.

(** What [SaveJson] or [SaveYaml] stores, [ReadJson] or [ReadYaml] returns. *)
Theorem save_load {V : Type} (P : V -> Prop) marshal unmarshal `{!Marshaler P marshal unmarshal} p c (v : V) w :
  tree_ok (nodes w) -> faults w = [] -> Forall plain p -> plain c ->
  clear_way (nodes w) p -> dir_at (nodes w) (p ++ [c]) = false -> P v ->
  exists w', save marshal (abs (p ++ [c])) v w = (Ok tt, w') /\
    load unmarshal (abs (p ++ [c])) w' = (Ok v, w').
Proof.
  intros Hok Hf Hp Hc Hway Hd Hv. destruct (marshal_ok v Hv) as (raw & Hm & Hu).
  destruct (Write_run p c raw w Hok Hf Hp Hc Hway Hd) as (w' & Hw & Hr & _).
  exists w'. unfold save, load. rewrite Hm. split.
  - by rewrite (try_bind_ok _ _ _ raw w).
  - rewrite (try_bind_ok _ _ _ _ _ Hr). by rewrite Hu.
Qed.

(** ** A concrete disk for the examples *)

Module FilerDemo.

Definition mt : meta := Meta 493 0 0 0.
Definition home : bytes := $"home".
Definition docs : bytes := $"docs".

(** /home/docs/a.txt and /home/b.txt *)
Definition disk : tree :=
  list_to_map [([], NDir mt); ([home], NDir mt); ([home; docs], NDir mt);
    ([home; docs; $"a.txt"], NFile ($"hello") mt); ([home; $"b.txt"], NFile ($"bye") mt)].

Definition world : os := Os disk (Process [] 18 0 0 0) [].

Lemma disk_ok : tree_ok (nodes world).
Proof. apply tree_okb_ok. vm_compute. reflexivity. Defined.

(** The disk is full in the middle of the third call. *)
Definition full : os := Os disk (Process [] 18 0 0 0) [None; None; Some (2%nat, EOther 28)].

(** An encoder of booleans. *)
Definition marshal (b : bool) : result bytes := Ok (if b then $"true" else $"false").
Definition unmarshal (raw : bytes) : result bool := Ok (bool_decide (raw = $"true")).

#[export] Instance marshaler : Marshaler (fun _ => True) marshal unmarshal.
Proof. split. intros [] _; eexists; split; reflexivity. Defined.

Lemma home_plain : Forall plain [home] /\ plain ($"new") /\ plain ($"b.txt") /\ Forall plain [home; $"b.txt"].
Proof. unfold plain. apply (bool_decide_unpack _). vm_compute. exact I. Defined.

Lemma home_clear : clear_way (nodes world) [home].
Proof.
  intros p Hp. right. destruct p as [|x p]; [reflexivity|].
  apply prefix_cons_inv_1 in Hp as E. subst x. apply prefix_cons_inv_2 in Hp.
  apply prefix_nil_inv in Hp as ->. reflexivity.
Defined.

End FilerDemo.
Import FilerDemo.

Lemma Write_Append_Read_witness :
  exists w1 rs w2, Write ($"/home/new") ($"ab") world = (Ok tt, w1) /\
    st_mapM (fun d => Append ($"/home/new") d) [$"c"; $"de"] w1 = (rs, w2) /\ Forall (fun r => r = Ok tt) rs /\
    Read ($"/home/new") w2 = (Ok ($"abcde"), w2).
Proof.
  apply (Write_Append_Read [home] ($"new") ($"ab") [$"c"; $"de"] world);
    [apply disk_ok|reflexivity|apply home_plain|apply home_plain|apply home_clear|reflexivity].
Defined.

Lemma Append_keeps_witness :
  exists d m', d `prefix_of` $"!!!" /\
    nodes (snd (Append ($"/home/b.txt") ($"!!!") full)) !! [home; $"b.txt"] = Some (NFile ($"bye" ++ d) m').
Proof.
  pose proof (Append_keeps [home] ($"b.txt") ($"!!!") ($"bye") mt full) as H.
  change (abs ([home] ++ [$"b.txt"])) with ($"/home/b.txt") in H.
  destruct (Append ($"/home/b.txt") ($"!!!") full) as [r w'].
  destruct H as (d & m' & Hd & Hn & _); [apply disk_ok|apply home_plain|apply home_plain|reflexivity|].
  exists d, m'. split; [exact Hd|exact Hn].
Defined.

Example Append_full_run :
  option_map node_size (nodes (snd (Append ($"/home/b.txt") ($"!!!") full)) !! [home; $"b.txt"]) = Some 5.
Proof. vm_compute. reflexivity. Qed.

Lemma save_load_witness :
  exists w', save marshal ($"/home/new") true world = (Ok tt, w') /\ load unmarshal ($"/home/new") w' = (Ok true, w').
Proof.
  apply (save_load (fun _ => True) marshal unmarshal [home] ($"new") true world);
    [apply disk_ok|reflexivity|apply home_plain|apply home_plain|apply home_clear|reflexivity|exact I].
Defined.
