(* ===== verification/FilerTree.v ===== *)
(** * Package [filer] on whole trees

    What [Move], [List], [DirSize] and [ReleaseEmbedFS] of [Filer] do to a tree and see
    of it, and that every operation of the package keeps the tree well-formed. *)

From stdpp Require Import sorting.
From S2P Require Import Prelude GoStr GoPath GoTree GoTreeFacts TreeWalk TreeMove Filer.

Local Open Scope Z_scope.

(** ** Moving *)

(** Where [Move] puts the source: into the target when that is a directory. *)
Definition move_target (t : tree) (src dst : fpath) : fpath :=
  if dir_at t dst then dst ++ [default [] (last src)] else dst.

Lemma Move_exists src dst (n : node) w :
  tree_ok (nodes w) -> faults w = [] -> Forall plain src -> src <> [] -> nodes w !! dst = Some n ->
  Move (abs src) (abs dst) true w =
  (_ ←? os_RemoveAll (abs (move_target (nodes w) src dst));
   os_Rename (abs src) (abs (move_target (nodes w) src dst))) w.
Proof.
  intros Hok Hf Hs Hne Hd. unfold Move. rewrite (st_bind_run _ _ _ _ _ (os_Stat_run dst n w Hok Hf Hd)).
  cbn [negb]. unfold move_target, dir_at. rewrite Hd.
  destruct n; cbn [is_dir]; [|done..]. destruct src as [|c p _] using rev_ind; [done|].
  apply Forall_app in Hs as [_ Hc]. rewrite Forall_singleton in Hc.
  rewrite Base_abs, last_snoc by done. cbn [default]. rewrite JoinPath_child; [done| |done].
  by eapply wf_plain; [apply Hok|].
Qed.

(** C39: [Move] without a failing call: the source's subtree is afterwards under the new
    place, its nodes unchanged, where it was nothing is left, a target that [overwrite]
    allows to replace is gone with what was under it, and no other node has changed. *)
Theorem Move_moves src dst (overwrite : bool) w :
  tree_ok (nodes w) -> faults w = [] -> Forall plain src -> src <> [] -> is_Some (nodes w !! src) ->
  let target := move_target (nodes w) src dst in
  has_parent (nodes w) target -> under src target = false -> under target src = false ->
  (nodes w !! dst = None \/ overwrite = true) ->
  exists w', Move (abs src) (abs dst) overwrite w = (Ok tt, w') /\ tree_ok (nodes w') /\
    forall k, nodes w' !! k = renamed src target (nodes w) k.
Proof.
  intros Hok Hf Hs Hne Hsrc target Hp Hst Hts Hov.
  assert (Forall plain target) as Ht by by eapply has_parent_plain; [apply Hok|].
  destruct (nodes w !! dst) as [n|] eqn:Hd.
  - destruct Hov as [?| ->]; [done|]. rewrite (Move_exists src dst n) by done. fold target.
    rewrite (try_bind_ok _ _ _ _ _ (os_RemoveAll_run target w Hok Hf Hp)).
    set (w1 := Os _ _ _).
    assert (target <> []) as Htne by by eapply has_parent_plain; [apply Hok|].
    assert (tree_ok (nodes w1)) as Hok1 by by apply remove_tree_ok.
    assert (nodes w1 !! src = nodes w !! src) as Hsrc1 by (cbn; by rewrite remove_tree_lookup, Hts).
    assert (can_rename (nodes w1) src target) as Hcr.
    { destruct Hp as (p & c & m & Etg & Hc & Hm). split; [by rewrite Hsrc1|done| | |done].
      - exists p, c, m. split; [done|]. split; [done|]. cbn. rewrite remove_tree_lookup, Etg.
        destruct (under (p ++ [c]) p) eqn:E; [|done]. apply under_length in E.
        rewrite length_app in E. simpl in E. lia.
      - left. cbn. by rewrite remove_tree_lookup, under_refl. }
    pose proof (os_Rename_run src target w1 Hok1 eq_refl Hcr) as ->.
    eexists. split; [done|]. destruct Hcr as [[n1 Hn1] _ Hp1 Hfree _]. split.
    { eapply rename_tree_ok; try done. destruct Hfree as [E|[_ E]]; [unfold dir_at; by rewrite E|done]. }
    intros k. cbn. rewrite rename_tree_lookup. unfold renamed. rewrite !remove_tree_lookup.
    destruct (under target k) eqn:Ek; [|done].
    apply under_spec in Ek as [r ->]. rewrite drop_app_length.
    destruct (under target (src ++ r)) eqn:E; [|done]. exfalso. apply under_spec in E.
    destruct (prefix_weak_total src target (src ++ r)) as [H|H];
      [by exists r|done|by apply under_spec in H; congruence..].
  - assert (target = dst) as Etg by (unfold target, move_target, dir_at; by rewrite Hd).
    rewrite Etg in *. destruct (os_Stat_missing dst w) as [e Ee]; [done..|].
    unfold Move. rewrite (st_bind_run _ _ _ _ _ Ee).
    assert (can_rename (nodes w) src dst) as Hcr by (split; auto).
    rewrite (os_Rename_run src dst w) by done. eexists. split; [done|]. destruct Hsrc as [n Hn].
    split; [|intros k; apply rename_tree_lookup]. eapply rename_tree_ok; try done. unfold dir_at. by rewrite Hd.
Qed.

(** With [overwrite], [Move] deletes the target before it knows that the source is
    there and is something else: for a source that is missing, or that is the target
    itself, it reports an error and the file at the target is gone. *)
Theorem Move_deletes_first src dst data m w :
  tree_ok (nodes w) -> faults w = [] -> has_parent (nodes w) src ->
  nodes w !! dst = Some (NFile data m) -> nodes w !! src = None \/ src = dst ->
  Move (abs src) (abs dst) true w = (Err ENotExist, Os (delete dst (nodes w)) (proc w) []).
Proof.
  intros Hok Hf Hp Hd Hsrc. pose proof Hok as [Hwf Hnl].
  destruct (has_parent_plain _ _ Hwf Hp) as [Hs Hne].
  assert (dst <> []) as Hdne by (intros ->; destruct (wf_root _ Hwf); congruence).
  rewrite (Move_exists src dst _ w Hok Hf Hs Hne Hd).
  assert (move_target (nodes w) src dst = dst) as -> by (unfold move_target, dir_at; by rewrite Hd).
  rewrite (try_bind_ok _ _ _ _ _ (os_RemoveAll_run dst w Hok Hf (node_has_parent _ _ _ Hwf Hd Hdne))).
  assert (remove_tree dst (nodes w) = delete dst (nodes w)) as Hrm.
  { apply map_eq. intros k. rewrite remove_tree_lookup. destruct (decide (k = dst)) as [->|Hk].
    - by rewrite under_refl, lookup_delete_eq.
    - rewrite lookup_delete_ne by done. destruct (under dst k) eqn:E; [|done].
      destruct (nodes w !! k) as [n|] eqn:En; [|done]. exfalso. apply Hk.
      eapply leaf_under; [done| |exact En|done]. unfold dir_at. by rewrite Hd. }
  rewrite Hrm. set (w1 := Os _ _ _).
  assert (nodes w1 !! src = None) as Hs1.
  { cbn. destruct Hsrc as [E| ->]; [|apply lookup_delete_eq].
    rewrite lookup_delete_ne; [done|]. intros ->. congruence. }
  assert (tree_ok (nodes w1)) as Hok1 by (cbn; rewrite <- Hrm; by apply remove_tree_ok).
  assert (forall q, has_parent (nodes w) q -> has_parent (nodes w1) q) as Hpar.
  { intros q (p & c & m' & -> & Hc & Hm'). exists p, c, m'. split; [done|]. split; [done|].
    cbn. rewrite lookup_delete_ne; [done|]. intros ->. congruence. }
  unfold os_Rename. rewrite syscall_eq. cbn [faults w1 head default]. rewrite next_call_id by done.
  rewrite (locate_abs _ _ _ src); [|apply Hok1|by apply Hpar|done].
  rewrite (locate_abs _ _ _ dst); [|apply Hok1|by apply Hpar, (node_has_parent _ _ _ Hwf Hd)|done].
  rewrite bool_decide_eq_false_2 by done. by rewrite Hs1.
Qed.

(** Without [overwrite] an existing target is an error and nothing happens. *)
Lemma Move_refuses src dst n w :
  tree_ok (nodes w) -> faults w = [] -> nodes w !! dst = Some n ->
  Move (abs src) (abs dst) false w = (Err EExist, w).
Proof. intros Hok Hf Hd. unfold Move. by rewrite (st_bind_run _ _ _ _ _ (os_Stat_run dst n w Hok Hf Hd)). Qed.

(** Whatever fails, [Move] leaves the rest of the disk alone. *)
Lemma Move_change src dst (overwrite : bool) w :
  tree_ok (nodes w) -> Forall plain src -> src <> [] -> Forall plain dst ->
  let '(_, w') := Move (abs src) (abs dst) overwrite w in
  change (fun k => under src k = true \/ under dst k = true) w w'.
Proof.
  intros Hok Hs Hne Hd. set (P := fun k => _). unfold Move.
  pose proof (os_Stat_abs dst w P Hok Hd) as H.
  destruct (os_Stat (abs dst) w) as [r w1] eqn:E1. destruct H as (H1 & Hn1 & Hr).
  rewrite (st_bind_run _ _ _ _ _ E1).
  assert (forall target w2, change P w w2 -> under dst target = true -> Forall plain target ->
    change P w (snd (os_Rename (abs src) (abs target) w2))) as Hren.
  { intros tg w2 H2 Hu Htg. pose proof (os_Rename_change src tg w2 (ch_ok _ _ _ H2) Hs Htg) as H3.
    destruct (os_Rename _ _ w2) as [r3 w3]. destruct H3 as [H3 _]. cbn.
    eapply change_trans; [exact H2|]. refine (change_mono _ _ _ _ _ H3).
    intros k [Hk|Hk]; [by left|right]. by eapply under_trans. }
  destruct r as [[nm info]|e].
  2: { specialize (Hren dst w1 H1 (under_refl dst) Hd). by destruct (os_Rename _ _ w1). }
  destruct overwrite; cbn [negb]; [|done].
  assert (forall tg, under dst tg = true -> Forall plain tg -> tg <> [] ->
    change P w (snd ((_ ←? os_RemoveAll (abs tg); os_Rename (abs src) (abs tg)) w1))) as Hgo.
  { intros tg Hu Htg Htne. pose proof (os_RemoveAll_change tg w1 (ch_ok _ _ _ H1) Htg Htne) as H2.
    destruct (os_RemoveAll (abs tg) w1) as [[u|e] w2] eqn:E2; destruct H2 as [H2 _];
      (assert (change P w w2) as H12 by (eapply change_trans; [exact H1|];
        refine (change_mono _ _ _ _ _ H2); intros k Hk; right; by eapply under_trans)).
    - rewrite (try_bind_ok _ _ _ _ _ E2). by apply Hren.
    - by rewrite (try_bind_err _ _ _ _ _ E2). }
  match goal with |- let '(_, _) := ?x in _ => enough (change P w (snd x)) by (by destruct x) end.
  destruct (is_dir info) eqn:Hdir; cbn zeta.
  - destruct src as [|c p _] using rev_ind; [done|].
    pose proof Hs as [_ Hc]%Forall_app. rewrite Forall_singleton in Hc.
    rewrite Base_abs, JoinPath_child by done. apply Hgo; [apply under_app| |by destruct dst].
    apply Forall_app; split; [done|by apply Forall_singleton].
  - apply Hgo; [apply under_refl|done|]. intros ->.
    destruct (wf_root _ (proj1 Hok)) as [m Hm]. rewrite Hm in Hr. by injection Hr as <-.
Qed.

(** ** The size of a directory *)

(** What [DirSize] is to compute: the sizes of everything but directories. *)
Definition leaf_size (t : tree) (k : fpath) : Z :=
  match t !! k with Some n => if is_dir n then 0 else node_size n | None => 0 end.

Definition total_size (t : tree) (l : list fpath) : Z := foldr (fun k s => leaf_size t k + s) 0 l.

Lemma total_size_perm t l1 l2 : l1 ≡ₚ l2 -> total_size t l1 = total_size t l2.
Proof. induction 1; cbn [total_size foldr] in *; unfold total_size in *; lia. Qed.

Lemma i64_add z y : i64 (i64 z + y) = i64 (z + y).
Proof.
  unfold i64. f_equal.
  replace ((z + 2 ^ 63) mod 2 ^ 64 - 2 ^ 63 + y + 2 ^ 63) with ((z + 2 ^ 63) mod 2 ^ 64 + y) by lia.
  rewrite Z.add_mod_idemp_l by lia. f_equal. lia.
Qed.

Definition add_leaf (t : tree) (k : fpath) (x : Z) : Z :=
  if dir_at t k then x else i64 (x + leaf_size t k).

Lemma add_leaf_eq t k x : in_i64 x -> add_leaf t k x = i64 (x + leaf_size t k).
Proof.
  intros Hx. unfold add_leaf, leaf_size, dir_at.
  destruct (t !! k) as [[m|data m|tg m]|]; cbn [is_dir]; [by rewrite Z.add_0_r, i64_id|done..].
Qed.

Lemma visits_size t l x : in_i64 x -> visits (add_leaf t) l x = i64 (x + total_size t l).
Proof.
  unfold visits. revert x. induction l as [|k l IH]; intros x Hx; cbn [fold_left total_size foldr].
  - by rewrite Z.add_0_r, i64_id.
  - rewrite add_leaf_eq by done. rewrite IH, i64_add by auto with golib.
    f_equal. fold (total_size t l). lia.
Qed.

(** C40: [DirSize] of a tree without symbolic links is the sum of the sizes of the files
    in it, as a 64-bit number; the walk ends when the fuel is the number of nodes. *)
Theorem DirSize_total fuel q n w :
  tree_ok (nodes w) -> faults w = [] -> nodes w !! q = Some n -> (size (nodes w) <= fuel)%nat ->
  DirSize fuel (abs q) w = (Ok (i64 (total_size (nodes w) (keys_under (nodes w) q))), w).
Proof.
  intros Hok Hf Hn Hfuel. unfold DirSize, WalkDir.
  rewrite (st_bind_run _ _ _ _ _ (lift_Lstat w Hok Hf q n 0 Hn)).
  pose proof (keys_under_size (nodes w) q) as Hk.
  rewrite (st_bind_run _ _ _ None (w, visits (add_leaf (nodes w)) (walk_order fuel (nodes w) q) 0)).
  - cbn. rewrite visits_size by (by vm_compute).
    rewrite (total_size_perm _ _ (keys_under (nodes w) q)); [done|].
    apply walk_order_keys; [apply Hok|by exists n|lia].
  - apply (walk_dir_run w q (add_leaf (nodes w)) Hok Hf); [|done|apply under_refl|done|lia].
    intros k n' x info Hk' _ Hi. unfold size_callback, add_leaf, leaf_size, dir_at.
    rewrite (st_bind_run _ _ _ _ _ (Hi x)). rewrite Hk'.
    destruct n' as [m|data m|tg m]; cbn [is_dir is_link]; try done.
Qed.

(** ** Listing a directory *)

Section listing.
Variables LookupId LookupGroupId : Z -> result bytes.

Lemma os_Lstat_child q c n w :
  tree_ok (nodes w) -> faults w = [] -> nodes w !! (q ++ [c]) = Some n ->
  exists nm, os_Lstat (abs q ++ slash :: c) w = (Ok (nm, n), w).
Proof.
  intros Hok Hf Hn. destruct (wf_parent _ (proj1 Hok) _ _ _ Hn) as [Hc _].
  destruct (decide (q = [])) as [->|Hne].
  - eexists. unfold os_Lstat, look. rewrite path_call_eq, Hf, next_call_id by done. cbn [head default].
    assert (locate (nodes w) (cwd (proc w)) false (abs [] ++ slash :: c) = Ok [c]) as ->.
    { unfold locate. rewrite bool_decide_eq_false_2 by done.
      change (IsAbs (abs [] ++ slash :: c)) with true. cbn match.
      rewrite Split_app_gen. change (Split (abs []) slash) with ([[]; []] : list bytes).
      rewrite Split_no_sep by apply Hc. cbn [app].
      assert (forall cs, resolve max_links (nodes w) false [] ([] :: cs) = resolve max_links (nodes w) false [] cs)
        as Hskip by done.
      rewrite !Hskip, resolve_cons by done. change ([] ++ [c]) with [c] in *. rewrite Hn.
      destruct n; [by rewrite resolve_nil|done|done]. }
    change ([] ++ [c]) with [c] in Hn. rewrite Hn.
    destruct w as [t pr fs]. cbn in *. by subst fs.
  - exists (Base (abs (q ++ [c]))).
    assert (abs q ++ slash :: c = abs (q ++ [c])) as -> by (unfold abs; by rewrite Join_snoc).
    by apply os_Lstat_run.
Qed.

Definition listed (t : tree) (q : fpath) (c : bytes) : list FileInfo :=
  match t !! (q ++ [c]) with
  | Some n => [file_info LookupId LookupGroupId c n [] (is_dir n)]
  | None => []
  end.

Lemma list_loop_run q names w :
  tree_ok (nodes w) -> faults w = [] -> (forall c, c ∈ names -> c ∈ list_dir (nodes w) q) ->
  list_loop LookupId LookupGroupId (abs q) names w = (Ok (flat_map (listed (nodes w) q) names), w).
Proof.
  intros Hok Hf. induction names as [|c names IH]; intros Hin; [done|].
  assert (c ∈ list_dir (nodes w) q) as Hc by (apply Hin; set_solver).
  destruct (child_plain _ _ _ (proj1 Hok) Hc) as [Hpq Hpc]. apply elem_of_list_dir in Hc as [n Hn].
  cbn [list_loop flat_map]. destruct (os_Lstat_child q c n w Hok Hf Hn) as [nm Enm].
  rewrite (try_bind_ok _ _ _ _ _ Enm). rewrite JoinPath_child by done.
  rewrite (st_bind_run _ _ _ _ _ (Readlink_run _ _ w Hok Hf Hn)).
  rewrite (st_bind_run _ _ _ _ _ (IsDir_run (q ++ [c]) w Hok (wf_plain _ _ _ (proj1 Hok) Hn) Hf)).
  rewrite (try_bind_ok _ _ _ _ _ (IH (fun c' H => Hin c' (list_elem_of_further _ _ _ H)))).
  unfold listed at 2, dir_at. rewrite Hn. by destruct n.
Qed.

(** [List] of a directory, when no call fails: one entry for each name in it, in the
    order of the names, with the node's data; nothing is changed. *)
Theorem List_spec q m w :
  tree_ok (nodes w) -> faults w = [] -> nodes w !! q = Some (NDir m) ->
  exists infos, List_ LookupId LookupGroupId (abs q) w = (Ok infos, w) /\
    StronglySorted str_le (map Name infos) /\ NoDup (map Name infos) /\
    forall fi, fi ∈ infos <-> exists c n, nodes w !! (q ++ [c]) = Some n /\
      fi = file_info LookupId LookupGroupId c n [] (is_dir n).
Proof.
  intros Hok Hf Hm. exists (flat_map (listed (nodes w) q) (list_dir (nodes w) q)).
  assert (map Name (flat_map (listed (nodes w) q) (list_dir (nodes w) q)) = list_dir (nodes w) q) as Hnames.
  { assert (forall c, c ∈ list_dir (nodes w) q -> is_Some (nodes w !! (q ++ [c]))) as Hin
      by (intros c; apply elem_of_list_dir).
    induction (list_dir (nodes w) q) as [|c l IH]; [done|]. cbn [flat_map].
    destruct (Hin c) as [n Hn]; [set_solver|]. rewrite map_app, IH by (intros; apply Hin; set_solver).
    unfold listed, file_info. rewrite Hn. by destruct (getFileOwner _ _ n). }
  split; [|split; [|split]].
  - unfold List_, os_ReadDir.
    rewrite (try_bind_ok _ _ _ _ _ (look_run q true _ w _ Hok Hf Hm)). rewrite map_map. cbn [fst].
    rewrite map_id. by apply list_loop_run.
  - rewrite Hnames. apply list_dir_sorted.
  - rewrite Hnames. apply NoDup_list_dir.
  - intros fi. rewrite elem_of_flat_map. unfold listed. split.
    + intros (c & [n Hn]%elem_of_list_dir & Hfi). rewrite Hn in Hfi.
      apply list_elem_of_singleton in Hfi. by exists c, n.
    + intros (c & n & Hn & ->). exists c. split; [apply elem_of_list_dir; by exists n|].
      rewrite Hn. by apply list_elem_of_singleton.
Qed.
End listing.

(** ** Concrete runs *)

Import FilerDemo.

Lemma Move_moves_witness :
  exists w', Move ($"/home/b.txt") ($"/home/docs") true world = (Ok tt, w') /\ tree_ok (nodes w') /\
    forall k, nodes w' !! k = renamed [home; $"b.txt"] [home; docs; $"b.txt"] (nodes world) k.
Proof.
  apply (Move_moves [home; $"b.txt"] [home; docs] true world);
    [apply disk_ok|reflexivity|apply home_plain|discriminate|by eexists| |reflexivity|reflexivity|by right].
  exists [home; docs], ($"b.txt"), mt. split; [reflexivity|]. split; [apply home_plain|reflexivity].
Defined.

Lemma Move_deletes_first_witness :
  Move ($"/home/b.txt") ($"/home/b.txt") true world =
  (Err ENotExist, Os (delete [home; $"b.txt"] disk) (Process [] 18 0 0 0) []).
Proof.
  apply (Move_deletes_first [home; $"b.txt"] [home; $"b.txt"] ($"bye") mt world);
    [apply disk_ok|reflexivity| |reflexivity|by right].
  exists [home], ($"b.txt"), mt. split; [reflexivity|]. split; [apply home_plain|reflexivity].
Defined.

Lemma DirSize_total_witness :
  DirSize 5 ($"/home") world = (Ok (i64 (total_size disk (keys_under disk [home]))), world).
Proof. apply (DirSize_total 5 [home] (NDir mt) world); [apply disk_ok|reflexivity|reflexivity|vm_compute; lia]. Defined.

Example DirSize_run : fst (DirSize 5 ($"/home") world) = Ok 8.
Proof. vm_compute. reflexivity. Qed.

(** A symbolic link is counted with the length of its target, here 18. *)
Example DirSize_counts_links :
  fst (DirSize 9 ($"/home") (Os (<[[home; $"l"] := NLink ($"/home/docs/../../x") mt]> disk) (Process [] 18 0 0 0) [])) = Ok 26.
Proof. vm_compute. reflexivity. Qed.

Definition no_accounts (id : Z) : result bytes := Err (EOther 0).

Lemma List_spec_witness :
  exists infos, List_ no_accounts no_accounts ($"/home") world = (Ok infos, world) /\ map Name infos = [$"b.txt"; docs].
Proof.
  destruct (List_spec no_accounts no_accounts [home] mt world) as (infos & E & _); [apply disk_ok|reflexivity|reflexivity|].
  change (abs [home]) with ($"/home") in E. exists infos. split; [exact E|].
  assert (option_map (map Name) (match fst (List_ no_accounts no_accounts ($"/home") world) with Ok l => Some l | Err _ => None end)
          = Some [$"b.txt"; docs]) as H by (vm_compute; reflexivity).
  rewrite E in H. cbn in H. by injection H.
Defined.
