(* ===== verification/FilerRelease.v ===== *)
(** * Package [filer]: releasing an embedded tree

    [ReleaseEmbedFS] of [Filer] copies the whole embedded tree, or leaves nothing.  At the
    end, all operations of the package that change the disk, in any order. *)

From S2P Require Import Prelude GoStr GoPath GoTree GoTreeFacts TreeWalk TreeMove Filer FilerTree.

Local Open Scope Z_scope.

(** ** Single new nodes *)

Lemma os_WriteFile_new q data mode w :
  tree_ok (nodes w) -> faults w = [] -> has_parent (nodes w) q -> nodes w !! q = None ->
  os_WriteFile (abs q) data mode w =
  (Ok tt, Os (<[q := NFile data (new_meta (proc w) mode)]> (nodes w)) (proc w) []).
Proof.
  intros Hok Hf Hp Hq. unfold os_WriteFile, os_OpenFile.
  rewrite (try_bind_ok _ _ _ q (Os (<[q := NFile [] (new_meta (proc w) mode)]> (nodes w)) (proc w) [])).
  - unfold f_Write. rewrite syscall_eq. cbn [faults head default]. rewrite next_call_id by done.
    unfold mbind, State_bind, append_to. cbn [nodes proc]. rewrite lookup_insert_eq. cbn.
    by rewrite insert_insert_eq.
  - rewrite path_call_run by auto. by rewrite Hq.
Qed.

Lemma os_MkdirAll_dir q mode w :
  tree_ok (nodes w) -> faults w = [] -> Forall plain q -> dir_at (nodes w) q = true ->
  os_MkdirAll (abs q) mode w = (Ok tt, w).
Proof.
  intros Hok Hf Hq [m Hm]%dir_at_Some. unfold os_MkdirAll. rewrite comps_abs, IsAbs_abs by done.
  pose proof (os_Stat_run q _ w Hok Hf Hm) as Hst. unfold mkdir_all.
  destruct (reverse q) as [|c l] eqn:E;
    [apply (proj1 (reverse_nil_iff _)) in E as ->|rewrite <- E, reverse_involutive];
    (rewrite (st_bind_run _ _ _ _ _ Hst); done).
Qed.

Lemma os_MkdirAll_new q mode w :
  tree_ok (nodes w) -> faults w = [] -> has_parent (nodes w) q -> nodes w !! q = None ->
  os_MkdirAll (abs q) mode w =
  (Ok tt, Os (<[q := NDir (new_meta (proc w) mode)]> (nodes w)) (proc w) []).
Proof.
  intros Hok Hf Hp Hq. destruct (has_parent_plain _ _ (proj1 Hok) Hp) as [Hpl _].
  assert (forall w1, w1 = w -> mkdir_last (abs q) mode w1 =
    (Ok tt, Os (<[q := NDir (new_meta (proc w) mode)]> (nodes w)) (proc w) [])) as Hlast.
  { intros ? ->. unfold mkdir_last, os_Mkdir, mbind, State_bind. rewrite path_call_run by auto. by rewrite Hq. }
  unfold os_MkdirAll. rewrite comps_abs, IsAbs_abs by done.
  destruct (os_Stat_missing q w Hok Hpl Hf Hq) as [e He].
  destruct Hp as (p & c & m & -> & Hc & Hm). apply Forall_app in Hpl as [Hp _].
  pose proof (os_MkdirAll_dir p mode w Hok Hf Hp) as Hd.
  unfold os_MkdirAll in Hd. rewrite comps_abs, IsAbs_abs in Hd by done.
  rewrite reverse_snoc. cbn [mkdir_all]. rewrite reverse_cons, reverse_involutive.
  change ([slash] ++ Join (p ++ [c]) [slash]) with (abs (p ++ [c])).
  rewrite (st_bind_run _ _ _ _ _ He).
  destruct (reverse p) as [|c' rest]; [by apply Hlast|].
  rewrite (try_bind_ok _ _ _ tt w) by (apply Hd, dir_at_Some; by exists m). by apply Hlast.
Qed.

(** ** The embedded tree *)

(** Entries with their names below [root], parents first, none twice; what [fs.WalkDir]
    gives for a well-formed embedded tree. *)
Inductive efs_shape (rw : fpath) : list (fpath * efs_entry) -> list (fpath * efs_entry) -> Prop :=
  | efs_nil seen : efs_shape rw seen []
  | efs_cons seen r e l :
      Forall plain r -> e_path e = Join (rw ++ r) [slash] ->
      r ∉ seen.*1 ->
      (r = [] /\ e_dir e = true \/
       r <> [] /\ exists e', (removelast r, e') ∈ seen /\ e_dir e' = true) ->
      (e_dir e = false -> exists data, e_data e = Ok data) ->
      efs_shape rw ((r, e) :: seen) l ->
      efs_shape rw seen ((r, e) :: l).

(** The node that is released for an entry: of a file the permissions are zero. *)
Definition released (e : efs_entry) (n : option node) : Prop :=
  if e_dir e then exists m, n = Some (NDir m)
  else exists data m, e_data e = Ok data /\ n = Some (NFile data m) /\ m_perm m = 0.

Record release_inv (d : fpath) (seen : list (fpath * efs_entry)) (t : tree) : Prop := {
  ri_root : dir_at t d = true;
  ri_seen : forall r e, (r, e) ∈ seen -> released e (t !! (d ++ r));
  ri_rest : forall r, r <> [] -> r ∉ seen.*1 -> t !! (d ++ r) = None
}.

Lemma release_inv_insert d seen t r e n :
  release_inv d seen t -> r <> [] -> r ∉ seen.*1 -> released e (Some n) ->
  release_inv d ((r, e) :: seen) (<[d ++ r := n]> t).
Proof.
  intros [Hroot Hseen Hrest] Hne Hr Hn. split.
  - unfold dir_at. rewrite lookup_insert_ne; [done|]. intros E. apply (f_equal length) in E.
    rewrite length_app in E. destruct r; [done|simpl in E; lia].
  - intros r' e' [[= -> ->]|Hin]%elem_of_cons; [by rewrite lookup_insert_eq|].
    rewrite lookup_insert_ne; [by apply Hseen|]. intros E%app_inv_head. subst r'. apply Hr.
    apply list_elem_of_fmap. by exists (r, e').
  - intros r' Hne' Hr'. rewrite fmap_cons, not_elem_of_cons in Hr'. destruct Hr' as [Hrr Hr'].
    rewrite lookup_insert_ne; [by apply Hrest|]. intros E%app_inv_head. by apply Hrr.
Qed.

Lemma mode_zero mode : Z.land (Z.land mode ModeType) 511 = 0.
Proof. rewrite <- Z.land_assoc. change (Z.land ModeType 511) with 0. apply Z.land_0_r. Qed.

Lemma target_abs d r : Forall plain d -> Forall plain r ->
  JoinPath [abs d; if decide (r = []) then dot else Join r [slash]] = abs (d ++ r).
Proof.
  intros Hd Hr. rewrite JoinPath_abs by done. destruct (decide (r = [])) as [->|Hne].
  - rewrite app_nil_r. unfold walk_names. change (Split dot slash) with [dot]. cbn [fold_left].
    change (clean_step true (reverse d) dot) with (reverse d). by rewrite reverse_involutive.
  - by rewrite walk_names_rel.
Qed.

(** ** One entry *)

(** The step of the loop for one entry. *)
Definition release_one (root tempDir : bytes) (d : efs_entry) : State os (result unit) :=
  relPath ←? mret (Rel root (e_path d));
  let targetPath := JoinPath [tempDir; relPath] in
  if e_dir d then os_MkdirAll targetPath 493
  else
    data ←? mret (e_data d);
    os_WriteFile targetPath data (Z.land (Z.land (e_mode d) ModeType) 511).

Lemma release_loop_cons root tempDir e l w :
  release_loop root tempDir (Ok e :: l) w =
  (_ ←? release_one root tempDir e; release_loop root tempDir l) w.
Proof.
  cbn [release_loop]. unfold release_one, try_bind, mbind, State_bind, mret, State_ret. cbn.
  destruct (Rel root (e_path e)); [|done]. done.
Qed.

Section loop.
Context (rw d : fpath).
Hypothesis Hrw : Forall plain rw.
Hypothesis Hrne : rw <> [].
Hypothesis Hd : Forall plain d.

Lemma release_one_eq r e w :
  Forall plain r -> e_path e = Join (rw ++ r) [slash] ->
  release_one (Join rw [slash]) (abs d) e w =
  (if e_dir e then os_MkdirAll (abs (d ++ r)) 493
   else data ←? mret (e_data e); os_WriteFile (abs (d ++ r)) data 0) w.
Proof.
  intros Hr He. unfold release_one. rewrite He, Rel_rel_app by (try done; by apply Forall_app).
  rewrite (try_bind_ok _ _ _ (if decide (r = []) then dot else Join r [slash]) w) by done.
  rewrite target_abs by done. by rewrite mode_zero.
Qed.

Lemma release_one_run seen r e w :
  tree_ok (nodes w) -> faults w = [] -> release_inv d seen (nodes w) ->
  Forall plain r -> e_path e = Join (rw ++ r) [slash] -> r ∉ seen.*1 ->
  (r = [] /\ e_dir e = true \/ r <> [] /\ exists e', (removelast r, e') ∈ seen /\ e_dir e' = true) ->
  (e_dir e = false -> exists data, e_data e = Ok data) ->
  exists w', release_one (Join rw [slash]) (abs d) e w = (Ok tt, w') /\
    tree_ok (nodes w') /\ faults w' = [] /\ release_inv d ((r, e) :: seen) (nodes w') /\
    forall k, under d k = false -> nodes w' !! k = nodes w !! k.
Proof.
  intros Hok Hf Hinv Hr He Hns Hpar Hdata. rewrite release_one_eq with (r := r) by done.
  destruct Hpar as [[-> Hdir]|[Hne (e' & Hin & Hdir)]].
  - rewrite Hdir, app_nil_r. rewrite os_MkdirAll_dir by (try done; by apply Hinv).
    exists w. split; [done|]. split; [done|]. split; [done|]. split; [|done].
    destruct Hinv as [H1 H2 H3]. split; [done| |].
    + intros r e' [[= -> ->]|Hin]%elem_of_cons; [|by apply H2]. unfold released. rewrite Hdir, app_nil_r.
      by apply dir_at_Some.
    + intros r Hr1 Hr2. apply H3; [done|]. set_solver.
  - assert (has_parent (nodes w) (d ++ r)) as Hp.
    { destruct r as [|c r _] using rev_ind; [done|]. rewrite removelast_last in Hin.
      apply Forall_app in Hr as [_ Hc]. rewrite Forall_singleton in Hc.
      apply (ri_seen _ _ _ Hinv) in Hin. unfold released in Hin. rewrite Hdir in Hin.
      destruct Hin as [m Hm]. rewrite app_assoc. by exists (d ++ r), c, m. }
    assert (nodes w !! (d ++ r) = None) as Hnone by by apply (ri_rest _ _ _ Hinv).
    assert (forall n, is_link n = false -> released e (Some n) ->
      let w' := Os (<[d ++ r := n]> (nodes w)) (proc w) [] in
      tree_ok (nodes w') /\ faults w' = [] /\ release_inv d ((r, e) :: seen) (nodes w') /\
      forall k, under d k = false -> nodes w' !! k = nodes w !! k) as Hins.
    { intros n Hl Hn. cbn. split; [|split; [done|split; [by apply release_inv_insert|]]].
      - apply tree_ok_insert; [done..|]. unfold dir_at. by rewrite Hnone.
      - intros k Hk. rewrite lookup_insert_ne; [done|]. intros <-. by rewrite under_app in Hk. }
    destruct (e_dir e) eqn:Ed.
    + rewrite os_MkdirAll_new by done. eexists. split; [done|]. apply Hins; [done|].
      unfold released. rewrite Ed. by eexists.
    + destruct (Hdata eq_refl) as [data Hdt]. rewrite Hdt. rewrite (try_bind_ok _ _ _ data w) by done.
      rewrite os_WriteFile_new by done. eexists. split; [done|]. apply Hins; [done|].
      unfold released. rewrite Ed. exists data. eexists. by split.
Qed.

Lemma release_loop_run l seen w :
  tree_ok (nodes w) -> faults w = [] -> release_inv d seen (nodes w) -> efs_shape rw seen l ->
  exists w', release_loop (Join rw [slash]) (abs d) (map (fun re => Ok (snd re)) l) w = (Ok tt, w') /\
    release_inv d (rev_append l seen) (nodes w') /\
    forall k, under d k = false -> nodes w' !! k = nodes w !! k.
Proof.
  intros Hok Hf Hinv Hs. revert w Hok Hf Hinv.
  induction Hs as [seen|seen r e l Hr He Hns Hpar Hdata _ IH]; intros w Hok Hf Hinv; [by exists w|].
  destruct (release_one_run seen r e w) as (w1 & E1 & Hok1 & Hf1 & Hinv1 & Hk1); [done..|].
  destruct (IH w1 Hok1 Hf1 Hinv1) as (w' & E & Hinv' & Hk'). exists w'. split; [|split; [done|]].
  - cbn [map snd]. rewrite release_loop_cons. by rewrite (try_bind_ok _ _ _ _ _ E1).
  - intros k Hk. by rewrite Hk', Hk1.
Qed.

(** Entries, whole or not, of names below the root. *)
Definition below (x : result efs_entry) : Prop :=
  match x with
  | Ok e => exists r, Forall plain r /\ e_path e = Join (rw ++ r) [slash]
  | Err _ => True
  end.

Lemma os_WriteFile_change q data mode w P :
  tree_ok (nodes w) -> Forall plain q -> (dir_at (nodes w) q = false -> P q) ->
  let '(_, w') := os_WriteFile (abs q) data mode w in change P w w'.
Proof.
  intros Hok Hq HP. unfold os_WriteFile. pose proof (os_OpenFile_abs q true mode w Hok Hq) as H.
  destruct (os_OpenFile _ _ _ w) as [[h|e] w1] eqn:E; destruct H as [H1 Hh].
  all: assert (change P w w1) as Hc by (refine (change_mono _ _ _ _ _ H1); intros k [-> Hk]; auto).
  - rewrite (try_bind_ok _ _ _ _ _ E). destruct (Hh h eq_refl) as (-> & Hq' & _).
    pose proof (f_Write_change q data w1 P (ch_ok _ _ _ H1) (HP Hq')) as H2.
    destruct (f_Write q data w1) as [r w2]. destruct H2 as [H2 _]. by eapply change_trans.
  - by rewrite (try_bind_err _ _ _ _ _ E).
Qed.

Definition inside (k : fpath) : Prop := under d k = true /\ k <> d.

Lemma release_one_change e w :
  tree_ok (nodes w) -> dir_at (nodes w) d = true -> below (Ok e) ->
  let '(_, w') := release_one (Join rw [slash]) (abs d) e w in change inside w w'.
Proof.
  intros Hok [m Hm]%dir_at_Some (r & Hr & He).
  assert (Forall plain (d ++ r)) as Hp by by apply Forall_app.
  rewrite release_one_eq with (r := r) by done. destruct (e_dir e).
  - pose proof (os_MkdirAll_change 493 (d ++ r) w Hok Hp) as H.
    destruct (os_MkdirAll _ _ w) as [u w1]. destruct H as [H _].
    refine (change_mono _ _ _ _ _ H). intros k [Hk Hpre]. split; [|by intros ->; rewrite Hm in Hk].
    destruct (prefix_weak_total k d (d ++ r)) as [[s ->]|Hdk]; [done|by exists r| |by apply under_spec].
    destruct (decide (s = [])) as [->|Hne]; [rewrite app_nil_r in Hm; congruence|].
    destruct (wf_ancestor _ k s _ (proj1 Hok) Hm Hne). congruence.
  - destruct (e_data e) as [data|err]; [|by apply change_refl].
    rewrite (try_bind_ok _ _ _ data w) by done. apply os_WriteFile_change; [done..|].
    intros Hda. split; [apply under_app|]. intros E. unfold dir_at in Hda. by rewrite E, Hm in Hda.
Qed.

Lemma release_loop_change entries w :
  tree_ok (nodes w) -> dir_at (nodes w) d = true -> Forall below entries ->
  let '(_, w') := release_loop (Join rw [slash]) (abs d) entries w in change inside w w'.
Proof.
  intros Hok Hdd Hb. revert w Hok Hdd.
  induction Hb as [|[e|err] entries Hx _ IH]; intros w Hok Hdd; [by apply change_refl| |by apply change_refl].
  rewrite release_loop_cons. pose proof (release_one_change e w Hok Hdd Hx) as H1.
  destruct (release_one _ _ e w) as [[u|err] w1] eqn:E1.
  - rewrite (try_bind_ok _ _ _ _ _ E1).
    assert (dir_at (nodes w1) d = true) as Hd1.
    { unfold dir_at. rewrite (ch_keep _ _ _ H1); [done|]. by intros [_ ?]. }
    specialize (IH w1 (ch_ok _ _ _ H1) Hd1).
    destruct (release_loop _ _ entries w1) as [r' w2]. by eapply change_trans.
  - by rewrite (try_bind_err _ _ _ _ _ E1).
Qed.
End loop.

(** ** The whole release *)

Lemma os_Mkdir_new q mode w :
  tree_ok (nodes w) -> faults w = [] -> has_parent (nodes w) q -> nodes w !! q = None ->
  os_Mkdir (abs q) mode w = (Ok tt, Os (<[q := NDir (new_meta (proc w) mode)]> (nodes w)) (proc w) []).
Proof. intros Hok Hf Hp Hq. unfold os_Mkdir. rewrite path_call_run by auto. by rewrite Hq. Qed.

(** Nothing is below a name that is free. *)
Lemma free_below t q k : wf_tree t -> t !! q = None -> under q k = true -> t !! k = None.
Proof.
  intros Hwf Hq [r ->]%under_spec. destruct (t !! (q ++ r)) as [n|] eqn:E; [|done].
  destruct (decide (r = [])) as [->|Hne]; [by rewrite app_nil_r, Hq in E|].
  destruct (wf_ancestor t q r n Hwf E Hne). congruence.
Qed.

(** Releasing a well-formed embedded tree, when no call fails, makes the temporary
    directory and in it every directory and every file of the tree with its contents,
    and changes nothing else.  Every file is made with no permission bits at all: the
    code takes them from the type bits of the entry. *)
Theorem ReleaseEmbedFS_spec rw l d w :
  tree_ok (nodes w) -> faults w = [] -> Forall plain rw -> rw <> [] ->
  has_parent (nodes w) d -> nodes w !! d = None -> efs_shape rw [] l ->
  exists w', ReleaseEmbedFS (map (fun re => Ok (snd re)) l) (Join rw [slash]) (abs d) w = (Ok (abs d), w') /\
    (forall r e, (r, e) ∈ l -> released e (nodes w' !! (d ++ r))) /\
    (forall k, under d k = false -> nodes w' !! k = nodes w !! k).
Proof.
  intros Hok Hf Hrw Hrne Hp Hd Hs. destruct (has_parent_plain _ _ (proj1 Hok) Hp) as [Hpl Hdne].
  unfold ReleaseEmbedFS. rewrite (try_bind_ok _ _ _ _ _ (os_Mkdir_new d 448 w Hok Hf Hp Hd)).
  set (w1 := Os _ _ _).
  assert (tree_ok (nodes w1)) as Hok1 by (apply tree_ok_insert; [done..|]; unfold dir_at; by rewrite Hd).
  destruct (release_loop_run rw d Hrw Hrne Hpl l [] w1) as (w' & E & Hinv & Hk); [done|done| |done|].
  { split; cbn; [|by intros r e ?%not_elem_of_nil|].
    - apply dir_at_Some. eexists. apply lookup_insert_eq.
    - intros r Hr _. rewrite lookup_insert_ne.
      + eapply free_below; [apply Hok|exact Hd|apply under_app].
      + intros E. apply (f_equal length) in E. rewrite length_app in E. destruct r; [done|simpl in E; lia]. }
  exists w'. rewrite (st_bind_run _ _ _ _ _ E). split; [done|]. split.
  - intros r e Hin. apply (ri_seen _ _ _ Hinv). rewrite rev_append_rev, app_nil_r.
    rewrite list_elem_of_In, <- in_rev, <- list_elem_of_In. done.
  - intros k Hu. rewrite Hk by done. cbn. rewrite lookup_insert_ne; [done|].
    intros <-. by rewrite under_refl in Hu.
Qed.

(** When [ReleaseEmbedFS] reports an error, of the embedded tree or of a name that
    is taken, and no system call fails, the disk is as it was: the temporary directory is
    removed with all that had been released. *)
Theorem ReleaseEmbedFS_cleans_up rw entries d w :
  tree_ok (nodes w) -> faults w = [] -> Forall plain rw -> rw <> [] ->
  has_parent (nodes w) d -> Forall (below rw) entries ->
  let '(r, w') := ReleaseEmbedFS entries (Join rw [slash]) (abs d) w in
  r <> Ok (abs d) -> nodes w' = nodes w.
Proof.
  intros Hok Hf Hrw Hrne Hp Hb. destruct (has_parent_plain _ _ (proj1 Hok) Hp) as [Hpl Hdne].
  unfold ReleaseEmbedFS. destruct (nodes w !! d) as [n|] eqn:Hd.
  { assert (os_Mkdir (abs d) 448 w = (Err EExist, w)) as E
      by (unfold os_Mkdir; rewrite path_call_run by auto; by rewrite Hd).
    by rewrite (try_bind_err _ _ _ _ _ E). }
  rewrite (try_bind_ok _ _ _ _ _ (os_Mkdir_new d 448 w Hok Hf Hp Hd)). set (w1 := Os _ _ _).
  assert (tree_ok (nodes w1)) as Hok1 by (apply tree_ok_insert; [done..|]; unfold dir_at; by rewrite Hd).
  assert (nodes w1 !! d = Some (NDir (new_meta (proc w) 448))) as Hd1 by apply lookup_insert_eq.
  pose proof (release_loop_change rw d Hrw Hrne Hpl entries w1 Hok1) as H.
  rewrite dir_at_Some in H. specialize (H (ex_intro _ _ Hd1) Hb).
  destruct (release_loop _ _ entries w1) as [r w2] eqn:E. rewrite (st_bind_run _ _ _ _ _ E).
  destruct r as [u|e]; [by cbn|].
  assert (nodes w2 !! d = nodes w1 !! d) as Hd2 by (apply (ch_keep _ _ _ H); by intros [_ ?]).
  rewrite Hd1 in Hd2.
  pose proof (os_RemoveAll_run d w2 (ch_ok _ _ _ H) (ch_faults _ _ _ H eq_refl)
    (node_has_parent _ _ _ (proj1 (ch_ok _ _ _ H)) Hd2 Hdne)) as Er.
  rewrite (st_bind_run _ _ _ _ _ Er). intros _. cbn. apply map_eq. intros k. rewrite remove_tree_lookup.
  destruct (under d k) eqn:Eu.
  - symmetry. eapply free_below; [apply Hok|exact Hd|done].
  - rewrite (ch_keep _ _ _ H) by (intros [? _]; congruence). cbn. rewrite lookup_insert_ne; [done|].
    intros <-. by rewrite under_refl in Eu.
Qed.

(** ** Any sequence of operations *)

Lemma ReleaseEmbedFS_change rw entries d w :
  tree_ok (nodes w) -> Forall plain rw -> rw <> [] -> Forall plain d -> d <> [] -> Forall (below rw) entries ->
  let '(_, w') := ReleaseEmbedFS entries (Join rw [slash]) (abs d) w in
  change (fun k => under d k = true) w w'.
Proof.
  intros Hok Hrw Hrne Hpl Hdne Hb. unfold ReleaseEmbedFS.
  pose proof (os_Mkdir_abs d 448 w Hok Hpl) as H1.
  destruct (os_Mkdir (abs d) 448 w) as [[u|e] w1] eqn:E1; destruct H1 as [H1 Hd1].
  all: assert (change (fun k => under d k = true) w w1) as H1'
      by (refine (change_mono _ _ _ _ _ H1); intros k [_ ->]; apply under_refl).
  2: by rewrite (try_bind_err _ _ _ _ _ E1).
  rewrite (try_bind_ok _ _ _ _ _ E1).
  destruct u. apply dir_at_Some in Hd1 as Hdd; [|done].
  pose proof (release_loop_change rw d Hrw Hrne Hpl entries w1 (ch_ok _ _ _ H1) Hdd Hb) as H2.
  destruct (release_loop _ _ entries w1) as [r w2] eqn:E2. rewrite (st_bind_run _ _ _ _ _ E2).
  assert (change (fun k => under d k = true) w w2) as H12.
  { eapply change_trans; [exact H1'|]. refine (change_mono _ _ _ _ _ H2). by intros k []. }
  destruct r as [u|e]; [by cbn|].
  pose proof (os_RemoveAll_change d w2 (ch_ok _ _ _ H12) Hpl Hdne) as H3.
  unfold mbind, State_bind. destruct (os_RemoveAll (abs d) w2) as [r w3]. destruct H3 as [H3 _].
  cbn. by eapply change_trans.
Qed.

Inductive call :=
  | CWrite (p : fpath) (c data : bytes)
  | CAppend (p : fpath) (c data : bytes)
  | CMove (src dst : fpath) (overwrite : bool)
  | CRelease (entries : list (result efs_entry)) (rw d : fpath).

Definition run_call (c : call) : State os unit :=
  match c with
  | CWrite p c data => Write (abs (p ++ [c])) data;; mret tt
  | CAppend p c data => Append (abs (p ++ [c])) data;; mret tt
  | CMove src dst overwrite => Move (abs src) (abs dst) overwrite;; mret tt
  | CRelease entries rw d => ReleaseEmbedFS entries (Join rw [slash]) (abs d);; mret tt
  end.

Definition call_ok (c : call) : Prop :=
  match c with
  | CWrite p c _ | CAppend p c _ => Forall plain p /\ plain c
  | CMove src dst _ => Forall plain src /\ src <> [] /\ Forall plain dst
  | CRelease entries rw d => Forall plain rw /\ rw <> [] /\ Forall plain d /\ d <> [] /\ Forall (below rw) entries
  end.

(** The places a call may change. *)
Definition touches (c : call) (k : fpath) : Prop :=
  match c with
  | CWrite p c _ | CAppend p c _ => k `prefix_of` p ++ [c]
  | CMove src dst _ => under src k = true \/ under dst k = true
  | CRelease _ _ d => under d k = true
  end.

Lemma written_touches p c t k : written p c t k -> k `prefix_of` p ++ [c].
Proof. intros [[_ H]| ->]; [by apply prefix_app_r|done]. Qed.

Lemma run_call_change c w :
  tree_ok (nodes w) -> call_ok c -> change (touches c) w (snd (run_call c w)).
Proof.
  intros Hok Hc. destruct c as [p c data|p c data|src dst overwrite|entries rw d]; cbn [run_call call_ok] in *.
  - destruct Hc as [Hp Hc]. pose proof (write_in_dir p c true data w Hok Hp Hc) as H.
    change (_ ←? ensure_dir _; f ←? _; f_Write f data) with (Write (abs (p ++ [c])) data) in H.
    unfold mbind, State_bind. destruct (Write _ _ w) as [r w']. destruct H as [H _]. cbn.
    refine (change_mono _ _ _ _ _ H). apply written_touches.
  - destruct Hc as [Hp Hc]. pose proof (write_in_dir p c false data w Hok Hp Hc) as H.
    change (_ ←? ensure_dir _; f ←? _; f_Write f data) with (Append (abs (p ++ [c])) data) in H.
    unfold mbind, State_bind. destruct (Append _ _ w) as [r w']. destruct H as [H _]. cbn.
    refine (change_mono _ _ _ _ _ H). apply written_touches.
  - destruct Hc as (Hs & Hne & Hd). pose proof (Move_change src dst overwrite w Hok Hs Hne Hd) as H.
    unfold mbind, State_bind. by destruct (Move _ _ _ w).
  - destruct Hc as (Hrw & Hrne & Hd & Hdne & Hb).
    pose proof (ReleaseEmbedFS_change rw entries d w Hok Hrw Hrne Hd Hdne Hb) as H.
    unfold mbind, State_bind. by destruct (ReleaseEmbedFS _ _ _ w).
Qed.

(** C18: Whatever system calls fail, and wherever they stop, every sequence of writes,
    appends, moves and releases keeps the tree well-formed (each node in a directory,
    under a proper name), and a place that no call of the sequence may touch keeps its
    node. *)
Theorem filer_calls_safe calls w :
  tree_ok (nodes w) -> Forall call_ok calls ->
  let w' := snd (st_mapM run_call calls w) in
  tree_ok (nodes w') /\
  forall k, (forall c, c ∈ calls -> ~ touches c k) -> nodes w' !! k = nodes w !! k.
Proof.
  intros Hok Hc. revert w Hok. induction Hc as [|c calls Hc _ IH]; intros w Hok; [done|].
  pose proof (run_call_change c w Hok Hc) as H1. cbn [st_mapM]. unfold mbind, State_bind.
  destruct (run_call c w) as [u w1]. cbn [snd] in H1. specialize (IH w1 (ch_ok _ _ _ H1)).
  destruct (st_mapM run_call calls w1) as [us w2]. destruct IH as [IH1 IH2]. cbn. split; [done|].
  intros k Hk. rewrite IH2 by (intros c' Hc'; apply Hk; set_solver).
  apply (ch_keep _ _ _ H1). apply Hk. set_solver.
Qed.

(** ** Concrete runs *)

Import FilerDemo.

Definition dist : bytes := $"dist".
Definition embedded : list (fpath * efs_entry) :=
  [([], EfsEntry ($"dist") true (2^31 + 365) (Err (EOther 21)));
   ([$"js"], EfsEntry ($"dist/js") true (2^31 + 365) (Err (EOther 21)));
   ([$"js"; $"app"], EfsEntry ($"dist/js/app") false 292 (Ok ($"x")))].

Lemma embedded_plain : Forall plain [dist] /\ plain ($"tmp") /\ Forall plain [$"js"] /\ Forall plain [$"js"; $"app"].
Proof. unfold plain. apply (bool_decide_unpack _). vm_compute. exact I. Defined.

Lemma tmp_parent : has_parent (nodes world) [$"tmp"].
Proof. exists [], ($"tmp"), mt. split; [reflexivity|]. split; [apply embedded_plain|reflexivity]. Defined.

Lemma embedded_shape : efs_shape [dist] [] embedded.
Proof.
  apply efs_cons; [constructor|reflexivity|by apply not_elem_of_nil|by left|discriminate|].
  apply efs_cons; [apply embedded_plain|reflexivity| |right; split; [discriminate|]|discriminate|].
  { apply (bool_decide_unpack _). vm_compute. exact I. }
  { eexists. split; [by left|reflexivity]. }
  apply efs_cons; [apply embedded_plain|reflexivity| |right; split; [discriminate|]|by eexists|apply efs_nil].
  { apply (bool_decide_unpack _). vm_compute. exact I. }
  { eexists. split; [by left|reflexivity]. }
Defined.

Lemma ReleaseEmbedFS_spec_witness :
  exists data m, nodes (snd (ReleaseEmbedFS (map (fun re => Ok (snd re)) embedded) ($"dist") ($"/tmp") world))
    !! [$"tmp"; $"js"; $"app"] = Some (NFile data m) /\ m_perm m = 0.
Proof.
  destruct (ReleaseEmbedFS_spec [dist] embedded [$"tmp"] world) as (w' & E & H & _);
    [apply disk_ok|reflexivity|apply embedded_plain|discriminate|apply tmp_parent|reflexivity|apply embedded_shape|].
  change (Join [dist] [slash]) with ($"dist") in E. change (abs [$"tmp"]) with ($"/tmp") in E. rewrite E.
  destruct (H [$"js"; $"app"] (EfsEntry ($"dist/js/app") false 292 (Ok ($"x")))) as (data & m & _ & Hn & Hm);
    [by right; right; left|]. exists data, m. split; [exact Hn|exact Hm].
Defined.

Lemma ReleaseEmbedFS_cleans_up_witness :
  nodes (snd (ReleaseEmbedFS [Ok (EfsEntry ($"dist") true (2^31 + 365) (Err (EOther 21))); Err (EOther 5)] ($"dist") ($"/tmp") world))
  = nodes world.
Proof.
  pose proof (ReleaseEmbedFS_cleans_up [dist]
    [Ok (EfsEntry ($"dist") true (2^31 + 365) (Err (EOther 21))); Err (EOther 5)] [$"tmp"] world) as H.
  change (abs [$"tmp"]) with ($"/tmp") in H. change (Join [dist] [slash]) with ($"dist") in H.
  assert (exists e, fst (ReleaseEmbedFS [Ok (EfsEntry ($"dist") true (2^31 + 365) (Err (EOther 21))); Err (EOther 5)]
            ($"dist") ($"/tmp") world) = Err e) as [e He] by (eexists; vm_compute; reflexivity).
  destruct (ReleaseEmbedFS _ ($"dist") ($"/tmp") world) as [r w']. cbn in He. subst r. cbn [snd].
  apply H; [apply disk_ok|reflexivity|apply embedded_plain|discriminate|apply tmp_parent| |discriminate].
  apply Forall_cons_2; [|apply Forall_singleton; exact I]. exists []. split; [constructor|reflexivity].
Defined.

Lemma filer_calls_safe_witness :
  tree_ok (nodes (snd (st_mapM run_call [CMove [home; $"b.txt"] [home; docs] true; CAppend [home] ($"new") ($"x")] full))).
Proof.
  apply (filer_calls_safe [CMove [home; $"b.txt"] [home; docs] true; CAppend [home] ($"new") ($"x")] full); [apply disk_ok|].
  apply Forall_cons_2; [|apply Forall_singleton; split; apply home_plain].
  split; [apply home_plain|]. split; [discriminate|]. unfold plain. apply (bool_decide_unpack _). vm_compute. exact I.
Defined.
