(* ===== verification/Archive.v ===== *)
(** * Package [archive]: making and extracting archives ([zip.go], [tar.gz.go])

    The walks, the paths and the system calls are those of the code.  The encodings
    of [archive/zip], [archive/tar] and [compress/gzip] are parameters.  The zip reader
    reads the data of an entry when it is opened; here they are read with the
    directory, so an archive with an entry of the archive's own name is outside the
    model. *)

From S2P Require Import Prelude GoStr GoPath GoTree GoTreeFacts TreeWalk Filer.

Local Open Scope Z_scope.

Definition os_ErrNotExist : error := ENotExist.

(** An entry as the reader gives it: [Open] may fail, and so may reading, after some of
    the data. *)
Record zip_entry := ZipEntry {
  z_Name : bytes; z_IsDir : bool; z_OpenErr : option error; z_data : bytes; z_err : option error
}.

(** ** Extracting a zip file *)

(** [io.Copy] to a file. *)
Definition copy_to (h : fpath) (data : bytes) (err : option error) : State os (result unit) :=
  _ ←? f_Write h data;
  mret (match err with Some e => Err e | None => Ok tt end).

(** The guard against entries outside of the directory. *)
Definition safe_dest (extractDir destPath : bytes) : bool :=
  match Rel extractDir destPath with
  | Err _ => false
  | Ok rel => negb (HasPrefix rel ($"..") || IsAbs rel)
  end.

(** The body of the loop. *)
Definition unzip_entry (extractDir : bytes) (f : zip_entry) : State os (result unit) :=
  let destPath := JoinPath [extractDir; z_Name f] in
  if negb (safe_dest extractDir destPath) then mret (Ok tt)
  else if z_IsDir f then os_MkdirAll destPath 493
  else
    _ ←? os_MkdirAll (Dir destPath) 493;
    match z_OpenErr f with
    | Some e => mret (Err e)
    | None =>
        outFile ←? os_Create destPath;
        copy_to outFile (z_data f) (z_err f)
    end.

Fixpoint unzip_loop (extractDir : bytes) (files : list zip_entry) : State os (result unit) :=
  match files with
  | [] => mret (Ok tt)
  | f :: rest => _ ←? unzip_entry extractDir f; unzip_loop extractDir rest
  end.

Section zip.
Variable zip_OpenReader : bytes -> result (list zip_entry).   (* of the bytes of the file *)
Variable zip_bytes : list (bytes * bytes) -> bytes.           (* what a closed writer has written *)

Definition Unzip (path : bytes) : State os (result unit) :=
  let extractDir := Dir path in
  raw ←? os_ReadFile path;
  files ←? mret (zip_OpenReader raw);
  unzip_loop extractDir files.

(** ** Making a zip file

    The state of the writer is the list of its entries; adding to it may fail as a
    system call does.  What is buffered is written by [Close]. *)

Definition zw_state : Type := os * list (bytes * bytes).

Definition zw_write : State zw_state (result unit) := lift_os _ (syscall nothing (mret (Ok tt))).

Definition zw_add (name data : bytes) : State zw_state unit :=
  modify (fun s => (fst s, snd s ++ [(name, data)])).

(** One file under a name: [Create], [Open], [Copy]. *)
Definition zip_one (name file : bytes) : State zw_state (option error) :=
  r ← zw_write;
  match r with
  | Err e => mret (Some e)
  | Ok _ =>
      f ← lift_os _ (os_Open file);
      match f with
      | Err e => mret (Some e)
      | Ok h =>
          data ← lift_os _ (f_ReadAll h);
          match data with
          | Err e => mret (Some e)
          | Ok data =>
              r ← zw_write;
              match r with
              | Err e => mret (Some e)
              | Ok _ => zw_add name data;; mret None
              end
          end
      end
  end.

Definition zipFile (srcPath : bytes) : State zw_state (option error) :=
  zip_one (Base srcPath) srcPath.

Definition zip_callback (srcPath filePath : bytes) (info : option node) (err : option error)
    : State zw_state (option error) :=
  match err, info with
  | Some e, _ => mret (Some e)
  | None, None => mret None
  | None, Some n =>
      if is_dir n then mret None
      else
        match Rel srcPath filePath with
        | Err e => mret (Some e)
        | Ok relPath => zip_one (JoinPath [Base srcPath; relPath]) filePath
        end
  end.

Definition zipDir (fuel : nat) (srcPath : bytes) : State zw_state (option error) :=
  Walk lift_os (zip_callback srcPath) fuel srcPath.

Definition zip_path (path : bytes) : bytes := JoinPath [Dir path; Base path ++ $".zip"].

(** The errors of [zw.Close] and of [f.Close] are not looked at. *)
Definition zip_finish (path : bytes) (f : fpath) (err : option error) (entries : list (bytes * bytes))
    : State os (result unit) :=
  _ ← f_Write f (zip_bytes entries);
  match err with
  | Some e => _ ← os_Remove (zip_path path); mret (Err e)
  | None => mret (Ok tt)
  end.

Definition zip_contents (fuel : nat) (path : bytes) (isdir : bool)
    : State os (option error * list (bytes * bytes)) := fun w =>
  let '(err, (w, entries)) := (if isdir then zipDir fuel path else zipFile path) (w, []) in
  ((err, entries), w).

Definition Zip (fuel : nat) (path : bytes) : State os (result unit) :=
  found ← Exist path;
  if negb found then mret (Err os_ErrNotExist)
  else
    f ←? os_Create (zip_path path);
    isdir ← IsDir path;
    '(err, entries) ← zip_contents fuel path isdir;
    zip_finish path f err entries.

End zip.

(** ** One file out of a tar archive *)

Definition TypeReg : Z := 48.

(** What the next call of [Next] gives, before the end of the archive: a header and the
    data that follow it, or an error. *)
Inductive tar_step :=
  | TarEntry (name : bytes) (typeflag : Z) (data : bytes) (err : option error)
  | TarErr (e : error).

Section tar.
(** The archive in the bytes of a file, if it has a gzip header. *)
Variable tar_gz : bytes -> result (list tar_step).

Fixpoint untar_loop (steps : list tar_step) (tarGzPath filename dest : bytes) : State os (result unit) :=
  match steps with
  | [] => mret (Err (ENew ($"archive: " ++ filename ++ $" not found in " ++ tarGzPath)))
  | TarErr e :: _ => mret (Err e)
  | TarEntry name typeflag data err :: rest =>
      if negb (typeflag =? TypeReg) then untar_loop rest tarGzPath filename dest
      else if negb (bool_decide (Base name = filename)) then untar_loop rest tarGzPath filename dest
      else
        out ←? os_OpenFile dest true 493;
        copy_to out data err
  end.

Definition UntarFile (tarGzPath filename dest : bytes) : State os (result unit) :=
  if bool_decide (tarGzPath = []) then mret (Err (ENew ($"tar.gz path is required")))
  else if bool_decide (filename = []) then mret (Err (ENew ($"filename is required")))
  else if bool_decide (dest = []) then mret (Err (ENew ($"destination path is required")))
  else
    raw ←? os_ReadFile tarGzPath;
    steps ←? mret (tar_gz raw);
    untar_loop steps tarGzPath filename dest.

End tar.

(** ** Where an entry goes *)

Definition dest (d : fpath) (e : zip_entry) : fpath := walk_names d (z_Name e).

Definition accepted (d : fpath) (e : zip_entry) : bool := safe_dest (abs d) (abs (dest d e)).

Lemma HasPrefix_dotdot_Join x ws :
  plain x -> HasPrefix (Join (x :: ws) [slash]) dotdot = HasPrefix x dotdot.
Proof.
  intros (H1 & H2 & _ & _). destruct ws as [|w ws]; [done|].
  change (Join (x :: w :: ws) [slash]) with (x ++ slash :: Join (w :: ws) [slash]).
  destruct x as [|a [|b x]]; [done| |].
  - unfold HasPrefix, dotdot. simpl. by repeat (case_decide; simpl).
  - unfold HasPrefix, dotdot. simpl. by repeat (case_decide; simpl).
Qed.

(** An entry is extracted if its place is under the directory and the first name on the
    way does not start with two dots. *)
Lemma accepted_iff d e :
  Forall plain d ->
  accepted d e = true <->
  exists ts, dest d e = d ++ ts /\ forall x l, ts = x :: l -> HasPrefix x dotdot = false.
Proof.
  intros Hd. unfold accepted. pose proof (walk_names_plain d (z_Name e) Hd) as Hq. fold (dest d e) in Hq.
  unfold safe_dest. change ($"..") with dotdot. split.
  - destruct (Rel (abs d) (abs (dest d e))) as [rel|] eqn:HR; [|done].
    intros [Hp _]%negb_true_iff%orb_false_iff.
    destruct (Rel_abs_down d (dest d e) rel Hd Hq HR Hp) as [ts Hts]. exists ts. split; [done|].
    intros x l ->. rewrite Hts in Hq. apply Forall_app in Hq as [_ Hq].
    rewrite Hts, Rel_abs_app in HR by done.
    assert (rel = Join (x :: l) [slash]) as -> by congruence.
    apply Forall_cons in Hq as [Hx _]. by rewrite HasPrefix_dotdot_Join in Hp.
  - intros (ts & Hts & Hh). rewrite Hts in Hq |- *. apply Forall_app in Hq as [_ Hq].
    destruct ts as [|x l].
    + rewrite app_nil_r. unfold Rel. by rewrite bool_decide_eq_true_2.
    + rewrite Rel_abs_app by done. pose proof Hq as [Hx _]%Forall_cons.
      rewrite HasPrefix_dotdot_Join, (Hh x l) by done. simpl.
      destruct Hx as (Hx1 & _ & _ & Hx4). destruct x as [|a x]; [done|].
      assert (a <> slash) by (intros ->; apply Hx4; by left).
      destruct l; simpl; by rewrite bool_decide_eq_false_2.
Qed.

Lemma Dir_abs_removelast q : Forall plain q -> Dir (abs q) = abs (removelast q).
Proof.
  intros Hq. destruct q as [|c q _] using rev_ind; [done|]. rewrite removelast_last.
  apply Forall_app in Hq as [Hq Hc]. rewrite Forall_singleton in Hc. by apply Dir_abs.
Qed.

Lemma removelast_prefix (q : fpath) : removelast q `prefix_of` q.
Proof.
  destruct q as [|c q _] using rev_ind; [done|]. rewrite removelast_last. by apply prefix_app_r.
Qed.

(** ** What extracting one entry changes *)

Definition touched (d : fpath) (w : os) (e : zip_entry) (k : fpath) : Prop :=
  accepted d e = true /\
  ((nodes w !! k = None /\ k `prefix_of` dest d e) \/
   (k = dest d e /\ z_IsDir e = false /\ dir_at (nodes w) k = false)).

Lemma dir_at_grow Q w w' k : grow Q w w' -> dir_at (nodes w') k = false -> dir_at (nodes w) k = false.
Proof.
  intros Hg. unfold dir_at. destruct (nodes w !! k) as [n|] eqn:E; [|done].
  by rewrite (grow_keep _ _ _ _ _ Hg E).
Qed.

Lemma copy_to_change h data err w P :
  tree_ok (nodes w) -> P h ->
  let '(r, w') := copy_to h data err w in
  change P w w' /\
  (r = Ok tt -> err = None /\ forall old m, nodes w !! h = Some (NFile old m) ->
     exists m', nodes w' !! h = Some (NFile (old ++ data) m')) /\
  (faults w = [] -> err = None -> r = Ok tt).
Proof.
  intros Hok HP. unfold copy_to. pose proof (f_Write_change h data w P Hok HP) as H.
  destruct (f_Write h data w) as [[u|e] w'] eqn:E; destruct H as (H1 & H2 & H3).
  - rewrite (try_bind_ok _ _ _ _ _ E). destruct u. split; [done|].
    destruct err as [e|]; [by split|]. split; [|done]. intros _. split; [done|by apply H2].
  - rewrite (try_bind_err _ _ _ _ _ E). split; [done|]. split; [done|].
    intros Hf. by specialize (H3 Hf).
Qed.

Lemma unzip_entry_change d e w :
  tree_ok (nodes w) -> Forall plain d ->
  let '(r, w') := unzip_entry (abs d) e w in
  change (touched d w e) w w' /\
  (r = Ok tt -> accepted d e = true ->
   if z_IsDir e then exists m, nodes w' !! dest d e = Some (NDir m)
   else exists m, nodes w' !! dest d e = Some (NFile (z_data e) m)).
Proof.
  intros Hok Hd. unfold unzip_entry. rewrite JoinPath_abs by done. fold (dest d e) (accepted d e).
  pose proof (walk_names_plain d (z_Name e) Hd) as Hq. fold (dest d e) in Hq.
  destruct (accepted d e) eqn:Ha; cbn [negb].
  2: { split; [by apply change_refl|done]. }
  destruct (z_IsDir e) eqn:Hdir.
  - pose proof (os_MkdirAll_change 493 _ w Hok Hq) as H.
    destruct (os_MkdirAll (abs (dest d e)) 493 w) as [r w']. destruct H as [H1 H2].
    split; [|auto]. refine (change_mono _ _ _ _ _ H1). intros k Hk. split; [done|by left].
  - rewrite Dir_abs_removelast by done.
    assert (Forall plain (removelast (dest d e))) as Hq'.
    { destruct (removelast_prefix (dest d e)) as [l Hl]. rewrite Hl in Hq. by apply Forall_app in Hq as [? _]. }
    pose proof (os_MkdirAll_change 493 _ w Hok Hq') as H.
    destruct (os_MkdirAll (abs (removelast (dest d e))) 493 w) as [[u|er] w1] eqn:E1; destruct H as [H1 _];
      (assert (change (touched d w e) w w1) as Hc1
         by (refine (change_mono _ _ _ _ _ H1); intros k [Hk1 Hk2]; split; [done|left; split; [done|];
             by etrans; [|apply removelast_prefix]])).
    2: { rewrite (try_bind_err _ _ _ _ _ E1). by split. }
    rewrite (try_bind_ok _ _ _ _ _ E1). destruct (z_OpenErr e) as [er|]; [by split|].
    pose proof (os_OpenFile_abs (dest d e) true 438 w1 (ch_ok _ _ _ H1) Hq) as H.
    unfold os_Create. destruct (os_OpenFile (abs (dest d e)) true 438 w1) as [[h|er] w2] eqn:E2; destruct H as [H2 H3].
    2: { rewrite (try_bind_err _ _ _ _ _ E2). split; [|done]. eapply change_trans; [exact Hc1|].
         refine (change_mono _ _ _ _ _ H2). intros k [-> Hk]. split; [done|right]. split; [done|].
         split; [done|]. by eapply dir_at_grow. }
    rewrite (try_bind_ok _ _ _ _ _ E2). destruct (H3 h eq_refl) as (-> & Hda & data & m & Hn & ->).
    assert (touched d w e (dest d e)) as Ht.
    { split; [done|right]. split; [done|]. split; [done|]. by eapply dir_at_grow. }
    pose proof (copy_to_change (dest d e) (z_data e) (z_err e) w2 (touched d w e) (ch_ok _ _ _ H2) Ht) as H.
    destruct (copy_to (dest d e) (z_data e) (z_err e) w2) as [r w3]. destruct H as (H4 & H5 & _). split.
    + eapply change_trans; [exact Hc1|]. eapply change_trans; [|exact H4].
      refine (change_mono _ _ _ _ _ H2). by intros k [-> _].
    + intros Hr _. destruct (H5 Hr) as [_ H6]. destruct (H6 _ _ Hn) as [m' Hm']. by exists m'.
Qed.

(** ** The loop *)

Definition strictly_under (d k : fpath) : Prop := exists r, r <> [] /\ k = d ++ r.

(** A directory of the tree, and the loop stays strictly below it. *)
Lemma touched_under d w e k m :
  wf_tree (nodes w) -> nodes w !! d = Some (NDir m) -> touched d w e k ->
  strictly_under d k /\ dir_at (nodes w) k = false.
Proof.
  intros Hwf Hm [Ha Hk]. pose proof (wf_plain _ _ _ Hwf Hm) as Hd.
  apply accepted_iff in Ha as (ts & Hts & _); [|done].
  destruct Hk as [[Hn Hk]|(-> & _ & Hk)].
  - split; [|unfold dir_at; by rewrite Hn]. rewrite Hts in Hk. destruct Hk as [l Hl].
    destruct (prefix_weak_total k d (d ++ ts)) as [[r Hr]|[r Hr]];
      [by exists l|by exists ts| |].
    + destruct r as [|c r]; [rewrite app_nil_r in Hr; congruence|].
      rewrite Hr in Hm. destruct (wf_ancestor _ k (c :: r) _ Hwf Hm) as [m' Hm']; [done|congruence].
    + exists r. split; [|done]. intros ->. rewrite app_nil_r in Hr. congruence.
  - split; [|done]. exists ts. split; [|done]. intros ->. rewrite app_nil_r in Hts.
    unfold dir_at in Hk. by rewrite Hts, Hm in Hk.
Qed.

Definition below (d : fpath) (w : os) (k : fpath) : Prop :=
  strictly_under d k /\ dir_at (nodes w) k = false.

Lemma unzip_entry_below d e w m :
  tree_ok (nodes w) -> nodes w !! d = Some (NDir m) ->
  let '(r, w') := unzip_entry (abs d) e w in
  change (below d w) w w' /\ nodes w' !! d = Some (NDir m).
Proof.
  intros Hok Hm. pose proof (wf_plain _ _ _ (proj1 Hok) Hm) as Hd.
  pose proof (unzip_entry_change d e w Hok Hd) as H.
  destruct (unzip_entry (abs d) e w) as [r w']. destruct H as [Hc _].
  assert (change (below d w) w w') as Hb.
  { refine (change_mono _ _ _ _ _ Hc). intros k Hk. by eapply touched_under; [apply Hok|..]. }
  split; [done|]. rewrite (ch_keep _ _ _ Hb); [done|]. intros [[r' [Hne E]] _].
  apply (f_equal length) in E. rewrite length_app in E. destruct r'; [done|simpl in E; lia].
Qed.

(** Directories stay, so what is below them stays so. *)
Lemma below_trans d w1 w2 w3 : change (below d w1) w1 w2 -> change (below d w2) w2 w3 -> change (below d w1) w1 w3.
Proof.
  intros H1 H2. eapply change_trans; [exact H1|]. refine (change_mono _ _ _ _ _ H2).
  intros k [Hu Hd]. split; [done|]. destruct (dir_at (nodes w1) k) eqn:E; [|done].
  unfold dir_at in *. rewrite (ch_keep _ _ _ H1 k) in Hd; [by rewrite E in Hd|].
  intros [_ E']. unfold dir_at in E'. by rewrite E in E'.
Qed.

Lemma unzip_loop_below d files w m :
  tree_ok (nodes w) -> nodes w !! d = Some (NDir m) ->
  let '(r, w') := unzip_loop (abs d) files w in change (below d w) w w'.
Proof.
  revert w. induction files as [|e files IH]; intros w Hok Hm; cbn [unzip_loop].
  - by apply change_refl.
  - pose proof (unzip_entry_below d e w m Hok Hm) as H.
    destruct (unzip_entry (abs d) e w) as [[u|er] w1] eqn:E; destruct H as [Hc Hm1].
    + rewrite (try_bind_ok _ _ _ _ _ E). specialize (IH w1 (ch_ok _ _ _ Hc) Hm1).
      destruct (unzip_loop (abs d) files w1) as [r w2]. by eapply below_trans.
    + by rewrite (try_bind_err _ _ _ _ _ E).
Qed.

(** What one entry has made is kept by the ones after it, but for a file of the same
    place. *)
Lemma unzip_loop_keeps d files w w' k n m :
  tree_ok (nodes w) -> nodes w !! d = Some (NDir m) ->
  unzip_loop (abs d) files w = (Ok tt, w') -> nodes w !! k = Some n ->
  (is_dir n = true \/ forall e, e ∈ files -> accepted d e = true -> z_IsDir e = false -> dest d e <> k) ->
  nodes w' !! k = Some n.
Proof.
  revert w. induction files as [|e files IH]; intros w Hok Hm E Hk Hside; cbn [unzip_loop] in E.
  - by injection E as <-.
  - pose proof (unzip_entry_below d e w m Hok Hm) as H.
    pose proof (unzip_entry_change d e w Hok (wf_plain _ _ _ (proj1 Hok) Hm)) as H'.
    destruct (unzip_entry (abs d) e w) as [[u|er] w1] eqn:E1;
      [|by rewrite (try_bind_err _ _ _ _ _ E1) in E].
    rewrite (try_bind_ok _ _ _ _ _ E1) in E. destruct H as [Hc Hm1], H' as [Ht _].
    eapply (IH w1); [apply Hc|done|done| |].
    + rewrite (ch_keep _ _ _ Ht); [done|]. intros [Ha [[Hn _]|(-> & Hf & Hd)]]; [congruence|].
      destruct Hside as [Hn|Hne]; [|by apply (Hne e); [left|..]].
      unfold dir_at in Hd. rewrite Hk in Hd. by destruct n.
    + destruct Hside as [Hn|Hne]; [by left|right]. intros e' He'. apply Hne. by right.
Qed.

Lemma unzip_loop_made d pre e post w w' m :
  tree_ok (nodes w) -> nodes w !! d = Some (NDir m) ->
  unzip_loop (abs d) (pre ++ e :: post) w = (Ok tt, w') -> accepted d e = true ->
  (z_IsDir e = true -> exists m', nodes w' !! dest d e = Some (NDir m')) /\
  (z_IsDir e = false ->
   (forall e', e' ∈ post -> accepted d e' = true -> z_IsDir e' = false -> dest d e' <> dest d e) ->
   exists m', nodes w' !! dest d e = Some (NFile (z_data e) m')).
Proof.
  revert w. induction pre as [|e0 pre IH]; intros w Hok Hm E Ha; cbn [app unzip_loop] in E.
  - pose proof (unzip_entry_below d e w m Hok Hm) as H.
    pose proof (unzip_entry_change d e w Hok (wf_plain _ _ _ (proj1 Hok) Hm)) as H'.
    destruct (unzip_entry (abs d) e w) as [[[]|er] w1] eqn:E1;
      [|by rewrite (try_bind_err _ _ _ _ _ E1) in E].
    rewrite (try_bind_ok _ _ _ _ _ E1) in E. destruct H as [Hc Hm1], H' as [_ H'].
    specialize (H' eq_refl Ha).
    split; intros Hdir; rewrite Hdir in H'; destruct H' as [m' Hm'].
    + exists m'. apply (unzip_loop_keeps d post w1 w' (dest d e) _ m); [apply Hc|done|done|done|by left].
    + intros Hpost. exists m'. apply (unzip_loop_keeps d post w1 w' (dest d e) _ m); [apply Hc|done|done|done|by right].
  - pose proof (unzip_entry_below d e0 w m Hok Hm) as H.
    destruct (unzip_entry (abs d) e0 w) as [[u|er] w1] eqn:E1;
      [|by rewrite (try_bind_err _ _ _ _ _ E1) in E].
    rewrite (try_bind_ok _ _ _ _ _ E1) in E. destruct H as [Hc Hm1]. by eapply IH; [apply Hc|..].
Qed.

(** Reading the archive changes nothing. *)
Lemma os_ReadFile_abs q w P :
  tree_ok (nodes w) -> Forall plain q ->
  let '(r, w') := os_ReadFile (abs q) w in
  change P w w' /\ nodes w' = nodes w /\
  match r with Ok data => exists m, nodes w !! q = Some (NFile data m) | Err _ => True end.
Proof.
  intros Hok Hq. unfold os_ReadFile, os_Open.
  pose proof (look_abs q true (fun q _ _ => Ok q) w P Hok Hq) as H.
  destruct (look (abs q) true (fun q _ _ => Ok q) w) as [[h|e] w1] eqn:E; destruct H as (Hc & Hn & H).
  2: { by rewrite (try_bind_err _ _ _ _ _ E). }
  rewrite (try_bind_ok _ _ _ _ _ E). destruct H as (n & Hqn & [= ->]).
  unfold f_ReadAll. rewrite syscall_eq.
  assert (change P w (next_call w1)) as Hc'.
  { eapply change_trans; [exact Hc|]. apply change_nodes; [apply (ch_ok _ _ _ Hc)|done|done|done]. }
  destruct (default None (head (faults w1))) as [[k e]|]; [by cbn; auto|].
  change (nodes (next_call w1)) with (nodes w1). rewrite Hn, Hqn.
  destruct n as [m|data m|tg m]; [by cbn; auto| |by cbn; auto]. cbn. split; [done|]. split; [done|]. by exists m.
Qed.

(** C4: no archive can write outside the directory it is extracted into, whatever the
    names of its entries, and whatever system calls fail: every node that [Unzip]
    makes or changes is strictly under the directory of the archive, and no existing
    directory is touched. *)
Theorem Unzip_contained zip_OpenReader d z m w :
  tree_ok (nodes w) -> nodes w !! d = Some (NDir m) -> plain z ->
  let '(r, w') := Unzip zip_OpenReader (abs (d ++ [z])) w in
  tree_ok (nodes w') /\
  forall k, nodes w' !! k <> nodes w !! k ->
    (exists r, r <> [] /\ k = d ++ r) /\ dir_at (nodes w) k = false.
Proof.
  intros Hok Hm Hz. pose proof (wf_plain _ _ _ (proj1 Hok) Hm) as Hd.
  assert (forall w', change (below d w) w w' ->
    tree_ok (nodes w') /\ forall k, nodes w' !! k <> nodes w !! k ->
      (exists r, r <> [] /\ k = d ++ r) /\ dir_at (nodes w) k = false) as Hfin.
  { intros w' Hc. split; [apply Hc|]. intros k Hk.
    destruct (decide (dir_at (nodes w) k = false)) as [Hda|Hda].
    - destruct (decide (under d k = true /\ k <> d)) as [[[r' ->]%under_spec Hne]|Hnu].
      + split; [|done]. exists r'. split; [|done]. intros ->. by rewrite app_nil_r in Hne.
      + exfalso. apply Hk, Hc. intros [(r' & Hr' & ->) _]. apply Hnu. split; [apply under_app|].
        intros E. apply (f_equal length) in E. rewrite length_app in E. destruct r'; [done|simpl in E; lia].
    - exfalso. apply Hk, Hc. by intros [_ ?]. }
  unfold Unzip. rewrite Dir_abs by done.
  pose proof (os_ReadFile_abs (d ++ [z]) w (below d w) Hok) as H.
  destruct (os_ReadFile (abs (d ++ [z])) w) as [[raw|e] w1] eqn:E.
  - destruct H as (Hc & Hn & _). { apply Forall_app. split; [done|]. by apply Forall_singleton. }
    rewrite (try_bind_ok _ _ _ _ _ E). unfold try_bind, mbind, State_bind, mret, State_ret.
    destruct (zip_OpenReader raw) as [files|e]; [|by apply Hfin].
    pose proof (unzip_loop_below d files w1 m) as H. rewrite Hn in H. specialize (H Hok Hm).
    destruct (unzip_loop (abs d) files w1) as [r w2]. apply Hfin.
    eapply change_trans; [exact Hc|]. refine (change_mono _ _ _ _ _ H).
    intros k. unfold below. by rewrite Hn.
  - destruct H as (Hc & _). { apply Forall_app. split; [done|]. by apply Forall_singleton. }
    rewrite (try_bind_err _ _ _ _ _ E). by apply Hfin.
Qed.

(** ** What an extraction leaves *)

Lemma Unzip_steps zip_OpenReader d z m w w' :
  tree_ok (nodes w) -> nodes w !! d = Some (NDir m) -> plain z ->
  Unzip zip_OpenReader (abs (d ++ [z])) w = (Ok tt, w') ->
  exists raw mz files w1, nodes w !! (d ++ [z]) = Some (NFile raw mz) /\
    zip_OpenReader raw = Ok files /\ nodes w1 = nodes w /\ tree_ok (nodes w1) /\
    unzip_loop (abs d) files w1 = (Ok tt, w').
Proof.
  intros Hok Hm Hz E. pose proof (wf_plain _ _ _ (proj1 Hok) Hm) as Hd.
  unfold Unzip in E. rewrite Dir_abs in E by done.
  assert (Forall plain (d ++ [z])) as Hq by (apply Forall_app; split; [done|by apply Forall_singleton]).
  pose proof (os_ReadFile_abs (d ++ [z]) w (fun _ => False) Hok Hq) as H.
  destruct (os_ReadFile (abs (d ++ [z])) w) as [[raw|e] w1] eqn:E1.
  2: by rewrite (try_bind_err _ _ _ _ _ E1) in E.
  rewrite (try_bind_ok _ _ _ _ _ E1) in E. destruct H as (Hc & Hn & mz & Hz').
  unfold try_bind, mbind, State_bind, mret, State_ret in E.
  destruct (zip_OpenReader raw) as [files|e] eqn:Eo; [|done].
  exists raw, mz, files, w1. split; [done|]. split; [done|]. split; [done|].
  split; [apply (ch_ok _ _ _ Hc)|done].
Qed.

(** When [Unzip] reports success, every entry whose place is under the directory
    and whose first name does not start with two dots is there: a directory is one,
    and a file has exactly the data of the last entry of its place. *)
Theorem Unzip_extracts zip_OpenReader d z m w w' :
  tree_ok (nodes w) -> nodes w !! d = Some (NDir m) -> plain z ->
  Unzip zip_OpenReader (abs (d ++ [z])) w = (Ok tt, w') ->
  exists raw mz files, nodes w !! (d ++ [z]) = Some (NFile raw mz) /\ zip_OpenReader raw = Ok files /\
  forall pre e post ts, files = pre ++ e :: post ->
    walk_names d (z_Name e) = d ++ ts ->
    (forall x l, ts = x :: l -> HasPrefix x ($"..") = false) ->
    (z_IsDir e = true -> exists me, nodes w' !! (d ++ ts) = Some (NDir me)) /\
    (z_IsDir e = false ->
     (forall e', e' ∈ post -> accepted d e' = true -> z_IsDir e' = false -> dest d e' <> d ++ ts) ->
     exists me, nodes w' !! (d ++ ts) = Some (NFile (z_data e) me)).
Proof.
  intros Hok Hm Hz E. pose proof (wf_plain _ _ _ (proj1 Hok) Hm) as Hd.
  destruct (Unzip_steps _ _ _ _ _ _ Hok Hm Hz E) as (raw & mz & files & w1 & Hr & Ho & Hn & Hok1 & El).
  exists raw, mz, files. split; [done|]. split; [done|]. intros pre e post ts -> Hts Hh.
  rewrite <- Hts. apply (unzip_loop_made d pre e post w1 w' m); [done|by rewrite Hn|done|].
  apply accepted_iff; [done|]. by exists ts.
Qed.

(** An entry whose name starts with two dots, such as [..data], is inside the
    directory all the same, but the guard looks at the first two characters only: it is
    left out, with everything below it, and [Unzip] reports success. *)
Theorem Unzip_skips_dotdot_names zip_OpenReader d z m mz raw x l data w :
  tree_ok (nodes w) -> faults w = [] -> nodes w !! d = Some (NDir m) -> plain z ->
  nodes w !! (d ++ [z]) = Some (NFile raw mz) ->
  zip_OpenReader raw = Ok [ZipEntry (Join (x :: l) [slash]) false None data None] ->
  Forall plain (x :: l) -> HasPrefix x ($"..") = true ->
  walk_names d (Join (x :: l) [slash]) = d ++ x :: l /\
  Unzip zip_OpenReader (abs (d ++ [z])) w = (Ok tt, w).
Proof.
  intros Hok Hf Hm Hz Hr Ho Hx Hp. pose proof (wf_plain _ _ _ (proj1 Hok) Hm) as Hd.
  assert (walk_names d (Join (x :: l) [slash]) = d ++ x :: l) as Hw by by apply walk_names_rel.
  split; [done|]. unfold Unzip. rewrite Dir_abs by done.
  rewrite (try_bind_ok _ _ _ _ _ (os_ReadFile_run _ _ _ _ Hok Hf Hr)).
  unfold try_bind at 1, mbind at 1, State_bind at 1, mret at 1, State_ret at 1. rewrite Ho.
  cbn [unzip_loop]. set (e := ZipEntry _ _ _ _ _).
  assert (unzip_entry (abs d) e w = (Ok tt, w)) as E.
  { unfold unzip_entry. rewrite JoinPath_abs by done. fold (dest d e) (accepted d e).
    destruct (accepted d e) eqn:Ha; [|done]. apply accepted_iff in Ha as (ts & Hts & Hh); [|done].
    unfold dest in Hts. cbn [e z_Name] in Hts. rewrite Hw in Hts. apply app_inv_head in Hts as <-.
    change (HasPrefix x dotdot = true) in Hp. by rewrite (Hh x l eq_refl) in Hp. }
  by rewrite (try_bind_ok _ _ _ _ _ E).
Qed.

(** ** Extraction succeeds when nothing is in its way *)

(** The entries are files, each with a clear way to it and none on the way of another. *)
Definition extractable (d : fpath) (t : tree) (files : list zip_entry) : Prop :=
  forall e, e ∈ files ->
    accepted d e = true /\ z_IsDir e = false /\ z_OpenErr e = None /\ z_err e = None /\
    clear_way t (removelast (dest d e)) /\ dir_at t (dest d e) = false /\ dest d e <> [] /\
    forall e', e' ∈ files -> ~ dest d e `prefix_of` removelast (dest d e').

Lemma unzip_entry_run d e w :
  tree_ok (nodes w) -> faults w = [] -> Forall plain d ->
  accepted d e = true -> z_IsDir e = false -> z_OpenErr e = None -> z_err e = None ->
  clear_way (nodes w) (removelast (dest d e)) -> dir_at (nodes w) (dest d e) = false -> dest d e <> [] ->
  exists w', unzip_entry (abs d) e w = (Ok tt, w') /\
    forall k, nodes w' !! k <> nodes w !! k ->
      k = dest d e \/ (k `prefix_of` removelast (dest d e) /\ dir_at (nodes w') k = true).
Proof.
  intros Hok Hf Hd Ha Hdir Ho He Hway Hda Hne. unfold unzip_entry. rewrite JoinPath_abs by done.
  fold (dest d e) (accepted d e). rewrite Ha, Hdir. cbn [negb].
  pose proof (walk_names_plain d (z_Name e) Hd) as Hq. fold (dest d e) in Hq.
  rewrite Dir_abs_removelast by done. destruct (dest d e) as [|c q _] eqn:Edest using rev_ind; [done|].
  rewrite removelast_last in *. pose proof Hq as [Hq' Hc]%Forall_app. rewrite Forall_singleton in Hc.
  destruct (os_MkdirAll_run 493 q w Hok Hf Hq' Hway) as [w1 E1].
  rewrite (try_bind_ok _ _ _ _ _ E1), Ho.
  pose proof (os_MkdirAll_change 493 q w Hok Hq') as H. rewrite E1 in H. destruct H as [Hg Hd1].
  destruct (Hd1 eq_refl) as [m Hm].
  assert (nodes w1 !! (q ++ [c]) = nodes w !! (q ++ [c])) as Hsame.
  { apply (ch_keep _ _ _ Hg). intros [_ Hp]. apply prefix_length in Hp. rewrite length_app in Hp. simpl in Hp. lia. }
  assert (dir_at (nodes w1) (q ++ [c]) = false) as Hda1 by (unfold dir_at in *; by rewrite Hsame).
  destruct (os_OpenFile_run (q ++ [c]) true 438 w1) as [w2 E2];
    [apply (ch_ok _ _ _ Hg)|by apply (ch_faults _ _ _ Hg)|by eapply has_parent_dir|done|].
  unfold os_Create. rewrite (try_bind_ok _ _ _ _ _ E2).
  pose proof (os_OpenFile_abs (q ++ [c]) true 438 w1 (ch_ok _ _ _ Hg) Hq) as H. rewrite E2 in H.
  destruct H as [H2 _].
  pose proof (copy_to_change (q ++ [c]) (z_data e) (z_err e) w2 (fun k => k = q ++ [c]) (ch_ok _ _ _ H2) eq_refl) as H.
  destruct (copy_to (q ++ [c]) (z_data e) (z_err e) w2) as [r w3] eqn:E3. destruct H as (H4 & _ & H5).
  rewrite H5 by (try done; by apply (ch_faults _ _ _ H2), (ch_faults _ _ _ Hg)).
  exists w3. split; [done|]. intros k Hk. destruct (decide (k = q ++ [c])) as [->|Hkne]; [by left|right].
  assert (nodes w3 !! k = nodes w1 !! k) as Hk3.
  { rewrite (ch_keep _ _ _ H4) by done. apply (ch_keep _ _ _ H2). by intros [? _]. }
  destruct (decide (nodes w !! k = None /\ k `prefix_of` q)) as [[Hn Hp]|Hno].
  - split; [done|]. unfold dir_at. rewrite Hk3. destruct Hp as [l Hl].
    rewrite Hl in Hm. destruct l as [|c' l]; [rewrite app_nil_r in Hm; by rewrite Hm|].
    destruct (wf_ancestor _ k (c' :: l) _ (proj1 (ch_ok _ _ _ Hg)) Hm) as [m' ->]; done.
  - exfalso. apply Hk. rewrite Hk3. by apply (ch_keep _ _ _ Hg).
Qed.

Lemma extractable_tail d t t' e files :
  extractable d t (e :: files) -> dir_at t' (dest d e) = false ->
  (forall k, t' !! k <> t !! k ->
     k = dest d e \/ (k `prefix_of` removelast (dest d e) /\ dir_at t' k = true)) ->
  extractable d t' files.
Proof.
  intros Hx Hde Ht e' He'. destruct (Hx e') as (H1 & H2 & H3 & H4 & H5 & H6 & H7 & H8); [by right|].
  do 4 (split; [done|]). split; [|split; [|split; [done|intros e2 He2; apply H8; by right]]].
  - intros p Hp. destruct (decide (t' !! p = t !! p)) as [E|Hne].
    + unfold dir_at. rewrite E. by apply H5.
    + apply Ht in Hne as [->|[_ Hd]]; [|by right].
      destruct (Hx e) as (_ & _ & _ & _ & _ & _ & _ & H8'); [by left|].
      exfalso. by apply (H8' e'); [right|].
  - destruct (decide (t' !! dest d e' = t !! dest d e')) as [E|Hne]; [unfold dir_at in *; by rewrite E|].
    apply Ht in Hne as [->|[Hp _]]; [done|]. exfalso. by apply (H8 e); [left|].
Qed.

Lemma unzip_loop_run d files w m :
  tree_ok (nodes w) -> faults w = [] -> nodes w !! d = Some (NDir m) ->
  extractable d (nodes w) files ->
  exists w', unzip_loop (abs d) files w = (Ok tt, w') /\
    forall k, nodes w' !! k <> nodes w !! k ->
      (exists e, e ∈ files /\ k = dest d e) \/ dir_at (nodes w') k = true.
Proof.
  revert w. induction files as [|e files IH]; intros w Hok Hf Hm Hx; cbn [unzip_loop]; [by eexists|].
  pose proof (wf_plain _ _ _ (proj1 Hok) Hm) as Hd.
  destruct (Hx e) as (H1 & H2 & H3 & H4 & H5 & H6 & H7 & _); [by left|].
  destruct (unzip_entry_run d e w Hok Hf Hd H1 H2 H3 H4 H5 H6 H7) as (w1 & E & Hk).
  rewrite (try_bind_ok _ _ _ _ _ E).
  pose proof (unzip_entry_below d e w m Hok Hm) as Hb. rewrite E in Hb. destruct Hb as [Hc Hm1].
  pose proof (unzip_entry_change d e w Hok Hd) as He. rewrite E, H2 in He.
  destruct He as [_ He]. destruct (He eq_refl H1) as [me Hme].
  destruct (IH w1) as (w' & -> & Hk'); [apply (ch_ok _ _ _ Hc)|by apply (ch_faults _ _ _ Hc)|done| |].
  { eapply extractable_tail; [done| |done]. unfold dir_at. by rewrite Hme. }
  exists w'. split; [done|]. intros k Hkw. destruct (decide (nodes w' !! k = nodes w1 !! k)) as [Ek|Hne].
  - rewrite Ek in Hkw. apply Hk in Hkw as [->|[_ Hda]]; [left; exists e; split; [by left|done]|right].
    unfold dir_at in *. by rewrite Ek.
  - apply Hk' in Hne as [(e' & He' & ->)|Hda]; [left; exists e'; split; [by right|done]|by right].
Qed.

(** ** Making an archive *)

(** A file as the writer has stored it. *)
Definition stored (e : bytes * bytes) : zip_entry := ZipEntry (fst e) false None (snd e) None.

(** What [archive/zip] documents: the reader gives back what a closed writer has
    written; a name that does not end with a slash is that of a file. *)
Class ZipCodec (open : bytes -> result (list zip_entry)) (write : list (bytes * bytes) -> bytes) : Prop :=
  open_write es :
    Forall (fun e => fst e <> [] /\ HasSuffix (fst e) [slash] = false) es ->
    open (write es) = Ok (map stored es).

(** The entry of a node: the base name of the directory, then the way down. *)
Definition entry_of (t : tree) (q : fpath) (b : bytes) (k : fpath) : list (bytes * bytes) :=
  match t !! k with
  | Some (NFile data _) => [(Join (b :: drop (length q) k) [slash], data)]
  | _ => []
  end.

Lemma JoinPath_rel b r : Forall plain (b :: r) -> r <> [] -> JoinPath [b; Join r [slash]] = Join (b :: r) [slash].
Proof.
  intros Hbr Hne. pose proof Hbr as [(Hb & _) _]%Forall_cons.
  destruct b as [|a b]; [done|].
  change (JoinPath [a :: b; Join r [slash]]) with (Clean ((a :: b) ++ [slash] ++ Join r [slash])).
  destruct r as [|x r]; [done|]. by rewrite <- (Clean_rel ((a :: b) :: x :: r)).
Qed.

Lemma zip_one_run name k data m w x :
  tree_ok (nodes w) -> faults w = [] -> nodes w !! k = Some (NFile data m) ->
  zip_one name (abs k) (w, x) = (None, (w, x ++ [(name, data)])).
Proof.
  intros Hok Hf Hk. unfold zip_one.
  assert (forall y, zw_write (w, y) = (Ok tt, (w, y))) as Hw.
  { intros y. unfold zw_write, lift_os. rewrite syscall_eq. simpl. rewrite Hf. simpl.
    by rewrite next_call_id. }
  rewrite (st_bind_run _ _ _ _ _ (Hw x)).
  assert (lift_os _ (os_Open (abs k)) (w, x) = (Ok k, (w, x))) as Ho.
  { unfold lift_os, os_Open. simpl. by rewrite (look_run k true _ w _ Hok Hf Hk). }
  rewrite (st_bind_run _ _ _ _ _ Ho).
  assert (lift_os _ (f_ReadAll k) (w, x) = (Ok data, (w, x))) as Hr.
  { unfold lift_os, f_ReadAll. simpl. rewrite syscall_eq, Hf. simpl. rewrite next_call_id by done.
    by rewrite Hk. }
  rewrite (st_bind_run _ _ _ _ _ Hr). by rewrite (st_bind_run _ _ _ _ _ (Hw x)).
Qed.

Lemma visits_entries (t : tree) q b ks (x : list (bytes * bytes)) :
  visits (fun k x => x ++ entry_of t q b k) ks x = x ++ flat_map (entry_of t q b) ks.
Proof.
  revert x. induction ks as [|k ks IH]; intros x; [by rewrite app_nil_r|].
  cbn [flat_map]. rewrite app_assoc. apply IH.
Qed.

Lemma zipDir_run fuel d b m w :
  tree_ok (nodes w) -> faults w = [] -> nodes w !! (d ++ [b]) = Some (NDir m) ->
  (length (keys_under (nodes w) (d ++ [b])) <= fuel)%nat ->
  zipDir fuel (abs (d ++ [b])) (w, []) =
  (None, (w, flat_map (entry_of (nodes w) (d ++ [b]) b) (walk_order fuel (nodes w) (d ++ [b])))).
Proof.
  intros Hok Hf Hm Hl. pose proof (wf_plain _ _ _ (proj1 Hok) Hm) as Hq.
  pose proof Hq as [Hd Hb]%Forall_app. rewrite Forall_singleton in Hb.
  unfold zipDir, Walk. rewrite (st_bind_run _ _ _ _ _ (lift_Lstat w Hok Hf _ _ _ Hm)).
  unfold mbind at 1, State_bind at 1.
  rewrite (walk_run w (d ++ [b]) (fun k x => x ++ entry_of (nodes w) (d ++ [b]) b k) Hok Hf); [| |done| |done].
  - by rewrite visits_entries.
  - intros k n x Hk [r ->]%under_spec. unfold zip_callback, entry_of. rewrite Hk.
    destruct n as [mk|data mk|tg mk]; cbn [is_dir].
    + by rewrite app_nil_r.
    + pose proof (wf_plain _ _ _ (proj1 Hok) Hk) as [_ Hr]%Forall_app.
      assert (r <> []) as Hne by (intros ->; rewrite app_nil_r in Hk; congruence).
      rewrite Rel_abs_app, Base_abs by done.
      rewrite JoinPath_rel by (try done; by constructor). rewrite drop_app_length.
      by apply (zip_one_run _ _ _ mk).
    + by apply (proj2 Hok) in Hk.
  - rewrite <- (app_nil_r (d ++ [b])) at 2. apply under_app.
Qed.

Definition zip_name (b : bytes) : bytes := b ++ $".zip".

Lemma plain_zip_name b : plain b -> plain (zip_name b).
Proof.
  intros (H1 & _ & _ & Hs). unfold zip_name, plain, dot, dotdot. split_and!.
  - by destruct b.
  - intros E. apply (f_equal length) in E. rewrite length_app in E. simpl in E. lia.
  - intros E. apply (f_equal length) in E. rewrite length_app in E. simpl in E. lia.
  - rewrite elem_of_app. intros [H|H]; [done|]. revert H. by compute_done.
Qed.

Lemma zip_path_abs d b : Forall plain d -> plain b -> zip_path (abs (d ++ [b])) = abs (d ++ [zip_name b]).
Proof.
  intros Hd Hb. unfold zip_path. rewrite Dir_abs, Base_abs by done.
  apply JoinPath_child; [done|]. by apply plain_zip_name.
Qed.

Lemma zip_name_not_under d b : under (d ++ [b]) (d ++ [zip_name b]) = false.
Proof.
  destruct (under _ _) eqn:E; [|done]. apply under_spec in E as [r E].
  rewrite <- app_assoc in E. apply app_inv_head in E. injection E as E _.
  apply (f_equal length) in E. unfold zip_name in E. rewrite length_app in E. simpl in E. lia.
Qed.

(** [Zip] of a directory without faults: the archive has its files, and nothing else
    changes. *)
Lemma Zip_run write fuel d b m w :
  tree_ok (nodes w) -> faults w = [] -> nodes w !! (d ++ [b]) = Some (NDir m) ->
  dir_at (nodes w) (d ++ [zip_name b]) = false -> (size (nodes w) < fuel)%nat ->
  exists w1 ks mz,
    Zip write fuel (abs (d ++ [b])) w = (Ok tt, w1) /\
    nodes w1 !! (d ++ [zip_name b]) =
      Some (NFile (write (flat_map (entry_of (nodes w) (d ++ [b]) b) ks)) mz) /\
    ks ≡ₚ keys_under (nodes w) (d ++ [b]) /\
    forall k, k <> d ++ [zip_name b] -> nodes w1 !! k = nodes w !! k.
Proof.
  intros Hok Hf Hm Hz Hfuel. pose proof (wf_plain _ _ _ (proj1 Hok) Hm) as Hq.
  pose proof Hq as [Hd Hb]%Forall_app. rewrite Forall_singleton in Hb.
  destruct (wf_parent _ (proj1 Hok) _ _ _ Hm) as [_ [md Hmd]].
  set (q := d ++ [b]) in *. set (zq := d ++ [zip_name b]) in *.
  assert (Forall plain zq) as Hzq.
  { apply Forall_app. split; [done|]. apply Forall_singleton. by apply plain_zip_name. }
  unfold Zip. rewrite (st_bind_run _ _ w true w).
  2: { unfold Exist, os_Stat. by rewrite (st_bind_run _ _ _ _ _ (look_run q true _ w _ Hok Hf Hm)). }
  cbn [negb]. unfold q at 1. rewrite zip_path_abs by done. fold zq.
  destruct (os_OpenFile_run zq true 438 w Hok Hf) as [w1 E1]; [|done|].
  { eapply has_parent_dir; [by apply plain_zip_name|done]. }
  unfold os_Create. rewrite (try_bind_ok _ _ _ _ _ E1).
  pose proof (os_OpenFile_abs zq true 438 w Hok Hzq) as H. rewrite E1 in H. destruct H as [Hc Hn].
  destruct (Hn zq eq_refl) as (_ & _ & data & mz & Hnz & ->).
  assert (forall k, k <> zq -> nodes w1 !! k = nodes w !! k) as Hsame1
    by (intros k Hk; apply (ch_keep _ _ _ Hc); by intros [? _]).
  pose proof (zip_name_not_under d b) as Hnu. fold q zq in Hnu.
  assert (forall k, under q k = true -> nodes w1 !! k = nodes w !! k) as Hunder
    by (intros k Hk; apply Hsame1; intros ->; congruence).
  assert (nodes w1 !! q = Some (NDir m)) as Hm1.
  { rewrite Hunder; [done|]. rewrite <- (app_nil_r q) at 2. apply under_app. }
  pose proof (ch_ok _ _ _ Hc) as Hok1. pose proof (ch_faults _ _ _ Hc Hf) as Hf1.
  rewrite (st_bind_run _ _ w1 true w1).
  2: { unfold IsDir, os_Stat. by rewrite (st_bind_run _ _ _ _ _ (look_run q true _ w1 _ Hok1 Hf1 Hm1)). }
  assert (keys_under (nodes w1) q ≡ₚ keys_under (nodes w) q) as Hkeys.
  { apply NoDup_Permutation; [apply NoDup_keys_under..|]. intros k. rewrite !elem_of_keys_under.
    split; intros [Hk [r ->]]; (split; [|by exists r]); [rewrite <- Hunder|rewrite Hunder]; try done; apply under_app. }
  assert (length (keys_under (nodes w1) q) <= fuel)%nat as Hl.
  { rewrite Hkeys. pose proof (keys_under_size (nodes w) q). lia. }
  pose proof (zipDir_run fuel d b m w1 Hok1 Hf1 Hm1 Hl) as Hzip. fold q in Hzip.
  set (ks := walk_order fuel (nodes w1) q) in *.
  assert (ks ≡ₚ keys_under (nodes w) q) as Hks.
  { rewrite <- Hkeys. apply walk_order_keys; [apply Hok1|by eexists|done]. }
  assert (flat_map (entry_of (nodes w1) q b) ks = flat_map (entry_of (nodes w) q b) ks) as Hent.
  { rewrite !flat_map_concat_map. f_equal. apply map_ext_in. intros k Hk. apply list_elem_of_In in Hk. rewrite Hks in Hk.
    apply elem_of_keys_under in Hk as [_ [r ->]]. unfold entry_of. by rewrite Hunder by apply under_app. }
  unfold zip_contents. unfold mbind at 1, State_bind at 1. rewrite Hzip, Hent.
  unfold zip_finish, mbind, State_bind.
  pose proof (f_Write_change zq (write (flat_map (entry_of (nodes w) q b) ks)) w1 (fun k => k = zq) Hok1 eq_refl) as H.
  destruct (f_Write zq _ w1) as [r w2]. destruct H as (Hc2 & H2 & H3). specialize (H3 Hf1) as ->.
  destruct (H2 eq_refl _ _ Hnz) as [mz' Hmz']. exists w2, ks, mz'.
  split; [done|]. split; [done|]. split; [done|]. intros k Hk.
  rewrite (ch_keep _ _ _ Hc2) by done. by apply Hsame1.
Qed.

(** The entries of an archive of a directory and where they go back to. *)
Lemma elem_of_entries t d b ks e m :
  wf_tree t -> t !! (d ++ [b]) = Some (NDir m) -> ks ≡ₚ keys_under t (d ++ [b]) ->
  e ∈ map stored (flat_map (entry_of t (d ++ [b]) b) ks) ->
  exists r data mk, t !! (d ++ b :: r) = Some (NFile data mk) /\ r <> [] /\
    e = stored (Join (b :: r) [slash], data) /\ dest d e = d ++ b :: r.
Proof.
  intros Hwf Hm Hks He. apply list_elem_of_In, in_map_iff in He as ([nm data] & <- & He).
  apply list_elem_of_In, elem_of_flat_map in He as (k & Hk & He). rewrite Hks in Hk.
  apply elem_of_keys_under in Hk as [_ [r ->]]. unfold entry_of in He.
  destruct (t !! ((d ++ [b]) ++ r)) as [[mk|data' mk|tg mk]|] eqn:Hk;
    try (by apply not_elem_of_nil in He). apply list_elem_of_singleton in He. injection He as -> ->.
  rewrite drop_app_length. assert (r <> []) as Hne by (intros ->; rewrite app_nil_r in Hk; congruence).
  pose proof (wf_plain _ _ _ Hwf Hk) as Hp. rewrite <- app_assoc in Hk, Hp.
  apply Forall_app in Hp as [Hd Hbr]. exists r, data', mk. do 3 (split; [done|]).
  by apply (walk_names_rel d (b :: r)).
Qed.

Lemma stored_names t d b ks m :
  wf_tree t -> t !! (d ++ [b]) = Some (NDir m) -> ks ≡ₚ keys_under t (d ++ [b]) ->
  Forall (fun e => fst e <> [] /\ HasSuffix (fst e) [slash] = false) (flat_map (entry_of t (d ++ [b]) b) ks).
Proof.
  intros Hwf Hm Hks. apply Forall_forall. intros e He.
  destruct (elem_of_entries t d b ks (stored e) m Hwf Hm Hks) as (r & data & mk & Hk & Hne & E & _).
  { apply list_elem_of_In, in_map, list_elem_of_In, He. }
  assert (fst e = Join (b :: r) [slash]) as -> by (apply (f_equal z_Name) in E; exact E).
  pose proof (wf_plain _ _ _ Hwf Hk) as [_ Hbr]%Forall_app. split.
  - apply Join_nonempty; [|done]. eapply Forall_impl; [exact Hbr|apply plain_comp_ok].
  - destruct r as [|c r _] using rev_ind; [done|].
    change (b :: r ++ [c]) with ((b :: r) ++ [c]) in *. rewrite Join_snoc by done.
    apply Forall_app in Hbr as [_ Hc]. rewrite Forall_singleton in Hc. destruct Hc as (Hc1 & _ & _ & Hc4).
    destruct (HasSuffix _ [slash]) eqn:E'; [|done]. apply HasSuffix_spec in E' as [s Hs].
    destruct c as [|a c _] using rev_ind; [done|]. rewrite !app_assoc in Hs.
    apply app_inj_tail in Hs as [_ ->]. exfalso. apply Hc4. set_solver.
Qed.

Lemma accepted_stored d b r data :
  Forall plain (d ++ b :: r) -> HasPrefix b dotdot = false ->
  accepted d (stored (Join (b :: r) [slash], data)) = true.
Proof.
  intros [Hd Hbr]%Forall_app Hb. apply accepted_iff; [done|]. exists (b :: r).
  split; [by apply (walk_names_rel d (b :: r))|]. by intros x l [= <- <-].
Qed.

Lemma extractable_stored t d b ks m t2 m2 :
  wf_tree t -> t !! (d ++ [b]) = Some (NDir m) -> ks ≡ₚ keys_under t (d ++ [b]) ->
  HasPrefix b dotdot = false ->
  wf_tree t2 -> t2 !! d = Some (NDir m2) -> (forall k, under (d ++ [b]) k = true -> t2 !! k = None) ->
  extractable d t2 (map stored (flat_map (entry_of t (d ++ [b]) b) ks)).
Proof.
  intros Hwf Hm Hks Hb Hwf2 Hm2 Hempty e He.
  destruct (elem_of_entries t d b ks e m Hwf Hm Hks He) as (r & data & mk & Hk & Hne & -> & Hdest).
  pose proof (wf_plain _ _ _ Hwf Hk) as Hp. rewrite Hdest.
  split; [by apply accepted_stored|]. do 3 (split; [done|]).
  assert (forall s, under (d ++ [b]) (d ++ b :: s) = true) as Hu
    by (intros s; apply under_spec; exists s; by rewrite <- app_assoc).
  split; [|split; [|split; [by destruct d|]]].
  - intros p Hpre. assert (p `prefix_of` d ++ b :: r) as Hpre' by (etrans; [exact Hpre|apply removelast_prefix]).
    destruct (prefix_weak_total p d (d ++ b :: r)) as [[l Hl]|[l Hl]]; [done|by exists (b :: r)| |].
    + right. apply dir_at_Some. destruct l as [|c l]; [rewrite app_nil_r in Hl; subst p; by exists m2|].
      rewrite Hl in Hm2. by eapply wf_ancestor.
    + subst p. destruct l as [|c l]; [right; rewrite app_nil_r; apply dir_at_Some; by exists m2|left].
      apply prefix_app_inv in Hpre'. assert (c = b) as -> by (by apply prefix_cons_inv_1 in Hpre').
      by apply Hempty.
  - unfold dir_at. by rewrite Hempty.
  - intros e' He' Hpre.
    destruct (elem_of_entries t d b ks e' m Hwf Hm Hks He') as (r' & data' & mk' & Hk' & Hne' & -> & Hdest').
    rewrite Hdest' in Hpre.
    assert (Hlen := prefix_length _ _ Hpre). destruct Hpre as [l Hl].
    destruct r' as [|c r' _] using rev_ind; [done|].
    change (d ++ b :: r' ++ [c]) with (d ++ (b :: r') ++ [c]) in *. rewrite app_assoc in *.
    rewrite removelast_last in *. rewrite Hl, <- app_assoc in Hk'.
    destruct (wf_ancestor _ _ (l ++ [c]) _ Hwf Hk') as [m' Hm']; [by destruct l|]. congruence.
Qed.

(** Two entries of the same place are the same node. *)
Lemma entry_place t d b k e :
  wf_tree t -> k ∈ keys_under t (d ++ [b]) -> e ∈ entry_of t (d ++ [b]) b k -> dest d (stored e) = k.
Proof.
  intros Hwf [_ [r ->]]%elem_of_keys_under He. unfold entry_of in He.
  destruct (t !! ((d ++ [b]) ++ r)) as [[|data mk|]|] eqn:Hk; try (by apply not_elem_of_nil in He).
  apply list_elem_of_singleton in He as ->. pose proof (wf_plain _ _ _ Hwf Hk) as Hp.
  rewrite <- app_assoc in Hp. apply Forall_app in Hp as [? ?].
  rewrite drop_app_length. rewrite <- app_assoc. by apply (walk_names_rel d (b :: r)).
Qed.

Lemma stored_back t d b ks m w2 w3 m2 r data mf :
  wf_tree t -> t !! (d ++ [b]) = Some (NDir m) -> ks ≡ₚ keys_under t (d ++ [b]) ->
  HasPrefix b dotdot = false -> tree_ok (nodes w2) -> nodes w2 !! d = Some (NDir m2) ->
  unzip_loop (abs d) (map stored (flat_map (entry_of t (d ++ [b]) b) ks)) w2 = (Ok tt, w3) ->
  t !! (d ++ b :: r) = Some (NFile data mf) ->
  exists mf', nodes w3 !! (d ++ b :: r) = Some (NFile data mf').
Proof.
  intros Hwf Hm Hks Hb Hok2 Hm2 E3 Hk. pose proof (wf_plain _ _ _ Hwf Hk) as Hp.
  assert (d ++ b :: r ∈ keys_under t (d ++ [b])) as Hku.
  { apply elem_of_keys_under. split; [by eexists|exists r; by rewrite <- app_assoc]. }
  assert (d ++ b :: r ∈ ks) as [l1 [l2 Hl]]%list_elem_of_split by by rewrite Hks.
  set (e := (Join (b :: r) [slash], data)).
  assert (entry_of t (d ++ [b]) b (d ++ b :: r) = [e]) as He.
  { unfold entry_of. rewrite Hk. change (d ++ b :: r) with (d ++ [b] ++ r).
    by rewrite app_assoc, drop_app_length. }
  rewrite Hl, flat_map_app in E3. cbn [flat_map] in E3. rewrite He, map_app in E3. cbn [map app] in E3.
  assert (dest d (stored e) = d ++ b :: r) as Hdest
    by (apply (entry_place t d b); [done|done|rewrite He; by left]).
  destruct (unzip_loop_made d _ _ _ w2 w3 m2 Hok2 Hm2 E3) as [_ Hfile]; [by apply accepted_stored|].
  rewrite Hdest in Hfile. apply Hfile; [done|]. intros e' He' _ _ Heq.
  apply list_elem_of_In, in_map_iff in He' as (e0 & <- & He').
  apply list_elem_of_In, elem_of_flat_map in He' as (k' & Hk' & He').
  assert (NoDup ks) as Hnd by (rewrite Hks; apply NoDup_keys_under).
  rewrite Hl in Hnd. apply NoDup_app in Hnd as (_ & _ & Hnd). apply NoDup_cons in Hnd as [Hnd _].
  apply Hnd. rewrite <- Heq. rewrite (entry_place t d b k' e0); [done|done| |done].
  rewrite <- Hks, Hl. set_solver.
Qed.

(** C17: what [Zip] packs, [Unzip] restores: without faults [Zip] of a directory succeeds,
    and from then on extracting the archive where the directory is gone succeeds and
    gives back exactly its files, at their places and with their data, whatever else
    has changed in the meantime. *)
Theorem Zip_Unzip_roundtrip `{ZipCodec open write} fuel d b m w :
  tree_ok (nodes w) -> faults w = [] -> nodes w !! (d ++ [b]) = Some (NDir m) ->
  HasPrefix b ($"..") = false ->
  dir_at (nodes w) (d ++ [zip_name b]) = false -> (size (nodes w) < fuel)%nat ->
  exists w1, Zip write fuel (abs (d ++ [b])) w = (Ok tt, w1) /\
  forall w2, tree_ok (nodes w2) -> faults w2 = [] -> dir_at (nodes w2) d = true ->
    nodes w2 !! (d ++ [zip_name b]) = nodes w1 !! (d ++ [zip_name b]) ->
    (forall k, under (d ++ [b]) k = true -> nodes w2 !! k = None) ->
    exists w3, Unzip open (abs (d ++ [zip_name b])) w2 = (Ok tt, w3) /\
      forall r data, (exists mf, nodes w !! (d ++ b :: r) = Some (NFile data mf)) <->
                     (exists mf, nodes w3 !! (d ++ b :: r) = Some (NFile data mf)).
Proof.
  intros Hok Hf Hm Hb Hz Hfuel.
  destruct (Zip_run write fuel d b m w Hok Hf Hm Hz Hfuel) as (w1 & ks & mz & E1 & Hzip & Hks & _).
  exists w1. split; [done|]. intros w2 Hok2 Hf2 [m2 Hm2]%dir_at_Some Hsame Hempty.
  rewrite Hzip in Hsame. pose proof (wf_plain _ _ _ (proj1 Hok) Hm) as Hq.
  pose proof Hq as [Hd Hpb]%Forall_app. rewrite Forall_singleton in Hpb.
  set (entries := flat_map _ ks) in *.
  assert (open (write entries) = Ok (map stored entries)) as Ho
    by (apply open_write; by eapply stored_names; [apply Hok|..]).
  assert (extractable d (nodes w2) (map stored entries)) as Hx
    by (by eapply extractable_stored; [apply Hok|done|done|done|apply Hok2|..]).
  destruct (unzip_loop_run d (map stored entries) w2 m2 Hok2 Hf2 Hm2 Hx) as (w3 & E3 & Hchg).
  exists w3. split.
  { unfold Unzip. rewrite Dir_abs by (auto using plain_zip_name).
    rewrite (try_bind_ok _ _ _ _ _ (os_ReadFile_run _ _ _ _ Hok2 Hf2 Hsame)).
    unfold try_bind, mbind, State_bind, mret, State_ret. by rewrite Ho. }
  assert (forall r data mf, nodes w !! (d ++ b :: r) = Some (NFile data mf) ->
    exists mf', nodes w3 !! (d ++ b :: r) = Some (NFile data mf')) as Hback
    by (intros r data mf; eapply stored_back; eauto; apply Hok).
  intros r data. split; [intros [mf Hk]; by eapply Hback|]. intros [mf Hk].
  destruct (Hchg (d ++ b :: r)) as [(e & He & Hdest)|Hda].
  { rewrite Hempty, Hk; [done|]. apply under_spec. exists r. by rewrite <- app_assoc. }
  - destruct (elem_of_entries _ d b ks e m (proj1 Hok) Hm Hks He) as (r' & data' & mk & Hk' & _ & _ & Hd').
    rewrite <- Hdest in Hd'. rewrite <- Hd' in Hk'. destruct (Hback _ _ _ Hk') as [mf' Hk2].
    rewrite Hk in Hk2. injection Hk2 as -> _. by exists mk.
  - unfold dir_at in Hda. by rewrite Hk in Hda.
Qed.

(** ** The error of closing the archive *)

Lemma os_Create_next q w :
  tree_ok (nodes w) -> default None (head (faults w)) = None -> has_parent (nodes w) q ->
  dir_at (nodes w) q = false ->
  exists m, os_Create (abs q) w = (Ok q, Os (<[q := NFile [] m]> (nodes w)) (proc w) (tail (faults w))).
Proof.
  intros Hok Hf Hp Hd. unfold os_Create, os_OpenFile. rewrite path_call_next by auto.
  unfold dir_at in Hd. destruct (nodes w !! q) as [[m|data m|tg m]|] eqn:E; try done; [by eexists| |by eexists].
  by apply (proj2 Hok) in E.
Qed.

Lemma zip_one_next name k data m w x fs :
  tree_ok (nodes w) -> faults w = repeat None 4 ++ fs -> nodes w !! k = Some (NFile data m) ->
  zip_one name (abs k) (w, x) = (None, (Os (nodes w) (proc w) fs, x ++ [(name, data)])).
Proof.
  intros Hok Hf Hk. destruct w as [t pr fs0]. simpl in *. subst fs0.
  assert (forall pr fs y, zw_write (Os t pr (None :: fs), y) = (Ok tt, (Os t pr fs, y))) as Hw by done.
  unfold zip_one. rewrite (st_bind_run _ _ _ _ _ (Hw _ _ x)).
  assert (lift_os _ (os_Open (abs k)) (Os t pr (None :: None :: None :: fs), x) =
          (Ok k, (Os t pr (None :: None :: fs), x))) as Ho.
  { unfold lift_os, os_Open. simpl. by rewrite (look_next k true _ _ (NFile data m)). }
  rewrite (st_bind_run _ _ _ _ _ Ho).
  assert (lift_os _ (f_ReadAll k) (Os t pr (None :: None :: fs), x) =
          (Ok data, (Os t pr (None :: fs), x))) as Hr.
  { unfold lift_os, f_ReadAll. simpl. rewrite syscall_eq. simpl. by rewrite Hk. }
  rewrite (st_bind_run _ _ _ _ _ Hr). by rewrite (st_bind_run _ _ _ _ _ (Hw _ _ x)).
Qed.

Lemma stat_next q n w :
  tree_ok (nodes w) -> default None (head (faults w)) = None -> nodes w !! q = Some n ->
  os_Stat (abs q) w = (Ok (Base (abs q), n), next_call w).
Proof. intros. unfold os_Stat. by rewrite (look_next q true _ _ n). Qed.

(** [Zip] does not look at the error of closing the archive, which is when what is
    buffered is written: with a full disk it reports success for an empty file. *)
Theorem Zip_ignores_close_error write fuel d b data mf m w e :
  tree_ok (nodes w) -> faults w = repeat None 7 ++ [Some (0%nat, e)] ->
  nodes w !! d = Some (NDir m) -> nodes w !! (d ++ [b]) = Some (NFile data mf) ->
  dir_at (nodes w) (d ++ [zip_name b]) = false ->
  exists w1 mz, Zip write fuel (abs (d ++ [b])) w = (Ok tt, w1) /\
    nodes w1 !! (d ++ [zip_name b]) = Some (NFile [] mz).
Proof.
  intros Hok Hf Hm Hk Hz. pose proof (wf_plain _ _ _ (proj1 Hok) Hk) as Hq.
  pose proof Hq as [Hd Hb]%Forall_app. rewrite Forall_singleton in Hb.
  pose proof (plain_zip_name b Hb) as Hzb.
  destruct w as [t pr fs]. simpl in *. subst fs.
  assert (has_parent t (d ++ [zip_name b])) as Hp by by eapply has_parent_dir.
  unfold Zip. erewrite st_bind_run.
  2: { unfold Exist. by rewrite (st_bind_run _ _ _ _ _ (stat_next _ _ (Os t pr (repeat None 7 ++ [Some (0%nat, e)])) Hok eq_refl Hk)). }
  cbn [negb]. rewrite zip_path_abs by done.
  destruct (os_Create_next (d ++ [zip_name b]) (next_call (Os t pr (repeat None 7 ++ [Some (0%nat, e)]))))
    as [mz E]; [done..|].
  rewrite (try_bind_ok _ _ _ _ _ E). clear E. cbn [next_call nodes proc faults tail repeat app].
  set (t1 := <[d ++ [zip_name b] := NFile [] mz]> t).
  assert (tree_ok t1) as Hok1 by (apply tree_ok_insert; [done|done|done|by rewrite Hz]).
  assert (t1 !! (d ++ [b]) = Some (NFile data mf)) as Hk1.
  { unfold t1. rewrite lookup_insert_ne; [done|]. intros E. pose proof (zip_name_not_under d b) as Hu.
    rewrite E in Hu. rewrite <- (app_nil_r (d ++ [b])) in Hu at 2. by rewrite under_app in Hu. }
  erewrite st_bind_run.
  2: { unfold IsDir. by rewrite (st_bind_run _ _ _ _ _ (stat_next _ _ (Os t1 pr (repeat None 5 ++ [Some (0%nat, e)])) Hok1 eq_refl Hk1)). }
  erewrite st_bind_run.
  2: { unfold zip_contents. cbn [is_dir]. unfold zipFile.
       by rewrite (zip_one_next _ _ data mf (Os t1 pr (repeat None 4 ++ [Some (0%nat, e)])) _ [Some (0%nat, e)] Hok1 eq_refl Hk1). }
  unfold zip_finish, mbind, State_bind, f_Write. rewrite syscall_eq. simpl.
  unfold append_to. simpl. unfold t1 at 1. rewrite lookup_insert_eq. simpl.
  eexists _, _. split; [done|]. simpl. by rewrite lookup_insert_eq.
Qed.

(** ** [UntarFile] *)

Definition is_match (filename : bytes) (s : tar_step) : bool :=
  match s with
  | TarEntry name typeflag _ _ => (typeflag =? TypeReg) && bool_decide (Base name = filename)
  | TarErr _ => true
  end.

Lemma untar_loop_skip pre steps tgz filename dst w :
  Forall (fun s => is_match filename s = false) pre ->
  untar_loop (pre ++ steps) tgz filename dst w = untar_loop steps tgz filename dst w.
Proof.
  induction 1 as [|s pre Hs _ IH]; [done|]. cbn [app untar_loop]. destruct s as [nm tf data err|e]; [|done].
  unfold is_match in Hs. destruct (tf =? TypeReg); [|done]. cbn [negb andb] in *. by rewrite Hs.
Qed.

Lemma untar_loop_change steps tgz filename q w :
  tree_ok (nodes w) -> Forall plain q ->
  let '(r, w') := untar_loop steps tgz filename (abs q) w in change (fun k => k = q) w w'.
Proof.
  intros Hok Hq. induction steps as [|[nm tf data err|e] steps IH]; cbn [untar_loop];
    [by apply change_refl| |by apply change_refl].
  destruct (negb (tf =? TypeReg)); [done|]. destruct (negb _); [done|].
  pose proof (os_OpenFile_abs q true 493 w Hok Hq) as H.
  destruct (os_OpenFile (abs q) true 493 w) as [[h|e] w1] eqn:E; destruct H as [Hc Hh];
    (assert (change (fun k => k = q) w w1) as Hc1 by (refine (change_mono _ _ _ _ _ Hc); by intros k [? _])).
  - rewrite (try_bind_ok _ _ _ _ _ E). destruct (Hh h eq_refl) as [-> _].
    pose proof (copy_to_change q data err w1 (fun k => k = q) (ch_ok _ _ _ Hc) eq_refl) as H.
    destruct (copy_to q data err w1) as [r w2]. destruct H as [H _]. by eapply change_trans.
  - by rewrite (try_bind_err _ _ _ _ _ E).
Qed.

(** [UntarFile] changes nothing but its destination, whatever the archive and whatever
    fails; and when nothing does, it writes there the data of the first regular entry
    with the base name asked for, and without one it fails and writes nothing. *)
Theorem UntarFile_first tar_gz src raw ms dd c m filename steps w :
  tree_ok (nodes w) -> nodes w !! src = Some (NFile raw ms) -> nodes w !! dd = Some (NDir m) -> plain c ->
  filename <> [] -> tar_gz raw = Ok steps ->
  let '(r, w') := UntarFile tar_gz (abs src) filename (abs (dd ++ [c])) w in
  (forall k, k <> dd ++ [c] -> nodes w' !! k = nodes w !! k) /\
  (faults w = [] -> dir_at (nodes w) (dd ++ [c]) = false ->
   (forall pre name data post, steps = pre ++ TarEntry name TypeReg data None :: post ->
      Base name = filename -> Forall (fun s => is_match filename s = false) pre ->
      r = Ok tt /\ exists md, nodes w' !! (dd ++ [c]) = Some (NFile data md)) /\
   (Forall (fun s => is_match filename s = false) steps -> is_ok r = false /\ w' = w)).
Proof.
  intros Hok Hs Hm Hc Hfn Ht. pose proof (wf_plain _ _ _ (proj1 Hok) Hm) as Hd.
  assert (Forall plain (dd ++ [c])) as Hq by (apply Forall_app; split; [done|by apply Forall_singleton]).
  unfold UntarFile. rewrite (bool_decide_eq_false_2 (abs src = [])), (bool_decide_eq_false_2 (filename = [])),
    (bool_decide_eq_false_2 (abs (dd ++ [c]) = [])) by done.
  pose proof (os_ReadFile_abs src w (fun k => k = dd ++ [c]) Hok (wf_plain _ _ _ (proj1 Hok) Hs)) as H.
  destruct (os_ReadFile (abs src) w) as [[raw'|e] w1] eqn:E; destruct H as (Hc1 & Hn1 & H).
  2: { rewrite (try_bind_err _ _ _ _ _ E). split; [intros k _; by rewrite Hn1|]. intros Hf.
       by rewrite (os_ReadFile_run _ _ _ _ Hok Hf Hs) in E. }
  destruct H as [m' H]. rewrite Hs in H. injection H as <- _.
  rewrite (try_bind_ok _ _ _ _ _ E). unfold try_bind at 1, mbind at 1, State_bind at 1, mret at 1, State_ret at 1.
  rewrite Ht. pose proof (untar_loop_change steps (abs src) filename (dd ++ [c]) w1 (ch_ok _ _ _ Hc1) Hq) as Hl.
  destruct (untar_loop steps _ _ _ w1) as [r w2] eqn:El. split.
  { intros k Hk. rewrite (ch_keep _ _ _ Hl) by done. by rewrite Hn1. }
  intros Hf Hda. rewrite (os_ReadFile_run _ _ _ _ Hok Hf Hs) in E. injection E as <-. split.
  - intros pre name data post -> Hb Hpre. rewrite untar_loop_skip in El by done. cbn [untar_loop] in El.
    rewrite Z.eqb_refl, bool_decide_eq_true_2 in El by done. cbn [negb] in El.
    destruct (os_OpenFile_run (dd ++ [c]) true 493 w Hok Hf) as [w3 E3]; [by eapply has_parent_dir|done|].
    rewrite (try_bind_ok _ _ _ _ _ E3) in El.
    pose proof (os_OpenFile_abs (dd ++ [c]) true 493 w Hok Hq) as H. rewrite E3 in H.
    destruct H as [Hc3 H]. destruct (H _ eq_refl) as (_ & _ & d0 & m0 & H0 & ->).
    pose proof (copy_to_change (dd ++ [c]) data None w3 (fun _ => True) (ch_ok _ _ _ Hc3) I) as H5.
    rewrite El in H5. destruct H5 as (_ & H5 & H6). rewrite H6 in * by (try done; by apply (ch_faults _ _ _ Hc3)).
    split; [done|]. destruct (H5 eq_refl) as [_ H7]. by apply (H7 [] m0).
  - intros Hno. rewrite <- (app_nil_r steps), untar_loop_skip in El by done. injection El as <- <-. done.
Qed.

(** ** Concrete trees and archives for the examples *)

Module ArchiveDemo.

Definition mt : meta := Meta 493 0 0 0.
Definition home : bytes := $"home".
Definition site : bytes := $"site".

(** /home/site/a.txt and an empty archive /home/x *)
Definition disk : tree :=
  list_to_map [([], NDir mt); ([home], NDir mt); ([home; site], NDir mt);
    ([home; site; $"a.txt"], NFile ($"hello") mt); ([home; $"x"], NFile [] mt)].

Definition world : os := Os disk (Process [] 18 0 0 0) [].

Lemma world_ok : tree_ok (nodes world).
Proof. apply tree_okb_ok. vm_compute. reflexivity. Defined.

(** A codec: archives are numbers, in unary. *)
Definition write (es : list (bytes * bytes)) : bytes := repeat nl (Pos.to_nat (encode es)).
Definition open (raw : bytes) : result (list zip_entry) :=
  match decode (Pos.of_nat (length raw)) with
  | Some es => Ok (map stored es)
  | None => Err (EOther 0)
  end.

#[export] Instance codec : ZipCodec open write.
Proof.
  intros es _. unfold open, write. rewrite repeat_length, Pos2Nat.id. by rewrite decode_encode.
Defined.

(** An archive with an entry that climbs out and one that stays inside. *)
Definition evil (raw : bytes) : result (list zip_entry) :=
  Ok [ZipEntry ($"../../etc/passwd") false None ($"root") None; ZipEntry ($"ok") false None ($"fine") None].

Definition hidden (raw : bytes) : result (list zip_entry) :=
  Ok [ZipEntry (Join [$"..data"; $"f"] [slash]) false None ($"v") None].

Definition tarball (raw : bytes) : result (list tar_step) :=
  Ok [TarEntry ($"dist/README") TypeReg ($"r") None; TarEntry ($"dist/app") TypeReg ($"bin") None].

End ArchiveDemo.
Import ArchiveDemo.

Lemma plain_demo : plain ($"x") /\ plain ($"app").
Proof. unfold plain. split; apply (bool_decide_unpack _); vm_compute; exact I. Defined.

Lemma Unzip_contained_witness :
  let '(r, w') := Unzip evil (abs [home; $"x"]) world in
  tree_ok (nodes w') /\ forall k, nodes w' !! k <> nodes world !! k ->
    (exists r, r <> [] /\ k = [home] ++ r) /\ dir_at (nodes world) k = false.
Proof. apply (Unzip_contained evil [home] ($"x") mt world); [apply world_ok|reflexivity|apply plain_demo]. Defined.

Example evil_run :
  let '(r, w') := Unzip evil (abs [home; $"x"]) world in
  r = Ok tt /\ nodes w' !! [$"etc"; $"passwd"] = None /\
  option_map node_size (nodes w' !! [home; $"ok"]) = Some 4.
Proof. vm_compute. repeat split. Qed.

Lemma Unzip_extracts_witness :
  exists me, nodes (snd (Unzip evil (abs [home; $"x"]) world)) !! [home; $"ok"] = Some (NFile ($"fine") me).
Proof.
  assert (fst (Unzip evil (abs [home; $"x"]) world) = Ok tt) as Hr by (vm_compute; reflexivity).
  destruct (Unzip evil (abs [home; $"x"]) world) as [r w'] eqn:E. cbn [fst] in Hr. subst r.
  destruct (Unzip_extracts evil [home] ($"x") mt world w') as (raw & mz & files & _ & Ho & H);
    [apply world_ok|reflexivity|apply plain_demo|exact E|].
  injection Ho as <-.
  destruct (H [ZipEntry ($"../../etc/passwd") false None ($"root") None]
              (ZipEntry ($"ok") false None ($"fine") None) [] [$"ok"]) as [_ Hf];
    [reflexivity|vm_compute; reflexivity|by intros x l [= <- <-]|].
  apply Hf; [reflexivity|]. intros e' He'. by apply not_elem_of_nil in He'.
Defined.

Lemma Unzip_skips_dotdot_names_witness :
  Unzip hidden (abs [home; $"x"]) world = (Ok tt, world).
Proof.
  apply (Unzip_skips_dotdot_names hidden [home] ($"x") mt mt [] ($"..data") [$"f"] ($"v") world);
    try reflexivity; [apply world_ok|apply plain_demo|].
  unfold plain. apply (bool_decide_unpack _). vm_compute. exact I.
Defined.

Lemma Zip_Unzip_roundtrip_witness :
  exists w1, Zip write 9 (abs [home; site]) world = (Ok tt, w1).
Proof.
  destruct (Zip_Unzip_roundtrip (open := open) (write := write) 9 [home] site mt world) as (w1 & H & _);
    [apply world_ok|reflexivity..|vm_compute; lia|]. by exists w1.
Defined.

Lemma Zip_ignores_close_error_witness :
  exists w1 mz, Zip write 9 (abs [home; $"x"]) (Os disk (Process [] 18 0 0 0) (repeat None 7 ++ [Some (0%nat, EOther 28)])) =
    (Ok tt, w1) /\ nodes w1 !! [home; $"x.zip"] = Some (NFile [] mz).
Proof.
  apply (Zip_ignores_close_error write 9 [home] ($"x") [] mt mt
           (Os disk (Process [] 18 0 0 0) (repeat None 7 ++ [Some (0%nat, EOther 28)])) (EOther 28));
    try reflexivity. apply world_ok.
Defined.

Lemma UntarFile_first_witness :
  exists md, nodes (snd (UntarFile tarball (abs [home; $"x"]) ($"app") (abs ([home] ++ [$"app"])) world)) !! [home; $"app"] =
    Some (NFile ($"bin") md).
Proof.
  pose proof (UntarFile_first tarball [home; $"x"] [] mt [home] ($"app") mt ($"app")
                [TarEntry ($"dist/README") TypeReg ($"r") None; TarEntry ($"dist/app") TypeReg ($"bin") None] world) as H.
  destruct (UntarFile tarball _ _ _ world) as [r w'].
  destruct H as [_ H]; [apply world_ok|reflexivity|reflexivity|apply plain_demo|done|reflexivity|].
  destruct H as [H _]; [reflexivity|reflexivity|].
  destruct (H [TarEntry ($"dist/README") TypeReg ($"r") None] ($"dist/app") ($"bin") []) as [_ Hw];
    [reflexivity|vm_compute; reflexivity|by apply Forall_singleton|]. exact Hw.
Defined.
