(* ===== verification/Strutil.v ===== *)
(** * Package [strutil]

    Conversions ([convert.go]), line dedentation ([trim.go]) and random strings
    ([rand.go]).  The generator of [math/rand] is the state of a monad: a stream
    of non-negative draws, from which [Intn n] takes the next one modulo [n]. *)

From S2P Require Import Prelude GoStr.

Local Open Scope Z_scope.

(** ** convert.go *)

Definition ToInt (str : bytes) : Z :=
  match Atoi str with
  | None => 0
  | Some v => v
  end.

(** [uint(v)] reinterprets the two's complement word. *)
Definition ToUint (str : bytes) : Z :=
  match Atoi str with
  | None => 0
  | Some v => u64 v
  end.

(** ** encode.go: text that is not GB 18030 is returned as it is. *)

Definition Gb18030ToUtf8 (decode : bytes -> result bytes) (s : bytes) : bytes :=
  match decode s with
  | Ok ret => ret
  | Err _ => s
  end.

(** [strings.ToUpper] and [strings.ToLower] of a one-byte string.  A byte above
    127 is not a valid UTF-8 sequence on its own, and [strings.Map] replaces it
    by the encoding of U+FFFD. *)
Definition replacement : bytes := [chr 239; chr 191; chr 189].

Definition upper_byte (c : ascii) : bytes :=
  if code c <? 128 then [upper1 c] else replacement.

Definition lower_byte (c : ascii) : bytes :=
  if code c <? 128 then [lower1 c] else replacement.

Definition FirstUpper (s : bytes) : bytes :=
  match s with
  | [] => s
  | c :: r => upper_byte c ++ r
  end.

Definition FirstLower (s : bytes) : bytes :=
  match s with
  | [] => s
  | c :: r => lower_byte c ++ r
  end.

(** ** trim.go *)

Definition blanks : bytes := [" "; "009"]%char.

Definition trim_line (line : bytes) : bytes := TrimLeft line blanks.

(** The first loop: the smallest indent of a non-blank line, [-1] if none. *)
Definition min_indent_step (minIndent : Z) (line : bytes) : Z :=
  let trimLine := trim_line line in
  if bool_decide (trimLine = []) then minIndent
  else
    let indent := Z.of_nat (length line) - Z.of_nat (length trimLine) in
    if (minIndent =? -1) || (indent <? minIndent) then indent else minIndent.

Definition min_indent (lines : list bytes) : Z := fold_left min_indent_step lines (-1).

(** The second loop. *)
Definition strip_line (line : bytes) : bytes :=
  let line' := trim_line line in
  if (0 <? Z.of_nat (length line')) then line' else line.

Fixpoint drop_empty (lines : list bytes) : list bytes :=
  match lines with
  | [] :: r => drop_empty r
  | _ => lines
  end.

(** [start] and [end] skip the empty lines at both ends. *)
Definition trim_empty (lines : list bytes) : list bytes :=
  reverse (drop_empty (reverse (drop_empty lines))).

Definition Dedent (text : bytes) : bytes :=
  let lines := Split text nl in
  let lines := if 0 <? min_indent lines then map strip_line lines else lines in
  Join (trim_empty lines) [nl].

(** ** rand.go *)

Definition rng : Type := list Z.

Definition Intn (n : Z) : State rng Z := fun r =>
  match r with
  | [] => (0, [])
  | x :: r' => (x mod n, r')
  end.

(** [strconv.Itoa] of a number below ten. *)
Definition Itoa_digit (n : Z) : bytes := [digit n].

Definition rand_char : State rng bytes :=
  t ← Intn 3;
  if decide (t = 0) then (d ← Intn 10; mret (Itoa_digit d))
  else if decide (t = 1) then (d ← Intn 26; mret [chr (d + 65)])
  else (d ← Intn 26; mret [chr (d + 97)]).

(** [make([]string, length)] starts the slice with [length] empty strings, to
    which one string per iteration is appended. *)
Fixpoint rand_loop (n : nat) (rs : list bytes) : State rng (list bytes) :=
  match n with
  | O => mret rs
  | S n' => c ← rand_char; rand_loop n' (rs ++ [c])
  end.

Definition Rand (n : nat) : State rng bytes :=
  rs ← rand_loop n (repeat [] n); mret (Join rs []).

(** A unique string: of a time-ordered identifier, or of a random one where the first
    cannot be made; both are drawn by the library. *)
Definition NewString {G : Type} (uuid_NewV7 : State G (result bytes)) (uuid_NewString : State G bytes) : State G bytes :=
  tid ← uuid_NewV7;
  match tid with
  | Ok tid => mret tid
  | Err _ => uuid_NewString
  end.

(** ** What the functions do *)

(** The indent of a line and the reference dedentation: remove the common indent
    [k] of the non-blank lines from each of them. *)
Definition blank_line (line : bytes) : bool := bool_decide (trim_line line = []).

Definition indent_of (line : bytes) : nat := length line - length (trim_line line).

Definition remove_indent (k : nat) (line : bytes) : bytes :=
  if blank_line line then line else drop k line.

Definition dedent_by (k : nat) (text : bytes) : bytes :=
  Join (trim_empty (map (remove_indent k) (Split text nl))) [nl].

Lemma trim_line_split line :
  exists p, line = p ++ trim_line line /\ length p = indent_of line.
Proof.
  destruct (TrimLeft_spec line blanks) as (p & Hp & _). exists p.
  split; [exact Hp|]. unfold indent_of, trim_line.
  apply (f_equal length) in Hp. rewrite length_app in Hp. lia.
Qed.

Lemma trim_line_drop line : trim_line line = drop (indent_of line) line.
Proof.
  destruct (trim_line_split line) as (p & Hp & Hl).
  rewrite <- Hl. rewrite Hp at 2. by rewrite drop_app_length.
Qed.

Lemma trim_line_idemp line : trim_line (trim_line line) = trim_line line.
Proof.
  apply TrimLeft_id. destruct (TrimLeft_spec line blanks) as (p & _ & _ & Hc).
  exact Hc.
Qed.

Lemma indent_of_Z line :
  Z.of_nat (length line) - Z.of_nat (length (trim_line line)) = Z.of_nat (indent_of line).
Proof.
  destruct (trim_line_split line) as (p & Hp & Hl).
  apply (f_equal length) in Hp. rewrite length_app in Hp. lia.
Qed.

Lemma blank_line_true line : blank_line line = true <-> trim_line line = [].
Proof. unfold blank_line. by rewrite bool_decide_eq_true. Qed.

(** The first loop computes the smallest indent of the non-blank lines. *)
Definition indent_bound (m : Z) (lines : list bytes) : Prop :=
  forall l, l ∈ lines -> blank_line l = false -> -1 < m <= Z.of_nat (indent_of l).

Definition indent_seen (m : Z) (lines : list bytes) : Prop :=
  exists l, l ∈ lines /\ blank_line l = false /\ m = Z.of_nat (indent_of l).

Lemma min_indent_step_spec m line :
  min_indent_step m line =
  if blank_line line then m
  else if (m =? -1) || (Z.of_nat (indent_of line) <? m)
  then Z.of_nat (indent_of line) else m.
Proof. unfold min_indent_step, blank_line. by rewrite indent_of_Z. Qed.

Lemma min_indent_fold lines m done_ :
  -1 <= m -> indent_bound m done_ -> (m = -1 \/ indent_seen m done_) ->
  let m' := fold_left min_indent_step lines m in
  -1 <= m' /\ indent_bound m' (done_ ++ lines) /\ (m' = -1 \/ indent_seen m' (done_ ++ lines)).
Proof.
  revert m done_. induction lines as [|l lines IH]; intros m done_ Hm Hb Hs; simpl.
  { by rewrite app_nil_r. }
  assert (Happ : done_ ++ l :: lines = (done_ ++ [l]) ++ lines) by by rewrite <- app_assoc.
  rewrite Happ. apply IH; rewrite min_indent_step_spec.
  - repeat case_match; lia.
  - intros k Hk Hbk. apply elem_of_app in Hk as [Hk| ->%list_elem_of_singleton].
    + specialize (Hb k Hk Hbk). repeat case_match; lia.
    + rewrite Hbk. case_match eqn:E; [lia|]. apply orb_false_iff in E. lia.
  - destruct (blank_line l) eqn:Hbl.
    + destruct Hs as [|(k & ? & ? & ?)]; [by left|]. right. exists k. set_solver.
    + case_match eqn:E; [right; exists l; set_solver|].
      apply orb_false_iff in E. destruct Hs as [|(k & ? & ? & ?)]; [lia|].
      right. exists k. set_solver.
Qed.

Lemma min_indent_spec lines :
  indent_bound (min_indent lines) lines /\
  (min_indent lines = -1 \/ indent_seen (min_indent lines) lines).
Proof.
  unfold min_indent.
  destruct (min_indent_fold lines (-1) []) as (_ & H1 & H2); simpl in *; [lia| |by left|done].
  intros l Hl. by apply not_elem_of_nil in Hl.
Qed.

Lemma drop_empty_suffix lines : exists p, lines = p ++ drop_empty lines.
Proof.
  induction lines as [|[|c l] lines [p Hp] ]; simpl.
  - by exists [].
  - exists ([] :: p). simpl. by rewrite <- Hp.
  - by exists [].
Qed.

Lemma drop_empty_elem lines l : l ∈ drop_empty lines -> l ∈ lines.
Proof. destruct (drop_empty_suffix lines) as [p Hp]. rewrite Hp at 2. set_solver. Qed.

Lemma trim_empty_elem lines l : l ∈ trim_empty lines -> l ∈ lines.
Proof.
  unfold trim_empty. rewrite elem_of_reverse. intros H%drop_empty_elem.
  rewrite elem_of_reverse in H. by apply drop_empty_elem.
Qed.

Lemma Split_Dedent text :
  trim_empty (if 0 <? min_indent (Split text nl)
              then map strip_line (Split text nl) else Split text nl) <> [] ->
  Split (Dedent text) nl =
  trim_empty (if 0 <? min_indent (Split text nl)
              then map strip_line (Split text nl) else Split text nl).
Proof.
  intros Hne. apply Split_Join; [done|]. apply Forall_forall. intros l Hl%trim_empty_elem.
  case_match; [|by apply Split_elem in Hl].
  apply list_elem_of_fmap in Hl as (l' & -> & Hl'). apply Split_elem in Hl'.
  unfold strip_line. case_match; [|done].
  destruct (trim_line_split l') as (q & Hq & _). rewrite Hq in Hl'. set_solver.
Qed.

(** *** Dedentation of uniformly indented text *)

Lemma strip_line_uniform k l :
  (blank_line l = false -> indent_of l = k) -> strip_line l = remove_indent k l.
Proof.
  intros Hk. unfold strip_line, remove_indent. destruct (blank_line l) eqn:Hb.
  - by apply blank_line_true in Hb as ->.
  - rewrite <- Hk by done. rewrite <- trim_line_drop.
    destruct (trim_line l) eqn:E; [|done]. by apply blank_line_true in E; congruence.
Qed.

(** When all non-blank lines of a text start with the same number [k] of
    blanks, [Dedent] removes exactly these blanks from every non-blank line, and
    the empty lines at both ends. *)
Theorem Dedent_uniform text k :
  Forall (fun l => blank_line l = false -> indent_of l = k) (Split text nl) ->
  Dedent text = dedent_by k text.
Proof.
  intros Hk. rewrite Forall_forall in Hk. unfold Dedent, dedent_by.
  destruct (min_indent_spec (Split text nl)) as [Hb Hs]. f_equal. f_equal.
  case_match eqn:E.
  - apply map_ext_in. intros l Hl%list_elem_of_In. apply strip_line_uniform. auto.
  - rewrite <- (map_id (Split text nl)) at 1. apply map_ext_in.
    intros l Hl%list_elem_of_In. unfold remove_indent.
    destruct (blank_line l) eqn:Hbl; [done|].
    specialize (Hb l Hl Hbl). destruct Hs as [|(m & Hm & Hbm & E')]; [lia|].
    rewrite (Hk m Hm Hbm) in E'. replace k with 0%nat by lia. by rewrite drop_0.
Qed.

Lemma Dedent_uniform_witness :
  Dedent ($"  a" ++ nl :: $"  b") = $"a" ++ nl :: $"b".
Proof.
  rewrite (Dedent_uniform _ 2); [reflexivity|].
  repeat constructor; intros _; reflexivity.
Defined.

(** *** Dedentation of nested text *)

Lemma strip_line_indent l : blank_line (strip_line l) = false -> indent_of (strip_line l) = 0%nat.
Proof.
  unfold strip_line. case_match eqn:E.
  - intros _. unfold indent_of. rewrite trim_line_idemp. lia.
  - intros Hb. destruct (trim_line l) eqn:Ht; [|by simpl in E].
    apply blank_line_true in Ht. congruence.
Qed.

(** Contrary to the comment of [Dedent] ("the common leading whitespace"), when
    every non-blank line is indented at all, no line of the result is indented:
    the relative indentation of nested text is lost. *)
Theorem Dedent_flattens text l :
  (forall m, m ∈ Split text nl -> blank_line m = false -> (0 < indent_of m)%nat) ->
  l ∈ Split (Dedent text) nl -> blank_line l = false -> indent_of l = 0%nat.
Proof.
  intros Hpos Hl Hbl.
  destruct (decide (trim_empty (if 0 <? min_indent (Split text nl)
     then map strip_line (Split text nl) else Split text nl) = [])) as [E|E].
  { unfold Dedent in Hl. rewrite E in Hl. simpl in Hl.
    apply list_elem_of_singleton in Hl as ->. done. }
  rewrite Split_Dedent in Hl by done. apply trim_empty_elem in Hl.
  destruct (min_indent_spec (Split text nl)) as [Hb Hs]. case_match eqn:Em.
  - apply list_elem_of_fmap in Hl as (m & -> & _). by apply strip_line_indent.
  - specialize (Hb l Hl Hbl). destruct Hs as [|(m & Hm & Hbm & E')]; [lia|].
    specialize (Hpos m Hm Hbm). lia.
Qed.

Lemma Dedent_flattens_witness :
  let text := $"  if x:" ++ nl :: $"    y" in
  Dedent text = $"if x:" ++ nl :: $"y" /\ indent_of ($"y") = 0%nat.
Proof.
  split; [reflexivity|].
  apply (Dedent_flattens ($"  if x:" ++ nl :: $"    y")).
  - simpl. intros m Hm _. set_unfold in Hm.
    destruct Hm as [-> | [-> | []]]; vm_compute; lia.
  - simpl. right. left.
  - reflexivity.
Defined.

(** *** Conversions *)

Theorem ToUint_spec s :
  ToUint s = match Atoi s with
             | Some v => if 0 <=? v then v else v + 2 ^ 64
             | None => 0
             end /\ in_u64 (ToUint s).
Proof.
  unfold ToUint. destruct (Atoi s) as [v|] eqn:E; [|by unfold in_u64].
  apply Atoi_range in E. unfold in_i64 in E. split; [|apply u64_range].
  unfold u64. case_match.
  - apply Z.mod_small. lia.
  - rewrite <- (Z_mod_plus_full v 1). apply Z.mod_small. lia.
Qed.

(** *** Random strings *)

Definition alnum (c : ascii) : Prop :=
  is_digit c = true \/ is_upper c = true \/ is_lower c = true.

Lemma Intn_range n r : 0 < n -> 0 <= fst (Intn n r) < n.
Proof. intros Hn. destruct r as [|x r]; simpl; [lia|]. by apply Z.mod_pos_bound. Qed.

Lemma rand_char_spec r : exists c, fst (rand_char r) = [c] /\ alnum c.
Proof.
  unfold rand_char, mbind, State_bind, mret, State_ret, alnum.
  destruct (Intn 3 r) as [t r1]. repeat case_decide.
  - pose proof (Intn_range 10 r1 ltac:(lia)). destruct (Intn 10 r1) as [d r2]. simpl in *.
    eexists. split; [done|]. left. unfold is_digit. rewrite code_digit by lia. lia.
  - pose proof (Intn_range 26 r1 ltac:(lia)). destruct (Intn 26 r1) as [d r2]. simpl in *.
    eexists. split; [done|]. right. left. unfold is_upper. rewrite code_chr by lia. lia.
  - pose proof (Intn_range 26 r1 ltac:(lia)). destruct (Intn 26 r1) as [d r2]. simpl in *.
    eexists. split; [done|]. right. right. unfold is_lower. rewrite code_chr by lia. lia.
Qed.

Lemma rand_loop_spec n rs r :
  exists cs, fst (rand_loop n rs r) = rs ++ map (fun c => [c]) cs /\
    length cs = n /\ Forall alnum cs.
Proof.
  revert rs r. induction n as [|n IH]; intros rs r.
  - exists []. rewrite app_nil_r. done.
  - cbn [rand_loop]. unfold mbind, State_bind.
    destruct (rand_char_spec r) as (c & Hc & Ha). destruct (rand_char r) as [b r'].
    simpl in Hc. subst b. destruct (IH (rs ++ [[c]]) r') as (cs & E & Hl & Hf).
    exists (c :: cs). rewrite E, <- app_assoc. simpl. split; [done|]. by split; [lia | constructor].
Qed.

Lemma Join_nil_concat ws : Join ws [] = concat ws.
Proof.
  induction ws as [|w ws IH]; simpl; [done|].
  destruct ws; [by rewrite app_nil_r|]. by rewrite IH.
Qed.

Theorem Rand_spec n r :
  length (fst (Rand n r)) = n /\ Forall alnum (fst (Rand n r)).
Proof.
  unfold Rand, mbind, State_bind.
  destruct (rand_loop_spec n (repeat [] n) r) as (cs & E & Hl & Hf).
  destruct (rand_loop n (repeat [] n) r) as [rs r']. simpl in *. subst rs.
  assert (Join (repeat [] n ++ map (fun c => [c]) cs) [] = cs) as ->; [|done].
  rewrite Join_nil_concat, concat_app.
  assert (concat (repeat [] n) = ([] : bytes)) as -> by (clear; induction n; done).
  clear. simpl. induction cs; simpl; by f_equal.
Qed.
