(* ===== verification/JsonlFilter.v ===== *)
(** * Package [jsonl]: file names, line filters and timestamps

    [Naming] and [FilePath] of [store.go], and [filter.go].  The third-party
    [gjson] lookup and [time.Parse] at RFC 3339 are the two operations of the
    class [LineFields]. *)

From S2P Require Import Prelude GoStr GoTime GoPath.

(** ** Naming (store.go) *)

Record Naming := { Prefix : bytes; Sep : bytes; Suffix : bytes }.

Definition FileName (n : Naming) (date : bytes) : bytes :=
  if bool_decide (Prefix n = []) then date ++ Suffix n
  else Prefix n ++ Sep n ++ date ++ Suffix n.

Definition file_path (dir : bytes) (n : Naming) (date : bytes) : bytes :=
  JoinPath [dir; FileName n date].

(** ** Filters (filter.go) *)

(** A nil [Filter] is [None]. *)
Definition Filter : Type := option (bytes -> bool).

Definition accepts (f : Filter) (line : bytes) : bool :=
  match f with
  | Some g => g line
  | None => true
  end.

Definition And (filters : list Filter) : Filter :=
  let fs := omap id filters in
  match fs with
  | [] => None
  | [f] => Some f
  | _ => Some (fun line => forallb (fun f => f line) fs)
  end.

(** What [gjson.GetBytes] finds at a path. *)
Inductive gjson_type := GNumber | GString | GOther.

Record gjson_value := {
  gv_type : gjson_type;
  gv_str : bytes;       (* v.Str *)
  gv_int : Z;           (* v.Int() *)
  gv_string : bytes     (* v.String() *)
}.

Class LineFields := {
  GetBytes : bytes -> bytes -> gjson_value;
  time_Parse : bytes -> option Z
}.

Section with_fields.
Context `{LineFields}.

Definition StrEq (path value : bytes) : Filter :=
  if bool_decide (path = []) || bool_decide (value = []) then None
  else Some (fun line => bool_decide (gv_string (GetBytes line path) = value)).

Definition ParseTimestamp (line path : bytes) : option Z :=
  if bool_decide (path = []) then None
  else
    let v := GetBytes line path in
    match gv_type v with
    | GNumber => Some (gv_int v)
    | GString => time_Parse (gv_str v)
    | GOther => None
    end.

Definition tsGTEFilter (path : bytes) (cutoffUnix : Z) : Filter :=
  if bool_decide (path = []) then None
  else Some (fun line =>
    match ParseTimestamp line path with
    | Some ts => (cutoffUnix <=? ts)%Z
    | None => false
    end).

(** [And] accepts what every filter accepts, a nil filter accepting all. *)
Lemma And_accepts filters line :
  accepts (And filters) line = forallb (fun f => accepts f line) filters.
Proof.
  assert (forallb (fun f => f line) (omap id filters) =
          forallb (fun f => accepts f line) filters) as E.
  { induction filters as [|[f|] fs IH]; simpl; [done| |done]. by rewrite <- IH. }
  rewrite <- E. unfold And. destruct (omap id filters) as [|f [|g fs]]; simpl; [done| |done].
  by rewrite andb_true_r.
Qed.

(** [And] is nil exactly when all its arguments are. *)
Lemma And_nil filters : And filters = None <-> Forall (fun f => f = None) filters.
Proof.
  assert (omap id filters = [] <-> Forall (fun f => f = None) filters) as <-.
  { induction filters as [|[f|] fs IH]; simpl.
    - split; [constructor | done].
    - split; [done | by inversion 1].
    - rewrite Forall_cons, IH. naive_solver. }
  unfold And. destruct (omap id filters) as [|f [|g fs]]; done.
Qed.

Lemma tsGTEFilter_accepts path cutoff line :
  path <> [] ->
  accepts (tsGTEFilter path cutoff) line = true <->
  exists ts, ParseTimestamp line path = Some ts /\ (cutoff <= ts)%Z.
Proof.
  intros Hp. unfold tsGTEFilter. rewrite bool_decide_eq_false_2 by done. simpl.
  destruct (ParseTimestamp line path) as [ts|].
  - rewrite Z.leb_le. split; [by eauto | by intros (? & [= ->] & ?)].
  - split; [done | by intros (? & ? & ?)].
Qed.

End with_fields.
