(* ===== verification/JsonlReader.v ===== *)
(** * Package [jsonl]: reading back ([reader.go])

    Forward scanning through [bufio.Scanner], reverse chunked scanning
    ([tailLines]) and time-bucket sampling.  The callback of a scan is a
    computation over the state the Go closure captures. *)

From S2P Require Import Prelude GoStr GoTime GoPath JsonlFilter.
From Stdlib Require Import Sorted.

(** ** Files as the reader sees them

    [os.Open] fails, or gives a content and the error that ends reading it
    ([None] for the ordinary end of file). *)
Inductive file :=
  | FMissing
  | FOpenErr (e : error)
  | FData (content : bytes) (rerr : option error).

Abbreviation tree := (gmap bytes file).

Definition Open (t : tree) (path : bytes) : file := default FMissing (t !! path).

(** ** [bufio.Scanner] with [ScanLines] *)

(** The lines of a stream: a last line without newline counts when non-empty. *)
Definition raw_lines (content : bytes) : list bytes :=
  let ps := Split content nl in
  if bool_decide (last ps = Some []) then removelast ps else ps.

(** [ScanLines] drops one carriage return before the newline. *)
Definition dropCR (line : bytes) : bytes := TrimSuffix line [cr].

(** [scanner.Buffer(make([]byte, 64*1024), 1024*1024)] *)
Definition maxTokenSize : N := 1024 * 1024.

(** A line that does not fit in the buffer with its newline stops the scan. *)
Definition too_long (line : bytes) : bool := (maxTokenSize <=? N.of_nat (length line))%N.

Definition ErrTooLong : error := ESentinel ($"bufio.Scanner: token too long").

Definition handler (St : Type) : Type := bytes -> State St bool.

(** The scan loop of [ScanFile]. *)
Fixpoint scan_loop {St : Type} (lines : list bytes) (rerr : option error) (filter : Filter)
    (h : handler St) : State St (option error) :=
  match lines with
  | [] => mret rerr
  | raw :: lines' =>
      if too_long raw then mret (Some ErrTooLong)
      else
        let line := dropCR raw in
        if bool_decide (line = []) then scan_loop lines' rerr filter h
        else if negb (accepts filter line) then scan_loop lines' rerr filter h
        else
          more ← h line;
          if more : bool then scan_loop lines' rerr filter h else mret None
  end.

Definition ScanFile {St : Type} (t : tree) (path : bytes) (filter : Filter) (h : handler St)
    : State St (option error) :=
  match Open t path with
  | FMissing => mret None
  | FOpenErr e => mret (Some e)
  | FData content rerr => scan_loop (raw_lines content) rerr filter h
  end.

(** ** [daysInRange] (retain.go) *)

(** The loop from the instant [start] while not after [end], by [AddDate]. *)
Fixpoint days_loop (fuel : nat) (loc : location) (d end_ : Z) : list bytes :=
  match fuel with
  | O => []
  | S fuel' =>
      if (end_ <? d)%Z then []
      else format_day (local_day loc d) :: days_loop fuel' loc (AddDays loc 1 d) end_
  end.

(** The fuel is enough where [AddDate] goes on by twelve hours at least (see
    [days_loop_enough]); where it stays, the code does not end. *)
Definition daysInRange (fromUnix toUnix : Z) (loc : location) : list bytes :=
  let toUnix := if (toUnix <? fromUnix)%Z then fromUnix else toUnix in
  let start := midnight loc (local_day loc fromUnix) in
  let end_ := midnight loc (local_day loc toUnix) in
  days_loop (S (Z.to_nat ((end_ - start) / 43200)%Z)) loc start end_.

(** ** [ScanSince] and [DecodeSince] *)

Section decode.
Context `{LineFields}.
Context {T : Type} (Unmarshal : bytes -> option T).

Record source := { src_dir : bytes; src_naming : Naming; src_loc : location; src_tree : tree }.

Definition FilePath (s : source) (date : bytes) : bytes :=
  file_path (src_dir s) (src_naming s) date.

Fixpoint scan_dates {St : Type} (s : source) (dates : list bytes) (combined : Filter)
    (h : handler St) : State St (option error) :=
  match dates with
  | [] => mret None
  | date :: dates' =>
      let path := FilePath s date in
      err ← ScanFile (src_tree s) path combined h;
      match err with
      | Some e => mret (Some (EWrap ($"jsonl: scan " ++ path) e))
      | None => scan_dates s dates' combined h
      end
  end.

Definition ScanSince {St : Type} (s : source) (now cutoffUnix : Z) (tsField : bytes)
    (extra : Filter) (h : handler St) : State St (option error) :=
  let dates := daysInRange cutoffUnix now (src_loc s) in
  let combined := And [tsGTEFilter tsField cutoffUnix; extra] in
  scan_dates s dates combined h.

(** The closure of [DecodeSince] appends to [out] the lines that decode. *)
Definition decode_handler : handler (list T) := fun line out =>
  match Unmarshal line with
  | None => (true, out)
  | Some v => (true, out ++ [v])
  end.

Definition DecodeSince (s : source) (now cutoffUnix : Z) (tsField : bytes) (extra : Filter)
    : list T * option error :=
  let '(err, out) := ScanSince s now cutoffUnix tsField extra decode_handler [] in
  (out, err).

(** ** [DecodeSinceSampled] *)

Record sampledLine := { sl_ts : Z; sl_line : bytes }.

Definition sample_window (now cutoffUnix : Z) : Z :=
  let window := i64 (now - cutoffUnix) in
  if (window <=? 0)%Z then 1%Z else window.

Definition bucket_seconds (window sampleSize : Z) : Z :=
  let b := Z.quot (i64 (i64 (window + sampleSize) - 1)) sampleSize in
  if (b <=? 0)%Z then 1%Z else b.

Definition bucket_of (cutoffUnix bucketSeconds maxBucket ts : Z) : Z :=
  let bucket := Z.quot (i64 (ts - cutoffUnix)) bucketSeconds in
  if (maxBucket <? bucket)%Z then maxBucket else bucket.

Definition sample_handler (cutoffUnix bucketSeconds maxBucket : Z) (tsField : bytes)
    : handler (gmap Z sampledLine) := fun line buckets =>
  match ParseTimestamp line tsField with
  | None => (true, buckets)
  | Some ts =>
      let bucket := bucket_of cutoffUnix bucketSeconds maxBucket ts in
      match buckets !! bucket with
      | Some prev =>
          if (ts <? sl_ts prev)%Z then (true, buckets)
          else (true, <[bucket := {| sl_ts := ts; sl_line := line |}]> buckets)
      | None => (true, <[bucket := {| sl_ts := ts; sl_line := line |}]> buckets)
      end
  end.

(** The buckets that exist, from 0 to [maxBucket]. *)
Definition bucket_items (buckets : gmap Z sampledLine) (sampleSize : Z) : list sampledLine :=
  omap (fun b => buckets !! b) (seqZ 0 sampleSize).

Definition DecodeSinceSampled (s : source) (now now' cutoffUnix : Z) (tsField : bytes)
    (extra : Filter) (sampleSize : Z) : list T * option error :=
  if (sampleSize <=? 0)%Z then DecodeSince s now' cutoffUnix tsField extra
  else
    let bucketSeconds := bucket_seconds (sample_window now cutoffUnix) sampleSize in
    let maxBucket := (sampleSize - 1)%Z in
    let '(err, buckets) :=
      ScanSince s now' cutoffUnix tsField extra
        (sample_handler cutoffUnix bucketSeconds maxBucket tsField) ∅ in
    match err with
    | Some e => ([], Some e)
    | None => (omap (fun it => Unmarshal (sl_line it)) (bucket_items buckets sampleSize), None)
    end.

(** ** [tailLines] *)

Definition chunkSize : Z := 32 * 1024.

(** The inner loop, from index [i - 1] down: [inr] is the early return. *)
Fixpoint back_scan (i end_ : nat) (merged : bytes) (n : Z) (filter : Filter)
    (result : list bytes) : (nat * list bytes) + list bytes :=
  match i with
  | O => inl (end_, result)
  | S i' =>
      if bool_decide (merged !! i' = Some nl) then
        let line := take (end_ - i) (drop i merged) in
        if bool_decide (line = []) then back_scan i' i' merged n filter result
        else if negb (accepts filter line) then back_scan i' i' merged n filter result
        else
          let result := result ++ [line] in
          if (n <=? Z.of_nat (length result))%Z then inr result
          else back_scan i' i' merged n filter result
      else back_scan i' end_ merged n filter result
  end.

(** The chunk loop; [chunk] is the constant [chunkSize]. *)
Fixpoint tail_loop (fuel : nat) (chunk pos : Z) (content : bytes) (rerr : option error)
    (carry : bytes) (n : Z) (filter : Filter) (result : list bytes)
    : list bytes * option error :=
  match fuel with
  | O => (result, None)
  | S fuel' =>
      if (0 <? pos)%Z && (Z.of_nat (length result) <? n)%Z then
        let readSize := if (pos <? chunk)%Z then pos else chunk in
        let pos := (pos - readSize)%Z in
        match rerr with
        | Some e => ([], Some e)
        | None =>
            let buf := take (Z.to_nat readSize) (drop (Z.to_nat pos) content) in
            let merged := buf ++ carry in
            match back_scan (length merged) (length merged) merged n filter result with
            | inr result => (result, None)
            | inl (end_, result) =>
                let carry := take end_ merged in
                if (pos =? 0)%Z && bool_decide (carry <> []) then
                  let result := if accepts filter carry then result ++ [carry] else result in
                  tail_loop fuel' chunk pos content rerr [] n filter result
                else tail_loop fuel' chunk pos content rerr carry n filter result
            end
        end
      else (result, None)
  end.

(** [tailLines]: every iteration of the chunk loop lowers [pos], so the size of
    the file bounds their number. *)
Definition tailLines_chunk (chunk : Z) (t : tree) (path : bytes) (n : Z) (filter : Filter)
    : list bytes * option error :=
  if (n <=? 0)%Z then ([], None)
  else
    match Open t path with
    | FMissing => ([], None)
    | FOpenErr e => ([], Some e)
    | FData content rerr =>
        let size := Z.of_nat (length content) in
        if (size =? 0)%Z then ([], None)
        else tail_loop (S (length content)) chunk size content rerr [] n filter []
    end.

Definition tailLines : tree -> bytes -> Z -> Filter -> list bytes * option error :=
  tailLines_chunk chunkSize.

Definition DecodeTail (t : tree) (path : bytes) (n : Z) (filter : Filter)
    : list T * option error :=
  match tailLines t path n filter with
  | (_, Some e) => ([], Some e)
  | (lines, None) => (omap Unmarshal lines, None)
  end.

(** The day loop of [DecodeTailDays], [back] days before [now]. *)
Fixpoint tail_days_loop (s : source) (k : nat) (now back limit : Z) (filter : Filter) (out : list T)
    : list T * option error :=
  match k with
  | O => (out, None)
  | S k' =>
      if (Z.of_nat (length out) <? limit)%Z then
        let path := FilePath s (format_day (local_day (src_loc s) (AddDays (src_loc s) (- back) now))) in
        match tailLines (src_tree s) path (limit - Z.of_nat (length out)) filter with
        | (_, Some e) => ([], Some (EWrap ($"jsonl: tail " ++ path) e))
        | (lines, None) => tail_days_loop s k' now (back + 1) limit filter (out ++ omap Unmarshal lines)
        end
      else (out, None)
  end.

Definition DecodeTailDays (s : option source) (now days limit : Z) (filter : Filter)
    : list T * option error :=
  match s with
  | None => ([], None)
  | Some s =>
      if (days <=? 0)%Z || (limit <=? 0)%Z then ([], None)
      else tail_days_loop s (Z.to_nat days) now 0 limit filter []
  end.

End decode.

(** ** Reverse scanning returns the last lines *)

Definition keep (filter : Filter) (line : bytes) : bool :=
  negb (bool_decide (line = [])) && accepts filter line.

Definition kept (filter : Filter) (lines : list bytes) : list bytes :=
  List.filter (keep filter) lines.

Lemma kept_app f l1 l2 : kept f (l1 ++ l2) = kept f l1 ++ kept f l2.
Proof. apply List.filter_app. Qed.

Lemma kept_cons f l ls : kept f (l :: ls) = if keep f l then l :: kept f ls else kept f ls.
Proof. done. Qed.

(** What [tailLines] promises: the last [n] kept lines, newest first. *)
Definition tail_spec (content : bytes) (n : Z) (filter : Filter) : list bytes :=
  take (Z.to_nat n) (kept filter (reverse (Split content nl))).

Lemma Split_app_hd sep a b c W :
  Split b sep = c :: W -> Split (a ++ b) sep = Split (a ++ c) sep ++ W.
Proof.
  intros Hb. induction a as [|x a IH].
  - simpl. rewrite Hb, Split_no_sep; [done|].
    apply (Split_elem b). rewrite Hb. by left.
  - simpl. rewrite IH. pose proof (Split_nonempty (a ++ c) sep).
    destruct (Split (a ++ c) sep) as [|w ws]; [done|]. simpl. by case_decide.
Qed.

(** The split of a suffix is a suffix of the split, its first part apart. *)
Lemma Split_app_tl sep a b :
  exists X, Split (a ++ b) sep = X ++ tail (Split b sep).
Proof.
  pose proof (Split_nonempty b sep). destruct (Split b sep) as [|c W] eqn:E; [done|].
  exists (Split (a ++ c) sep). by apply Split_app_hd.
Qed.

Section tail.
Variables (n : Z) (filter : Filter).
#[local] Abbreviation F := (kept filter).

(** Collecting kept lines, newest first, until there are [n]. *)
Fixpoint collect (lines result : list bytes) : list bytes + list bytes :=
  match lines with
  | [] => inl result
  | l :: lines' =>
      if keep filter l then
        if (n <=? Z.of_nat (length (result ++ [l])))%Z then inr (result ++ [l])
        else collect lines' (result ++ [l])
      else collect lines' result
  end.

Lemma collect_spec lines result :
  (Z.of_nat (length result) < n)%Z ->
  collect lines result =
  if (n <=? Z.of_nat (length (result ++ F lines)))%Z
  then inr (take (Z.to_nat n) (result ++ F lines)) else inl (result ++ F lines).
Proof.
  revert result. induction lines as [|l lines IH]; intros result Hr; cbn [collect].
  - rewrite app_nil_r. by rewrite (proj2 (Z.leb_gt _ _)).
  - rewrite kept_cons. destruct (keep filter l); [|by apply IH].
    change (l :: F lines) with ([l] ++ F lines). rewrite (app_assoc result). rewrite length_app in *. simpl.
    destruct (Z.leb_spec n (Z.of_nat (length result + 1))) as [L|L].
    + rewrite (proj2 (Z.leb_le _ _)) by (rewrite !length_app; cbn [length]; lia).
      rewrite take_app_le by (rewrite length_app; simpl; lia).
      rewrite take_ge by (rewrite length_app; simpl; lia). done.
    + rewrite IH by (rewrite length_app; simpl; lia). done.
Qed.

Lemma take_at (l : bytes) i e x :
  l !! i = Some x -> i < e -> take e l = take i l ++ x :: take (e - S i) (drop (S i) l).
Proof.
  intros Hx Hi. rewrite <- (take_drop i l) at 1.
  pose proof (lookup_lt_Some _ _ _ Hx).
  rewrite take_app_ge by (rewrite length_take; lia).
  rewrite length_take, Nat.min_l by lia. f_equal.
  rewrite (drop_S l x i Hx). replace (e - i) with (S (e - S i)) by lia. done.
Qed.

(** The inner loop collects the lines that end before [end_]. *)
Lemma back_scan_collect i end_ merged result :
  i <= end_ <= length merged -> nl ∉ take (end_ - i) (drop i merged) ->
  back_scan i end_ merged n filter result =
  match collect (reverse (tail (Split (take end_ merged) nl))) result with
  | inl r => inl (length (hd [] (Split (take end_ merged) nl)), r)
  | inr r => inr r
  end.
Proof.
  revert end_ result. induction i as [|i IH]; intros end_ result Hi Hn.
  - rewrite drop_0, Nat.sub_0_r in Hn. rewrite Split_no_sep by done. simpl.
    by rewrite length_take, Nat.min_l by lia.
  - destruct (lookup_lt_is_Some_2 merged i ltac:(lia)) as [c Hc].
    pose proof (drop_S merged c i Hc) as Hd. cbn [back_scan]. rewrite Hc.
    case_bool_decide as Hnl.
    + injection Hnl as ->. rewrite (take_at merged i end_ nl) by (done || lia).
      set (line := take (end_ - S i) (drop (S i) merged)) in *.
      rewrite Split_app_gen, (Split_no_sep line) by done.
      pose proof (Split_nonempty (take i merged) nl).
      assert (nl ∉ take (i - i) (drop i merged)) as Hn'.
      { rewrite Nat.sub_diag. simpl. apply not_elem_of_nil. }
      pose proof (fun r => IH i r ltac:(lia) Hn') as IH'. clear IH.
      destruct (Split (take i merged) nl) as [|h ps]; [done|]. simpl in *.
      rewrite reverse_app. simpl. unfold keep.
      case_bool_decide; [by rewrite IH'|].
      destruct (accepts filter line); [|by rewrite IH']. simpl.
      case_match; [done|]. by rewrite IH'.
    + apply IH; [lia|]. rewrite Hd. replace (end_ - i) with (S (end_ - S i)) by lia.
      simpl. rewrite not_elem_of_cons. split; [congruence | done].
Qed.

Lemma back_scan_spec merged result :
  (Z.of_nat (length result) < n)%Z ->
  back_scan (length merged) (length merged) merged n filter result =
  let all := result ++ F (reverse (tail (Split merged nl))) in
  if (n <=? Z.of_nat (length all))%Z then inr (take (Z.to_nat n) all)
  else inl (length (hd [] (Split merged nl)), all).
Proof.
  intros Hr. rewrite back_scan_collect.
  - rewrite take_ge by lia. rewrite collect_spec by done. cbv zeta. by destruct (n <=? _)%Z.
  - lia.
  - rewrite Nat.sub_diag. simpl. apply not_elem_of_nil.
Qed.

Lemma take_hd_Split merged : take (length (hd [] (Split merged nl))) merged = hd [] (Split merged nl).
Proof.
  rewrite <- (Join_Split merged nl) at 2.
  pose proof (Split_nonempty merged nl). destruct (Split merged nl) as [|w ws]; [done|].
  simpl. destruct ws; [by rewrite take_ge | by rewrite take_app_length].
Qed.

(** The chunk loop, from the state in which [drop pos content] has been read. *)
Lemma tail_loop_spec fuel chunk pos content carry W :
  (0 < chunk)%Z -> (0 <= pos <= Z.of_nat (length content))%Z -> (pos < Z.of_nat fuel)%Z ->
  Split (drop (Z.to_nat pos) content) nl = carry :: W ->
  (Z.of_nat (length (F (reverse W))) < n)%Z ->
  (0 < pos)%Z ->
  tail_loop fuel chunk pos content None carry n filter (F (reverse W)) =
  (tail_spec content n filter, None).
Proof.
  intros Hc. revert pos carry W. induction fuel as [|fuel IH];
    intros pos carry W Hpos Hf Hs Hr Hp; [lia|].
  cbn [tail_loop]. rewrite (proj2 (Z.ltb_lt 0 pos)), (proj2 (Z.ltb_lt _ n)) by lia.
  set (readSize := if (pos <? chunk)%Z then pos else chunk).
  assert (0 < readSize <= pos)%Z as Hrs
    by (unfold readSize; destruct (Z.ltb_spec pos chunk); lia).
  clearbody readSize. simpl (_ && _). cbv iota zeta.
  set (pos' := (pos - readSize)%Z).
  set (buf := take (Z.to_nat readSize) (drop (Z.to_nat pos') content)).
  assert (drop (Z.to_nat pos') content = buf ++ drop (Z.to_nat pos) content) as Hbuf.
  { unfold buf. rewrite <- (take_drop (Z.to_nat readSize) (drop (Z.to_nat pos') content)) at 1.
    rewrite drop_drop. do 2 f_equal. unfold pos'. lia. }
  pose proof (Split_app_hd nl buf _ _ _ Hs) as Hsplit. rewrite <- Hbuf in Hsplit.
  rewrite back_scan_spec by done. cbv zeta.
  assert (F (reverse W) ++ F (reverse (tail (Split (buf ++ carry) nl))) =
          F (reverse (tail (Split (drop (Z.to_nat pos') content) nl)))) as HF.
  { rewrite Hsplit. pose proof (Split_nonempty (buf ++ carry) nl).
    destruct (Split (buf ++ carry) nl) as [|h ps]; [done|]. simpl.
    by rewrite reverse_app, kept_app. }
  rewrite HF. set (W' := tail (Split (drop (Z.to_nat pos') content) nl)).
  assert (hd [] (Split (buf ++ carry) nl) = hd [] (Split (drop (Z.to_nat pos') content) nl)) as Hhd.
  { rewrite Hsplit. pose proof (Split_nonempty (buf ++ carry) nl).
    by destruct (Split (buf ++ carry) nl). }
  destruct (Z.leb_spec n (Z.of_nat (length (F (reverse W'))))) as [L|L].
  - unfold tail_spec. f_equal.
    destruct (Split_app_tl nl (take (Z.to_nat pos') content) (drop (Z.to_nat pos') content))
      as [X HX].
    rewrite take_drop in HX. fold W' in HX. rewrite HX, reverse_app, kept_app.
    by rewrite take_app_le by lia.
  - rewrite take_hd_Split, Hhd.
    set (carry' := hd [] (Split (drop (Z.to_nat pos') content) nl)).
    assert (Split (drop (Z.to_nat pos') content) nl = carry' :: W') as Hs'.
    { unfold carry', W'. pose proof (Split_nonempty (drop (Z.to_nat pos') content) nl).
      by destruct (Split (drop (Z.to_nat pos') content) nl). }
    destruct (Z.eqb_spec pos' 0) as [E|E].
    + rewrite E in Hs'. change (Z.to_nat 0) with 0 in Hs'. rewrite drop_0 in Hs'.
      assert (tail_spec content n filter = F (reverse W') ++ F [carry']) as ->.
      { unfold tail_spec. rewrite Hs', reverse_cons, kept_app.
        apply take_ge. rewrite length_app.
        assert (length (F [carry']) <= 1) by (rewrite kept_cons; case_match; simpl; lia).
        lia. }
      rewrite E, (kept_cons _ carry'). unfold keep.
      destruct (decide (carry' = [])) as [Hce|Hce].
      * rewrite bool_decide_eq_false_2, bool_decide_eq_true_2 by naive_solver.
        cbn [andb negb]. rewrite app_nil_r. by destruct fuel.
      * rewrite bool_decide_eq_true_2, bool_decide_eq_false_2 by done. cbn [andb negb].
        destruct (accepts filter carry'); rewrite ?app_nil_r; by destruct fuel.
    + simpl. apply IH; try lia; done.
Qed.

End tail.

(** *** Forward scanning as a fold *)

Definition total {St : Type} (h : handler St) : Prop := forall line s, fst (h line s) = true.

(** The tokens of a readable file whose lines fit the scanner's buffer. *)
Definition file_tokens (f : file) : option (list bytes) :=
  match f with
  | FMissing => Some []
  | FOpenErr _ => None
  | FData content None =>
      if forallb (fun l => negb (too_long l)) (raw_lines content)
      then Some (map dropCR (raw_lines content)) else None
  | FData _ (Some _) => None
  end.

Definition run_handler {St : Type} (h : handler St) (lines : list bytes) (s : St) : St :=
  fold_left (fun s l => snd (h l s)) lines s.

Lemma scan_loop_fold {St : Type} (h : handler St) lines filter s :
  total h -> forallb (fun l => negb (too_long l)) lines = true ->
  scan_loop lines None filter h s = (None, run_handler h (kept filter (map dropCR lines)) s).
Proof.
  intros Hh. revert s. induction lines as [|raw lines IH]; intros s Hl; [done|].
  cbn [forallb] in Hl. apply andb_true_iff in Hl as [Hraw Hl].
  apply negb_true_iff in Hraw. cbn [scan_loop map]. rewrite Hraw, kept_cons. unfold keep.
  destruct (bool_decide (dropCR raw = [])); [by apply IH|].
  destruct (accepts filter (dropCR raw)); [|by apply IH]. simpl.
  unfold mbind, State_bind. specialize (Hh (dropCR raw) s).
  destruct (h (dropCR raw) s) as [b s'] eqn:E. simpl in Hh. subst b.
  by apply IH.
Qed.

Lemma ScanFile_fold {St : Type} (h : handler St) t path filter toks s :
  total h -> file_tokens (Open t path) = Some toks ->
  ScanFile t path filter h s = (None, run_handler h (kept filter toks) s).
Proof.
  intros Hh Ht. unfold ScanFile, file_tokens in *.
  destruct (Open t path) as [|e|content [e|]]; try done.
  - by injection Ht as <-.
  - destruct (forallb _ (raw_lines content)) eqn:E; [|done]. injection Ht as <-.
    by apply scan_loop_fold.
Qed.

Lemma run_handler_app {St : Type} (h : handler St) l1 l2 s :
  run_handler h (l1 ++ l2) s = run_handler h l2 (run_handler h l1 s).
Proof. apply fold_left_app. Qed.

(** *** Both readers see the same lines *)

Lemma kept_reverse f ls : kept f (reverse ls) = reverse (kept f ls).
Proof.
  induction ls as [|l ls IH]; [done|]. rewrite reverse_cons, kept_app, IH, !kept_cons.
  destruct (keep f l); [by rewrite reverse_cons | by rewrite app_nil_r].
Qed.

Lemma kept_raw_lines f content : kept f (raw_lines content) = kept f (Split content nl).
Proof.
  unfold raw_lines. case_bool_decide as H; [|done].
  destruct (Split content nl) as [|w ws _] using rev_ind; [done|].
  rewrite last_snoc in H. injection H as ->. rewrite removelast_last, kept_app.
  by rewrite app_nil_r.
Qed.

Lemma dropCR_id l : cr ∉ l -> dropCR l = l.
Proof.
  intros H. unfold dropCR, TrimSuffix. destruct (strip_suffix [cr] l) eqn:E; [|done].
  apply strip_suffix_Some in E. subst l. set_solver.
Qed.

Lemma raw_lines_no_cr content :
  cr ∉ content -> map dropCR (raw_lines content) = raw_lines content.
Proof.
  intros H. rewrite <- (map_id (raw_lines content)) at 2. apply map_ext_in.
  intros l Hl. apply dropCR_id. intros Hcr. apply H.
  assert (l ∈ Split content nl) as Hl'.
  { apply list_elem_of_In in Hl. unfold raw_lines in Hl. case_bool_decide; [|done].
    destruct (Split content nl) as [|w ws _] using rev_ind; [done|].
    rewrite removelast_last in Hl. set_solver. }
  clear Hl H. revert l Hl' Hcr. induction content as [|x s IH]; intros l; simpl.
  - by intros ->%list_elem_of_singleton.
  - pose proof (Split_nonempty s nl). destruct (Split s nl) as [|v ws]; [done|].
    case_decide as Hx.
    + intros [-> | Hin]%elem_of_cons; [by intros ?%not_elem_of_nil|].
      intros Hcr. right. by apply (IH l).
    + intros [-> | Hin]%elem_of_cons.
      * intros [-> | Hv]%elem_of_cons; [by left|]. right. apply (IH v); [by left | done].
      * intros Hcr. right. apply (IH l); [by right | done].
Qed.

Lemma length_pos_content (content : bytes) : content <> [] -> (0 < Z.of_nat (length content))%Z.
Proof. destruct content; simpl; [done | lia]. Qed.

Lemma tailLines_chunk_spec chunk t path content n filter :
  (0 < chunk)%Z -> Open t path = FData content None ->
  tailLines_chunk chunk t path n filter = (tail_spec content n filter, None).
Proof.
  intros Hc Ht. unfold tailLines_chunk. rewrite Ht.
  destruct (Z.leb_spec n 0) as [Hn|Hn].
  - unfold tail_spec. by replace (Z.to_nat n) with 0 by lia.
  - destruct (decide (content = [])) as [->|Hne].
    + unfold tail_spec. simpl. by rewrite take_nil.
    + pose proof (length_pos_content content Hne). rewrite (proj2 (Z.eqb_neq _ _)) by lia.
      change ([] : list bytes) with (kept filter (reverse [])) at 2.
      apply tail_loop_spec; try lia; [|done].
      rewrite Nat2Z.id, drop_all. done.
Qed.

(** ** Days, and scanning from a cutoff *)

(** More fuel changes nothing, where every turn goes on by twelve hours at least: the loop
    of the code has ended. *)
Lemma days_loop_enough loc d e fuel :
  (forall t, d <= t <= e -> t + 43200 <= AddDays loc 1 t)%Z ->
  ((e - d) / 43200 < Z.of_nat fuel)%Z -> 0 < fuel ->
  days_loop fuel loc d e = days_loop (S (Z.to_nat ((e - d) / 43200)%Z)) loc d e.
Proof.
  assert (forall n m d, (forall t, d <= t <= e -> t + 43200 <= AddDays loc 1 t)%Z ->
    (e - d < 43200 * Z.of_nat n)%Z -> (e - d < 43200 * Z.of_nat m)%Z -> 0 < n -> 0 < m ->
    days_loop n loc d e = days_loop m loc d e) as Hm.
  { clear. induction n as [|n IH]; intros m d Hs Hn Hm Hn0 Hm0; [lia|]. destruct m as [|m]; [lia|]. cbn [days_loop].
    destruct (Z.ltb_spec e d); [done|]. f_equal. pose proof (Hs d ltac:(lia)) as Hd.
    destruct (decide (AddDays loc 1 d <= e)%Z) as [Hle|Hgt].
    - apply IH; [intros t Ht; apply Hs; lia|lia..].
    - destruct n as [|n], m as [|m]; cbn [days_loop]; rewrite ?(proj2 (Z.ltb_lt e (AddDays loc 1 d))) by lia; done. }
  intros Hs Hf Hpos. pose proof (Z.div_mod (e - d) 43200 ltac:(lia)). pose proof (Z.mod_pos_bound (e - d) 43200 ltac:(lia)).
  apply Hm; [done|lia| |done|lia]. destruct (decide (0 <= (e - d) / 43200)%Z); lia.
Qed.

Lemma days_loop_seq loc fuel d e :
  (forall k, (d <= k <= e)%Z -> wall loc (midnight loc k) = ((k - unix_epoch_day) * 86400)%Z /\
     (midnight loc k + 43200 <= midnight loc (k + 1))%Z) ->
  (e - d < Z.of_nat fuel)%Z -> (d <= e)%Z ->
  days_loop fuel loc (midnight loc d) (midnight loc e) = map format_day (seqZ d (e - d + 1)).
Proof.
  revert d. induction fuel as [|fuel IH]; intros d Hz Hf Hde; [lia|]. cbn [days_loop].
  assert (forall n, (0 <= n)%Z -> (d <= e - n)%Z -> (midnight loc (e - n) <= midnight loc e)%Z) as Hmono.
  { intros n Hn. revert Hn. apply (natlike_ind (fun n => (d <= e - n)%Z -> (midnight loc (e - n) <= midnight loc e)%Z)).
    - by rewrite Z.sub_0_r.
    - intros x Hx IHx Hd. destruct (Hz (e - Z.succ x)%Z ltac:(lia)) as [_ H'].
      replace (e - Z.succ x + 1)%Z with (e - x)%Z in H' by lia. specialize (IHx ltac:(lia)). lia. }
  specialize (Hmono (e - d)%Z ltac:(lia) ltac:(lia)) as Hle. replace (e - (e - d))%Z with d in Hle by lia.
  rewrite (proj2 (Z.ltb_ge _ _)) by lia. rewrite seqZ_cons by lia. cbn [map].
  destruct (Hz d ltac:(lia)) as [Hw Hn].
  assert (local_day loc (midnight loc d) = d) as -> by (unfold local_day; rewrite Hw, Z.div_mul; lia).
  f_equal. rewrite AddDays_midnight by done. destruct (decide (d = e)) as [->|Hne].
  - rewrite seqZ_nil by lia. destruct fuel; cbn [days_loop]; [done|]. by rewrite (proj2 (Z.ltb_lt _ _)) by lia.
  - rewrite (IH (d + 1)%Z); [|intros k Hk; apply Hz; lia|lia|lia]. do 2 f_equal; lia.
Qed.

(** In a regular zone, the days from that of the one instant to that of the other. *)
Lemma daysInRange_seq from to loc :
  zone_regular loc from (Z.max from to) ->
  daysInRange from to loc =
  map format_day (seqZ (local_day loc from)
                    (local_day loc (Z.max from to) - local_day loc from + 1)).
Proof.
  intros [Hm Hw Hn]. unfold daysInRange.
  assert ((if (to <? from)%Z then from else to) = Z.max from to) as ->
    by (destruct (Z.ltb_spec to from); lia).
  pose proof (Hm from (Z.max from to) ltac:(lia) ltac:(lia)) as Hle.
  set (d := local_day loc from) in *. set (e := local_day loc (Z.max from to)) in *. clearbody d e.
  apply days_loop_seq; [by auto| |done].
  assert (forall n, (0 <= n)%Z -> (n <= e - d)%Z -> (midnight loc d + 43200 * n <= midnight loc (d + n))%Z) as Hlen.
  { intros n Hn0. revert Hn0. apply (natlike_ind (fun n => (n <= e - d)%Z -> (midnight loc d + 43200 * n <= midnight loc (d + n))%Z)).
    - intros _. replace (d + 0)%Z with d by lia. lia.
    - intros x Hx IHx Hd. specialize (Hn (d + x)%Z ltac:(lia)). replace (d + Z.succ x)%Z with (d + x + 1)%Z by lia.
      specialize (IHx ltac:(lia)). lia. }
  specialize (Hlen (e - d)%Z ltac:(lia) ltac:(lia)). replace (d + (e - d))%Z with e in Hlen by lia.
  rewrite Nat2Z.inj_succ. assert (e - d <= (midnight loc e - midnight loc d) / 43200)%Z by (apply Z.div_le_lower_bound; lia).
  lia.
Qed.

(** The file of every instant of the range is scanned. *)
Lemma daysInRange_covers from to loc ts :
  zone_regular loc from to -> (from <= ts <= to)%Z -> format_day (local_day loc ts) ∈ daysInRange from to loc.
Proof.
  intros Hz H. rewrite daysInRange_seq by by rewrite Z.max_r by lia. apply list_elem_of_fmap_2, elem_of_seqZ.
  rewrite Z.max_r by lia.
  pose proof (zr_mono _ _ _ Hz from ts ltac:(lia) ltac:(lia)).
  pose proof (zr_mono _ _ _ Hz ts to ltac:(lia) ltac:(lia)). lia.
Qed.

(** Elsewhere it is not: after a midnight that summer time skips, the days go on an hour
    too early or too late.  In Sao Paulo the day before it is read twice, and east or west
    the last day is left out; in Apia the loop stays on one day for ever. *)
Example days_SaoPaulo :
  map (fun d => format_day (nov4 + d)) [-1; 0; 1]%Z = [$"2018-11-03"; $"2018-11-04"; $"2018-11-05"] /\
  daysInRange (midnight SaoPaulo2018 (nov4 - 1) + 40000) (midnight SaoPaulo2018 (nov4 + 1) + 40000) SaoPaulo2018 =
    [$"2018-11-03"; $"2018-11-03"; $"2018-11-04"].
Proof. split; vm_compute; reflexivity. Qed.

Example days_Beirut :
  daysInRange (midnight Beirut2024 mar31 + 40000) (midnight Beirut2024 (mar31 + 1) + 40000) Beirut2024 = [$"2024-03-31"] /\
  format_day (local_day Beirut2024 (midnight Beirut2024 (mar31 + 1) + 40000)) = $"2024-04-01".
Proof. split; vm_compute; reflexivity. Qed.

Lemma days_Apia_for_ever fuel :
  days_loop fuel Apia2011 (midnight Apia2011 dec29) (midnight Apia2011 (dec29 + 2)) = repeat ($"2011-12-29") fuel.
Proof.
  induction fuel as [|fuel IH]; [done|]. cbn [days_loop repeat]. destruct next_day_Apia as (Hf & Hd & ->).
  rewrite Hd, Hf, IH. by rewrite (proj2 (Z.ltb_ge _ _)) by (vm_compute; congruence).
Qed.

Section since.
Context `{LineFields}.
Context {T : Type} (Unmarshal : bytes -> option T).

(** All files of the scanned days can be read to the end. *)
Definition readable (s : source) (dates : list bytes) : Prop :=
  Forall (fun d => is_Some (file_tokens (Open (src_tree s) (FilePath s d)))) dates.

Definition day_lines (s : source) (d : bytes) : list bytes :=
  default [] (file_tokens (Open (src_tree s) (FilePath s d))).

(** The lines a scan from [cutoff] hands to its callback, in order. *)
Definition since_lines (s : source) (now cutoff : Z) (tsField : bytes) (extra : Filter)
    : list bytes :=
  flat_map (fun d => kept (And [tsGTEFilter tsField cutoff; extra]) (day_lines s d))
    (daysInRange cutoff now (src_loc s)).

Lemma scan_dates_fold {St : Type} (h : handler St) s dates combined st :
  total h -> readable s dates ->
  scan_dates s dates combined h st =
  (None, run_handler h (flat_map (fun d => kept combined (day_lines s d)) dates) st).
Proof.
  intros Hh Hr. revert st. induction Hr as [|d dates [toks Ht] Hr IH]; intros st; [done|].
  cbn [scan_dates flat_map]. unfold mbind, State_bind.
  rewrite (ScanFile_fold h _ _ _ toks) by done.
  rewrite IH, run_handler_app. unfold day_lines. by rewrite Ht.
Qed.

Lemma ScanSince_fold {St : Type} (h : handler St) s now cutoff tsField extra st :
  total h -> readable s (daysInRange cutoff now (src_loc s)) ->
  ScanSince s now cutoff tsField extra h st =
  (None, run_handler h (since_lines s now cutoff tsField extra) st).
Proof. intros Hh Hr. by apply scan_dates_fold. Qed.

Lemma decode_handler_total : total (decode_handler Unmarshal).
Proof. intros line s. unfold decode_handler. by destruct (Unmarshal line). Qed.

Lemma decode_handler_run lines out :
  run_handler (decode_handler Unmarshal) lines out = out ++ omap Unmarshal lines.
Proof.
  revert out. induction lines as [|l lines IH]; intros out; simpl.
  - by rewrite app_nil_r.
  - unfold run_handler in *. simpl. rewrite IH. unfold decode_handler.
    destruct (Unmarshal l); [simpl; by rewrite <- app_assoc | done].
Qed.

Lemma DecodeSince_spec s now cutoff tsField extra :
  readable s (daysInRange cutoff now (src_loc s)) ->
  DecodeSince Unmarshal s now cutoff tsField extra =
  (omap Unmarshal (since_lines s now cutoff tsField extra), None).
Proof.
  intros Hr. unfold DecodeSince.
  rewrite ScanSince_fold by (done || apply decode_handler_total).
  by rewrite decode_handler_run.
Qed.

Lemma since_lines_ts s now cutoff tsField extra line :
  tsField <> [] -> line ∈ since_lines s now cutoff tsField extra ->
  exists ts, ParseTimestamp line tsField = Some ts /\ (cutoff <= ts)%Z.
Proof.
  intros Hne Hin. apply list_elem_of_In, in_flat_map in Hin as (d & _ & Hin).
  unfold kept in Hin. apply filter_In in Hin as [_ Hk].
  unfold keep in Hk. apply andb_true_iff in Hk as [_ Hk].
  rewrite And_accepts in Hk. simpl in Hk. apply andb_true_iff in Hk as [Hk _].
  by apply tsGTEFilter_accepts in Hk.
Qed.

(** *** Sampling into buckets *)

Section sampling.
Variables (cutoff bs mx : Z) (tsField : bytes).
Let bucket := bucket_of cutoff bs mx.
Let h := sample_handler cutoff bs mx tsField.

(** The item of a bucket is the last of the newest lines that fall in it. *)
Definition bucket_item_ok (lines : list bytes) (b : Z) (it : sampledLine) : Prop :=
  ParseTimestamp (sl_line it) tsField = Some (sl_ts it) /\ bucket (sl_ts it) = b /\
  exists l1 l2, lines = l1 ++ sl_line it :: l2 /\
    (forall l ts, l ∈ l1 -> ParseTimestamp l tsField = Some ts -> bucket ts = b ->
                  (ts <= sl_ts it)%Z) /\
    (forall l ts, l ∈ l2 -> ParseTimestamp l tsField = Some ts -> bucket ts = b ->
                  (ts < sl_ts it)%Z).

Definition buckets_ok (lines : list bytes) (m : gmap Z sampledLine) : Prop :=
  (forall b it, m !! b = Some it -> bucket_item_ok lines b it) /\
  (forall l ts, l ∈ lines -> ParseTimestamp l tsField = Some ts ->
     exists it, m !! bucket ts = Some it /\ (ts <= sl_ts it)%Z).

Lemma bucket_item_later lines b it line :
  bucket_item_ok lines b it ->
  (forall ts, ParseTimestamp line tsField = Some ts -> bucket ts = b -> (ts < sl_ts it)%Z) ->
  bucket_item_ok (lines ++ [line]) b it.
Proof.
  intros (Hp & Hb & l1 & l2 & -> & H1 & H2) Hl. split; [done|]. split; [done|].
  exists l1, (l2 ++ [line]). split; [by rewrite <- app_assoc|]. split; [done|].
  intros l ts [Hin | ->%list_elem_of_singleton]%elem_of_app; [by apply H2 | by apply Hl].
Qed.

Lemma bucket_item_new lines m line ts :
  buckets_ok lines m -> ParseTimestamp line tsField = Some ts ->
  (forall it, m !! bucket ts = Some it -> (sl_ts it <= ts)%Z) ->
  bucket_item_ok (lines ++ [line]) (bucket ts) {| sl_ts := ts; sl_line := line |}.
Proof.
  intros [_ Hm] Hp Hmax. split; [done|]. split; [done|].
  exists lines, []. split; [done|]. split.
  - intros l t Hl Ht Hb. destruct (Hm l t Hl Ht) as (it & Hit & Hle).
    rewrite Hb in Hit. specialize (Hmax it Hit). simpl. lia.
  - intros l t Hl. by apply not_elem_of_nil in Hl.
Qed.

Lemma sample_handler_ok lines m line :
  buckets_ok lines m -> buckets_ok (lines ++ [line]) (snd (h line m)).
Proof.
  intros Hok. pose proof Hok as [Hi Hm]. unfold h, sample_handler.
  destruct (ParseTimestamp line tsField) as [ts|] eqn:Hp.
  2: { simpl. split.
       - intros b it Hit. apply bucket_item_later; [by apply Hi | congruence].
       - intros l t [Hl | ->%list_elem_of_singleton]%elem_of_app Ht; [by eapply Hm | congruence]. }
  fold (bucket ts).
  assert (forall m', (forall it, m !! bucket ts = Some it -> (sl_ts it <= ts)%Z) ->
            m' = <[bucket ts := {| sl_ts := ts; sl_line := line |}]> m ->
            buckets_ok (lines ++ [line]) m') as Hins.
  { intros m' Hmax ->. split.
    - intros b it. rewrite lookup_insert. case_decide as Hb.
      + intros [= <-]. subst b. by eapply bucket_item_new.
      + intros Hit. apply bucket_item_later; [by apply Hi|]. intros t Ht. congruence.
    - intros l t Hl Ht. rewrite lookup_insert. case_decide as Hb.
      + eexists. split; [done|]. simpl.
        apply elem_of_app in Hl as [Hl | ->%list_elem_of_singleton]; [|assert (t = ts) by congruence; lia].
        destruct (Hm l t Hl Ht) as (it & Hit & Hle). rewrite <- Hb in Hit.
        specialize (Hmax it Hit). lia.
      + apply elem_of_app in Hl as [Hl | ->%list_elem_of_singleton]; [by apply (Hm l t)|].
        by assert (t = ts) as -> by congruence. }
  destruct (m !! bucket ts) as [prev|] eqn:E; [|by apply Hins].
  destruct (Z.ltb_spec ts (sl_ts prev)) as [L|L].
  - simpl. split.
    + intros b it Hit. apply bucket_item_later; [by apply Hi|].
      intros t Ht Hb. assert (t = ts) as -> by congruence. rewrite <- Hb, E in Hit.
      by injection Hit as <-.
    + intros l t [Hl | ->%list_elem_of_singleton]%elem_of_app Ht; [by apply (Hm l t)|].
      assert (t = ts) as -> by congruence. exists prev. split; [done | lia].
  - apply Hins; [|done]. intros it [= <-]. done.
Qed.

Lemma sample_run_ok lines : buckets_ok lines (run_handler h lines ∅).
Proof.
  induction lines as [|line lines IH] using rev_ind.
  - change (run_handler h [] ∅) with (∅ : gmap Z sampledLine). split.
    + intros b it. by rewrite lookup_empty.
    + intros l ts Hl. by apply not_elem_of_nil in Hl.
  - rewrite run_handler_app. by apply sample_handler_ok.
Qed.

Lemma sample_handler_total : total h.
Proof. intros line m. unfold h, sample_handler. repeat case_match; done. Qed.

End sampling.
End since.

(** *** The items of the buckets, from old to new *)

Lemma bucket_seconds_pos window sampleSize : (1 <= bucket_seconds window sampleSize)%Z.
Proof. unfold bucket_seconds. destruct (Z.leb_spec (Z.quot (i64 (i64 (window + sampleSize) - 1)) sampleSize) 0); lia. Qed.

Section buckets.
Variables (cutoff bs sampleSize : Z).
Hypothesis Hbs : (1 <= bs)%Z.
Hypothesis Hsize : (0 < sampleSize)%Z.

Definition in_window (ts : Z) : Prop := (cutoff <= ts)%Z /\ in_i64 (ts - cutoff).

Lemma bucket_of_window ts :
  in_window ts ->
  bucket_of cutoff bs (sampleSize - 1) ts = Z.min (sampleSize - 1) ((ts - cutoff) / bs).
Proof.
  intros [H1 H2]. unfold bucket_of. rewrite i64_id by done.
  rewrite Z.quot_div_nonneg by lia.
  destruct (Z.ltb_spec (sampleSize - 1) ((ts - cutoff) / bs)); lia.
Qed.

Lemma bucket_of_range ts :
  in_window ts -> (0 <= bucket_of cutoff bs (sampleSize - 1) ts < sampleSize)%Z.
Proof.
  intros H. rewrite bucket_of_window by done. destruct H.
  pose proof (Z.div_pos (ts - cutoff) bs ltac:(lia) ltac:(lia)). lia.
Qed.

Lemma bucket_of_lt t1 t2 :
  in_window t1 -> in_window t2 ->
  (bucket_of cutoff bs (sampleSize - 1) t1 < bucket_of cutoff bs (sampleSize - 1) t2)%Z ->
  (t1 < t2)%Z.
Proof.
  intros H1 H2. rewrite !bucket_of_window by done. intros L.
  destruct (Z.lt_ge_cases t1 t2) as [|G]; [done|].
  pose proof (Z.div_le_mono (t2 - cutoff) (t1 - cutoff) bs ltac:(lia) ltac:(lia)). lia.
Qed.
End buckets.

Lemma omap_length_le {A B} (f : A -> option B) l : length (omap f l) <= length l.
Proof. induction l as [|x l IH]; csimpl; [lia|]. destruct (f x); csimpl; lia. Qed.

Lemma bucket_items_length m sampleSize :
  (0 <= sampleSize)%Z -> (Z.of_nat (length (bucket_items m sampleSize)) <= sampleSize)%Z.
Proof.
  intros H. unfold bucket_items.
  pose proof (omap_length_le (fun b => m !! b) (seqZ 0 sampleSize)) as L.
  rewrite length_seqZ in L. lia.
Qed.

Lemma elem_of_bucket_items m sampleSize it :
  it ∈ bucket_items m sampleSize <-> exists b, (0 <= b < sampleSize)%Z /\ m !! b = Some it.
Proof.
  unfold bucket_items. rewrite list_elem_of_omap. setoid_rewrite elem_of_seqZ.
  split; intros (b & Hb & E); exists b; (split; [lia | done]).
Qed.

(** Along increasing buckets the time stamps increase. *)
Lemma bucket_items_sorted (m : gmap Z sampledLine) n :
  (forall b1 b2 i1 i2, m !! b1 = Some i1 -> m !! b2 = Some i2 -> (b1 < b2)%Z ->
     (sl_ts i1 < sl_ts i2)%Z) ->
  StronglySorted Z.lt (map sl_ts (bucket_items m n)).
Proof.
  intros Hm. unfold bucket_items. generalize 0%Z as lo.
  assert (forall k lo, StronglySorted Z.lt
            (map sl_ts (omap (fun b => m !! b) (seqZ lo (Z.of_nat k))))) as Hk.
  { induction k as [|k IH]; intros lo; [rewrite seqZ_nil by lia; constructor|].
    rewrite seqZ_cons by lia. simpl.
    replace (Z.pred (Z.of_nat (S k))) with (Z.of_nat k) by lia.
    destruct (m !! lo) as [it|] eqn:E; [|apply IH]. simpl. constructor; [apply IH|].
    apply Forall_forall. intros ts Hts.
    apply list_elem_of_fmap in Hts as (it' & -> & Hin).
    apply list_elem_of_omap in Hin as (b & Hb & E'). apply elem_of_seqZ in Hb.
    apply (Hm lo b); (done || lia). }
  intros lo. destruct (Z.le_gt_cases 0 n) as [Hn|Hn].
  - rewrite <- (Z2Nat.id n) by done. apply Hk.
  - rewrite seqZ_nil by lia. constructor.
Qed.

(** ** Reading the last days *)

Section tail_days.
Context `{LineFields}.
Context {T : Type} (Unmarshal : bytes -> option T).

(** The kept lines of one day, newest first. *)
Definition day_tail (s : source) (filter : Filter) (day : Z) : list bytes :=
  match Open (src_tree s) (FilePath s (format_day day)) with
  | FData content _ => kept filter (reverse (Split content nl))
  | _ => []
  end.

Definition day_readable (s : source) (day : Z) : Prop :=
  match Open (src_tree s) (FilePath s (format_day day)) with
  | FMissing | FData _ None => True
  | _ => False
  end.

Lemma tailLines_day s day n filter :
  day_readable s day ->
  tailLines (src_tree s) (FilePath s (format_day day)) n filter =
  (take (Z.to_nat n) (day_tail s filter day), None).
Proof.
  unfold day_readable, day_tail. intros Hr.
  destruct (Open (src_tree s) (FilePath s (format_day day))) as [|e|c [e|]] eqn:E; try done.
  - unfold tailLines, tailLines_chunk. rewrite E, take_nil. by destruct (n <=? 0)%Z.
  - by apply tailLines_chunk_spec.
Qed.

Lemma omap_take_total l n :
  Forall (fun x => is_Some (Unmarshal x)) l ->
  omap Unmarshal (take n l) = take n (omap Unmarshal l).
Proof.
  intros Hl. revert n. induction Hl as [|x l [v Hv] Hl IH]; intros n; [by destruct n|].
  destruct n as [|n]; [done|]. csimpl. rewrite Hv. simpl. by rewrite IH.
Qed.

(** The day of the same clock time [back] days before [now]. *)
Definition day_back (s : source) (now back : Z) : Z := local_day (src_loc s) (AddDays (src_loc s) (- back) now).

Lemma tail_days_loop_spec s k now back limit filter out :
  (forall i, (back <= i < back + Z.of_nat k)%Z ->
     day_readable s (day_back s now i) /\ Forall (fun x => is_Some (Unmarshal x)) (day_tail s filter (day_back s now i))) ->
  tail_days_loop Unmarshal s k now back limit filter out =
  (out ++ take (Z.to_nat limit - length out)
     (flat_map (fun i => omap Unmarshal (day_tail s filter (day_back s now (back + Z.of_nat i)))) (seq 0 k)), None).
Proof.
  revert back out. induction k as [|k IH]; intros back out Hd; cbn [tail_days_loop].
  { simpl. by rewrite take_nil, app_nil_r. }
  destruct (Z.ltb_spec (Z.of_nat (length out)) limit) as [L|L].
  2: { replace (Z.to_nat limit - length out) with 0 by lia. by rewrite take_0, app_nil_r. }
  destruct (Hd back ltac:(lia)) as [Hr Hu]. fold (day_back s now back). rewrite tailLines_day by done. cbv iota beta.
  rewrite IH by (intros d Hd'; apply Hd; lia). f_equal.
  rewrite omap_take_total by done.
  set (l0 := omap Unmarshal (day_tail s filter (day_back s now back))).
  rewrite <- app_assoc. f_equal. cbn [seq flat_map].
  replace (back + Z.of_nat 0)%Z with back by lia. fold l0.
  rewrite take_app. f_equal; [f_equal; lia|].
  rewrite length_app, length_take. f_equal; [lia|].
  rewrite <- seq_shift, !flat_map_concat_map, map_map. f_equal.
  apply map_ext. intros i. do 3 f_equal. lia.
Qed.
End tail_days.

(** ** The reader's contract *)

(** A concrete field lookup for the examples: a line is its own number. *)
Module Demo.
Definition number_fields : LineFields := {|
  GetBytes := fun line _ =>
    match parse_nat line with
    | Some v => {| gv_type := GNumber; gv_str := []; gv_int := v; gv_string := line |}
    | None => {| gv_type := GOther; gv_str := []; gv_int := 0; gv_string := [] |}
    end;
  time_Parse := fun _ => None
|}.

Definition lines (ls : list bytes) : bytes := flat_map (fun l => l ++ [nl]) ls.

Definition naming : Naming := {| Prefix := $"app"; Sep := $"-"; Suffix := $".jsonl" |}.

(** Two days of records of an application that logs Unix times. *)
Definition src : source := {|
  src_dir := $"/var/log"; src_naming := naming; src_loc := UTC;
  src_tree := {[ $"/var/log/app-1970-01-01.jsonl" := FData (lines [$"100"; $"200"; $"bad"; $"260"]) None;
                 $"/var/log/app-1970-01-02.jsonl" := FData (lines [$"86400"; $"86500"]) None ]}
|}.
End Demo.

(** ** The lines of a text written line by line *)

Lemma Split_lines ls :
  Forall (fun l => nl ∉ l) ls -> Split (Demo.lines ls) nl = ls ++ [[]].
Proof.
  induction 1 as [|l ls Hl _ IH]; [done|]. unfold Demo.lines in *. simpl.
  rewrite <- app_assoc. simpl. by rewrite Split_app, IH.
Qed.

Lemma raw_lines_lines ls :
  Forall (fun l => nl ∉ l) ls -> raw_lines (Demo.lines ls) = ls.
Proof.
  intros H. unfold raw_lines. rewrite Split_lines, last_snoc, bool_decide_eq_true_2 by done.
  apply removelast_last.
Qed.

(** C7: [tailLines] reads a file backwards in 32 KiB blocks; whatever the
    content, block boundaries included, it returns the last [n] non-empty lines
    that pass the filter, newest first, and no error. *)
Theorem tailLines_last t path content n filter :
  Open t path = FData content None ->
  tailLines t path n filter =
  (take (Z.to_nat n) (kept filter (reverse (Split content nl))), None).
Proof. intros Ht. by apply tailLines_chunk_spec. Qed.

Lemma tailLines_last_witness :
  tailLines (src_tree Demo.src) ($"/var/log/app-1970-01-01.jsonl") 2 None =
  ([$"260"; $"bad"], None).
Proof.
  rewrite (tailLines_last _ _ (Demo.lines [$"100"; $"200"; $"bad"; $"260"])); reflexivity.
Defined.

(** C22: on a file whose lines fit the scanner's buffer and hold no carriage
    return, the reverse reader returns the last [n] of the lines the forward
    reader streams, in reverse order. *)
Theorem tailLines_reverse_of_ScanFile t path content n filter :
  Open t path = FData content None -> cr ∉ content ->
  forallb (fun l => negb (too_long l)) (raw_lines content) = true ->
  let streamed := snd (ScanFile t path filter (fun l out => (true, out ++ [l])) []) in
  fst (tailLines t path n filter) = take (Z.to_nat n) (reverse streamed).
Proof.
  intros Ht Hcr Hshort. cbv zeta. unfold ScanFile. rewrite Ht.
  rewrite scan_loop_fold by done. rewrite raw_lines_no_cr, kept_raw_lines by done.
  unfold tailLines. rewrite (tailLines_chunk_spec _ _ _ content) by done. simpl.
  unfold tail_spec. rewrite kept_reverse. do 2 f_equal.
  assert (forall l out, run_handler (fun (l : bytes) out => (true, out ++ [l])) l out = out ++ l) as E.
  { induction l as [|x l IH]; intros out; [by rewrite app_nil_r|].
    unfold run_handler in *. simpl. by rewrite IH, <- app_assoc. }
  by rewrite E.
Qed.

Lemma tailLines_reverse_of_ScanFile_witness :
  fst (tailLines (src_tree Demo.src) ($"/var/log/app-1970-01-02.jsonl") 5 None) =
  [$"86500"; $"86400"].
Proof.
  rewrite (tailLines_reverse_of_ScanFile _ _ (Demo.lines [$"86400"; $"86500"]));
    [reflexivity | reflexivity | by apply (bool_decide_unpack _) | reflexivity].
Defined.

Section contract.
Context `{LineFields}.
Context {T : Type} (Unmarshal : bytes -> option T).

(** Down-sampling returns, decoded, at most [sampleSize] of the scanned
    records, one per time bucket, in strictly increasing time: each is the last
    of the newest records of its bucket, and every scanned record with a time
    stamp has such a representative, at least as new, in its own bucket. *)
Theorem DecodeSinceSampled_spec s now now' cutoff tsField extra sampleSize :
  (0 < sampleSize)%Z -> tsField <> [] ->
  readable s (daysInRange cutoff now' (src_loc s)) ->
  let lines := since_lines s now' cutoff tsField extra in
  let bs := bucket_seconds (sample_window now cutoff) sampleSize in
  let bucket := bucket_of cutoff bs (sampleSize - 1) in
  (forall l ts, l ∈ lines -> ParseTimestamp l tsField = Some ts -> in_i64 (ts - cutoff)) ->
  exists items,
    DecodeSinceSampled Unmarshal s now now' cutoff tsField extra sampleSize =
      (omap (fun it => Unmarshal (sl_line it)) items, None) /\
    (Z.of_nat (length items) <= sampleSize)%Z /\
    StronglySorted Z.lt (map sl_ts items) /\
    (forall it, it ∈ items -> bucket_item_ok cutoff bs (sampleSize - 1) tsField lines
                               (bucket (sl_ts it)) it) /\
    (forall l ts, l ∈ lines -> ParseTimestamp l tsField = Some ts ->
       exists it, it ∈ items /\ bucket (sl_ts it) = bucket ts /\ (ts <= sl_ts it)%Z).
Proof.
  intros Hsize Hts Hr lines bs bucket Hwin.
  assert (1 <= bs)%Z as Hbs by apply bucket_seconds_pos.
  destruct (sample_run_ok cutoff bs (sampleSize - 1) tsField lines) as [Hi Hm].
  set (m := run_handler (sample_handler cutoff bs (sampleSize - 1) tsField) lines ∅) in *.
  assert (forall b it, m !! b = Some it -> bucket (sl_ts it) = b /\ in_window cutoff (sl_ts it)) as Hit.
  { intros b it E. destruct (Hi b it E) as (Hp & Hb & l1 & l2 & Hl & _).
    assert (sl_line it ∈ lines) as Hin by (rewrite Hl; set_solver).
    split; [exact Hb|]. split; [|by eapply Hwin].
    apply since_lines_ts in Hin as (ts & Hp' & Hle); [|done]. congruence. }
  exists (bucket_items m sampleSize). split; [|split; [|split; [|split]]].
  - unfold DecodeSinceSampled. rewrite (proj2 (Z.leb_gt _ _)) by done. cbv zeta.
    rewrite ScanSince_fold by (apply sample_handler_total || done). reflexivity.
  - apply bucket_items_length. lia.
  - apply bucket_items_sorted. intros b1 b2 i1 i2 E1 E2 L.
    destruct (Hit b1 i1 E1) as [Hb1 ?], (Hit b2 i2 E2) as [Hb2 ?].
    eapply (bucket_of_lt cutoff bs sampleSize); try done. fold bucket. lia.
  - intros it (b & _ & E)%elem_of_bucket_items. destruct (Hit b it E) as [Hb _].
    rewrite Hb. by apply Hi.
  - intros l ts Hl Hp. destruct (Hm l ts Hl Hp) as (it & E & Hle). exists it.
    fold (bucket ts) in E. destruct (Hit _ _ E) as [Hb _].
    split; [|by split]. apply elem_of_bucket_items. exists (bucket ts). split; [|done].
    apply bucket_of_range; [done..|]. split; [|by eapply Hwin].
    destruct (since_lines_ts _ _ _ _ _ _ Hts Hl) as (ts' & Hp' & ?). congruence.
Qed.

(** Reading the last days stops at [limit] records and returns the newest
    ones first, day by day, when the files can be read and their lines decode; the days
    are those of the same clock time, one day earlier each. *)
Theorem DecodeTailDays_newest s now days limit filter :
  (0 < days)%Z -> (0 < limit)%Z ->
  (forall i, (0 <= i < days)%Z ->
     day_readable s (day_back s now i) /\ Forall (fun x => is_Some (Unmarshal x)) (day_tail s filter (day_back s now i))) ->
  DecodeTailDays Unmarshal (Some s) now days limit filter =
  (take (Z.to_nat limit)
     (flat_map (fun i => omap Unmarshal (day_tail s filter (day_back s now (Z.of_nat i))))
        (seq 0 (Z.to_nat days))), None).
Proof.
  intros Hd Hl H'. unfold DecodeTailDays.
  rewrite !(proj2 (Z.leb_gt _ _)) by done. simpl.
  rewrite tail_days_loop_spec; [simpl; by rewrite Nat.sub_0_r|].
  intros d Hd'. apply H'. lia.
Qed.
End contract.

Lemma DecodeSinceSampled_spec_witness :
  exists items,
    @DecodeSinceSampled Demo.number_fields bytes Some Demo.src 300 300 100 ($"ts") None 2 =
      (map sl_line items, None) /\ map sl_line items = [$"100"; $"260"] /\
    (Z.of_nat (length items) <= 2)%Z.
Proof.
  destruct (@DecodeSinceSampled_spec Demo.number_fields bytes Some Demo.src 300 300 100 ($"ts")
              None 2) as (items & E & Hl & _).
  - lia.
  - done.
  - repeat constructor. by eexists.
  - intros l ts Hl Hp. replace (since_lines _ _ _ _ _) with [$"100"; $"200"; $"260"] in Hl
      by (vm_compute; reflexivity).
    assert (ts ∈ [100; 200; 260]%Z) as Hts.
    { set_unfold in Hl. destruct Hl as [-> | [-> | [-> | []]]];
        vm_compute in Hp; injection Hp as <-; set_solver. }
    set_unfold in Hts. unfold in_i64. lia.
  - assert (omap (fun it => Some (sl_line it)) items = map sl_line items) as Em.
    { clear. induction items as [|x l IH]; [done|]. csimpl. by rewrite IH. }
    rewrite Em in E. exists items. split; [exact E|]. split; [|exact Hl].
    apply (f_equal fst) in E. cbn [fst] in E. rewrite <- E. vm_compute. reflexivity.
Defined.

Lemma DecodeTailDays_newest_witness :
  DecodeTailDays Some (Some Demo.src) 90000 2 3 None = ([$"86500"; $"86400"; $"260"], None).
Proof.
  rewrite (DecodeTailDays_newest Some Demo.src 90000 2 3 None).
  - reflexivity.
  - lia.
  - lia.
  - intros d Hd. assert (d = 0 \/ d = 1)%Z as [-> | ->] by lia.
    + split; [vm_compute; exact I|]. apply Forall_forall. by eexists.
    + split; [vm_compute; exact I|]. apply Forall_forall. by eexists.
Defined.
