(* ===== verification/JsonlRetain.v ===== *)
(** * Package [jsonl]: retention ([retain.go])

    [CleanOlderThan] removes the files of old days.  The pattern is one of
    [filepath.Glob], with the star, bracket and backslash that the directory and the
    naming may have; the directories of the tree are those its files are in. *)

From stdpp Require Import sorting.
From S2P Require Import Prelude GoStr GoTime GoPath GoTree GoGlob JsonlFilter JsonlReader.

(** ** [filepath.Glob] over the files of the package *)

Definition paths (t : tree) : list bytes := map fst (map_to_list t).

(** The names in a directory: of the files in it and of the directories on the way to
    others, sorted. *)
Definition name_in (dir path : bytes) : option bytes :=
  if HasPrefix path (dir_prefix dir)
  then Some (default [] (head (Split (drop (length (dir_prefix dir)) path) slash))) else None.

Definition names_in (t : tree) (dir : bytes) : list bytes :=
  merge_sort str_le (remove_dups (omap (name_in dir) (paths t))).

(** [os.Lstat] finds a file or a directory. *)
Definition exists_path (t : tree) (p : bytes) : bool :=
  existsb (fun k => bool_decide (k = p) || HasPrefix k (dir_prefix p)) (paths t).

Definition glob_in (t : tree) (dir pattern : bytes) : result (list bytes) :=
  ms ← matching pattern (names_in t dir); mret (map (fun n => JoinPath [dir; n]) ms).

Fixpoint glob_dirs (t : tree) (dirs : list bytes) (pattern : bytes) : result (list bytes) :=
  match dirs with
  | [] => Ok []
  | d :: rest => m1 ← glob_in t d pattern; m2 ← glob_dirs t rest pattern; mret (m1 ++ m2)
  end.

Fixpoint glob_from (fuel : nat) (t : tree) (pattern : bytes) : result (list bytes) :=
  match fuel with
  | O => Err ErrBadPattern
  | S fuel' =>
      match pattern_items pattern with
      | None => Err ErrBadPattern
      | Some _ =>
          if negb (has_meta pattern) then Ok (if exists_path t pattern then [pattern] else [])
          else
            let '(dir, file) := split_path pattern in
            let dir := cleanGlobPath dir in
            if negb (has_meta dir) then glob_in t dir file
            else if bool_decide (dir = pattern) then Err ErrBadPattern
            else dirs ← glob_from fuel' t dir; glob_dirs t dirs file
      end
  end.

(** The fuel is enough as in [GoGlob.glob_from_enough]: each turn goes to a shorter path. *)
Definition Glob (t : tree) (pattern : bytes) : result (list bytes) := glob_from (S (length pattern)) t pattern.

(** ** [CleanOlderThan] *)

Definition date_pattern : bytes := $"????-??-??".

Definition clean_pattern (dir : bytes) (naming : Naming) : bytes :=
  JoinPath [dir; Prefix naming ++ Sep naming ++ date_pattern ++ Suffix naming].

(** The middle of a matched name. *)
Definition clean_mid (naming : Naming) (path : bytes) : bytes :=
  let base := Base path in
  let mid := TrimSuffix base (Suffix naming) in
  if bool_decide (Prefix naming = []) then mid
  else TrimPrefix mid (Prefix naming ++ Sep naming).

(** [len(mid) != len(dateLayout) || mid > cutoffDate] skips the file. *)
Definition clean_skips (naming : Naming) (cutoffDate path : bytes) : bool :=
  let mid := clean_mid naming path in
  negb (length mid =? 10) || str_ltb cutoffDate mid.

(** The removal loop; [os.Remove] may fail on some paths. *)
Fixpoint clean_loop (naming : Naming) (cutoffDate : bytes) (rm : bytes -> option error)
    (matches : list bytes) : State tree (list error) :=
  match matches with
  | [] => mret []
  | path :: rest =>
      if clean_skips naming cutoffDate path then clean_loop naming cutoffDate rm rest
      else
        match rm path with
        | Some e =>
            errs ← clean_loop naming cutoffDate rm rest;
            mret (EWrap ($"remove " ++ path) e :: errs)
        | None =>
            modify (fun t => delete path t);; clean_loop naming cutoffDate rm rest
        end
  end.

(** [now] is read in [loc], the local time zone of the process.  The errors are those that
    are joined, or that of the pattern. *)
Definition CleanOlderThan (loc : location) (now : Z) (dir : bytes) (naming : Naming)
    (retainDays : Z) (rm : bytes -> option error) : State tree (list error) := fun t =>
  if (retainDays <=? 0)%Z then ([], t)
  else
    let cutoffDate := format_day (local_day loc (AddDays loc (- retainDays) now)) in
    let pattern := clean_pattern dir naming in
    match Glob t pattern with
    | Err e => ([EWrap ($"jsonl: glob " ++ pattern) e], t)
    | Ok matches => clean_loop naming cutoffDate rm matches t
    end.

(** ** Which files match *)

Definition qmark : ascii := "?"%char.

(** A pattern without star, bracket and backslash is matched character by character. *)
Fixpoint simple_match (pattern name : bytes) : bool :=
  match pattern, name with
  | [], [] => true
  | p :: ps, c :: cs =>
      (if bool_decide (p = qmark) then negb (bool_decide (c = slash)) else bool_decide (p = c))
      && simple_match ps cs
  | _, _ => false
  end.

Definition simple (s : bytes) : Prop := Forall (fun c => c <> "*"%char /\ c <> "["%char /\ c <> backslash) s.
Definition item_of (c : ascii) : item := if bool_decide (c = qmark) then One else Char c.

Lemma simple_items s n : simple s -> (length s < n)%nat -> parse_pattern n s = Some (map item_of s).
Proof.
  intros Hs. revert n. induction Hs as [|c s (H1 & H2 & H3) _ IH]; intros [|n] Hn; cbn [length] in Hn; try lia; [done|].
  cbn [parse_pattern map]. rewrite (bool_decide_eq_false_2 (c = "*"%char)) by done. unfold item_of at 1. fold qmark.
  rewrite IH by lia. destruct (bool_decide (c = qmark)); [done|].
  rewrite (bool_decide_eq_false_2 (c = "["%char)) by done. by rewrite (bool_decide_eq_false_2 (c = backslash)) by done.
Qed.

Lemma simple_items_match p name : match_items (map item_of p) name = simple_match p name.
Proof.
  revert name. induction p as [|c p IH]; intros [|x name]; cbn [map simple_match]; try done.
  - unfold item_of. by destruct (bool_decide (c = qmark)).
  - unfold item_of. destruct (bool_decide (c = qmark)); cbn [match_items match_one]; rewrite IH; [done|].
    f_equal. apply bool_decide_ext. naive_solver.
Qed.

Lemma simple_matching p names :
  simple p -> matching p names = Ok (List.filter (simple_match p) names).
Proof.
  intros Hp. induction names as [|n names IH]; [done|]. cbn [matching List.filter].
  unfold Match, pattern_items. rewrite simple_items by (done || lia). rewrite simple_items_match, IH. cbn. by destruct (simple_match p n).
Qed.

Lemma no_meta_simple s : has_meta s = false -> simple s /\ qmark ∉ s.
Proof.
  unfold has_meta. induction s as [|c s IH]; cbn [existsb]; [by split; [constructor|apply not_elem_of_nil]|].
  intros [Hc [H1 H2]%IH]%orb_false_iff. apply bool_decide_eq_false in Hc.
  split; [constructor; [|done]|rewrite not_elem_of_cons; split; [|done]]; unfold qmark, backslash; set_solver.
Qed.

Lemma simple_match_refl p : qmark ∉ p -> simple_match p p = true.
Proof.
  induction p as [|x p IH]; [done|]. rewrite not_elem_of_cons. intros [Hx Hp]. cbn [simple_match].
  rewrite IH by done. rewrite bool_decide_eq_false_2 by done. by rewrite bool_decide_eq_true_2.
Qed.

Lemma simple_match_literal p s : qmark ∉ p -> simple_match p s = true -> s = p.
Proof.
  revert s. induction p as [|x p IH]; intros [|y s]; rewrite ?not_elem_of_cons; cbn [simple_match]; try done.
  intros [Hx Hp]. rewrite bool_decide_eq_false_2 by done. intros [->%bool_decide_eq_true ->%IH]%andb_true_iff; done.
Qed.

Lemma simple_match_app_inv p1 p2 s :
  simple_match (p1 ++ p2) s = true ->
  exists s1 s2, s = s1 ++ s2 /\ simple_match p1 s1 = true /\ simple_match p2 s2 = true.
Proof.
  revert s. induction p1 as [|x p1 IH]; intros s Hm; [by exists [], s|]. destruct s as [|y s]; [done|].
  cbn [simple_match app] in *. apply andb_true_iff in Hm as [Hx (s1 & s2 & -> & H1 & H2)%IH].
  exists (y :: s1), s2. split; [done|]. split; [|done]. cbn [simple_match]. by rewrite Hx, H1.
Qed.

Lemma simple_match_length p s : simple_match p s = true -> length p = length s.
Proof.
  revert s. induction p as [|x p IH]; intros [|y s]; simpl; try done.
  intros [_ H]%andb_true_iff. by rewrite (IH s).
Qed.

Lemma simple_match_app p1 p2 s1 s2 :
  length p1 = length s1 -> simple_match (p1 ++ p2) (s1 ++ s2) = simple_match p1 s1 && simple_match p2 s2.
Proof.
  revert s1. induction p1 as [|x p1 IH]; intros [|y s1]; simpl; try done.
  intros [= Hl]. rewrite IH by done. by rewrite andb_assoc.
Qed.

Lemma simple_match_qmarks p s :
  Forall (fun c => c = qmark) p -> length p = length s -> slash ∉ s -> simple_match p s = true.
Proof.
  intros Hp. revert s. induction Hp as [|x p -> Hp IH]; intros [|y s]; simpl; try done.
  intros [= Hl] Hs. rewrite not_elem_of_cons in Hs.
  rewrite IH, (bool_decide_eq_false_2 (y = slash)) by naive_solver. done.
Qed.

Lemma dec_digits_slash w n : slash ∉ dec_digits w n.
Proof.
  revert n. induction w as [|w IH]; intros n; simpl; [apply not_elem_of_nil|].
  rewrite not_elem_of_app. split; [apply IH|]. rewrite list_elem_of_singleton.
  intros H. apply (f_equal code) in H.
  pose proof (Z.mod_pos_bound n 10 ltac:(lia)).
  rewrite code_digit in H by done. change (code slash) with 47%Z in H. lia.
Qed.

Lemma format_day_shape d :
  day_ok d ->
  exists y m md, format_day d = dec_digits 4 y ++ "-"%char :: dec_digits 2 m ++
                                "-"%char :: dec_digits 2 md.
Proof.
  intros Hd. destruct (civil_bounds d Hd) as (? & ? & ?).
  unfold format_day. rewrite format_date_fixed by done. by do 3 eexists.
Qed.

Lemma format_day_match d : day_ok d -> simple_match date_pattern (format_day d) = true.
Proof.
  intros Hd. destruct (format_day_shape d Hd) as (y & m & md & ->).
  assert (forall w n, simple_match (repeat qmark w) (dec_digits w n) = true) as Hq.
  { intros w n. apply simple_match_qmarks; [|by rewrite length_dec_digits, repeat_length | apply dec_digits_slash].
    apply Forall_forall. intros c Hc. apply list_elem_of_In in Hc. by apply repeat_spec in Hc. }
  change date_pattern with
    (repeat qmark 4 ++ ["-"%char] ++ repeat qmark 2 ++ ["-"%char] ++ repeat qmark 2).
  change (dec_digits 4 y ++ "-"%char :: dec_digits 2 m ++ "-"%char :: dec_digits 2 md) with
    (dec_digits 4 y ++ ["-"%char] ++ dec_digits 2 m ++ ["-"%char] ++ dec_digits 2 md).
  rewrite !simple_match_app by (by rewrite ?length_dec_digits, ?repeat_length).
  by rewrite !Hq.
Qed.

(** A naming whose names are plain for every date. *)
Definition naming_ok (n : Naming) : Prop :=
  (slash ∉ Prefix n) /\ (slash ∉ Sep n) /\ (slash ∉ Suffix n).

#[export] Instance naming_ok_dec n : Decision (naming_ok n).
Proof. unfold naming_ok. apply _. Defined.

(** The separator is used only between a prefix and the date. *)
Definition sep_used (n : Naming) : Prop := Prefix n <> [] \/ Sep n = [].

Lemma FileName_sep n date :
  sep_used n -> FileName n date = Prefix n ++ Sep n ++ date ++ Suffix n.
Proof.
  unfold FileName. intros H. case_bool_decide as E; [|done].
  destruct H as [| ->]; [done|]. by rewrite E.
Qed.

Lemma plain_long s : 2 < length s -> slash ∉ s -> plain s.
Proof.
  intros Hl Hs. split; [by intros ->; simpl in Hl; lia|].
  split; [by intros ->; simpl in Hl; lia|]. split; [|done]. by intros ->; simpl in Hl; lia.
Qed.

Lemma date_slash d : day_ok d -> slash ∉ format_day d.
Proof.
  intros Hd. destruct (format_day_shape d Hd) as (y & m & md & ->).
  rewrite !not_elem_of_app, !not_elem_of_cons, !not_elem_of_app, !not_elem_of_cons.
  repeat split; try apply dec_digits_slash; done.
Qed.

Lemma FileName_plain n d : naming_ok n -> day_ok d -> plain (FileName n (format_day d)).
Proof.
  intros (H1 & H2 & H3) Hd. apply plain_long.
  - unfold FileName. case_bool_decide; rewrite ?length_app, length_format_day by done; lia.
  - pose proof (date_slash d Hd). unfold FileName. case_bool_decide; set_solver.
Qed.

Lemma pattern_plain n : naming_ok n -> plain (Prefix n ++ Sep n ++ date_pattern ++ Suffix n).
Proof.
  intros (H1 & H2 & H3). apply plain_long.
  - rewrite !length_app. change (length date_pattern) with 10. lia.
  - rewrite !not_elem_of_app. repeat split; try done. by apply (bool_decide_unpack _).
Qed.

(** *** What [Glob] finds *)

Lemma glob_in_plain t dir pattern q :
  simple pattern -> 2 < length pattern -> slash ∉ pattern ->
  exists ms, glob_in t (Clean dir) pattern = Ok ms /\
    (q ∈ ms <-> exists n, q = JoinPath [dir; n] /\ simple_match pattern n = true /\ n ∈ names_in t (Clean dir) /\ plain n).
Proof.
  intros Hs Hl Hsl. unfold glob_in. rewrite simple_matching by done. eexists. split; [reflexivity|].
  assert (forall n, simple_match pattern n = true -> n ∈ names_in t (Clean dir) -> plain n) as Hplain.
  { intros n Hm Hn. apply plain_long; [by rewrite <- (simple_match_length _ _ Hm)|].
    unfold names_in in Hn. rewrite merge_sort_Permutation in Hn. apply elem_of_remove_dups, list_elem_of_omap in Hn as (k & _ & Hk).
    unfold name_in in Hk. destruct (HasPrefix k _); [|done]. injection Hk as <-.
    set (rest := drop _ k). pose proof (Split_nonempty rest slash) as Hne. destruct (Split rest slash) as [|w ws] eqn:E; [done|].
    cbn. apply (Split_elem rest). rewrite E. by left. }
  rewrite list_elem_of_fmap. setoid_rewrite list_elem_of_In. setoid_rewrite filter_In. setoid_rewrite <- list_elem_of_In. split.
  - intros (n & -> & Hn & Hm). exists n. pose proof (Hplain n Hm Hn). by rewrite JoinPath_Clean.
  - intros (n & -> & Hm & Hn & Hp). exists n. by rewrite JoinPath_Clean.
Qed.

(** A file of the directory has its name there. *)
Lemma names_in_file t dir n : plain n -> is_Some (t !! JoinPath [dir; n]) -> n ∈ names_in t (Clean dir).
Proof.
  intros Hn [f Hf]. unfold names_in. rewrite merge_sort_Permutation. apply elem_of_remove_dups, list_elem_of_omap.
  exists (JoinPath [dir; n]). split.
  - unfold paths. apply list_elem_of_fmap. exists (JoinPath [dir; n], f). split; [done|]. by apply elem_of_map_to_list.
  - unfold name_in. rewrite JoinPath_prefix by done. rewrite (proj2 (HasPrefix_spec _ _)) by by eexists.
    rewrite drop_app_length, Split_no_sep by apply Hn. done.
Qed.

(** The pattern is split where the name begins. *)
Lemma split_prefix dir file :
  slash ∉ file -> split_path (dir_prefix (Clean dir) ++ file) = (dir_prefix (Clean dir), file).
Proof.
  intros Hf. unfold split_path. assert (exists d, dir_prefix (Clean dir) = [] \/ dir_prefix (Clean dir) = d ++ [slash]) as (d & Hd).
  { unfold dir_prefix. destruct (bool_decide _); [exists []; by left|]. destruct (bool_decide _); [exists []; by right|]. eexists. by right. }
  destruct Hd as [-> | ->]; [by rewrite Split_no_sep|].
  rewrite <- app_assoc. change ([slash] ++ file) with (slash :: file). rewrite Split_app_gen, (Split_no_sep file) by done.
  rewrite removelast_last, last_snoc, Join_snoc by apply Split_nonempty. rewrite Join_Split, app_nil_r. done.
Qed.

Lemma clean_prefix dir : cleanGlobPath (dir_prefix (Clean dir)) = Clean dir.
Proof.
  pose proof (Clean_nonempty dir) as Hne. unfold cleanGlobPath, dir_prefix.
  destruct (bool_decide_reflect (Clean dir = dot)) as [->|H1]; [done|].
  destruct (bool_decide_reflect (Clean dir = [slash])) as [->|H2]; [done|].
  rewrite bool_decide_eq_false_2 by by destruct (Clean dir).
  rewrite bool_decide_eq_false_2; [by rewrite removelast_last|].
  intros E. by apply (app_inj_tail (Clean dir) []) in E as [? _].
Qed.

(** A naming and a directory whose characters stand for themselves in a pattern. *)
Definition literal (dir : bytes) (n : Naming) : Prop :=
  has_meta (Clean dir) = false /\ has_meta (Prefix n ++ Sep n ++ Suffix n) = false.

#[export] Instance literal_dec dir n : Decision (literal dir n).
Proof. unfold literal. apply _. Defined.

Lemma has_meta_app a b : has_meta (a ++ b) = has_meta a || has_meta b.
Proof. apply existsb_app. Qed.

Section clean.
Variables (dir : bytes) (naming : Naming).
Hypothesis Hok : naming_ok naming.

Lemma clean_mid_name mid :
  sep_used naming -> slash ∉ mid -> 2 < length mid ->
  clean_mid naming (JoinPath [dir; Prefix naming ++ Sep naming ++ mid ++ Suffix naming]) = mid.
Proof.
  intros Hs Hm Hl. unfold clean_mid. destruct Hok as (H1 & H2 & H3). rewrite Base_JoinPath.
  2: { apply plain_long; [rewrite !length_app; lia|]. rewrite !not_elem_of_app. done. }
  rewrite !app_assoc, TrimSuffix_app. case_bool_decide as E; [|rewrite <- !app_assoc; rewrite (app_assoc _ (Sep naming)); apply TrimPrefix_app].
  destruct Hs as [?|Hs]; [done|]. by rewrite E, Hs.
Qed.

(** What the pattern matches: the names with ten characters in the place of the date. *)
Lemma Glob_clean t :
  literal dir naming ->
  exists ms, Glob t (clean_pattern dir naming) = Ok ms /\
    (forall d, day_ok d -> sep_used naming -> is_Some (t !! file_path dir naming (format_day d)) -> file_path dir naming (format_day d) ∈ ms) /\
    (forall q, q ∈ ms -> exists mid, q = JoinPath [dir; Prefix naming ++ Sep naming ++ mid ++ Suffix naming] /\
       length mid = 10 /\ slash ∉ mid).
Proof.
  intros [Hd Hn]. set (file := Prefix naming ++ Sep naming ++ date_pattern ++ Suffix naming).
  pose proof (pattern_plain naming Hok : plain file) as Hfile.
  rewrite !has_meta_app in Hn. apply orb_false_iff in Hn as [Hn1 [Hn2 Hn3]%orb_false_iff].
  destruct (no_meta_simple _ Hd) as [Sd _], (no_meta_simple _ Hn1) as [S1 Q1], (no_meta_simple _ Hn2) as [S2 Q2],
    (no_meta_simple _ Hn3) as [S3 Q3].
  assert (simple file) as Sf.
  { unfold file, simple in *. rewrite !Forall_app. split_and!; try done. apply (bool_decide_unpack _). by vm_compute. }
  assert (2 < length file) as Hlen by (unfold file; rewrite !length_app; change (length date_pattern) with 10; lia).
  assert (slash ∉ file) as Hsl by apply Hfile.
  assert (clean_pattern dir naming = dir_prefix (Clean dir) ++ file) as Ep by (by apply JoinPath_prefix).
  assert (has_meta (clean_pattern dir naming) = true) as Hm.
  { rewrite Ep. unfold file. rewrite !has_meta_app. change (has_meta date_pattern) with true. by rewrite !orb_true_r. }
  assert (simple (clean_pattern dir naming)) as Sp.
  { rewrite Ep. apply Forall_app. split; [|exact Sf]. unfold dir_prefix.
    destruct (bool_decide _); [constructor|]. destruct (bool_decide _); [|apply Forall_app; split; [exact Sd|]];
      apply Forall_singleton; by vm_compute. }
  set (path d := file_path dir naming (format_day d)).
  assert (Glob t (clean_pattern dir naming) = glob_in t (Clean dir) file) as ->.
  { unfold Glob. cbn [glob_from]. unfold pattern_items. rewrite simple_items by (done || lia). rewrite Hm. cbn [negb].
    rewrite Ep, split_prefix, clean_prefix, Hd by done. done. }
  destruct (glob_in_plain t dir file [] Sf Hlen Hsl) as (ms & E & _). exists ms. split; [done|]. split.
  - intros d Hday Hsep Hex. destruct (glob_in_plain t dir file (path d) Sf Hlen Hsl) as (ms' & E' & Hin).
    rewrite E in E'. injection E' as <-. apply Hin. exists (FileName naming (format_day d)).
    pose proof (FileName_plain naming d Hok Hday) as Hpl. split; [done|]. split; [|split; [by apply names_in_file|done]].
    rewrite FileName_sep by done. unfold file. rewrite !simple_match_app by (by rewrite ?length_format_day).
    by rewrite !simple_match_refl, format_day_match.
  - intros q Hq. destruct (glob_in_plain t dir file q Sf Hlen Hsl) as (ms' & E' & Hin).
    rewrite E in E'. injection E' as <-. apply Hin in Hq as (n & -> & Hmatch & _ & Hpl).
    unfold file in Hmatch. apply simple_match_app_inv in Hmatch as (s1 & r1 & -> & H1 & Hr1).
    apply simple_match_app_inv in Hr1 as (s2 & r2 & -> & H2 & Hr2). apply simple_match_app_inv in Hr2 as (mid & s3 & -> & Hmid & H3).
    apply simple_match_literal in H1 as ->; [|done]. apply simple_match_literal in H2 as ->; [|done].
    apply simple_match_literal in H3 as ->; [|done]. exists mid. split; [done|].
    split; [by rewrite <- (simple_match_length _ _ Hmid)|]. destruct Hpl as (_ & _ & _ & Hpl).
    rewrite !not_elem_of_app in Hpl. apply Hpl.
Qed.

Lemma clean_mid_day d :
  day_ok d -> clean_mid naming (file_path dir naming (format_day d)) = format_day d.
Proof.
  intros Hd. unfold clean_mid, file_path. rewrite Base_JoinPath by by apply FileName_plain.
  unfold FileName. case_bool_decide.
  - apply TrimSuffix_app.
  - rewrite !app_assoc, TrimSuffix_app, <- app_assoc. rewrite (app_assoc _ (Sep naming)).
    apply TrimPrefix_app.
Qed.

Lemma clean_skips_day cutoff d :
  day_ok cutoff -> day_ok d ->
  clean_skips naming (format_day cutoff) (file_path dir naming (format_day d)) = (cutoff <? d)%Z.
Proof.
  intros Hc Hd. unfold clean_skips. rewrite clean_mid_day, length_format_day by done.
  simpl. by apply format_day_ltb.
Qed.
End clean.

(** The loop deletes exactly the matches it does not skip. *)
Lemma clean_loop_spec naming cutoff matches t path :
  let '(errs, t') := clean_loop naming cutoff (fun _ => None) matches t in
  errs = [] /\
  t' !! path = if bool_decide (path ∈ matches) && negb (clean_skips naming cutoff path)
               then None else t !! path.
Proof.
  revert t. induction matches as [|m rest IH]; intros t; cbn [clean_loop].
  { split; [done|]. by rewrite bool_decide_eq_false_2 by apply not_elem_of_nil. }
  destruct (clean_skips naming cutoff m) eqn:Es.
  - specialize (IH t). destruct (clean_loop _ _ _ rest t) as [errs t'].
    destruct IH as [-> IH]. split; [done|]. rewrite IH.
    destruct (decide (path = m)) as [->|Hne].
    + rewrite Es. simpl. by rewrite !andb_false_r.
    + rewrite (bool_decide_ext (path ∈ m :: rest) (path ∈ rest)) by set_solver. done.
  - unfold mbind, State_bind. simpl. specialize (IH (delete m t)).
    destruct (clean_loop _ _ _ rest (delete m t)) as [errs t'].
    destruct IH as [-> IH]. split; [done|]. rewrite IH, lookup_delete.
    destruct (decide (path = m)) as [->|Hne].
    + rewrite Es, (bool_decide_eq_true_2 (m ∈ m :: rest)) by by left. simpl.
      rewrite decide_True by done. by destruct (bool_decide (m ∈ rest)).
    + rewrite (bool_decide_ext (path ∈ m :: rest) (path ∈ rest)) by set_solver.
      by rewrite decide_False.
Qed.

Lemma clean_loop_untouched (naming : Naming) (cutoff : bytes) (rm : bytes -> option error) (matches : list bytes)
    (t : tree) (path : bytes) :
  path ∉ matches -> snd (clean_loop naming cutoff rm matches t) !! path = t !! path.
Proof.
  revert t. induction matches as [|m rest IH]; intros t; cbn [clean_loop]; [done|].
  rewrite not_elem_of_cons. intros [Hne Hin].
  destruct (clean_skips naming cutoff m); [by apply IH|].
  unfold mbind, State_bind. destruct (rm m).
  - specialize (IH t Hin). by destruct (clean_loop _ _ _ rest t).
  - simpl. rewrite IH by done. by apply lookup_delete_ne.
Qed.

(** C23: a retention run keeps the files of the last [retainDays] days and today, and
    removes the files of all earlier days; apart from those it removes only files of the
    same directory whose names have ten other characters in the place of the date, no
    later than the cutoff in the order of strings.  So it is when the separator is used,
    directory and naming have no pattern characters, and the clock shows the time of the
    run also on the day of the cutoff. *)
Theorem CleanOlderThan_days loc now dir naming retainDays t :
  naming_ok naming -> sep_used naming -> literal dir naming -> (0 < retainDays)%Z ->
  wall loc (AddDays loc (- retainDays) now) = (wall loc now - 86400 * retainDays)%Z ->
  let cutoff := (local_day loc now - retainDays)%Z in
  day_ok cutoff ->
  let path date := JoinPath [dir; Prefix naming ++ Sep naming ++ date ++ Suffix naming] in
  let '(errs, t') := CleanOlderThan loc now dir naming retainDays (fun _ => None) t in
  errs = [] /\
  (forall d, day_ok d -> t' !! path (format_day d) = if (d <=? cutoff)%Z then None else t !! path (format_day d)) /\
  (forall q, t' !! q <> t !! q ->
     exists date, q = path date /\ length date = 10 /\ str_ltb (format_day cutoff) date = false).
Proof.
  intros Hok Hsep Hlit Hr Hwall cutoff Hc path. unfold CleanOlderThan.
  rewrite (proj2 (Z.leb_gt _ _)) by done.
  rewrite AddDays_day by lia. replace (local_day loc now + - retainDays)%Z with cutoff by (unfold cutoff; lia).
  destruct (Glob_clean dir naming Hok t Hlit) as (ms & -> & Hday & Hms).
  pose proof (clean_loop_spec naming (format_day cutoff) ms t) as Hl.
  assert (forall d, path (format_day d) = file_path dir naming (format_day d)) as Hpath
    by (intros d; unfold file_path; by rewrite FileName_sep).
  destruct (clean_loop _ _ _ _ t) as [errs t']. split; [by destruct (Hl [])|]. split.
  - intros d Hd. destruct (Hl (path (format_day d))) as [_ ->]. rewrite Hpath, clean_skips_day by done.
    destruct (Z.leb_spec d cutoff), (Z.ltb_spec cutoff d); try lia; cbn [negb]; [|by rewrite andb_false_r].
    rewrite andb_true_r. case_bool_decide as Hin; [done|].
    destruct (t !! file_path dir naming (format_day d)) eqn:E; [|done]. exfalso. apply Hin, Hday; [done..|]. by rewrite E.
  - intros q Hq. destruct (Hl q) as [_ Hq']. rewrite Hq' in Hq. case_bool_decide as Hin; cbn [andb] in Hq; [|done].
    destruct (clean_skips naming (format_day cutoff) q) eqn:Es; [done|].
    destruct (Hms q Hin) as (mid & -> & Hlen & Hsl). exists mid. split; [done|]. split; [done|].
    unfold clean_skips in Es. rewrite clean_mid_name in Es by (done || lia). rewrite Hlen in Es. by apply orb_false_iff in Es as [_ Es].
Qed.

(** Three days of New York, where the second of them has 23 hours; a file that is not of
    the naming stays, one with no date in its place goes. *)
Lemma CleanOlderThan_days_witness :
  let t : tree := {[ $"/var/log/app-2024-03-09.jsonl" := FData [] None;
                     $"/var/log/app-2024-03-10.jsonl" := FData [] None;
                     $"/var/log/app-0000-00-00.jsonl" := FData [] None;
                     $"/var/log/2024-03-01.jsonl" := FData [] None ]} in
  let t' := snd (CleanOlderThan NewYork2024 1710180000 ($"/var/log") Demo.naming 2 (fun _ => None) t) in
  format_day (local_day NewYork2024 1710180000) = $"2024-03-11" /\
  t' !! ($"/var/log/app-2024-03-09.jsonl") = None /\ t' !! ($"/var/log/app-2024-03-10.jsonl") = Some (FData [] None) /\
  map fst (map_to_list t') ≡ₚ [$"/var/log/app-2024-03-10.jsonl"; $"/var/log/2024-03-01.jsonl"].
Proof.
  intros t t'.
  pose proof (CleanOlderThan_days NewYork2024 1710180000 ($"/var/log") Demo.naming 2 t) as H.
  split; [vm_compute; reflexivity|]. unfold t'.
  assert (map fst (map_to_list t') ≡ₚ [$"/var/log/app-2024-03-10.jsonl"; $"/var/log/2024-03-01.jsonl"]) as Hleft
    by (apply (bool_decide_unpack _); vm_compute; exact I).
  unfold t' in Hleft. cbv zeta in H. destruct (CleanOlderThan _ _ _ _ _ _ t) as [errs t1].
  destruct H as (_ & H & _);
    [apply (bool_decide_unpack _); vm_compute; exact I|by left|split; reflexivity|lia|vm_compute; reflexivity
    |vm_compute; split; congruence|].
  cbn [snd] in *. split; [|split; [|exact Hleft]].
  - exact (H (local_day NewYork2024 1710007200) ltac:(vm_compute; split; congruence)).
  - exact (H (local_day NewYork2024 1710093600) ltac:(vm_compute; split; congruence)).
Defined.

(** A prefix with a bracket is read as a pattern, and its own files are not found; what one
    with a star finds is left, as its name is longer than the code expects. *)
Example CleanOlderThan_meta :
  let naming p := {| Prefix := p; Sep := $"-"; Suffix := $".jsonl" |} in
  let t : tree := {[ $"/d/app[1]-1970-01-01.jsonl" := FData [] None; $"/d/web-1970-01-01.jsonl" := FData [] None ]} in
  snd (CleanOlderThan UTC 1709337600 ($"/d") (naming ($"app[1]")) 1 (fun _ => None) t) = t /\
  snd (CleanOlderThan UTC 1709337600 ($"/d") (naming ($"w*")) 1 (fun _ => None) t) = t.
Proof. split; vm_compute; reflexivity. Qed.

(** With an empty prefix and a separator, [FileName] drops the separator but
    the retention pattern keeps it, so no file of the store is ever removed. *)
Theorem CleanOlderThan_unused_sep loc now dir naming retainDays t d rm :
  naming_ok naming -> Prefix naming = [] -> Sep naming <> [] -> literal dir naming -> day_ok d ->
  let path := file_path dir naming (format_day d) in
  snd (CleanOlderThan loc now dir naming retainDays rm t) !! path = t !! path.
Proof.
  intros Hok Hp Hs Hlit Hd path. unfold CleanOlderThan. destruct (retainDays <=? 0)%Z; [done|].
  destruct (Glob_clean dir naming Hok t Hlit) as (ms & -> & _ & Hms).
  apply clean_loop_untouched. intros (mid & E & Hl & Hsl)%Hms. unfold path, file_path in E.
  apply JoinPath_inj in E; [|by apply FileName_plain|apply plain_long; rewrite ?length_app, ?not_elem_of_app, ?Hl; [lia|by destruct Hok as (? & ? & ?)]].
  apply (f_equal length) in E. revert E. unfold FileName. rewrite Hp.
  rewrite bool_decide_eq_true_2 by done. rewrite !length_app, length_format_day, Hl by done.
  destruct (Sep naming); [done|]. cbn [length]. lia.
Qed.

Lemma CleanOlderThan_unused_sep_witness :
  let naming := {| Prefix := []; Sep := $"-"; Suffix := $".jsonl" |} in
  let t : tree := {[ $"/d/1970-01-01.jsonl" := FData [] None ]} in
  snd (CleanOlderThan UTC 1709337600 ($"/d") naming 1 (fun _ => None) t)
    !! file_path ($"/d") naming (format_day unix_epoch_day) = Some (FData [] None).
Proof.
  intros naming t. rewrite CleanOlderThan_unused_sep.
  - reflexivity.
  - by apply (bool_decide_unpack _).
  - done.
  - done.
  - split; reflexivity.
  - vm_compute. split; congruence.
Defined.
