(* ===== verification/JsonlStore.v ===== *)
(** * Package [jsonl]: the append-only store ([store.go])

    A [Store] appends lines to the file of the current day through a
    [bufio.Writer], synchronously or through a channel and a background worker.
    The operating system is a world of file contents and a script of faults: the
    next element of the script decides the outcome of the next system call, and
    an empty script means that no call fails any more.  A file handle is the path
    it was opened with: nobody renames or removes a file while it is open. *)

From S2P Require Import Prelude GoStr GoTime GoPath JsonlFilter JsonlReader JsonlRetain.

(** ** Files *)

Inductive fault :=
  | FaultNone
  | Fault (written : nat) (e : error).

#[export] Instance fault_eq_dec : EqDecision fault.
Proof. solve_decision. Defined.

Record world := World { disk : gmap bytes bytes; faults : list fault }.

Definition next_fault (w : world) : fault := default FaultNone (head (faults w)).
Definition rest (w : world) : list fault := tail (faults w).

(** [os.OpenFile(path, O_CREATE|O_APPEND|O_WRONLY, 0o644)] *)
Definition sys_open (path : bytes) : State world (option error) := fun w =>
  match next_fault w with
  | Fault _ e => (Some e, World (disk w) (rest w))
  | FaultNone => (None, World (<[path := default [] (disk w !! path)]> (disk w)) (rest w))
  end.

(** [f.Write]: all the bytes, or some of them and an error. *)
Definition sys_write (path data : bytes) : State world (nat * option error) := fun w =>
  let '(n, e) :=
    match next_fault w with
    | Fault n e => (Nat.min n (length data), Some e)
    | FaultNone => (length data, None)
    end in
  ((n, e), World (<[path := default [] (disk w !! path) ++ take n data]> (disk w)) (rest w)).

Definition sys_close : State world (option error) := fun w =>
  match next_fault w with
  | Fault _ e => (Some e, World (disk w) (rest w))
  | FaultNone => (None, World (disk w) (rest w))
  end.

(** ** [bufio.Writer] *)

Record bufw := BufW { bw_wr : bytes; bw_buf : bytes; bw_size : Z; bw_err : option error }.

Definition NewWriterSize (path : bytes) (size : Z) : bufw := BufW path [] size None.

Definition Available (b : bufw) : Z := (bw_size b - Z.of_nat (length (bw_buf b)))%Z.

Definition bw_Flush (b : bufw) : State world (option error * bufw) := fun w =>
  match bw_err b with
  | Some e => ((Some e, b), w)
  | None =>
      if bool_decide (bw_buf b = []) then ((None, b), w)
      else
        let '((n, e), w') := sys_write (bw_wr b) (bw_buf b) w in
        match e with
        | Some e => ((Some e, BufW (bw_wr b) (drop n (bw_buf b)) (bw_size b) (Some e)), w')
        | None => ((None, BufW (bw_wr b) [] (bw_size b) None), w')
        end
  end.

(** The loop of [Write]: while the data does not fit, write it directly when the
    buffer is empty, else fill the buffer and flush it. *)
Fixpoint bw_loop (fuel : nat) (b : bufw) (data : bytes) : State world (bytes * bufw) :=
  match fuel with
  | O => mret (data, b)
  | S fuel' =>
      if (Available b <? Z.of_nat (length data))%Z && bool_decide (bw_err b = None) then
        if bool_decide (bw_buf b = []) then
          '(n, e) ← sys_write (bw_wr b) data;
          bw_loop fuel' (BufW (bw_wr b) [] (bw_size b) e) (drop n data)
        else
          let n := Z.to_nat (Available b) in
          '(_, b') ← bw_Flush (BufW (bw_wr b) (bw_buf b ++ take n data) (bw_size b) (bw_err b));
          bw_loop fuel' b' (drop n data)
      else mret (data, b)
  end.

Definition bw_Write_fuel (fuel : nat) (b : bufw) (data : bytes)
    : State world (option error * bufw) :=
  '(data, b) ← bw_loop fuel b data;
  match bw_err b with
  | Some e => mret (Some e, b)
  | None => mret (None, BufW (bw_wr b) (bw_buf b ++ data) (bw_size b) None)
  end.

(** One round fills and flushes, one writes directly, the third stops. *)
Definition bw_Write : bufw -> bytes -> State world (option error * bufw) := bw_Write_fuel 3.

(** ** The store *)

Record options := Options {
  bufSize : Z;
  asyncSize : Z;
  flushInterval : Z;
  loc : option location
}.

Definition Option : Type := options -> options.

Definition WithBufferSize (n : Z) : Option := fun o =>
  Options n (asyncSize o) (flushInterval o) (loc o).
Definition WithAsync (size : Z) : Option := fun o =>
  Options (bufSize o) size (flushInterval o) (loc o).
Definition WithFlushInterval (d : Z) : Option := fun o =>
  Options (bufSize o) (asyncSize o) d (loc o).
Definition WithLocation (l : option location) : Option := fun o =>
  Options (bufSize o) (asyncSize o) (flushInterval o) l.

Record chan := Chan { queue : list bytes; capacity : Z; closed : bool }.

Record Store := MkStore {
  dir : bytes;
  naming : Naming;
  opts : options;
  date : bytes;
  file : option bytes;
  bw : option bufw;
  ch : option chan;
  once : bool;       (* stopOnce has run *)
  stopped : bool     (* the channel [stopped] is closed *)
}.

Definition set_file (s : Store) (d : bytes) (f : option bytes) (b : option bufw) : Store :=
  MkStore (dir s) (naming s) (opts s) d f b (ch s) (once s) (stopped s).
Definition set_ch (s : Store) (c : option chan) : Store :=
  MkStore (dir s) (naming s) (opts s) (date s) (file s) (bw s) c (once s) (stopped s).
Definition set_stop (s : Store) (c : option chan) (o st : bool) : Store :=
  MkStore (dir s) (naming s) (opts s) (date s) (file s) (bw s) c o st.

(** The background goroutine a new store starts. *)
Inductive background := NoBackground | RunAsync | RunFlusher.

(** The defaults, overridden by the caller's options in order; a nil location is
    the local one. *)
Definition New_options (Local : location) (fns : list Option) : options :=
  let o := fold_left (fun o fn => fn o) fns (Options 4096 0 Second (Some Local)) in
  match loc o with
  | None => Options (bufSize o) (asyncSize o) (flushInterval o) (Some Local)
  | Some _ => o
  end.

Definition New (Local : location) (mkdir : option error) (dir : bytes) (naming : Naming)
    (fns : list Option) : result (Store * background) :=
  let o := New_options Local fns in
  match mkdir with
  | Some e => Err (EWrap ($"jsonl: mkdir " ++ dir) e)
  | None =>
      let c := if (0 <? asyncSize o)%Z then Some (Chan [] (asyncSize o) false) else None in
      let s := MkStore dir naming o [] None None c false false in
      let b := if (0 <? asyncSize o)%Z then RunAsync
               else if (0 <? bufSize o)%Z && (0 <? flushInterval o)%Z && (asyncSize o =? 0)%Z
               then RunFlusher else NoBackground in
      Ok (s, b)
  end.

Definition FilePath (s : Store) (d : bytes) : bytes := file_path (dir s) (naming s) d.

Definition Today (s : Store) (now : Z) : bytes :=
  format_day (local_day (default UTC (loc (opts s))) now).

Definition sw : Type := Store * world.

Definition ensureFileLocked (now : Z) : State sw (option error) := fun '(s, w) =>
  let today := Today s now in
  if bool_decide (file s <> None) && bool_decide (date s = today) then (None, (s, w))
  else
    let '(s, w) :=
      match file s with
      | Some p =>
          let w := match bw s with
                   | Some b => snd (bw_Flush b w)
                   | None => w
                   end in
          let '(_, w) := sys_close w in
          (set_file s (date s) None None, w)
      | None => (s, w)
      end in
    let path := FilePath s today in
    let '(err, w) := sys_open path w in
    match err with
    | Some e => (Some (EWrap ($"jsonl: open " ++ path) e), (s, w))
    | None =>
        let b := if (0 <? bufSize (opts s))%Z then Some (NewWriterSize path (bufSize (opts s)))
                 else bw s in
        (None, (set_file s today (Some path) b, w))
    end.

(** Under the mutex, one step of the store. *)
Definition writeLocked (now : Z) (line : bytes) : State sw (option error) := fun sw =>
  match ensureFileLocked now sw with
  | (Some e, sw) => (Some e, sw)
  | (None, (s, w)) =>
      match bw s with
      | Some b =>
          let '((e, b), w) := bw_Write b line w in
          (e, (set_file s (date s) (file s) (Some b), w))
      | None =>
          let '((_, e), w) := sys_write (default [] (file s)) line w in
          (e, (s, w))
      end
  end.

Definition ErrChannelFull : error := ENew ($"jsonl: async channel full").

(** [Append] of a marshalled record; a send on a closed channel panics. *)
Definition Append (now : Z) (marshalled : result bytes) : State sw (outcome (option error)) :=
  fun '(s, w) =>
  match marshalled with
  | Err e => (Ret (Some (EWrap ($"jsonl: marshal") e)), (s, w))
  | Ok line =>
      let line := line ++ [nl] in
      match ch s with
      | Some c =>
          if closed c then (Panic, (s, w))
          else if (Z.of_nat (length (queue c)) <? capacity c)%Z then
            (Ret None, (set_ch s (Some (Chan (queue c ++ [line]) (capacity c) false)), w))
          else (Ret (Some ErrChannelFull), (s, w))
      | None => let '(e, sw) := writeLocked now line (s, w) in (Ret e, sw)
      end
  end.

Definition Flush : State sw (option error) := fun '(s, w) =>
  match bw s with
  | Some b =>
      let '((e, b), w) := bw_Flush b w in
      (e, (set_file s (date s) (file s) (Some b), w))
  | None => (None, (s, w))
  end.

(** The [stopOnce] part of [Close]: it closes the channel of an asynchronous
    store, and then waits for [stopped]. *)
Definition close_begin (s : Store) : Store :=
  if once s then s
  else
    match ch s with
    | Some c => set_stop s (Some (Chan (queue c) (capacity c) true)) true (stopped s)
    | None => set_stop s None true true
    end.

(** The part of [Close] under the mutex. *)
Definition close_finish : State sw (option error) := fun '(s, w) =>
  let '(flushErr, s, w) :=
    match bw s with
    | Some b =>
        let '((e, _), w) := bw_Flush b w in
        (e, set_file s (date s) (file s) None, w)
    | None => (None, s, w)
    end in
  match file s with
  | Some p =>
      let '(closeErr, w) := sys_close w in
      let s := set_file s (date s) None (bw s) in
      (match flushErr with Some e => Some e | None => closeErr end, (s, w))
  | None => (flushErr, (s, w))
  end.

(** [Close] of a synchronous store, where nothing is waited for. *)
Definition Close : State sw (option error) := fun '(s, w) => close_finish (close_begin s, w).

(** ** What is stored: file contents followed by buffered bytes *)

Definition on_disk (w : world) (p : bytes) : bytes := default [] (disk w !! p).

(** [data] seen from path [p] when it goes to path [q]. *)
Definition at_path (q p data : bytes) : bytes := if decide (q = p) then data else [].

Definition buffered (b : bufw) (p : bytes) : bytes := at_path (bw_wr b) p (bw_buf b).

Definition pending (s : Store) (p : bytes) : bytes :=
  match bw s with
  | Some b => buffered b p
  | None => []
  end.

Definition view (s : Store) (w : world) (p : bytes) : bytes := on_disk w p ++ pending s p.

Lemma at_path_app q p d1 d2 : at_path q p (d1 ++ d2) = at_path q p d1 ++ at_path q p d2.
Proof. unfold at_path. by case_decide. Qed.

Lemma at_path_nil q p : at_path q p [] = [].
Proof. unfold at_path. by case_decide. Qed.

Lemma sys_write_ok path data w :
  faults w = [] ->
  exists w', sys_write path data w = ((length data, None), w') /\ faults w' = [] /\
    forall p, on_disk w' p = on_disk w p ++ at_path path p data.
Proof.
  intros Hf. unfold sys_write, next_fault, rest. rewrite Hf. simpl.
  eexists. split; [done|]. split; [done|]. intros p. unfold on_disk, at_path. simpl.
  rewrite take_ge by lia. rewrite lookup_insert. case_decide; [by subst | by rewrite app_nil_r].
Qed.

Lemma sys_open_ok path w :
  faults w = [] ->
  exists w', sys_open path w = (None, w') /\ faults w' = [] /\
    forall p, on_disk w' p = on_disk w p.
Proof.
  intros Hf. unfold sys_open, next_fault, rest. rewrite Hf. simpl.
  eexists. split; [done|]. split; [done|]. intros p. unfold on_disk. simpl.
  rewrite lookup_insert. case_decide; [by subst | done].
Qed.

Lemma sys_close_ok w :
  faults w = [] -> exists w', sys_close w = (None, w') /\ faults w' = [] /\ disk w' = disk w.
Proof. intros Hf. unfold sys_close, next_fault, rest. rewrite Hf. simpl. by eexists. Qed.

(** *** The buffered writer *)

Definition bw_ok (b : bufw) : Prop :=
  bw_err b = None /\ (0 < bw_size b)%Z /\ (0 <= Available b)%Z.

Definition bw_clear (b : bufw) : bufw := BufW (bw_wr b) [] (bw_size b) None.

Lemma bw_clear_ok b : bw_ok b -> bw_ok (bw_clear b).
Proof. intros (H1 & H2 & H3). unfold bw_ok, Available, bw_clear in *. simpl. split_and!; [done | lia..]. Qed.

Lemma bw_Flush_ok b w :
  bw_err b = None -> faults w = [] ->
  exists w', bw_Flush b w = ((None, bw_clear b), w') /\ faults w' = [] /\
    forall p, on_disk w' p = on_disk w p ++ buffered b p.
Proof.
  intros He Hf. unfold bw_Flush, buffered. rewrite He.
  case_bool_decide as Hb.
  - exists w. rewrite Hb. unfold bw_clear. destruct b as [wr buf sz err]. simpl in *. subst.
    split; [done|]. split; [done|]. intros p. by rewrite at_path_nil, app_nil_r.
  - destruct (sys_write_ok (bw_wr b) (bw_buf b) w Hf) as (w' & -> & Hf' & Hd). by eexists.
Qed.

Lemma bw_loop_fits fuel b data w :
  (Z.of_nat (length data) <= Available b)%Z -> bw_loop fuel b data w = ((data, b), w).
Proof.
  intros H. destruct fuel; [done|]. cbn [bw_loop].
  by rewrite (proj2 (Z.ltb_ge _ _)).
Qed.

Lemma bw_loop_empty fuel b data w :
  bw_ok b -> bw_buf b = [] -> faults w = [] ->
  exists data' w', bw_loop (S fuel) b data w = ((data', b), w') /\ faults w' = [] /\
    (Z.of_nat (length data') <= Available b)%Z /\
    forall p, on_disk w' p ++ at_path (bw_wr b) p data' = on_disk w p ++ at_path (bw_wr b) p data.
Proof.
  intros (He & Hs & Ha) Hb Hf. cbn [bw_loop]. rewrite He, Hb.
  destruct (Z.ltb_spec (Available b) (Z.of_nat (length data))) as [L|L]; simpl.
  2: { exists data, w. done. }
  destruct (sys_write_ok (bw_wr b) data w Hf) as (w' & Hw & Hf' & Hd).
  unfold mbind, State_bind. rewrite Hw. rewrite drop_all.
  assert (BufW (bw_wr b) [] (bw_size b) None = b) as -> by (destruct b; simpl in *; by subst).
  exists [], w'. rewrite bw_loop_fits by (simpl; lia). split; [done|]. split; [done|].
  split; [simpl; lia|]. intros p. by rewrite Hd, at_path_nil, app_nil_r.
Qed.

Lemma bw_Write_ok fuel b data w :
  bw_ok b -> faults w = [] ->
  exists b' w', bw_Write_fuel (S (S fuel)) b data w = ((None, b'), w') /\
    bw_ok b' /\ bw_wr b' = bw_wr b /\ bw_size b' = bw_size b /\ faults w' = [] /\
    forall p, on_disk w' p ++ buffered b' p =
              on_disk w p ++ buffered b p ++ at_path (bw_wr b) p data.
Proof.
  intros Hok Hf. pose proof Hok as (He & Hs & Ha).
  assert (exists data' b' w', bw_loop (S (S fuel)) b data w = ((data', b'), w') /\
            bw_ok b' /\ bw_wr b' = bw_wr b /\ bw_size b' = bw_size b /\ faults w' = [] /\
            (Z.of_nat (length data') <= Available b')%Z /\
            forall p, on_disk w' p ++ buffered b' p ++ at_path (bw_wr b) p data' =
                      on_disk w p ++ buffered b p ++ at_path (bw_wr b) p data)
    as (data' & b' & w' & Hl & Hok' & Hwr & Hsz & Hf' & Hfit & Hv).
  { destruct (decide (bw_buf b = [])) as [Hb|Hb].
    - destruct (bw_loop_empty (S fuel) b data w Hok Hb Hf) as (data' & w' & Hl & Hf' & Hfit & Hv).
      exists data', b, w'. split; [done|]. do 5 (split; [done|]). intros p.
      unfold buffered. by rewrite Hb, !at_path_nil.
    - destruct (Z.le_gt_cases (Z.of_nat (length data)) (Available b)) as [L|L].
      { exists data, b, w. rewrite bw_loop_fits by done. done. }
      remember (S fuel) as fuel1. cbn [bw_loop].
      rewrite (proj2 (Z.ltb_lt _ _)), He by done. rewrite bool_decide_eq_true_2 by done.
      simpl (true && true). cbv iota. rewrite bool_decide_eq_false_2 by done.
      unfold mbind, State_bind. set (n := Z.to_nat (Available b)).
      set (bf := BufW (bw_wr b) (bw_buf b ++ take n data) (bw_size b) None).
      destruct (bw_Flush_ok bf w eq_refl Hf) as (w1 & -> & Hf1 & Hd1).
      assert (bw_ok (bw_clear bf)) as Hok1
        by (unfold bw_ok, Available, bw_clear, bf; simpl; split_and!; [done | lia..]).
      subst fuel1.
      destruct (bw_loop_empty fuel (bw_clear bf) (drop n data) w1 Hok1 eq_refl Hf1)
        as (data' & w' & Hl & Hf' & Hfit & Hv).
      exists data', (bw_clear bf), w'. split; [done|]. do 5 (split; [done|]). intros p.
      specialize (Hv p). simpl in Hv.
      unfold buffered at 1. simpl. rewrite at_path_nil. simpl. rewrite Hv, Hd1.
      unfold buffered. simpl. rewrite <- (take_drop n data) at 3.
      by rewrite !at_path_app, <- !app_assoc. }
  unfold bw_Write_fuel, mbind, State_bind. rewrite Hl. destruct Hok' as (He' & Hs' & Ha').
  rewrite He'. eexists _, w'. split; [done|]. split.
  { unfold bw_ok, Available in *. simpl. rewrite length_app. split_and!; [done | lia..]. }
  do 3 (split; [done|]). intros p. rewrite <- Hv. unfold buffered. simpl.
  by rewrite Hwr, at_path_app.
Qed.

(** *** The store refines its log *)

Definition store_ok (s : Store) : Prop :=
  match file s with
  | None => bw s = None
  | Some p =>
      p = FilePath s (date s) /\
      if (0 <? bufSize (opts s))%Z
      then exists b, bw s = Some b /\ bw_wr b = p /\ bw_ok b
      else bw s = None
  end.

(** What no operation under the mutex changes. *)
Definition same_config (s s' : Store) : Prop :=
  dir s' = dir s /\ naming s' = naming s /\ opts s' = opts s /\ ch s' = ch s /\
  once s' = once s /\ stopped s' = stopped s.

#[export] Instance same_config_preorder : PreOrder same_config.
Proof.
  split; unfold same_config; [done|]. intros s1 s2 s3 H12 H23. naive_solver congruence.
Qed.

Lemma same_config_paths s s' d now :
  same_config s s' -> FilePath s' d = FilePath s d /\ Today s' now = Today s now.
Proof. intros (H1 & H2 & H3 & _). unfold FilePath, Today. by rewrite H1, H2, H3. Qed.

Lemma set_file_config s d f b : same_config s (set_file s d f b).
Proof. done. Qed.

#[export] Hint Resolve set_file_config : golib.

(** The result of a step that cannot fail: the store is still well formed, the
    configuration is unchanged, and [d p] has been appended to the view of [p]. *)
Definition stepped (s : Store) (w : world) (d : bytes -> bytes) (s' : Store) (w' : world) : Prop :=
  store_ok s' /\ same_config s s' /\ faults w' = [] /\
  forall p, view s' w' p = view s w p ++ d p.

Lemma ensureFileLocked_ok now s w :
  store_ok s -> faults w = [] ->
  exists s' w', ensureFileLocked now (s, w) = (None, (s', w')) /\
    stepped s w (fun _ => []) s' w' /\
    file s' = Some (FilePath s (Today s now)) /\ date s' = Today s now.
Proof.
  intros Hok Hf. unfold ensureFileLocked.
  destruct (bool_decide (file s <> None) && bool_decide (date s = Today s now)) eqn:E.
  { apply andb_true_iff in E as [Ef%bool_decide_eq_true Ed%bool_decide_eq_true].
    exists s, w. split; [done|]. split.
    - split; [done|]. split; [done|]. split; [done|]. intros p. by rewrite app_nil_r.
    - unfold store_ok in Hok. destruct (file s) as [p|]; [|done]. destruct Hok as [-> _].
      by rewrite Ed. }
  clear E.
  assert (exists w1, (let '(s1, w1) := match file s with
            | Some p => let w := match bw s with Some b => snd (bw_Flush b w) | None => w end in
                        let '(_, w) := sys_close w in (set_file s (date s) None None, w)
            | None => (s, w) end in (s1, w1)) = (set_file s (date s) None None, w1) /\
            faults w1 = [] /\ forall p, on_disk w1 p = view s w p) as (w1 & E & Hf1 & Hd1).
  { unfold store_ok, view, pending in *. destruct (file s) as [p|] eqn:Efile.
    - destruct Hok as [_ Hb]. destruct (0 <? bufSize (opts s))%Z.
      + destruct Hb as (b & -> & _ & (He & _)).
        destruct (bw_Flush_ok b w He Hf) as (w1 & -> & Hf1 & Hd1). cbn [snd].
        destruct (sys_close_ok w1 Hf1) as (w2 & -> & Hf2 & Hd2). exists w2.
        split; [done|]. split; [done|]. intros q. rewrite <- Hd1. unfold on_disk. by rewrite Hd2.
      + rewrite Hb. destruct (sys_close_ok w Hf) as (w2 & -> & Hf2 & Hd2). exists w2.
        split; [done|]. split; [done|]. intros q. rewrite app_nil_r. unfold on_disk. by rewrite Hd2.
    - exists w. rewrite Hok. split; [|split; [done|]; intros q; by rewrite app_nil_r].
      f_equal. unfold set_file. destruct s; simpl in *; by subst. }
  destruct (match file s with Some _ => _ | None => _ end) as [s1 w1'] eqn:E'.
  injection E as -> ->. cbv zeta.
  set (today := Today s now).
  change (FilePath (set_file s (date s) None None) today) with (FilePath s today).
  destruct (sys_open_ok (FilePath s today) w1 Hf1) as (w2 & -> & Hf2 & Hd2).
  eexists _, w2. split; [done|]. split; [|done]. split; [|split; [done|split; [done|]]].
  - unfold store_ok. simpl. split; [done|]. destruct (Z.ltb_spec 0 (bufSize (opts s))); [|done].
    eexists. split; [done|]. split; [done|]. unfold bw_ok, Available. simpl.
    split_and!; [done | lia..].
  - intros p. unfold view, pending. simpl. rewrite Hd2, Hd1, app_nil_r.
    destruct (0 <? bufSize (opts s))%Z; [|by rewrite app_nil_r].
    unfold buffered. simpl. by rewrite at_path_nil, app_nil_r.
Qed.

Lemma writeLocked_ok now line s w :
  store_ok s -> faults w = [] ->
  exists s' w', writeLocked now line (s, w) = (None, (s', w')) /\
    stepped s w (fun p => at_path (FilePath s (Today s now)) p line) s' w'.
Proof.
  intros Hok Hf. unfold writeLocked.
  destruct (ensureFileLocked_ok now s w Hok Hf)
    as (s1 & w1 & -> & (Hok1 & Hc1 & Hf1 & Hv1) & Hfile & Hdate).
  unfold store_ok in Hok1. rewrite Hfile in *. destruct Hok1 as [Hp Hb].
  destruct (0 <? bufSize (opts s1))%Z eqn:Eb.
  - destruct Hb as (b & Hbw & Hwr & Hbok). rewrite Hbw.
    destruct (bw_Write_ok 1 b line w1 Hbok Hf1) as (b' & w' & E & Hbok' & Hwr' & _ & Hf' & Hv).
    unfold bw_Write. rewrite E. eexists _, w'. split; [done|].
    split; [|split; [by etrans; [|apply set_file_config]|split; [done|]]].
    + unfold store_ok. simpl. rewrite Eb. split; [exact Hp|].
      exists b'. by rewrite Hwr', Hwr.
    + intros p. unfold view, pending in *. simpl. rewrite Hv, app_assoc, Hwr.
      specialize (Hv1 p). rewrite Hbw in Hv1. by rewrite Hv1, app_nil_r.
  - rewrite Hb. simpl. destruct (sys_write_ok (FilePath s (Today s now)) line w1 Hf1)
      as (w' & -> & Hf' & Hd).
    exists s1, w'. split; [done|]. split; [|split; [done|split; [done|]]].
    + unfold store_ok. by rewrite Hfile, Eb.
    + intros p. specialize (Hv1 p). unfold view, pending in *. rewrite Hb in *.
      rewrite !app_nil_r in *. by rewrite Hd, Hv1.
Qed.

Lemma Flush_ok s w :
  store_ok s -> faults w = [] ->
  exists s' w', Flush (s, w) = (None, (s', w')) /\ stepped s w (fun _ => []) s' w' /\
    forall p, on_disk w' p = view s w p.
Proof.
  intros Hok Hf. unfold Flush. unfold store_ok in Hok.
  destruct (bw s) as [b|] eqn:Hbw.
  - destruct (file s) as [p|] eqn:Hfile; [|done]. destruct Hok as [Hp Hb].
    destruct (0 <? bufSize (opts s))%Z eqn:Eb; [|done].
    destruct Hb as (b0 & [= <-] & Hwr & Hbok).
    destruct (bw_Flush_ok b w (proj1 Hbok) Hf) as (w' & -> & Hf' & Hd).
    eexists _, w'. split; [done|].
    assert (forall p, on_disk w' p = view s w p) as Hd'
      by (intros q; unfold view, pending; by rewrite Hbw, Hd).
    split; [|done]. split; [|split; [done|split; [done|]]].
    + unfold store_ok. simpl. rewrite Eb. split; [done|]. eexists. split; [done|].
      split; [done|]. by apply bw_clear_ok.
    + intros q. rewrite app_nil_r, <- Hd'. unfold view, pending. simpl.
      unfold buffered. simpl. by rewrite at_path_nil, app_nil_r.
  - exists s, w. split; [done|].
    assert (forall p, on_disk w p = view s w p) as Hd
      by (intros q; unfold view, pending; by rewrite Hbw, app_nil_r).
    split; [|done]. split; [unfold store_ok; by rewrite Hbw|]. split; [done|]. split; [done|].
    intros q. by rewrite app_nil_r.
Qed.

Lemma close_finish_ok s w :
  store_ok s -> faults w = [] ->
  exists s' w', close_finish (s, w) = (None, (s', w')) /\ stepped s w (fun _ => []) s' w' /\
    file s' = None /\ bw s' = None /\ forall p, on_disk w' p = view s w p.
Proof.
  intros Hok Hf. unfold close_finish. unfold store_ok in Hok.
  destruct (file s) as [p|] eqn:Hfile.
  2: { rewrite Hok. exists s, w. unfold stepped, store_ok, view, pending. rewrite Hok, Hfile.
       split; [done|]. split; [|split; [done|split; [done|]]].
       - split; [done|]. split; [done|]. split; [done|]. intros p. by rewrite !app_nil_r.
       - intros p. by rewrite app_nil_r. }
  destruct (bw s) as [b|] eqn:Hbw.
  - destruct Hok as [Hp Hb]. destruct (0 <? bufSize (opts s))%Z; [|done].
    destruct Hb as (b0 & [= <-] & Hwr & Hbok).
    destruct (bw_Flush_ok b w (proj1 Hbok) Hf) as (w1 & -> & Hf1 & Hd1).
    destruct (sys_close_ok w1 Hf1) as (w2 & -> & Hf2 & Hd2).
    eexists _, w2. split; [done|].
    assert (forall p, on_disk w2 p = view s w p) as Hd.
    { intros q. unfold view, pending. rewrite Hbw, <- Hd1. unfold on_disk. by rewrite Hd2. }
    split; [|done]. split; [done|]. split; [done|]. split; [done|].
    intros q. rewrite <- Hd. unfold view, pending. simpl. by rewrite !app_nil_r.
  - rewrite Hfile, Hbw.
    destruct (sys_close_ok w Hf) as (w2 & -> & Hf2 & Hd2). eexists _, w2. split; [done|].
    assert (forall p, on_disk w2 p = view s w p) as Hd.
    { intros q. unfold view, pending. rewrite Hbw, app_nil_r. unfold on_disk. by rewrite Hd2. }
    split; [|done]. split; [done|]. split; [done|]. split; [done|].
    intros q. rewrite <- Hd. unfold view, pending. simpl. by rewrite !app_nil_r.
Qed.

(** ** A synchronous store *)

(** An append of a marshalled record at an instant, a flush by the caller or by
    the periodic flusher, or a close. *)
Inductive op :=
  | OpAppend (now : Z) (line : bytes)
  | OpFlush
  | OpClose.

Definition run_op (o : op) : State sw (outcome (option error)) :=
  match o with
  | OpAppend now line => Append now (Ok line)
  | OpFlush => fun sw => let '(e, sw) := Flush sw in (Ret e, sw)
  | OpClose => fun sw => let '(e, sw) := Close sw in (Ret e, sw)
  end.

(** What an operation adds to the log of a path. *)
Definition op_log (s : Store) (p : bytes) (o : op) : bytes :=
  match o with
  | OpAppend now line => at_path (FilePath s (Today s now)) p (line ++ [nl])
  | _ => []
  end.

(** [runFlusher] flushes on every tick until the store is stopped, and logs an
    error; on the store this is [OpFlush]. *)
Definition runFlusher_tick (s : Store) : State sw (option (option error)) := fun sw =>
  if stopped s then (None, sw) else let '(e, sw) := Flush sw in (Some e, sw).

Lemma New_ok Local dir naming fns s bg :
  New Local None dir naming fns = Ok (s, bg) ->
  store_ok s /\ file s = None /\ bw s = None /\ once s = false /\ stopped s = false /\
  (ch s = None <-> (asyncSize (opts s) <= 0)%Z) /\ is_Some (loc (opts s)).
Proof.
  unfold New. set (o := New_options Local fns). intros [= <- _]. simpl. do 5 (split; [done|]).
  split; [by destruct (Z.ltb_spec 0 (asyncSize o)); split; (done || lia)|].
  unfold o, New_options. set (o' := fold_left _ _ _). destruct (loc o') eqn:E; [by rewrite E | done].
Qed.

(** The stop flags play no role in the log. *)
Definition sync_log (s : Store) (w : world) (d : bytes -> bytes) (s' : Store) (w' : world) : Prop :=
  store_ok s' /\ ch s' = None /\ FilePath s' = FilePath s /\ Today s' = Today s /\
  faults w' = [] /\ forall p, view s' w' p = view s w p ++ d p.

Lemma stepped_sync s w d s' w' :
  ch s = None -> stepped s w d s' w' -> sync_log s w d s' w'.
Proof.
  intros Hch (Hok & (H1 & H2 & H3 & H4 & _) & Hf & Hv). unfold sync_log, FilePath, Today.
  rewrite H1, H2, H3, H4. done.
Qed.

Lemma close_begin_sync s :
  ch s = None -> once (close_begin s) = true /\
  close_begin s = set_stop s None true (if once s then stopped s else true).
Proof.
  intros Hch. unfold close_begin. destruct (once s) eqn:E.
  - split; [done|]. destruct s; simpl in *; by subst.
  - by rewrite Hch.
Qed.

Lemma run_op_ok o s w :
  store_ok s -> ch s = None -> faults w = [] ->
  exists s' w', run_op o (s, w) = (Ret None, (s', w')) /\
    sync_log s w (fun p => op_log s p o) s' w'.
Proof.
  intros Hok Hch Hf. destruct o as [now line| |]; cbn [run_op op_log].
  - unfold Append. rewrite Hch. destruct (writeLocked_ok now (line ++ [nl]) s w Hok Hf) as (s' & w' & -> & Hst).
    exists s', w'. split; [done|]. by apply stepped_sync.
  - destruct (Flush_ok s w Hok Hf) as (s' & w' & -> & Hst & _).
    exists s', w'. split; [done|]. by apply stepped_sync.
  - unfold Close. destruct (close_begin_sync s Hch) as [_ E]. rewrite E.
    set (s1 := set_stop s None true (if once s then stopped s else true)).
    destruct (close_finish_ok s1 w Hok Hf) as (s' & w' & -> & Hst & _).
    exists s', w'. split; [done|]. by apply (stepped_sync s1).
Qed.

Lemma run_ops_ok os s w :
  store_ok s -> ch s = None -> faults w = [] ->
  exists s' w', st_mapM run_op os (s, w) = (map (fun _ => Ret None) os, (s', w')) /\
    sync_log s w (fun p => flat_map (op_log s p) os) s' w'.
Proof.
  revert s w. induction os as [|o os IH]; intros s w Hok Hch Hf.
  { exists s, w. split; [done|]. do 5 (split; [done|]). intros p. by rewrite app_nil_r. }
  cbn [st_mapM map flat_map]. unfold mbind, State_bind, mret, State_ret.
  destruct (run_op_ok o s w Hok Hch Hf) as (s1 & w1 & -> & (Hok1 & Hch1 & HF & HT & Hf1 & Hv1)).
  destruct (IH s1 w1 Hok1 Hch1 Hf1) as (s' & w' & E & (Hok' & Hch' & HF' & HT' & Hf' & Hv')).
  rewrite E. exists s', w'. split; [done|]. split; [done|]. split; [done|].
  split; [by rewrite HF'|]. split; [by rewrite HT'|]. split; [done|].
  intros p. rewrite Hv', Hv1, <- app_assoc. do 2 f_equal.
  apply flat_map_ext. intros [now line| |]; simpl; [|done..]. by rewrite HF, HT.
Qed.

Lemma New_closed_log Local dir naming fns s bg w os :
  New Local None dir naming fns = Ok (s, bg) -> ch s = None -> faults w = [] ->
  let '(rs, (s1, w1)) := st_mapM run_op os (s, w) in
  let '(err, (s', w')) := Close (s1, w1) in
  Forall (fun r => r = Ret None) rs /\ err = None /\ file s' = None /\
  forall p, on_disk w' p = on_disk w p ++ flat_map (op_log s p) os.
Proof.
  intros HN Hch Hf. destruct (New_ok _ _ _ _ _ _ HN) as (Hok & Hfile & Hbw & _).
  destruct (run_ops_ok os s w Hok Hch Hf) as (s1 & w1 & -> & (Hok1 & Hch1 & _ & _ & Hf1 & Hv1)).
  unfold Close. destruct (close_begin_sync s1 Hch1) as [_ ->].
  set (s2 := set_stop s1 None true (if once s1 then stopped s1 else true)).
  destruct (close_finish_ok s2 w1 Hok1 Hf1) as (s' & w' & -> & _ & Hfile' & _ & Hd).
  split; [apply Forall_forall; by intros r (o & -> & _)%list_elem_of_fmap|].
  split; [done|]. split; [done|]. intros p. rewrite Hd. change (view s2 w1 p) with (view s1 w1 p).
  rewrite Hv1. unfold view, pending. by rewrite Hbw, app_nil_r.
Qed.

(** C1: on a store without faults, any sequence of appends, flushes and closes
    succeeds, and closing leaves in each file exactly what it held before followed
    by the records appended on its day, each ended by a newline, in order: nothing
    is lost at a rotation, duplicated, or written to another day's file. *)
Theorem Close_writes_log Local dir naming fns s bg w os :
  New Local None dir naming fns = Ok (s, bg) -> ch s = None -> faults w = [] ->
  let '(rs, (s1, w1)) := st_mapM run_op os (s, w) in
  let '(err, (s', w')) := Close (s1, w1) in
  Forall (fun r => r = Ret None) rs /\ err = None /\ file s' = None /\
  forall p, on_disk w' p = on_disk w p ++ flat_map (op_log s p) os.
Proof. apply New_closed_log. Qed.

(** A store whose buffer holds eight bytes, over two days. *)
Lemma Close_writes_log_witness :
  match New UTC None ($"/var/log") Demo.naming [WithBufferSize 8] with
  | Ok (s, _) =>
      let os := [OpAppend 100 ($"one"); OpAppend 200 ($"a longer one"); OpFlush;
                 OpAppend 86400 ($"two")] in
      let '(_, (s1, w1)) := st_mapM run_op os (s, World ∅ []) in
      let '(_, (_, w')) := Close (s1, w1) in
      on_disk w' ($"/var/log/app-1970-01-01.jsonl") = $"one" ++ nl :: $"a longer one" ++ [nl]
  | Err _ => False
  end.
Proof.
  destruct (New UTC None ($"/var/log") Demo.naming [WithBufferSize 8]) as [[s bg]|] eqn:E; [|done].
  cbv zeta. set (os := [OpAppend 100 ($"one"); OpAppend 200 ($"a longer one"); OpFlush;
                 OpAppend 86400 ($"two")]).
  pose proof (Close_writes_log UTC ($"/var/log") Demo.naming [WithBufferSize 8] s bg (World ∅ []) os E)
    as H.
  injection E as <- _.
  destruct (st_mapM run_op os _) as [rs [s1 w1]]. destruct (Close (s1, w1)) as [err [s' w']].
  destruct H as (_ & _ & _ & H); [done|done|]. rewrite H. reflexivity.
Defined.

(** ** Any store, with faults: files only grow *)

Definition grows (w w' : world) : Prop := forall p, on_disk w p `prefix_of` on_disk w' p.

#[export] Instance grows_preorder : PreOrder grows.
Proof. split; [by intros w p|]. intros w1 w2 w3 H1 H2 p. specialize (H1 p). specialize (H2 p). by etrans. Qed.

Lemma grows_same_disk w w' : disk w' = disk w -> grows w w'.
Proof. intros E p. unfold on_disk. by rewrite E. Qed.

#[export] Hint Resolve grows_same_disk : golib.

Lemma sys_write_grows path data w : grows w (snd (sys_write path data w)).
Proof.
  unfold sys_write. destruct (match next_fault w with FaultNone => _ | Fault _ _ => _ end) as [n e].
  intros p. unfold on_disk. simpl. rewrite lookup_insert. case_decide; [|reflexivity]. subst.
  simpl. apply prefix_app_r. reflexivity.
Qed.

Lemma sys_open_grows path w : grows w (snd (sys_open path w)).
Proof.
  unfold sys_open. destruct (next_fault w); [|by apply grows_same_disk]. intros p. unfold on_disk. simpl.
  rewrite lookup_insert. case_decide; [subst; simpl|]; reflexivity.
Qed.

Lemma sys_close_grows w : grows w (snd (sys_close w)).
Proof. unfold sys_close. destruct (next_fault w); by apply grows_same_disk. Qed.

Lemma bw_Flush_grows b w : grows w (snd (bw_Flush b w)).
Proof.
  unfold bw_Flush. destruct (bw_err b); [by apply grows_same_disk|].
  case_bool_decide; [by apply grows_same_disk|].
  pose proof (sys_write_grows (bw_wr b) (bw_buf b) w) as H'.
  by destruct (sys_write (bw_wr b) (bw_buf b) w) as [[n [e|]] w'].
Qed.

Lemma bw_loop_grows fuel b data w : grows w (snd (bw_loop fuel b data w)).
Proof.
  revert b data w. induction fuel as [|fuel IH]; intros b data w; [by apply grows_same_disk|].
  cbn [bw_loop]. destruct (_ && _); [|by apply grows_same_disk]. unfold mbind, State_bind. case_bool_decide.
  - pose proof (sys_write_grows (bw_wr b) data w) as Hg.
    destruct (sys_write (bw_wr b) data w) as [[n e] w']. by etrans; [|apply IH].
  - set (b1 := BufW _ _ _ _). pose proof (bw_Flush_grows b1 w) as Hg.
    destruct (bw_Flush b1 w) as [[e b'] w']. by etrans; [|apply IH].
Qed.

Lemma bw_Write_grows b data w : grows w (snd (bw_Write b data w)).
Proof.
  unfold bw_Write, bw_Write_fuel, mbind, State_bind. pose proof (bw_loop_grows 3 b data w) as Hg.
  destruct (bw_loop 3 b data w) as [[data' b'] w']. by destruct (bw_err b').
Qed.

Lemma ensureFileLocked_grows now s w : grows w (snd (snd (ensureFileLocked now (s, w)))).
Proof.
  unfold ensureFileLocked. destruct (_ && _); [by apply grows_same_disk|].
  destruct (match file s with Some _ => _ | None => _ end) as [s1 w1] eqn:E.
  assert (grows w w1) as H1.
  { destruct (file s); [|by injection E as _ <-].
    assert (grows w (match bw s with Some b => snd (bw_Flush b w) | None => w end)) as H0
      by (destruct (bw s); [apply bw_Flush_grows | done]).
    set (w0 := match bw s with Some b => snd (bw_Flush b w) | None => w end) in *.
    pose proof (sys_close_grows w0). destruct (sys_close w0) as [e w2].
    injection E as _ <-. by etrans. }
  pose proof (sys_open_grows (FilePath s1 (Today s now)) w1) as H2.
  destruct (sys_open (FilePath s1 (Today s now)) w1) as [[e|] w2]; by etrans.
Qed.

Lemma writeLocked_grows now line s w : grows w (snd (snd (writeLocked now line (s, w)))).
Proof.
  unfold writeLocked. pose proof (ensureFileLocked_grows now s w) as H1.
  destruct (ensureFileLocked now (s, w)) as [[e|] [s1 w1]]; [done|]. simpl in H1.
  destruct (bw s1) as [b|].
  - pose proof (bw_Write_grows b line w1). destruct (bw_Write b line w1) as [[e b'] w2].
    by etrans.
  - pose proof (sys_write_grows (default [] (file s1)) line w1).
    destruct (sys_write (default [] (file s1)) line w1) as [[n e] w2]. by etrans.
Qed.

Lemma close_finish_grows s w : grows w (snd (snd (close_finish (s, w)))).
Proof.
  unfold close_finish.
  destruct (match bw s with Some _ => _ | None => _ end) as [[e s1] w1] eqn:E.
  assert (grows w w1) as H1.
  { destruct (bw s) as [b|]; [|by injection E as _ _ <-].
    pose proof (bw_Flush_grows b w). destruct (bw_Flush b w) as [[e' b'] w2].
    by injection E as _ _ <-. }
  destruct (file s1); [|done]. pose proof (sys_close_grows w1) as H2.
  destruct (sys_close w1) as [ce w2]. by etrans.
Qed.

Lemma run_op_grows o s w : grows w (snd (snd (run_op o (s, w)))).
Proof.
  destruct o as [now line| |]; cbn [run_op].
  - unfold Append. destruct (ch s) as [c|].
    + repeat case_match; reflexivity.
    + pose proof (writeLocked_grows now (line ++ [nl]) s w).
      by destruct (writeLocked now (line ++ [nl]) (s, w)) as [e [s' w']].
  - unfold Flush. destruct (bw s) as [b|]; [|reflexivity]. pose proof (bw_Flush_grows b w).
    by destruct (bw_Flush b w) as [[e b'] w'].
  - unfold Close. pose proof (close_finish_grows (close_begin s) w).
    by destruct (close_finish (close_begin s, w)) as [e [s' w']].
Qed.

(** Whatever system calls fail, and with whatever partial writes, no operation
    of a store changes a byte already on disk: every file only grows at its end. *)
Theorem files_append_only os s w p :
  on_disk w p `prefix_of` on_disk (snd (snd (st_mapM run_op os (s, w)))) p.
Proof.
  revert s w. induction os as [|o os IH]; intros s w; [done|].
  cbn [st_mapM]. unfold mbind, State_bind, mret, State_ret.
  pose proof (run_op_grows o s w p) as H1. destruct (run_op o (s, w)) as [r [s1 w1]].
  specialize (IH s1 w1). destruct (st_mapM run_op os (s1, w1)) as [rs [s2 w2]]. by etrans.
Qed.
