(* ===== verification/JsonlAsync.v ===== *)
(** * Package [jsonl]: the asynchronous mode of the store ([store.go], [runAsync])

    With [WithAsync] an append only sends the line to a buffered channel, and a
    background goroutine receives the lines and writes them.  The goroutines
    interleave: a configuration is the shared store and file system, the line the
    worker holds between its receive and its write, and the history of what was
    accepted and written; a step is one critical section or one channel operation
    of one goroutine. *)

From S2P Require Import Prelude GoStr GoTime GoPath JsonlFilter JsonlReader JsonlRetain JsonlStore.

Record async := Async {
  ast : Store;
  aw : world;
  inflight : option bytes;       (* received by the worker, not yet written *)
  running : bool;                (* the worker has not returned *)
  accepted : list bytes;         (* the lines whose [Append] returned nil *)
  written : list (Z * bytes)     (* the instants and lines of the worker's writes *)
}.

Definition set_sw (a : async) (sw : sw) : async :=
  Async (fst sw) (snd sw) (inflight a) (running a) (accepted a) (written a).

(** The ticker of the worker exists for a buffered store with a flush interval. *)
Definition has_ticker (s : Store) : bool :=
  (0 <? bufSize (opts s))%Z && (0 <? flushInterval (opts s))%Z.

(** The case [line, ok := <-s.ch] with [ok]. *)
Definition worker_recv (a : async) : option async :=
  match inflight a, ch (ast a) with
  | None, Some (Chan (line :: q) cap cl) =>
      if running a then
        Some (Async (set_ch (ast a) (Some (Chan q cap cl))) (aw a) (Some line) true
                (accepted a) (written a))
      else None
  | _, _ => None
  end.

(** [s.handleError(s.writeLocked(line))] *)
Definition worker_write (now : Z) (a : async) : option async :=
  match inflight a with
  | Some line =>
      let '(_, (s, w)) := writeLocked now line (ast a, aw a) in
      Some (Async s w None (running a) (accepted a) (written a ++ [(now, line)]))
  | None => None
  end.

(** [case <-tickC] *)
Definition worker_tick (a : async) : option async :=
  if running a && bool_decide (inflight a = None) && has_ticker (ast a) then
    Some (set_sw a (snd (Flush (ast a, aw a))))
  else None.

(** The channel is closed and drained: flush, close [stopped], return. *)
Definition worker_end (a : async) : option async :=
  match inflight a, ch (ast a) with
  | None, Some (Chan [] cap true) =>
      if running a then
        let '(_, (s, w)) := Flush (ast a, aw a) in
        Some (Async (set_stop s (ch s) (once s) true) w None false (accepted a) (written a))
      else None
  | _, _ => None
  end.

Inductive astep (a : async) : async -> Prop :=
  | a_append now line s w :
      Append now (Ok line) (ast a, aw a) = (Ret None, (s, w)) ->
      astep a (Async s w (inflight a) (running a) (accepted a ++ [line ++ [nl]]) (written a))
  | a_append_err now line e sw :
      Append now (Ok line) (ast a, aw a) = (Ret (Some e), sw) -> astep a (set_sw a sw)
  | a_recv a' : worker_recv a = Some a' -> astep a a'
  | a_write now a' : worker_write now a = Some a' -> astep a a'
  | a_tick a' : worker_tick a = Some a' -> astep a a'
  | a_end a' : worker_end a = Some a' -> astep a a'
  | a_flush : astep a (set_sw a (snd (Flush (ast a, aw a))))
  | a_close : once (ast a) = false -> astep a (set_sw a (close_begin (ast a), aw a))
  | a_close_finish :
      once (ast a) = true -> stopped (ast a) = true ->
      astep a (set_sw a (snd (close_finish (ast a, aw a)))).

Definition astart (s : Store) (w : world) : async := Async s w None true [] [].

(** The part of the history that belongs to a path. *)
Definition written_to (s : Store) (p : bytes) (l : list (Z * bytes)) : bytes :=
  flat_map (fun '(now, line) => at_path (FilePath s (Today s now)) p line) l.

(** ** The invariant *)

Definition queued (s : Store) : list bytes :=
  match ch s with Some c => queue c | None => [] end.

Definition chan_closed (s : Store) : bool :=
  match ch s with Some c => closed c | None => true end.

Record ainv (s0 : Store) (w0 : world) (a : async) : Prop := {
  ai_ok : store_ok (ast a);
  ai_faults : faults (aw a) = [];
  ai_paths : forall d, FilePath (ast a) d = FilePath s0 d;
  ai_today : forall now, Today (ast a) now = Today s0 now;
  ai_chan : is_Some (ch (ast a));
  ai_fifo : accepted a =
    map snd (written a) ++ option_list (inflight a) ++ queued (ast a);
  ai_view : forall p, view (ast a) (aw a) p = on_disk w0 p ++ written_to s0 p (written a);
  ai_once : chan_closed (ast a) = once (ast a);
  ai_stop : stopped (ast a) = negb (running a);
  ai_end : running a = false ->
    inflight a = None /\ queued (ast a) = [] /\ once (ast a) = true
}.

Lemma written_to_snoc s p l now line :
  written_to s p (l ++ [(now, line)]) =
  written_to s p l ++ at_path (FilePath s (Today s now)) p line.
Proof. unfold written_to. rewrite flat_map_app. simpl. by rewrite app_nil_r. Qed.

(** A step under the mutex that appends nothing keeps the invariant. *)
Lemma ainv_stepped s0 w0 a s' w' :
  ainv s0 w0 a -> stepped (ast a) (aw a) (fun _ => []) s' w' -> ainv s0 w0 (set_sw a (s', w')).
Proof.
  intros [] (Hok & Hc & Hf & Hv). destruct Hc as (H1 & H2 & H3 & H4 & H5 & H6).
  unfold queued, chan_closed in *.
  split; unfold queued, chan_closed; cbn [set_sw ast aw inflight running accepted written fst snd];
    rewrite ?H4, ?H5, ?H6; try done.
  - intros d. rewrite <- ai_paths0. unfold FilePath. by rewrite H1, H2.
  - intros now. rewrite <- ai_today0. unfold Today. by rewrite H3.
  - intros p. by rewrite Hv, app_nil_r.
Qed.

Lemma ainv_Flush s0 w0 a :
  ainv s0 w0 a -> ainv s0 w0 (set_sw a (snd (Flush (ast a, aw a)))).
Proof.
  intros Hi. destruct (Flush_ok (ast a) (aw a)) as (s' & w' & -> & Hst & _);
    [apply Hi..|]. by apply ainv_stepped.
Qed.

Lemma ainv_append s0 w0 a now line s w :
  ainv s0 w0 a -> Append now (Ok line) (ast a, aw a) = (Ret None, (s, w)) ->
  ainv s0 w0 (Async s w (inflight a) (running a) (accepted a ++ [line ++ [nl]]) (written a)).
Proof.
  intros [] E. unfold Append in E. destruct ai_chan0 as [c Hc]. rewrite Hc in E.
  destruct (closed c) eqn:Ecl; [done|]. destruct (_ <? _)%Z; [|done]. injection E as <- <-.
  unfold queued, chan_closed in *. rewrite Hc in *.
  split; unfold queued, chan_closed;
    cbn [set_ch ast aw inflight running accepted written ch queue closed stopped once]; try done.
  - rewrite ai_fifo0. by rewrite <- !app_assoc.
  - by rewrite <- ai_once0, Ecl.
  - intros Hr. destruct (ai_end0 Hr) as (_ & _ & Ho). congruence.
Qed.

Lemma Append_err_id now line a e sw :
  is_Some (ch (ast a)) -> Append now (Ok line) (ast a, aw a) = (Ret (Some e), sw) ->
  sw = (ast a, aw a) /\ e = ErrChannelFull.
Proof.
  intros [c Hc] E. unfold Append in E. rewrite Hc in E. repeat case_match; by simplify_eq.
Qed.

Lemma set_sw_id a : set_sw a (ast a, aw a) = a.
Proof. by destruct a. Qed.

Lemma ainv_recv s0 w0 a a' : ainv s0 w0 a -> worker_recv a = Some a' -> ainv s0 w0 a'.
Proof.
  intros [] E. unfold worker_recv in E. destruct (inflight a); [done|].
  destruct (ch (ast a)) as [[[|line q] cap cl]|] eqn:Hc; try done.
  destruct (running a) eqn:Hr; [|done]. injection E as <-.
  unfold queued, chan_closed in *. rewrite Hc in *.
  split; cbn [set_ch ast aw inflight running accepted written ch queue closed stopped once]; done.
Qed.

Lemma ainv_write s0 w0 a now a' : ainv s0 w0 a -> worker_write now a = Some a' -> ainv s0 w0 a'.
Proof.
  intros Hi E. unfold worker_write in E. destruct (inflight a) as [line|] eqn:Hl; [|done].
  destruct (writeLocked_ok now line (ast a) (aw a)) as (s' & w' & Ew & (Hok & Hc & Hf & Hv));
    [apply Hi..|]. rewrite Ew in E. injection E as <-.
  destruct Hc as (H1 & H2 & H3 & H4 & H5 & H6). destruct Hi. unfold queued, chan_closed in *.
  split; unfold queued, chan_closed; cbn [ast aw inflight running accepted written];
    rewrite ?H4, ?H5, ?H6; try done.
  - intros d. rewrite <- ai_paths0. unfold FilePath. by rewrite H1, H2.
  - intros n. rewrite <- ai_today0. unfold Today. by rewrite H3.
  - rewrite ai_fifo0, Hl, map_app, <- app_assoc. done.
  - intros p. by rewrite Hv, ai_view0, written_to_snoc, app_assoc, ai_paths0, ai_today0.
  - intros Hr. destruct (ai_end0 Hr) as [? _]. congruence.
Qed.

Lemma ainv_end s0 w0 a a' : ainv s0 w0 a -> worker_end a = Some a' -> ainv s0 w0 a'.
Proof.
  intros Hi E. unfold worker_end in E. destruct (inflight a) eqn:Hl; [done|].
  destruct (ch (ast a)) as [[[|line q] cap [|]]|] eqn:Hc; try done.
  destruct (running a) eqn:Hr; [|done].
  pose proof (ainv_Flush _ _ _ Hi) as Hi'. destruct (Flush (ast a, aw a)) as [e [s w]] eqn:Ef.
  injection E as <-.
  assert (ch s = ch (ast a)) as Hs.
  { unfold Flush in Ef. destruct (bw (ast a)) as [b|]; [|by injection Ef as _ <- _].
    destruct (bw_Flush b (aw a)) as [[e' b'] w']. by injection Ef as _ <- _. }
  destruct Hi'.
  unfold queued, chan_closed in *.
  cbn [set_sw ast aw inflight running accepted written fst snd] in *. rewrite Hs, Hc, Hl, Hr in *.
  split; unfold queued, chan_closed;
    cbn [set_stop ast aw inflight running accepted written ch stopped once] in *; try done.
Qed.

Lemma ainv_close_begin s0 w0 a :
  ainv s0 w0 a -> once (ast a) = false -> ainv s0 w0 (set_sw a (close_begin (ast a), aw a)).
Proof.
  intros [] Ho. destruct ai_chan0 as [c Hc]. unfold close_begin. rewrite Ho, Hc.
  unfold queued, chan_closed in *. rewrite Hc in *.
  split; unfold queued, chan_closed;
    cbn [set_sw set_stop fst snd ast aw inflight running accepted written ch queue closed
         stopped once]; try done.
  intros Hr. destruct (ai_end0 Hr) as (_ & _ & ?). congruence.
Qed.

Lemma ainv_step s0 w0 a a' : ainv s0 w0 a -> astep a a' -> ainv s0 w0 a'.
Proof.
  intros Hi Hs. destruct Hs as [now line s w E|now line e sw E|a' E|now a' E|a' E|a' E| |Ho|Ho Hst].
  - by apply (ainv_append s0 w0 a now line).
  - destruct (Append_err_id _ _ _ _ _ (ai_chan _ _ _ Hi) E) as [-> _]. by rewrite set_sw_id.
  - by apply (ainv_recv s0 w0 a).
  - by apply (ainv_write s0 w0 a now).
  - unfold worker_tick in E. destruct (_ && _); [|done]. injection E as <-. by apply ainv_Flush.
  - by apply (ainv_end s0 w0 a).
  - by apply ainv_Flush.
  - by apply ainv_close_begin.
  - destruct (close_finish_ok (ast a) (aw a)) as (s' & w' & -> & Hst' & _); [apply Hi..|].
    by apply ainv_stepped.
Qed.

Lemma ainv_start Local dir naming fns s w :
  New Local None dir naming fns = Ok (s, RunAsync) -> faults w = [] -> ainv s w (astart s w).
Proof.
  intros HN Hf. destruct (New_ok _ _ _ _ _ _ HN) as (Hok & _ & Hbw & Ho & Hst & _ & _).
  assert (exists n, ch s = Some (Chan [] n false)) as [n Hn].
  { unfold New in HN. injection HN as <- Hbg. cbn [ch].
    destruct (0 <? _)%Z; [by eexists|]. by destruct (_ && _ && _). }
  unfold astart. split; unfold queued, chan_closed; cbn [ast aw inflight running accepted written];
    rewrite ?Hn, ?Ho, ?Hst; try done.
  intros p. unfold view, pending. by rewrite Hbw.
Qed.

Lemma ainv_reach s0 w0 a a' : rtc astep a a' -> ainv s0 w0 a -> ainv s0 w0 a'.
Proof. induction 1; [done|]. intros Hi. eauto using ainv_step. Qed.

(** ** The worker makes progress *)

(** One move of a worker whose channel is closed: write the line it holds, else
    receive, else end. *)
Definition worker_move (now : Z) (a : async) : option async :=
  match worker_write now a with
  | Some a' => Some a'
  | None => match worker_recv a with Some a' => Some a' | None => worker_end a end
  end.

Definition worker_step (a a' : async) : Prop := exists now, worker_move now a = Some a'.

Lemma worker_move_step now a a' : worker_move now a = Some a' -> astep a a'.
Proof.
  unfold worker_move. intros E.
  destruct (worker_write now a) eqn:E1; [injection E as <-; by eapply a_write|].
  destruct (worker_recv a) eqn:E2; [injection E as <-; by apply a_recv | by apply a_end].
Qed.

(** What is left before the worker ends. *)
Definition work (a : async) : nat :=
  2 * length (queued (ast a)) + length (option_list (inflight a)) + 1.

Lemma same_chan_writeLocked now line s w e s' w' :
  store_ok s -> faults w = [] -> writeLocked now line (s, w) = (e, (s', w')) -> ch s' = ch s.
Proof.
  intros Hok Hf E. destruct (writeLocked_ok now line s w Hok Hf) as (? & ? & E' & (_ & Hc & _)).
  rewrite E' in E. injection E as _ <- <-. apply Hc.
Qed.

Lemma worker_move_work s0 w0 a now :
  ainv s0 w0 a -> running a = true -> once (ast a) = true ->
  exists a', worker_move now a = Some a' /\
    (running a' = false \/ (running a' = true /\ once (ast a') = true /\ work a' < work a)).
Proof.
  intros Hi Hr Ho. pose proof (ai_once _ _ _ Hi) as Hcl. destruct (ai_chan _ _ _ Hi) as [c Hc].
  unfold worker_move, worker_write, work, queued, chan_closed in *. rewrite Ho, Hc in *.
  destruct (inflight a) as [line|] eqn:Hl.
  - destruct (writeLocked_ok now line (ast a) (aw a)) as (s' & w' & -> & (_ & Hsame & _));
      [apply Hi..|].
    eexists. split; [done|]. right. cbn [ast running inflight].
    destruct Hsame as (_ & _ & _ & Hch & Hon & _). rewrite Hch, Hon, Hc.
    split; [done|]. split; [done|]. simpl. lia.
  - unfold worker_recv, worker_end. rewrite Hl, Hc, Hr. destruct c as [[|line q] cap cl].
    + simpl in Hcl. subst cl. destruct (Flush (ast a, aw a)) as [e [s w]].
      eexists. split; [done|]. by left.
    + eexists. split; [done|]. right. cbn [ast running inflight set_ch ch queue once].
      split; [done|]. split; [done|]. simpl. lia.
Qed.

Lemma worker_steps_reach a a' : rtc worker_step a a' -> rtc astep a a'.
Proof.
  induction 1 as [|a1 a2 a3 [now Hm] _ IH]; [done|].
  eapply rtc_l; [by eapply worker_move_step | done].
Qed.

Lemma worker_drains s0 w0 n (now : Z) a :
  work a <= n -> ainv s0 w0 a -> running a = true -> once (ast a) = true ->
  exists a', rtc worker_step a a' /\ running a' = false /\ once (ast a') = true.
Proof.
  revert a. induction n as [|n IH]; intros a Hn Hi Hr Ho; [unfold work in Hn; lia|].
  destruct (worker_move_work s0 w0 a now Hi Hr Ho) as (a1 & Hm & Hcase).
  assert (ainv s0 w0 a1) as Hi1 by by apply (ainv_step _ _ a), (worker_move_step now).
  assert (worker_step a a1) as Hw1 by by exists now.
  destruct Hcase as [Hr1|(Hr1 & Ho1 & Hw)].
  - exists a1. split; [by apply rtc_once|]. split; [done|]. by apply Hi1.
  - destruct (IH a1) as (a' & Hs & Hr' & Ho'); [lia|done..|].
    exists a'. split; [by eapply rtc_l | done].
Qed.

(** ** Properties *)

(** C2: in every interleaving of producers, flushes, the background worker and
    closers of an asynchronous store without faults, when a [Close] completes each
    file holds what it held before followed by lines of its day, and the lines
    written are exactly the lines whose [Append] returned nil, each once, in the
    order in which they were accepted. *)
Theorem async_Close_complete Local dir naming fns s w a err a' :
  New Local None dir naming fns = Ok (s, RunAsync) -> faults w = [] ->
  rtc astep (astart s w) a -> once (ast a) = true -> stopped (ast a) = true ->
  close_finish (ast a, aw a) = (err, (ast a', aw a')) ->
  err = None /\ map snd (written a) = accepted a /\ file (ast a') = None /\
  forall p, on_disk (aw a') p = on_disk w p ++ written_to s p (written a).
Proof.
  intros HN Hf Hr Ho Hst E.
  assert (ainv s w a) as Hi by (eapply ainv_reach; [done | by eapply ainv_start]).
  destruct (close_finish_ok (ast a) (aw a)) as (s' & w' & E' & _ & Hfile & _ & Hd); [apply Hi..|].
  rewrite E' in E. injection E as <- <- <-.
  pose proof (ai_stop _ _ _ Hi) as Hs. rewrite Hst in Hs.
  destruct (ai_end _ _ _ Hi) as (Hl & Hq & _); [by destruct (running a)|].
  pose proof (ai_fifo _ _ _ Hi) as Hfifo. rewrite Hl, Hq, !app_nil_r in Hfifo.
  split; [done|]. split; [done|]. split; [done|]. intros p. rewrite Hd. apply Hi.
Qed.

(** [Close] of an asynchronous store does not wait for ever: from any state
    reached by any interleaving after the channel has been closed, moves of the
    worker alone lead to the state in which [stopped] is closed. *)
Theorem async_Close_terminates Local dir naming fns s w a :
  New Local None dir naming fns = Ok (s, RunAsync) -> faults w = [] ->
  rtc astep (astart s w) a -> once (ast a) = true ->
  exists a', rtc worker_step a a' /\ once (ast a') = true /\ stopped (ast a') = true.
Proof.
  intros HN Hf Hr Ho.
  assert (ainv s w a) as Hi by (eapply ainv_reach; [done | by eapply ainv_start]).
  destruct (running a) eqn:Hrun.
  - destruct (worker_drains s w (work a) 0 a) as (a' & Hs & Hr' & Ho'); [done..|].
    exists a'. split; [done|]. split; [done|].
    assert (ainv s w a') as Hi' by (eapply ainv_reach; [by apply worker_steps_reach | done]).
    by rewrite (ai_stop _ _ _ Hi'), Hr'.
  - exists a. split; [done|]. split; [done|]. by rewrite (ai_stop _ _ _ Hi), Hrun.
Qed.

(** ** Concrete runs *)

Module Run.

Definition st : Store :=
  match New UTC None ($"/d") Demo.naming [WithAsync 2] with
  | Ok (s, _) => s
  | Err _ => MkStore [] Demo.naming (Options 0 0 0 None) [] None None None false false
  end.

Definition a0 : async := astart st (World ∅ []).

Definition append (line : bytes) (a : async) : async :=
  let '(_, (s, w)) := Append 0 (Ok line) (ast a, aw a) in
  Async s w (inflight a) (running a) (accepted a ++ [line ++ [nl]]) (written a).

Definition begin_close (a : async) : async := set_sw a (close_begin (ast a), aw a).

(** Two appends with a receive in between, then a close. *)
Definition closing : async :=
  begin_close (append ($"b") (default a0 (worker_recv (append ($"a") a0)))).

Definition move (a : async) : async := default a (worker_move 86400 a).

Lemma closing_reach : rtc astep a0 closing.
Proof.
  eapply rtc_l; [by apply (a_append a0 0 ($"a"))|].
  eapply rtc_l; [by apply a_recv|].
  eapply rtc_l; [by eapply (a_append _ 0 ($"b"))|].
  eapply rtc_l; [by apply a_close|]. apply rtc_refl.
Qed.

Definition closed_ : async := move (move (move (move closing))).

Lemma closed_reach : rtc astep a0 closed_.
Proof.
  transitivity closing; [apply closing_reach|].
  do 4 (eapply rtc_l; [by eapply (worker_move_step 86400)|]). apply rtc_refl.
Qed.

End Run.

Lemma async_Close_complete_witness :
  let '(err, (s', w')) := close_finish (ast Run.closed_, aw Run.closed_) in
  err = None /\ on_disk w' ($"/d/app-1970-01-02.jsonl") = $"a" ++ nl :: $"b" ++ [nl].
Proof.
  destruct (close_finish (ast Run.closed_, aw Run.closed_)) as [err [s' w']] eqn:E.
  pose proof (async_Close_complete UTC ($"/d") Demo.naming [WithAsync 2] Run.st (World ∅ [])
                Run.closed_ err (set_sw Run.closed_ (s', w'))) as H.
  destruct H as (Herr & _ & _ & H); [reflexivity|reflexivity|exact Run.closed_reach|
    reflexivity|reflexivity|exact E|].
  split; [exact Herr|]. specialize (H ($"/d/app-1970-01-02.jsonl")). simpl aw in H. rewrite H.
  reflexivity.
Defined.

Lemma async_Close_terminates_witness :
  exists a', rtc worker_step Run.closing a' /\ once (ast a') = true /\ stopped (ast a') = true.
Proof.
  apply (async_Close_terminates UTC ($"/d") Demo.naming [WithAsync 2] Run.st (World ∅ []));
    [reflexivity|reflexivity|exact Run.closing_reach|reflexivity].
Defined.
