(* ===== verification/JsonlRoundtrip.v ===== *)
(** * Package [jsonl]: what is appended is what is read back

    The store and the reader together: records appended to a synchronous store
    over any number of days and read back with [DecodeSince] after [Close].  The
    JSON encoder and decoder are parameters, with what [encoding/json] documents of
    one-line documents as a hypothesis on each record.  The section also shows
    where the buffered store differs from its comment. *)

From S2P Require Import Prelude GoStr GoTime GoPath JsonlFilter JsonlReader JsonlRetain JsonlStore.
From Stdlib Require Import Sorted.

(** ** Lines and files *)

(** A line that the scanner returns as it was written. *)
Definition line_ok (l : bytes) : Prop :=
  (nl ∉ l) /\ (cr ∉ l) /\ l <> [] /\ too_long l = false.

#[export] Instance line_ok_dec l : Decision (line_ok l).
Proof. unfold line_ok. apply _. Defined.

Lemma file_tokens_lines ls :
  Forall line_ok ls -> file_tokens (FData (Demo.lines ls) None) = Some ls.
Proof.
  intros H. assert (Forall (fun l => nl ∉ l) ls) as Hnl
    by (eapply Forall_impl; [exact H | by intros l (? & _)]).
  unfold file_tokens. rewrite raw_lines_lines by done.
  assert (forallb (fun l => negb (too_long l)) ls = true) as ->.
  { apply forallb_forall. intros l Hl%list_elem_of_In. rewrite Forall_forall in H.
    destruct (H l Hl) as (_ & _ & _ & ->). done. }
  f_equal. rewrite <- (map_id ls) at 2. apply map_ext_in. intros l Hl%list_elem_of_In.
  rewrite Forall_forall in H. destruct (H l Hl) as (_ & Hcr & _). by apply dropCR_id.
Qed.

(** ** Grouping a sorted history by day *)

Section group.
Context {A : Type} (k : A -> Z).

Definition at_day (d : Z) (l : list A) : list A := List.filter (fun x => bool_decide (k x = d)) l.
Definition not_at_day (d : Z) (l : list A) : list A :=
  List.filter (fun x => negb (bool_decide (k x = d))) l.

Lemma at_day_split lo l :
  StronglySorted (fun x y => (k x <= k y)%Z) l -> Forall (fun x => (lo <= k x)%Z) l ->
  l = at_day lo l ++ not_at_day lo l.
Proof.
  unfold at_day, not_at_day. induction 1 as [|x l _ IH Hx]; intros Hlo; [done|].
  apply Forall_cons in Hlo as [Hlx Hlo]. simpl. case_bool_decide as E; simpl.
  - f_equal. by apply IH.
  - assert (forall y, In y l -> k y <> lo) as Hne.
    { intros y Hy%list_elem_of_In. rewrite Forall_forall in Hx. specialize (Hx y Hy). lia. }
    clear IH Hx Hlo. assert (List.filter (fun y => bool_decide (k y = lo)) l = []) as ->.
    { induction l as [|y l IH]; [done|]. simpl.
      rewrite bool_decide_eq_false_2 by (apply Hne; by left). apply IH. intros z Hz.
      apply Hne. by right. }
    simpl. f_equal. induction l as [|y l IH]; [done|]. simpl.
    rewrite bool_decide_eq_false_2 by (apply Hne; by left). simpl. f_equal. apply IH.
    intros z Hz. apply Hne. by right.
Qed.

Lemma at_day_other d lo l : d <> lo -> at_day d (not_at_day lo l) = at_day d l.
Proof.
  intros Hd. unfold at_day, not_at_day. induction l as [|x l IH]; [done|]. simpl.
  destruct (bool_decide (k x = lo)) eqn:E; simpl; rewrite IH; [|done].
  apply bool_decide_eq_true in E. rewrite bool_decide_eq_false_2; [done | lia].
Qed.

Lemma StronglySorted_filter (R : A -> A -> Prop) f l :
  StronglySorted R l -> StronglySorted R (List.filter f l).
Proof.
  induction 1 as [|x l _ IH Hx]; [constructor|]. simpl. destruct (f x); [|done].
  constructor; [done|]. rewrite Forall_forall in *. intros y [Hy _]%list_elem_of_In%filter_In.
  apply Hx. by apply list_elem_of_In.
Qed.

(** The days of a range, one after the other, give the whole sorted history. *)
Lemma at_day_concat n lo l :
  StronglySorted (fun x y => (k x <= k y)%Z) l ->
  Forall (fun x => (lo <= k x < lo + Z.of_nat n)%Z) l ->
  flat_map (fun d => at_day d l) (seqZ lo (Z.of_nat n)) = l.
Proof.
  revert lo l. induction n as [|n IH]; intros lo l Hs Hb.
  - destruct l as [|x l]; [done|]. apply Forall_cons in Hb as [? _]. lia.
  - rewrite seqZ_cons by lia. cbn [flat_map].
    transitivity (at_day lo l ++ not_at_day lo l).
    2: { symmetry. apply at_day_split; [done|]. eapply Forall_impl; [exact Hb | simpl; lia]. }
    f_equal. rewrite <- (IH (Z.succ lo) (not_at_day lo l)).
    + replace (Z.pred (Z.of_nat (S n))) with (Z.of_nat n) by lia. rewrite !flat_map_concat_map.
      f_equal. apply map_ext_in. intros d Hd%list_elem_of_In%elem_of_seqZ.
      symmetry. apply at_day_other. lia.
    + by apply StronglySorted_filter.
    + rewrite Forall_forall in *. intros x [Hx Hne]%list_elem_of_In%filter_In.
      apply list_elem_of_In in Hx. specialize (Hb x Hx).
      apply negb_true_iff, bool_decide_eq_false in Hne. lia.
Qed.
End group.

(** ** The round trip *)

Section roundtrip.
Context `{LineFields}.
Context {T : Type} (Marshal : T -> result bytes) (Unmarshal : bytes -> option T).
Context (tsField : bytes) (stamp : T -> Z).

(** What the encoder and the field lookup give for a value: one line that decodes
    to the value and carries its timestamp. *)
Definition codec_ok (v : T) : Prop :=
  exists l, Marshal v = Ok l /\ line_ok l /\ Unmarshal l = Some v /\
    ParseTimestamp l tsField = Some (stamp v).

Definition encode (v : T) : bytes :=
  match Marshal v with Ok l => l | Err _ => [] end.

Definition append_op (r : Z * T) : op := OpAppend (fst r) (encode (snd r)).

(** The files that a world shows to the reader. *)
Definition tree_of (w : world) : tree := (fun c => FData c None) <$> disk w.

Definition source_of (s : Store) (w : world) : source := {|
  src_dir := dir s; src_naming := naming s;
  src_loc := default UTC (loc (opts s)); src_tree := tree_of w |}.

Variable s : Store.
Variable recs : list (Z * T).
Hypothesis Hnaming : naming_ok (naming s).
Hypothesis Hdays : Forall (fun r => day_ok (local_day (default UTC (loc (opts s))) (fst r))) recs.
Hypothesis Hcodec : Forall (fun r => codec_ok (snd r)) recs.

Let day_of (r : Z * T) : Z := local_day (default UTC (loc (opts s))) (fst r).

Lemma FilePath_day_inj a b :
  day_ok a -> day_ok b -> FilePath s (format_day a) = FilePath s (format_day b) -> a = b.
Proof.
  intros Ha Hb E. apply (f_equal (clean_mid (naming s))) in E. unfold FilePath in E.
  rewrite !clean_mid_day in E by done. by apply format_day_inj.
Qed.

Lemma day_content d :
  day_ok d ->
  flat_map (op_log s (FilePath s (format_day d))) (map append_op recs) =
  Demo.lines (map (fun r => encode (snd r)) (at_day day_of d recs)).
Proof.
  intros Hd. clear Hcodec. induction recs as [|r rs IH]; [done|].
  apply Forall_cons in Hdays as [Hr Hrs]. unfold at_day in *. simpl. rewrite IH by done.
  unfold at_path, Today. fold (day_of r). case_decide as E.
  - apply FilePath_day_inj in E; [|done..]. rewrite bool_decide_eq_true_2 by done. done.
  - rewrite bool_decide_eq_false_2; [done|]. intros <-. done.
Qed.

Lemma encode_line_ok rs :
  Forall (fun r => codec_ok (snd r)) rs -> Forall line_ok (map (fun r : Z * T => encode (snd r)) rs).
Proof.
  intros Hc. apply Forall_fmap. eapply Forall_impl; [exact Hc|].
  intros r (l & Hm & Hl & _). unfold encode. simpl. by rewrite Hm.
Qed.

Lemma at_day_codec d : Forall (fun r => codec_ok (snd r)) (at_day day_of d recs).
Proof.
  rewrite Forall_forall in *. intros r [Hr _]%list_elem_of_In%filter_In.
  by apply Hcodec, list_elem_of_In.
Qed.

(** What the reader decodes of a group of records. *)
Lemma kept_encoded cutoff rs :
  tsField <> [] -> Forall (fun r => codec_ok (snd r)) rs ->
  omap Unmarshal (kept (And [tsGTEFilter tsField cutoff; None])
                    (map (fun r : Z * T => encode (snd r)) rs)) =
  List.filter (fun v => (cutoff <=? stamp v)%Z) (map snd rs).
Proof.
  intros Hts. induction 1 as [|r rs (l & Hm & (_ & _ & Hne & _) & Hu & Hp) _ IH]; [done|].
  cbn [map List.filter]. unfold encode at 1. rewrite Hm, kept_cons.
  assert (keep (And [tsGTEFilter tsField cutoff; None]) l = (cutoff <=? stamp (snd r))%Z) as ->.
  { unfold keep. rewrite bool_decide_eq_false_2 by done. simpl. rewrite And_accepts. simpl.
    unfold tsGTEFilter. rewrite bool_decide_eq_false_2 by done. simpl. rewrite Hp.
    by rewrite andb_true_r. }
  destruct (cutoff <=? stamp (snd r))%Z; [|done]. simpl. rewrite Hu. f_equal. apply IH.
Qed.

Lemma day_tokens w d :
  day_ok d -> (forall p, on_disk w p = flat_map (op_log s p) (map append_op recs)) ->
  file_tokens (Open (tree_of w) (FilePath s (format_day d))) =
  Some (map (fun r => encode (snd r)) (at_day day_of d recs)).
Proof.
  intros Hd Hw. specialize (Hw (FilePath s (format_day d))). rewrite day_content in Hw by done.
  pose proof (encode_line_ok _ (at_day_codec d)) as Hl.
  unfold Open, tree_of. rewrite lookup_fmap. unfold on_disk in Hw.
  destruct (disk w !! _) as [c|]; simpl in Hw |- *.
  - rewrite Hw. by apply file_tokens_lines.
  - by destruct (map _ (at_day day_of d recs)) as [|[|]].
Qed.

Lemma DecodeSince_written w now cutoff :
  tsField <> [] -> (cutoff <= now)%Z -> zone_regular (default UTC (loc (opts s))) cutoff now ->
  StronglySorted (fun x y => (day_of x <= day_of y)%Z) recs ->
  Forall (fun r => (cutoff <= fst r <= now)%Z) recs ->
  day_ok (local_day (src_loc (source_of s w)) cutoff) ->
  day_ok (local_day (src_loc (source_of s w)) now) ->
  (forall p, on_disk w p = flat_map (op_log s p) (map append_op recs)) ->
  DecodeSince Unmarshal (source_of s w) now cutoff tsField None =
  (List.filter (fun v => (cutoff <=? stamp v)%Z) (map snd recs), None).
Proof.
  intros Hts Hcn Hz Hsort Hrange Hd1 Hd2 Hw.
  assert (forall d, day_ok d -> file_tokens (Open (tree_of w)
            (JsonlReader.FilePath (source_of s w) (format_day d))) =
            Some (map (fun r => encode (snd r)) (at_day day_of d recs))) as Ht
    by (intros d Hd; by apply day_tokens).
  change (default UTC (loc (opts s))) with (src_loc (source_of s w)) in Hz.
  pose proof (zr_mono _ _ _ Hz cutoff now ltac:(lia) ltac:(lia)) as Hm.
  set (lo := local_day (src_loc (source_of s w)) cutoff) in *.
  assert (exists n, daysInRange cutoff now (src_loc (source_of s w)) =
            map format_day (seqZ lo (Z.of_nat n)) /\
            (local_day (src_loc (source_of s w)) now - lo + 1 = Z.of_nat n)%Z) as (n & Hdays' & Hn).
  { exists (Z.to_nat (local_day (src_loc (source_of s w)) now - lo + 1)).
    rewrite daysInRange_seq by by rewrite Z.max_r by lia. by rewrite Z.max_r, Z2Nat.id by lia. }
  assert (forall d, d ∈ seqZ lo (Z.of_nat n) -> day_ok d) as Hdok
    by (intros d Hd%elem_of_seqZ; unfold day_ok in *; lia).
  rewrite DecodeSince_spec.
  2: { unfold readable. rewrite Hdays'. apply Forall_fmap, Forall_forall. intros d Hd. simpl.
       rewrite Ht by auto. by eexists. }
  f_equal. unfold since_lines. rewrite Hdays'.
  transitivity (omap Unmarshal (kept (And [tsGTEFilter tsField cutoff; None])
                  (map (fun r => encode (snd r)) recs))); [|by apply kept_encoded].
  f_equal.
  assert (Forall (fun x => (lo <= day_of x < lo + Z.of_nat n)%Z) recs) as Hb.
  { eapply Forall_impl; [exact Hrange|]. intros r [H1 H2]. unfold day_of.
    pose proof (zr_mono _ _ _ Hz cutoff (fst r) ltac:(lia) ltac:(lia)).
    pose proof (zr_mono _ _ _ Hz (fst r) now ltac:(lia) ltac:(lia)). simpl in *. lia. }
  rewrite <- (at_day_concat day_of n lo recs Hsort Hb).
  clear Hdays' Hb. induction (seqZ lo (Z.of_nat n)) as [|d ds IH]; [done|].
  cbn [map flat_map]. rewrite map_app, kept_app, IH by (intros; apply Hdok; by right).
  f_equal. unfold day_lines. simpl src_tree. rewrite Ht; [done|]. apply Hdok. by left.
Qed.
End roundtrip.

(** ** Properties *)

(** C19: records appended to a synchronous store on an empty directory, at
    non-decreasing instants and over any number of days, with a rotation at each
    midnight of the store's time zone, are read back after [Close] by [DecodeSince]
    in the order of the appends, the ones with a timestamp before the cutoff left
    out, and nothing else; in any zone in which every day from that of the cutoff to today
    begins at midnight, with or without summer time ([zone_regular]; where it is not so,
    see [days_SaoPaulo]). *)
Theorem Append_DecodeSince_roundtrip `{LineFields} {T : Type}
    (Marshal : T -> result bytes) (Unmarshal : bytes -> option T) (tsField : bytes)
    (stamp : T -> Z) Local dir naming fns s bg recs now cutoff :
  New Local None dir naming fns = Ok (s, bg) -> ch s = None -> naming_ok naming ->
  tsField <> [] -> (cutoff <= now)%Z -> zone_regular (default UTC (loc (opts s))) cutoff now ->
  StronglySorted (fun x y => (fst x <= fst y)%Z) recs ->
  Forall (fun r => (cutoff <= fst r <= now)%Z) recs ->
  Forall (fun r => codec_ok Marshal Unmarshal tsField stamp (snd r)) recs ->
  day_ok (local_day (default UTC (loc (opts s))) cutoff) ->
  day_ok (local_day (default UTC (loc (opts s))) now) ->
  let '(_, (s1, w1)) := st_mapM run_op (map (append_op Marshal) recs) (s, World ∅ []) in
  let '(_, (_, w')) := Close (s1, w1) in
  DecodeSince Unmarshal (source_of s w') now cutoff tsField None =
  (List.filter (fun v => (cutoff <=? stamp v)%Z) (map snd recs), None).
Proof.
  intros HN Hch Hnam Hts Hcn Hz Hsort Hrange Hcodec Hd1 Hd2.
  pose proof (New_closed_log Local dir naming fns s bg (World ∅ [])
                (map (append_op Marshal) recs) HN Hch eq_refl) as Hlog.
  destruct (st_mapM run_op _ _) as [rs [s1 w1]]. destruct (Close (s1, w1)) as [err [s' w']].
  destruct Hlog as (_ & _ & _ & Hw).
  apply (DecodeSince_written Marshal Unmarshal tsField stamp s recs); try done.
  - unfold New in HN. by injection HN as <- _.
  - eapply Forall_impl; [exact Hrange|]. intros r [H1 H2].
    pose proof (zr_mono _ _ _ Hz cutoff (fst r) ltac:(lia) ltac:(lia)).
    pose proof (zr_mono _ _ _ Hz (fst r) now ltac:(lia) ltac:(lia)).
    unfold day_ok in *. lia.
  - clear -Hsort Hrange Hz. induction Hsort as [|x l _ IH Hx]; [constructor|].
    apply Forall_cons in Hrange as [Hxr Hlr]. constructor; [by apply IH|].
    rewrite Forall_forall in *. intros y Hy. specialize (Hx y Hy). specialize (Hlr y Hy).
    apply (zr_mono _ _ _ Hz); lia.
Qed.

(** Three records over the weekend in which New York goes to summer time, the first older
    than the cutoff: 9 March, 10 March, which has 23 hours, and 11 March. *)
Lemma Append_DecodeSince_roundtrip_witness :
  match New NewYork2024 None ($"/var/log") Demo.naming [WithBufferSize 4] with
  | Ok (s, _) =>
      let recs := [(1710003600%Z, $"5"); (1710093600%Z, $"1710093600"); (1710180000%Z, $"1710180000")] in
      let '(_, (s1, w1)) := st_mapM run_op (map (append_op Ok) recs) (s, World ∅ []) in
      let '(_, (_, w')) := Close (s1, w1) in
      disk w' !! ($"/var/log/app-2024-03-10.jsonl") = Some ($"1710093600" ++ [nl]) /\
      @DecodeSince Demo.number_fields _ Some (source_of s w') 1710190000 1710000000 ($"t") None =
      ([$"1710093600"; $"1710180000"], None)
  | Err _ => False
  end.
Proof.
  destruct (New NewYork2024 None ($"/var/log") Demo.naming [WithBufferSize 4]) as [[s bg]|] eqn:E; [|done].
  pose proof (@Append_DecodeSince_roundtrip Demo.number_fields _ Ok Some ($"t")
    (fun l => default 0%Z (parse_nat l)) NewYork2024 ($"/var/log") Demo.naming [WithBufferSize 4] s bg
    [(1710003600%Z, $"5"); (1710093600%Z, $"1710093600"); (1710180000%Z, $"1710180000")] 1710190000%Z 1710000000%Z E) as H.
  injection E as <- _.
  cbv zeta in H |- *.
  match type of H with context [st_mapM run_op ?ops ?w] =>
    assert (let '(_, (s1, w1)) := st_mapM run_op ops w in let '(_, (_, w')) := Close (s1, w1) in
            disk w' !! ($"/var/log/app-2024-03-10.jsonl") = Some ($"1710093600" ++ [nl])) as Hd by (vm_compute; reflexivity) end.
  revert H Hd. destruct (st_mapM run_op _ _) as [rs [s1 w1]]. destruct (Close (s1, w1)) as [err [s' w']]. intros H Hd.
  split; [exact Hd|].
  apply H.
  - reflexivity.
  - by apply (bool_decide_unpack _).
  - done.
  - done.
  - apply NewYork2024_regular.
  - repeat constructor; simpl; lia.
  - repeat constructor; simpl; lia.
  - repeat constructor; (eexists; split; [reflexivity|]; split; [by apply (bool_decide_unpack _)|];
      split; reflexivity).
  - by apply (bool_decide_unpack _).
  - by apply (bool_decide_unpack _).
Defined.

(** Contrary to the comment of [Append] ("synchronous mode returns after the
    data is on disk"), an append to a fresh buffered store of a record that fits
    the buffer returns nil with every file as it was: the record is in memory
    only, and is lost if the process stops before a flush. *)
Theorem Append_buffered_not_on_disk Local dir naming fns s bg w now line :
  New Local None dir naming fns = Ok (s, bg) -> ch s = None -> faults w = [] ->
  (Z.of_nat (length line) < bufSize (opts s))%Z ->
  let '(r, (_, w')) := Append now (Ok line) (s, w) in
  r = Ret None /\ forall p, on_disk w' p = on_disk w p.
Proof.
  intros HN Hch Hf Hfit. destruct (New_ok _ _ _ _ _ _ HN) as (_ & Hfile & Hbw & _).
  unfold Append. rewrite Hch. unfold writeLocked, ensureFileLocked. rewrite Hfile.
  rewrite bool_decide_eq_false_2 by (by intros H). cbn [andb].
  destruct (sys_open_ok (FilePath s (Today s now)) w Hf) as (w' & -> & Hf' & Hd).
  rewrite (proj2 (Z.ltb_lt 0 (bufSize (opts s)))) by lia. cbn [bw set_file].
  unfold bw_Write, bw_Write_fuel, mbind, State_bind. rewrite bw_loop_fits.
  - done.
  - unfold Available, NewWriterSize. simpl. rewrite length_app. simpl. lia.
Qed.

(** With the defaults of the package. *)
Lemma Append_buffered_not_on_disk_witness :
  match New UTC None ($"/var/log") Demo.naming [] with
  | Ok (s, _) => on_disk (snd (snd (Append 0 (Ok ($"{}")) (s, World ∅ [])))) ($"/var/log/app-1970-01-01.jsonl") = []
  | Err _ => False
  end.
Proof.
  destruct (New UTC None ($"/var/log") Demo.naming []) as [[s bg]|] eqn:E; [|done].
  pose proof (Append_buffered_not_on_disk UTC ($"/var/log") Demo.naming [] s bg (World ∅ []) 0
                ($"{}") E) as H.
  injection E as <- _. destruct (Append 0 _ _) as [r [s' w']].
  destruct H as [_ H]; [done|done|simpl; lia|]. apply H.
Defined.
