(* ===== verification/GoText.v ===== *)
(** * Package [strings], continued

    Replacing, splitting into fields and looking for characters.  Spaces are the ASCII
    ones. *)

From S2P Require Import Prelude GoStr.

(** [strings.ReplaceAll] for a non-empty [old]: [skip] bytes of a match are still to be
    passed over. *)
Fixpoint replace_from (skip : nat) (old new s : bytes) : bytes :=
  match s with
  | [] => []
  | c :: s' =>
      match skip with
      | S k => replace_from k old new s'
      | O =>
          if HasPrefix s old then new ++ replace_from (length old - 1) old new s'
          else c :: replace_from 0 old new s'
      end
  end.

Definition ReplaceAll (s old new : bytes) : bytes := replace_from 0 old new s.

Example replace_1 : ReplaceAll ($"aXXXb") ($"XX") ($"-") = $"a-Xb". Proof. reflexivity. Qed.

(** [strings.Fields]; [cur] is the field begun, backwards. *)
Fixpoint fields_from (cur s : bytes) : list bytes :=
  let emit rest := if bool_decide (cur = []) then rest else reverse cur :: rest in
  match s with
  | [] => emit []
  | c :: s' => if decide (c ∈ white) then emit (fields_from [] s') else fields_from (c :: cur) s'
  end.

Definition Fields (s : bytes) : list bytes := fields_from [] s.

Example fields_1 : Fields ($"  ls   -la ") = [$"ls"; $"-la"]. Proof. reflexivity. Qed.

Definition ContainsAny (s chars : bytes) : bool := existsb (fun c => bool_decide (c ∈ chars)) s.

(** [strings.EqualFold] on ASCII text. *)
Definition EqualFold (s t : bytes) : bool := bool_decide (ToLower s = ToLower t).

(** ** Facts *)

Lemma ContainsAny_spec s chars : ContainsAny s chars = true <-> exists c, c ∈ s /\ c ∈ chars.
Proof.
  unfold ContainsAny. rewrite existsb_exists. setoid_rewrite bool_decide_eq_true.
  by setoid_rewrite <- list_elem_of_In.
Qed.

Lemma HasPrefix_app p s : HasPrefix (p ++ s) p = true.
Proof. apply HasPrefix_spec. by exists s. Qed.

Lemma replace_skip p old new s : replace_from (length p) old new (p ++ s) = replace_from 0 old new s.
Proof. induction p as [|c p IH]; [done|]. cbn [length app replace_from]. apply IH. Qed.

Lemma replace_match old new s :
  old <> [] -> replace_from 0 old new (old ++ s) = new ++ replace_from 0 old new s.
Proof.
  intros Hne. destruct old as [|c old]; [done|]. cbn [app replace_from].
  pose proof (HasPrefix_app (c :: old) s) as H. cbn [app] in H. rewrite H.
  cbn [length]. replace (S (length old) - 1) with (length old) by lia. by rewrite replace_skip.
Qed.

Lemma replace_no_head c0 old new l s :
  c0 ∉ l -> replace_from 0 (c0 :: old) new (l ++ s) = l ++ replace_from 0 (c0 :: old) new s.
Proof.
  induction l as [|c l IH]; [done|]. intros [Hc Hl]%not_elem_of_cons. cbn [app replace_from].
  assert (HasPrefix (c :: l ++ s) (c0 :: old) = false) as ->.
  { apply not_true_iff_false. intros [r Hr]%HasPrefix_spec. injection Hr as -> _. done. }
  by rewrite IH.
Qed.

(** Replacing the separator between lines that do not have its first character. *)
Lemma ReplaceAll_Join c0 old new ls :
  Forall (fun l => c0 ∉ l) ls -> ReplaceAll (Join ls (c0 :: old)) (c0 :: old) new = Join ls new.
Proof.
  unfold ReplaceAll. intros Hls. induction Hls as [|l ls Hl Hls IH]; [done|].
  destruct ls as [|l' ls].
  - cbn [Join]. rewrite <- (app_nil_r l) at 1. rewrite replace_no_head by done. cbn. by rewrite app_nil_r.
  - change (Join (l :: l' :: ls) ?s) with (l ++ s ++ Join (l' :: ls) s) at 1.
    rewrite replace_no_head, replace_match, IH by done. reflexivity.
Qed.

Lemma Contains_app_mid a s b : Contains (a ++ s ++ b) s = true.
Proof.
  induction a as [|c a IH].
  - destruct (s ++ b) as [|x l] eqn:E.
    + by apply app_eq_nil in E as [-> ->].
    + cbn [app Contains]. rewrite <- E. by rewrite HasPrefix_app.
  - cbn [app Contains]. rewrite IH. by rewrite orb_true_r.
Qed.

Lemma Contains_elem c s sub : c ∈ sub -> Contains s sub = true -> c ∈ s.
Proof.
  intros Hc. induction s as [|x s IH]; cbn [Contains].
  - intros H. destruct (HasPrefix_spec [] sub) as [H' _]. destruct H' as [r Hr]; [by destruct sub|].
    destruct sub; [set_solver|done].
  - intros [H|H]%orb_true_iff.
    + apply HasPrefix_spec in H as [r ->]. set_solver.
    + right. by apply IH.
Qed.
