(* ===== verification/Command.v ===== *)
(** * Package [command]: running scripts and commands

    [exec.go] and [shell.go] over the file system of [GoTree].  The operating system,
    [exec.LookPath], the environment and the run of a process are parameters; so are
    the names that [os.CreateTemp] picks.  Log messages are left out. *)

From S2P Require Import Prelude GoStr GoText GoPath GoTree GoTreeFacts TreeWalk TreeMove.

Local Open Scope Z_scope.

Inductive GOOS := windows | darwin | linux.

#[export] Instance GOOS_eq_dec : EqDecision GOOS.
Proof. solve_decision. Defined.

(** ** Line endings and quoting ([exec.go]) *)

Definition crlf : bytes := [cr; nl].

Definition fixLineEnding (goos : GOOS) (code : bytes) : bytes :=
  if Contains code crlf then
    if decide (goos = windows) then code else ReplaceAll code crlf [nl]
  else if Contains code [nl] then
    if decide (goos <> windows) then code else ReplaceAll code [nl] crlf
  else if Contains code [cr] then
    if decide (goos <> windows) then ReplaceAll code [cr] [nl] else ReplaceAll code [cr] crlf
  else code.

Definition quote : ascii := "034"%char.
Definition blank : bytes := [" "; "009"]%char.

Definition quote_arg (a : bytes) : bytes :=
  if ContainsAny a blank then quote :: a ++ [quote] else a.

(** The loop of [quoteArgs]: a space before every argument but the first. *)
Definition quoteArgs (arg : list bytes) : bytes := Join (map quote_arg arg) ($" ").

(** ** Shells ([shell.go]) *)

Definition AllowedShells : list bytes :=
  [$"bash"; $"sh"; $"zsh"; $"powershell"; $"pwsh"; $"cmd"].

Section command.
Variable goos : GOOS.
Variable LookPath : bytes -> bool.               (* whether it finds the program *)

Definition candidates : list bytes :=
  match goos with
  | windows => [$"powershell"; $"pwsh"; $"cmd"]
  | darwin => [$"zsh"; $"bash"; $"sh"]
  | linux => [$"bash"; $"sh"; $"zsh"]
  end.

Fixpoint first_found (l : list bytes) : bytes :=
  match l with
  | [] => $"sh"
  | fb :: rest => if LookPath fb then fb else first_found rest
  end.

Definition DefaultShell : bytes := first_found candidates.

Definition GetShell (shell : bytes) : bytes :=
  if decide (shell ∉ AllowedShells) then DefaultShell
  else if LookPath shell then shell
  else DefaultShell.

(** ** Commands ([exec.go]) *)

Record Cmd := MkCmd {
  c_Name : bytes; c_Args : list bytes; c_Dir : bytes; c_Env : list bytes;
  c_Timeout : option Z                             (* of the context, in nanoseconds *)
}.

Variable Environ : list bytes.

Definition NewCommand (ctx : option Z) (bin : bytes) (arg : list bytes) (workDir : bytes) : Cmd :=
  match goos with
  | windows =>
      let fullCmd := if bool_decide (arg = []) then bin else bin ++ $" " ++ quoteArgs arg in
      MkCmd ($"cmd") [$"/C"; $"chcp 65001 >nul && " ++ fullCmd] workDir (Environ ++ [$"TERM=dumb"]) ctx
  | darwin => MkCmd bin arg workDir ([$"TERM=xterm-256color"; $"CLICOLOR=1"] ++ Environ) ctx
  | linux => MkCmd bin arg workDir ([$"TERM=xterm-256color"] ++ Environ) ctx
  end.

(** [cmd.CombinedOutput]: what the process writes and does. *)
Variable CombinedOutput : Cmd -> State os (bytes * option error).

(** The timeout is a [uint] of seconds, multiplied as an [int64] of nanoseconds. *)
Definition RunCommand (bin : bytes) (arg : list bytes) (workDir : bytes) (timeout : Z)
    : State os (bytes * option error) :=
  let ctx := if 0 <? timeout then Some (i64 (i64 timeout * 1000000000)) else None in
  CombinedOutput (NewCommand ctx bin arg workDir).

(** ** Temporary scripts *)

Variable temp_name : bytes -> bytes.             (* the path picked for an extension *)

(** [os.CreateTemp] with the name picked: [O_EXCL], for the owner only. *)
Definition os_CreateTemp (p : bytes) : State os (result fpath) :=
  path_call p false (fun q t pr =>
    match t !! q with
    | Some _ => Err EExist
    | None => Ok (q, <[q := NFile [] (new_meta pr 384)]> t)
    end).

(** [File.Chmod] *)
Definition f_Chmod (h : fpath) (mode : Z) : State os (result unit) :=
  syscall nothing (fun w =>
    match nodes w !! h with
    | Some (NFile data m) =>
        (Ok tt, snd (set_nodes (<[h := NFile data (Meta mode (m_time m) (m_uid m) (m_gid m))]> (nodes w)) w))
    | _ => (Ok tt, w)
    end).

(** An error of a call, in the words of the caller. *)
Definition wrapped {A : Type} (msg : bytes) (m : State os (result A)) : State os (result A) :=
  r ← m;
  mret (match r with Ok a => Ok a | Err e => Err (EWrap msg e) end).

Definition createTempScript (code ext : bytes) : State os (result bytes) :=
  tf ←? wrapped ($"create temp file") (os_CreateTemp (temp_name ext));
  _ ←? wrapped ($"write temp file") (f_Write tf (fixLineEnding goos code));
  (if decide (goos <> windows) then _ ← f_Chmod tf 493; mret tt else mret tt);;
  mret (Ok (temp_name ext)).

(** ** [RunScript] *)

Record ScriptPayload := MkScriptPayload {
  s_Name : bytes; ScriptType : bytes; Username : bytes; WorkDir : bytes;
  Content : bytes; Timeout : Z
}.

(** The switch on the type: the program, its arguments, and the temporary file if any;
    indexing the fields of an empty command panics. *)
Definition prepare (data : ScriptPayload) : State os (outcome (result (option bytes * bytes * list bytes))) :=
  if decide (ScriptType data = $"BAT") then
    r ← (tmp ←? createTempScript (Content data) ($".bat");
         mret (Ok (Some tmp, GetShell ($"cmd"), [$"/c"; $"CALL"; tmp])));
    mret (Ret r)
  else if decide (ScriptType data = $"POWERSHELL") then
    r ← (tmp ←? createTempScript (Content data) ($".ps1");
         mret (Ok (Some tmp, GetShell ($"powershell"), [$"-File"; tmp])));
    mret (Ret r)
  else if decide (ScriptType data = $"SHELL") then
    if HasPrefix (Content data) ($"#!/") then
      r ← (tmp ←? createTempScript (Content data) [];
           mret (Ok (Some tmp, tmp, [])));
      mret (Ret r)
    else mret (Ret (Ok (None, DefaultShell, [$"-c"; Content data])))
  else if decide (ScriptType data = $"EXEC") then
    match Fields (Content data) with
    | [] => mret Panic
    | bin :: arg => mret (Ret (Ok (None, bin, arg)))
    end
  else mret (Ret (Err (ENew ($"unsupported script type: " ++ ScriptType data)))).

Definition RunScript (data : ScriptPayload) : State os (outcome (bytes * option error)) :=
  p ← prepare data;
  match p with
  | Panic => mret Panic
  | Ret (Err e) => mret (Ret ([], Some e))
  | Ret (Ok (tmp, bin, arg)) =>
      let workDir := if bool_decide (WorkDir data = []) then Dir bin else WorkDir data in
      out ← RunCommand bin arg workDir (Timeout data);
      (match tmp with Some f => _ ← os_Remove f; mret tt | None => mret tt end);;
      mret (Ret out)
  end.

End command.

(** ** Shells *)

Section shells.
Variable goos : GOOS.
Variable LookPath : bytes -> bool.

Lemma first_found_spec l :
  (first_found LookPath l ∈ l /\ LookPath (first_found LookPath l) = true) \/
  (first_found LookPath l = $"sh" /\ forall c, c ∈ l -> LookPath c = false).
Proof.
  induction l as [|fb l IH]; cbn [first_found]; [right; split; [done|set_solver]|].
  destruct (LookPath fb) eqn:E; [left; split; [set_solver|done]|].
  destruct IH as [[H1 H2]|[H1 H2]]; [left; split; [set_solver|done]|right]. split; [done|].
  intros c [->|Hc]%elem_of_cons; auto.
Qed.

Lemma candidates_allowed c : c ∈ candidates goos -> c ∈ AllowedShells.
Proof. revert c. apply Forall_forall. apply (bool_decide_unpack _). by destruct goos; vm_compute. Qed.

(** [GetShell] never answers with a program that is not on the list of shells; a
    listed shell that is found is kept, and any other name gives a shell that is found,
    or [sh] when none of the system's candidates is. *)
Theorem GetShell_allowed shell :
  let r := GetShell goos LookPath shell in
  r ∈ AllowedShells /\
  (shell ∈ AllowedShells -> LookPath shell = true -> r = shell) /\
  (LookPath r = true \/ r = $"sh" /\ forall c, c ∈ candidates goos -> LookPath c = false).
Proof.
  unfold GetShell, DefaultShell.
  assert (first_found LookPath (candidates goos) ∈ AllowedShells) as Hd.
  { destruct (first_found_spec (candidates goos)) as [[H _]|[-> _]]; [by apply candidates_allowed|].
    apply (bool_decide_unpack _). by vm_compute. }
  assert (LookPath (first_found LookPath (candidates goos)) = true \/
          first_found LookPath (candidates goos) = $"sh" /\ forall c, c ∈ candidates goos -> LookPath c = false) as Hf
    by (destruct (first_found_spec (candidates goos)) as [[_ H]|H]; auto).
  cbn zeta. destruct (decide (shell ∉ AllowedShells)) as [Hs|Hs]; [done|].
  apply dec_stable in Hs. destruct (LookPath shell) eqn:E; [auto|]. done.
Qed.
End shells.

(** ** Line endings *)

(** The line ending of a system. *)
Definition eol_of (goos : GOOS) : bytes := if decide (goos = windows) then crlf else [nl].

Definition no_eol (l : bytes) : Prop := (cr ∉ l) /\ (nl ∉ l).

Lemma elem_of_Join_inv c ls sep : c ∈ Join ls sep -> c ∈ sep \/ exists l, l ∈ ls /\ c ∈ l.
Proof.
  induction ls as [|l ls IH]; [by intros ?%not_elem_of_nil|]. destruct ls as [|l' ls].
  - cbn [Join]. intros H. right. exists l. split; [by left|done].
  - change (Join (l :: l' :: ls) sep) with (l ++ sep ++ Join (l' :: ls) sep).
    intros [H|[H|H]%elem_of_app]%elem_of_app; [right; exists l; split; [by left|done]|by left|].
    destruct (IH H) as [?|(x & Hx & Hc)]; [by left|right]. exists x. split; [by right|done].
Qed.

Lemma Contains_none c s sub : c ∈ sub -> c ∉ s -> Contains s sub = false.
Proof. intros Hc Hs. apply not_true_iff_false. intros H. by eapply Hs, Contains_elem. Qed.

Lemma Join_no_eol c ls sep : Forall (fun l => c ∉ l) ls -> c ∉ sep -> c ∉ Join ls sep.
Proof.
  intros Hls Hs H. destruct (elem_of_Join_inv c ls sep H) as [?|(l & Hl & Hc)]; [done|].
  rewrite Forall_forall in Hls. by eapply Hls.
Qed.

(** [fixLineEnding] gives a text whose lines all end the same way, be it with LF, CR
    LF or CR, the line ending of the system, and leaves the lines as they are. *)
Theorem fixLineEnding_uniform goos ls eol :
  Forall no_eol ls -> eol ∈ [[nl]; crlf; [cr]] ->
  fixLineEnding goos (Join ls eol) = Join ls (eol_of goos).
Proof.
  intros Hls He.
  assert (Forall (fun l => cr ∉ l) ls) as Hcr by (eapply Forall_impl; [exact Hls|by intros l []]).
  assert (Forall (fun l => nl ∉ l) ls) as Hnl by (eapply Forall_impl; [exact Hls|by intros l []]).
  assert (cr ∉ [nl]) as Hcn by (apply (bool_decide_unpack _); by vm_compute).
  assert (nl ∉ [cr]) as Hnc by (apply (bool_decide_unpack _); by vm_compute).
  destruct ls as [|l ls].
  { cbn [Join]. by destruct goos. }
  destruct ls as [|l' ls].
  { cbn [Join]. rewrite Forall_singleton in Hcr, Hnl. unfold fixLineEnding.
    rewrite (Contains_none cr) by (try done; by left). rewrite (Contains_none nl) by (try done; by left).
    by rewrite (Contains_none cr) by (try done; by left). }
  assert (Contains (Join (l :: l' :: ls) eol) eol = true) as Hc by apply Contains_app_mid.
  unfold fixLineEnding, eol_of. revert Hc. generalize dependent (l :: l' :: ls). intros L _ Hcr Hnl Hc.
  rewrite !elem_of_cons, elem_of_nil in He. destruct He as [->|[->|[->|[]]]].
  - rewrite (Contains_none cr _ crlf) by (try (by left); by apply Join_no_eol). rewrite Hc.
    destruct (decide (goos = windows)), (decide (goos <> windows)); try done. by apply ReplaceAll_Join.
  - rewrite Hc. destruct (decide (goos = windows)); [done|]. by apply ReplaceAll_Join.
  - rewrite (Contains_none nl _ crlf) by (try (by right; left); by apply Join_no_eol).
    rewrite (Contains_none nl _ [nl]) by (try (by left); by apply Join_no_eol). rewrite Hc.
    destruct (decide (goos = windows)), (decide (goos <> windows)); try done; by apply ReplaceAll_Join.
Qed.

(** A text of mixed line endings is left mixed. *)
Example fixLineEnding_mixed :
  fixLineEnding linux ($"a" ++ crlf ++ $"b" ++ [cr] ++ $"c") = $"a" ++ [nl] ++ $"b" ++ [cr] ++ $"c".
Proof. vm_compute. reflexivity. Qed.

(** ** Scripts *)

Section scripts.
Variable goos : GOOS.
Variable LookPath : bytes -> bool.
Variable Environ : list bytes.
Variable CombinedOutput : Cmd -> State os (bytes * option error).
Variable temp_name : bytes -> bytes.

Local Abbreviation RunScript := (RunScript goos LookPath Environ CombinedOutput temp_name).
Local Abbreviation createTempScript := (createTempScript goos temp_name).

(** What is run for a payload that goes through a file: the file's extension, and the
    program and arguments for its path. *)
Definition temp_plan (data : ScriptPayload) : option (bytes * (bytes -> bytes * list bytes)) :=
  if decide (ScriptType data = $"BAT") then
    Some ($".bat", fun p => (GetShell goos LookPath ($"cmd"), [$"/c"; $"CALL"; p]))
  else if decide (ScriptType data = $"POWERSHELL") then
    Some ($".ps1", fun p => (GetShell goos LookPath ($"powershell"), [$"-File"; p]))
  else if decide (ScriptType data = $"SHELL" /\ HasPrefix (Content data) ($"#!/") = true) then
    Some ([], fun p => (p, []))
  else None.

Definition work_dir (data : ScriptPayload) (bin : bytes) : bytes :=
  if bool_decide (WorkDir data = []) then Dir bin else WorkDir data.

Definition timeout_of (t : Z) : option Z := if 0 <? t then Some (i64 (i64 t * 1000000000)) else None.

Definition command_for (data : ScriptPayload) (bin : bytes) (arg : list bytes) : Cmd :=
  NewCommand goos Environ (timeout_of (Timeout data)) bin arg (work_dir data bin).

(** A script that goes through a file is prepared by [createTempScript] alone. *)
Lemma RunScript_temp data ext f w :
  temp_plan data = Some (ext, f) ->
  RunScript data w =
  (r ← createTempScript (Content data) ext;
   match r with
   | Err e => mret (Ret ([], Some e))
   | Ok tmp =>
       out ← CombinedOutput (command_for data (fst (f tmp)) (snd (f tmp)));
       (_ ← os_Remove tmp; mret tt);;
       mret (Ret out)
   end) w.
Proof.
  unfold temp_plan, Command.RunScript, prepare. intros H.
  unfold RunCommand, command_for, timeout_of, work_dir, try_bind, mbind, State_bind.
  destruct (decide (ScriptType data = $"BAT")).
  { apply (inj Some), pair_equal_spec in H as [<- <-]. by destruct (createTempScript (Content data) ($".bat") w) as [[tmp|err] w1]. }
  destruct (decide (ScriptType data = $"POWERSHELL")).
  { apply (inj Some), pair_equal_spec in H as [<- <-]. by destruct (createTempScript (Content data) ($".ps1") w) as [[tmp|err] w1]. }
  destruct (decide _) as [[-> Hp]|]; [|done]. apply (inj Some), pair_equal_spec in H as [<- <-]. rewrite decide_True by done. rewrite Hp.
  by destruct (createTempScript (Content data) [] w) as [[tmp|err] w1].
Qed.

(** The node of a script: only elsewhere than on Windows it is made executable. *)
Definition script_node (data : ScriptPayload) (w : os) : node :=
  NFile (fixLineEnding goos (Content data))
    (Meta (if decide (goos = windows) then Z.ldiff 384 (umask (proc w)) else 493)
       (clock (proc w)) (p_uid (proc w)) (p_gid (proc w))).

Lemma os_CreateTemp_run q w :
  tree_ok (nodes w) -> default None (head (faults w)) = None -> has_parent (nodes w) q -> nodes w !! q = None ->
  os_CreateTemp (abs q) w =
  (Ok q, Os (<[q := NFile [] (new_meta (proc w) 384)]> (nodes w)) (proc w) (tail (faults w))).
Proof. intros Hok Hf Hp Hq. unfold os_CreateTemp. rewrite path_call_next by auto. by rewrite Hq. Qed.

Lemma wrapped_ok {A} msg (m : State os (result A)) w a w' :
  m w = (Ok a, w') -> wrapped msg m w = (Ok a, w').
Proof. intros H. unfold wrapped. by rewrite (st_bind_run _ _ _ _ _ H). Qed.

Lemma wrapped_err {A} msg (m : State os (result A)) w e w' :
  m w = (Err e, w') -> wrapped msg m w = (Err (EWrap msg e), w').
Proof. intros H. unfold wrapped. by rewrite (st_bind_run _ _ _ _ _ H). Qed.

Lemma createTempScript_run data ext q w :
  tree_ok (nodes w) -> faults w = [] -> temp_name ext = abs q ->
  has_parent (nodes w) q -> nodes w !! q = None ->
  createTempScript (Content data) ext w =
  (Ok (abs q), Os (<[q := script_node data w]> (nodes w)) (proc w) []).
Proof.
  intros Hok Hf Ht Hp Hq. unfold Command.createTempScript, script_node. rewrite Ht.
  rewrite (try_bind_ok _ _ _ _ _ (wrapped_ok _ _ _ _ _
    (os_CreateTemp_run q w Hok ltac:(by rewrite Hf) Hp Hq))). rewrite Hf. cbn [tail].
  set (w1 := Os _ _ _).
  assert (f_Write q (fixLineEnding goos (Content data)) w1 =
    (Ok tt, Os (<[q := NFile (fixLineEnding goos (Content data)) (new_meta (proc w) 384)]> (nodes w)) (proc w) [])) as Hw.
  { unfold f_Write. rewrite syscall_eq. cbn [faults w1 head default]. rewrite next_call_id by done.
    unfold mbind, State_bind, append_to. cbn [nodes proc w1]. rewrite lookup_insert_eq. cbn.
    by rewrite insert_insert_eq. }
  rewrite (try_bind_ok _ _ _ _ _ (wrapped_ok _ _ _ _ _ Hw)).
  destruct (decide (goos = windows)) as [Hg|Hg].
  - by rewrite decide_False by auto.
  - rewrite decide_True by done. unfold mbind, State_bind, f_Chmod. rewrite syscall_eq.
    cbn [faults head default]. rewrite next_call_id by done. cbn [nodes]. rewrite lookup_insert_eq. cbn.
    by rewrite insert_insert_eq.
Qed.

Lemma os_Remove_run q data m w :
  tree_ok (nodes w) -> faults w = [] -> nodes w !! q = Some (NFile data m) ->
  os_Remove (abs q) w = (Ok tt, Os (delete q (nodes w)) (proc w) []).
Proof.
  intros Hok Hf Hq. unfold os_Remove. rewrite path_call_run by eauto. rewrite Hq.
  rewrite bool_decide_eq_false_2; [done|]. intros ->. destruct (wf_root _ (proj1 Hok)); congruence.
Qed.

(** C21: A script that goes through a file is run from exactly its text, with the line
    endings of the system, at the program, arguments, directory, environment and
    timeout of its type, and the file is removed when the run is over, whatever the
    run does to the rest of the disk and whether it fails or not. *)
Theorem RunScript_runs_file data ext f q w :
  tree_ok (nodes w) -> faults w = [] -> temp_plan data = Some (ext, f) ->
  temp_name ext = abs q -> has_parent (nodes w) q -> nodes w !! q = None ->
  let w1 := Os (<[q := script_node data w]> (nodes w)) (proc w) [] in
  let '(out, w2) := CombinedOutput (command_for data (fst (f (abs q))) (snd (f (abs q)))) w1 in
  tree_ok (nodes w2) -> faults w2 = [] -> (exists d m, nodes w2 !! q = Some (NFile d m)) ->
  RunScript data w = (Ret out, Os (delete q (nodes w2)) (proc w2) []).
Proof.
  intros Hok Hf Hplan Ht Hp Hq w1. rewrite (RunScript_temp data ext f) by done.
  rewrite (st_bind_run _ _ _ _ _ (createTempScript_run data ext q w Hok Hf Ht Hp Hq)). fold w1.
  destruct (CombinedOutput _ w1) as [out w2] eqn:E. intros Hok2 Hf2 (d & m & Hq2).
  rewrite (st_bind_run _ _ _ _ _ E).
  assert ((_ ← os_Remove (abs q); mret tt) w2 = (tt, Os (delete q (nodes w2)) (proc w2) [])) as Hr
    by by rewrite (st_bind_run _ _ _ _ _ (os_Remove_run q d m w2 Hok2 Hf2 Hq2)).
  by rewrite (st_bind_run _ _ _ _ _ Hr).
Qed.

(** When the text of a script cannot be written, the error is returned before the
    removal of the file is deferred: the file stays, with a part of the text. *)
Theorem RunScript_leaks_file data ext f q n e w :
  tree_ok (nodes w) -> faults w = [None; Some (n, e)] -> temp_plan data = Some (ext, f) ->
  temp_name ext = abs q -> has_parent (nodes w) q -> nodes w !! q = None ->
  exists w' m, RunScript data w = (Ret ([], Some (EWrap ($"write temp file") e)), w') /\
    nodes w' !! q = Some (NFile (take n (fixLineEnding goos (Content data))) m).
Proof.
  intros Hok Hf Hplan Ht Hp Hq. rewrite (RunScript_temp data ext f) by done.
  unfold Command.createTempScript. rewrite Ht.
  pose proof (os_CreateTemp_run q w Hok ltac:(by rewrite Hf) Hp Hq) as Hc. rewrite Hf in Hc. cbn [tail] in Hc.
  set (w1 := Os _ _ _) in Hc.
  set (w2 := Os (<[q := NFile (take n (fixLineEnding goos (Content data))) (new_meta (proc w) 384)]> (nodes w)) (proc w) []).
  assert (f_Write q (fixLineEnding goos (Content data)) w1 = (Err e, w2)) as Hw.
  { unfold f_Write. rewrite syscall_eq. cbn [faults w1 head default].
    unfold append_to, next_call. cbn [nodes proc w1 faults tail]. rewrite lookup_insert_eq. cbn.
    by rewrite insert_insert_eq. }
  exists w2, (new_meta (proc w) 384). split; [|apply lookup_insert_eq].
  erewrite st_bind_run; [|rewrite (try_bind_ok _ _ _ _ _ (wrapped_ok _ _ _ _ _ Hc));
    by rewrite (try_bind_err _ _ _ _ _ (wrapped_err _ _ _ _ _ Hw))]. done.
Qed.

(** A command without a word in it makes [RunScript] panic. *)
Theorem RunScript_empty_panics data w :
  ScriptType data = $"EXEC" -> Forall (fun c => c ∈ white) (Content data) ->
  RunScript data w = (Panic, w).
Proof.
  intros Ht Hc. unfold Command.RunScript, prepare. rewrite Ht. rewrite !decide_False by done. rewrite decide_True by done.
  assert (Fields (Content data) = []) as ->; [|done]. unfold Fields.
  induction Hc as [|c s Hc _ IH]; [done|]. cbn [fields_from]. by rewrite decide_True.
Qed.

(** A command is run as it is. *)
Lemma RunScript_exec data bin arg w :
  ScriptType data = $"EXEC" -> Fields (Content data) = bin :: arg ->
  RunScript data w = (out ← CombinedOutput (command_for data bin arg); mret (Ret out)) w.
Proof.
  intros Ht Hc. unfold Command.RunScript, prepare. rewrite Ht. rewrite !decide_False by done.
  rewrite decide_True by done. rewrite Hc. unfold mbind, State_bind, RunCommand, command_for, timeout_of, work_dir.
  cbn. by destruct (CombinedOutput _ w).
Qed.
End scripts.

(** ** Quoting *)

(** The rule for the arguments of a Windows program, for text without backslashes: spaces
    and tabs separate outside of quotes, quotes are dropped; [cur] is the argument
    begun, backwards, if one is. *)
Fixpoint split_args (inq : bool) (cur : option bytes) (s : bytes) : list bytes :=
  match s with
  | [] => match cur with Some a => [reverse a] | None => [] end
  | c :: s' =>
      if decide (c = quote) then split_args (negb inq) (Some (default [] cur)) s'
      else if decide (inq = false /\ c ∈ blank) then
        match cur with
        | Some a => reverse a :: split_args false None s'
        | None => split_args false None s'
        end
      else split_args inq (Some (c :: default [] cur)) s'
  end.

Lemma split_inside a cur s :
  quote ∉ a -> split_args true (Some cur) (a ++ s) = split_args true (Some (reverse a ++ cur)) s.
Proof.
  revert cur. induction a as [|c a IH]; intros cur; [done|]. intros [Hc Ha]%not_elem_of_cons.
  cbn [app split_args]. rewrite decide_False by congruence. rewrite decide_False by (by intros []).
  cbn [default]. rewrite IH by done. by rewrite reverse_cons, <- app_assoc.
Qed.

Lemma split_outside a cur s :
  quote ∉ a -> (forall c, c ∈ a -> c ∉ blank) -> a <> [] ->
  split_args false cur (a ++ s) = split_args false (Some (reverse a ++ default [] cur)) s.
Proof.
  revert cur. induction a as [|c a IH]; intros cur; [done|]. intros [Hc Ha]%not_elem_of_cons Hb _.
  cbn [app split_args]. rewrite decide_False by congruence.
  rewrite decide_False by (intros [_ H]; by eapply Hb; [left|]).
  destruct (decide (a = [])) as [->|Hne]; [done|].
  rewrite IH by (try done; intros x Hx; apply Hb; by right). cbn [default]. by rewrite reverse_cons, <- app_assoc.
Qed.

Lemma split_quote_arg a s :
  quote ∉ a -> a <> [] -> split_args false None (quote_arg a ++ s) = split_args false (Some (reverse a)) s.
Proof.
  intros Hq Hne. unfold quote_arg. destruct (ContainsAny a blank) eqn:E.
  - cbn [app split_args]. rewrite decide_True by done. cbn [negb default].
    rewrite <- app_assoc, split_inside by done. cbn [app split_args]. rewrite decide_True by done.
    cbn [negb default]. by rewrite app_nil_r.
  - rewrite split_outside; [cbn [default]; by rewrite app_nil_r|done| |done].
    intros c Hc Hb. assert (ContainsAny a blank = true) by (apply ContainsAny_spec; by exists c). congruence.
Qed.

(** Arguments that are not empty and have no quotes are split where they were joined. *)
Lemma quoteArgs_split arg :
  Forall (fun a => (quote ∉ a) /\ a <> []) arg -> split_args false None (quoteArgs arg) = arg.
Proof.
  unfold quoteArgs. induction 1 as [|a arg [Hq Hne] Ha IH]; [done|]. destruct arg as [|b arg].
  - cbn [map Join]. rewrite <- (app_nil_r (quote_arg a)), split_quote_arg by done. cbn. by rewrite reverse_involutive.
  - cbn [map] in *. change (Join (quote_arg a :: quote_arg b :: map quote_arg arg) ?s)
      with (quote_arg a ++ s ++ Join (quote_arg b :: map quote_arg arg) s).
    rewrite split_quote_arg by done. change ($" " ++ ?x) with (" "%char :: x). cbn [split_args].
    rewrite decide_False by done. rewrite decide_True by (split; [done|by left]).
    by rewrite reverse_involutive, IH.
Qed.

(** An empty argument is lost, and a quote in an argument is not escaped. *)
Example quoteArgs_empty : split_args false None (quoteArgs [$"a"; []; $"b"]) = [$"a"; $"b"].
Proof. vm_compute. reflexivity. Qed.

(** ** Concrete runs *)

Module CommandDemo.

Definition mt : meta := Meta 493 0 0 0.
Definition tmp : bytes := $"tmp".
Definition disk : tree := list_to_map [([], NDir mt); ([tmp], NDir mt)].
Definition world (fs : list (option (nat * error))) : os := Os disk (Process [] 18 0 0 0) fs.

Lemma world_tree_ok fs : tree_ok (nodes (world fs)).
Proof. apply tree_okb_ok. vm_compute. reflexivity. Defined.

Definition look (p : bytes) : bool := bool_decide (p = $"bash").
Definition pick (ext : bytes) : bytes := $"/tmp/tmp-7" ++ ext.
Definition echo (c : Cmd) : State os (bytes * option error) := mret (c_Name c, None).

Definition script : ScriptPayload :=
  MkScriptPayload [] ($"SHELL") [] [] ($"#!/bin/sh" ++ crlf ++ $"ls" ++ crlf) 5.

Lemma script_place : has_parent disk [tmp; $"tmp-7"].
Proof.
  exists [tmp], ($"tmp-7"), mt. split; [reflexivity|]. split; [|reflexivity].
  unfold plain. apply (bool_decide_unpack _). vm_compute. exact I.
Defined.

End CommandDemo.
Import CommandDemo.

Lemma fixLineEnding_uniform_witness :
  fixLineEnding linux ($"a" ++ crlf ++ $"b") = $"a" ++ [nl] ++ $"b".
Proof.
  apply (fixLineEnding_uniform linux [$"a"; $"b"] crlf).
  - apply Forall_cons_2; [|apply Forall_singleton]; unfold no_eol; apply (bool_decide_unpack _); vm_compute; exact I.
  - right. left.
Defined.

Lemma RunScript_runs_file_witness :
  fst (RunScript linux look [] echo pick script (world [])) = Ret ($"/tmp/tmp-7", None).
Proof.
  pose proof (RunScript_runs_file linux look [] echo pick script [] (fun p => (p, [])) [tmp; $"tmp-7"] (world [])
    (world_tree_ok []) eq_refl eq_refl eq_refl script_place eq_refl) as H. cbv zeta in H.
  rewrite (H); [reflexivity| |reflexivity|].
  - apply tree_okb_ok. vm_compute. reflexivity.
  - eexists _, _. vm_compute. reflexivity.
Defined.

Lemma RunScript_leaks_file_witness :
  exists w' m, RunScript linux look [] echo pick script (world [None; Some (2%nat, EOther 28)]) =
    (Ret ([], Some (EWrap ($"write temp file") (EOther 28))), w') /\
    nodes w' !! [tmp; $"tmp-7"] = Some (NFile ($"#!") m).
Proof.
  apply (RunScript_leaks_file linux look [] echo pick script [] (fun p => (p, [])) [tmp; $"tmp-7"] 2 (EOther 28)
    (world [None; Some (2%nat, EOther 28)]));
    [apply world_tree_ok|reflexivity|reflexivity|reflexivity|apply script_place|reflexivity].
Defined.

Lemma RunScript_empty_panics_witness :
  RunScript linux look [] echo pick (MkScriptPayload [] ($"EXEC") [] [] ($" ") 0) (world []) = (Panic, world []).
Proof.
  apply (RunScript_empty_panics linux look [] echo pick (MkScriptPayload [] ($"EXEC") [] [] ($" ") 0) (world []));
    [reflexivity|]. apply Forall_singleton. apply (bool_decide_unpack _). vm_compute. exact I.
Defined.
