(* ===== verification/Request.v ===== *)
(** * Package [request]: HTTP requests and downloads

    [client.go], [method.go] and [download.go].  A Go map is shared by those who hold it,
    so headers are references into a store of maps; the order in which a map is iterated
    is an argument.  The server, and whether an address parses, are parameters. *)

From S2P Require Import Prelude GoStr GoText GoPath GoTree GoTreeFacts.

Local Open Scope Z_scope.

(** ** Header keys ([net/textproto]) *)

Definition token_char (c : ascii) : bool :=
  is_upper c || is_lower c || is_digit c || bool_decide (c ∈ $"!#$%&'*+-.^_`|~").

Fixpoint canonical_from (up : bool) (s : bytes) : bytes :=
  match s with
  | [] => []
  | c :: s' => (if up then upper1 c else lower1 c) :: canonical_from (bool_decide (c = "-"%char)) s'
  end.

(** [CanonicalMIMEHeaderKey]: a key with other characters is left as it is. *)
Definition CanonicalHeaderKey (s : bytes) : bytes :=
  if forallb token_char s then canonical_from true s else s.

Example canonical_1 : CanonicalHeaderKey ($"content-TYPE") = $"Content-Type". Proof. vm_compute. reflexivity. Qed.

(** ** Requests ([net/http]) *)

Abbreviation Header := (gmap bytes bytes).

Record http_request := MkRequest {
  r_Method : bytes; r_URL : bytes; r_Header : Header; r_Body : option bytes; r_Timeout : Z
}.

(** The maps, by reference, and the requests sent, the last first. *)
Record net := MkNet { maps : gmap nat Header; sent : list http_request }.

Record Client := MkClient {
  Method : bytes; Url : bytes; Data : bytes; Headers : option nat; Timeout : Z
}.

Section request.
Variable url_Parse : bytes -> result unit.
(** [client.Do] and the reading of the body, after the requests sent before: an error, or
    the body as far as it was read with the error that ended it, if any. *)
Variable Do : list http_request -> http_request -> result (bytes * option error).

(** [http.NewRequest]: no method is [GET], and a method is a token. *)
Definition NewRequest (method url : bytes) (body : option bytes) (timeout : Z) : result http_request :=
  let method := if bool_decide (method = []) then $"GET" else method in
  if negb (forallb token_char method) then Err (ENew ($"net/http: invalid method"))
  else _ ← url_Parse url; mret (MkRequest method url ∅ body timeout).

(** [req.Header.Set] for each entry, in the order of the iteration. *)
Definition set_headers (order : list (bytes * bytes)) (h : Header) : Header :=
  fold_left (fun h kv => <[CanonicalHeaderKey (fst kv) := snd kv]> h) order h.

(** The map behind a reference; [nil] is empty. *)
Definition deref (w : net) (m : option nat) : Header :=
  match m with Some l => default ∅ (maps w !! l) | None => ∅ end.

(** [order] is the order in which the header map is iterated. *)
Definition Request (order : Header -> list (bytes * bytes)) (c : Client) : State net (bytes * option error) := fun w =>
  let body := if bool_decide (Data c = []) then None else Some (Data c) in
  match NewRequest (Method c) (Url c) body (Timeout c) with
  | Err e => (([], Some e), w)
  | Ok req =>
      let req := MkRequest (r_Method req) (r_URL req)
                   (set_headers (order (deref w (Headers c))) (r_Header req)) (r_Body req) (r_Timeout req) in
      (match Do (sent w) req with Ok (data, err) => (data, err) | Err e => ([], Some e) end,
       MkNet (maps w) (req :: sent w))
  end.

Definition isBodyMethod (c : Client) : bool := Contains ($"POST,PUT,PATCH") (Method c).

(** A fresh map. *)
Definition make_map : State net nat := fun w =>
  let l := fresh (dom (maps w)) in (l, MkNet (<[l := ∅]> (maps w)) (sent w)).

(** [c.Headers["Content-Type"] = v]: the map is changed, not copied. *)
Definition map_set (l : nat) (k v : bytes) : State net unit := fun w =>
  (tt, MkNet (<[l := <[k := v]> (default ∅ (maps w !! l))]> (maps w)) (sent w)).

Definition ContentType : bytes := $"Content-Type".

(** The start of [JsonRequest] and of [TextRequest]. *)
Definition with_content_type (v : bytes) (c : Client) : State net Client :=
  l ← match Headers c with Some l => mret l | None => make_map end;
  let c := MkClient (Method c) (Url c) (Data c) (Some l) (Timeout c) in
  cur ← gets (fun w => default [] (deref w (Some l) !! ContentType));
  (if isBodyMethod c && bool_decide (cur = []) then map_set l ContentType v else mret tt);;
  mret c.

Definition json_type : bytes := $"application/json".
Definition form_type : bytes := $"application/x-www-form-urlencoded".

Definition JsonRequest (order : Header -> list (bytes * bytes)) (c : Client) : State net (bytes * option error) :=
  c ← with_content_type json_type c; Request order c.

Definition TextRequest (order : Header -> list (bytes * bytes)) (c : Client) : State net (bytes * option error) :=
  c ← with_content_type form_type c; Request order c.

(** ** [method.go] *)

Section methods.
Variable order : Header -> list (bytes * bytes).
Context {V : Type} (json_Marshal : V -> result bytes).

Definition Get (url : bytes) (headers : option nat) := Request order (MkClient ($"GET") url [] headers 0).
Definition TextGet (url : bytes) (headers : option nat) := TextRequest order (MkClient ($"GET") url [] headers 0).

Definition TimingGet (url : bytes) (headers : option nat) (timeout : Z) : State net bytes :=
  r ← TextRequest order (MkClient ($"GET") url [] headers (i64 (timeout * 1000000000)));
  mret (if bool_decide (snd r = None /\ fst r <> []) then fst r else []).

Definition json_call (method url : bytes) (query : V) (headers : option nat) : State net (bytes * option error) :=
  match json_Marshal query with
  | Err e => mret ([], Some e)
  | Ok data => JsonRequest order (MkClient method url data headers 0)
  end.

Definition Post (url query : bytes) (headers : option nat) := Request order (MkClient ($"POST") url query headers 0).
Definition JsonPost := json_call ($"POST").
Definition TextPost (url query : bytes) (headers : option nat) := TextRequest order (MkClient ($"POST") url query headers 0).
Definition Put (url query : bytes) (headers : option nat) := Request order (MkClient ($"PUT") url query headers 0).
Definition JsonPut := json_call ($"PUT").
Definition Patch (url query : bytes) (headers : option nat) := Request order (MkClient ($"PATCH") url query headers 0).
Definition JsonPatch := json_call ($"PATCH").
Definition Delete (url : bytes) (headers : option nat) := Request order (MkClient ($"DELETE") url [] headers 0).
Definition JsonDelete (url : bytes) (headers : option nat) := JsonRequest order (MkClient ($"DELETE") url [] headers 0).
End methods.
End request.

(** ** [download.go]

    A response is its length, its encoding and its body, which an error may end; the
    progress bar passes it through. *)

Record stream := MkStream { s_data : bytes; s_err : option error }.
Record response := MkResponse { ContentEncoding : bytes; Body : stream }.

Section download.
Variable http_Get : bytes -> result response.
Variable gzip_NewReader : stream -> result stream.
Variable CreateTemp : State os (result (bytes * fpath)).       (* the name picked and the file *)

(** [io.Copy] to a file. *)
Definition io_Copy (h : fpath) (r : stream) : State os (result unit) :=
  _ ←? f_Write h (s_data r);
  mret (match s_err r with Some e => Err e | None => Ok tt end).

Definition SaveStream (reader : stream) (target : bytes) : State os (result bytes) :=
  f ←? (if bool_decide (target = []) then CreateTemp
        else h ←? os_Create target; mret (Ok (target, h)));
  _ ←? io_Copy (snd f) reader;
  mret (Ok (fst f)).

Definition Download (url target : bytes) (isGzip : bool) : State os (result bytes) :=
  resp ←? mret (http_Get url);
  reader ←? mret (if isGzip || bool_decide (ContentEncoding resp = $"gzip")
                  then gzip_NewReader (Body resp) else Ok (Body resp));
  SaveStream reader target.
End download.

(** ** Headers *)

(** No two keys of a map are the same header. *)
Definition distinct_headers (h : Header) : Prop :=
  forall k1 k2, is_Some (h !! k1) -> is_Some (h !! k2) -> CanonicalHeaderKey k1 = CanonicalHeaderKey k2 -> k1 = k2.

(** An iteration of a map visits each of its entries once, in some order. *)
Definition iterates (order : Header -> list (bytes * bytes)) : Prop :=
  forall h, order h ≡ₚ map_to_list h.

Lemma set_headers_other l h K :
  (forall kv, kv ∈ l -> CanonicalHeaderKey (fst kv) <> K) -> set_headers l h !! K = h !! K.
Proof.
  unfold set_headers. revert h. induction l as [|kv l IH]; intros h Hl; [done|]. cbn [fold_left].
  rewrite IH by (intros; apply Hl; set_solver). apply lookup_insert_ne, Hl. set_solver.
Qed.

Lemma set_headers_one l h k v :
  (k, v) ∈ l -> (forall kv, kv ∈ l -> CanonicalHeaderKey (fst kv) = CanonicalHeaderKey k -> kv = (k, v)) ->
  set_headers l h !! CanonicalHeaderKey k = Some v.
Proof.
  unfold set_headers. revert h. induction l as [|kv l IH]; intros h Hin Huniq; [set_solver|]. cbn [fold_left].
  destruct (decide ((k, v) ∈ l)) as [Hl|Hl]; [apply IH; [done|]; intros; apply Huniq; set_solver|].
  apply elem_of_cons in Hin as [<-|?]; [|done]. fold (set_headers l (<[CanonicalHeaderKey (k, v).1:=(k, v).2]> h)).
  rewrite set_headers_other; [apply lookup_insert_eq|].
  intros kv Hkv E. apply Hl. rewrite <- (Huniq kv); [done|set_solver|done].
Qed.

Lemma set_headers_spec order h K v :
  iterates order -> distinct_headers h ->
  set_headers (order h) ∅ !! K = Some v <-> exists k, h !! k = Some v /\ CanonicalHeaderKey k = K.
Proof.
  intros Ho Hd.
  assert (forall kv, kv ∈ order h <-> h !! fst kv = Some (snd kv)) as Hin.
  { intros [k' v']. rewrite (Ho h). apply elem_of_map_to_list. }
  assert (forall k v, h !! k = Some v -> set_headers (order h) ∅ !! CanonicalHeaderKey k = Some v) as Hone.
  { intros k v' Hk. apply set_headers_one; [by apply Hin|]. intros [k2 v2] Hkv E. cbn in E.
    apply Hin in Hkv. cbn in Hkv. assert (k2 = k) as -> by (apply Hd; by eauto). congruence. }
  split; [|intros (k & Hk & <-); by apply Hone].
  intros Hs. destruct (decide (Exists (fun kv => CanonicalHeaderKey (fst kv) = K) (order h))) as [Hex|Hno].
  - apply Exists_exists in Hex as ([k v'] & Hkv & <-). apply Hin in Hkv. cbn in *.
    exists k. rewrite (Hone k v' Hkv) in Hs. split; [congruence|done].
  - rewrite set_headers_other in Hs; [done|]. intros kv Hkv E. apply Hno, Exists_exists. by exists kv.
Qed.

Section sending.
Variable url_Parse : bytes -> result unit.
Variable Do : list http_request -> http_request -> result (bytes * option error).
Variable order : Header -> list (bytes * bytes).
Hypothesis Horder : iterates order.

Local Abbreviation Request := (Request url_Parse Do order).

(** The methods that [note:"请求方法 ..."] of the field lists. *)
Definition methods : list bytes :=
  [$"GET"; $"POST"; $"PUT"; $"DELETE"; $"PATCH"; $"HEAD"; $"OPTIONS"; $"CONNECT"; $"TRACE"].

Lemma method_tokens m : m ∈ methods -> m <> [] /\ forallb token_char m = true.
Proof.
  revert m. apply Forall_forall. apply (bool_decide_unpack _). vm_compute. exact I.
Qed.

(** Of these, the three with a body are recognised. *)
Lemma isBodyMethod_spec c :
  Method c ∈ methods -> isBodyMethod c = bool_decide (Method c ∈ [$"POST"; $"PUT"; $"PATCH"]).
Proof.
  unfold isBodyMethod. generalize (Method c). apply Forall_forall. apply (bool_decide_unpack _). vm_compute. exact I.
Qed.

(** The request of a client, and what [Request] returns for it. *)
Definition request_of (c : Client) (h : Header) : http_request :=
  MkRequest (Method c) (Url c) (set_headers (order h) ∅) (if bool_decide (Data c = []) then None else Some (Data c)) (Timeout c).

Definition answer (w : net) (req : http_request) : bytes * option error :=
  match Do (sent w) req with Ok (data, err) => (data, err) | Err e => ([], Some e) end.

Lemma Request_run c w :
  Method c ∈ methods -> url_Parse (Url c) = Ok tt ->
  Request c w = (answer w (request_of c (deref w (Headers c))), MkNet (maps w) (request_of c (deref w (Headers c)) :: sent w)).
Proof.
  intros [Hne Ht]%method_tokens Hu. unfold Request.Request, NewRequest.
  rewrite bool_decide_eq_false_2 by done. rewrite Ht. cbn [negb]. by rewrite Hu.
Qed.

(** What the map of a client is after its content type has been filled in. *)
Definition typed (v : bytes) (c : Client) (h : Header) : Header :=
  if isBodyMethod c && bool_decide (default [] (h !! ContentType) = []) then <[ContentType := v]> h else h.

Lemma with_content_type_run v c l h w :
  Headers c = Some l -> maps w !! l = Some h ->
  exists w', with_content_type v c w = (c, w') /\ sent w' = sent w /\ maps w' = <[l := typed v c h]> (maps w).
Proof.
  intros Hc Hl. unfold with_content_type, typed. rewrite Hc.
  assert (MkClient (Method c) (Url c) (Data c) (Some l) (Timeout c) = c) as Heq by (destruct c; cbn in *; by subst).
  unfold mbind, State_bind, mret, State_ret, gets. cbn. rewrite Heq, Hl. cbn.
  match goal with |- context [if ?b then map_set _ _ _ else _] => destruct b end.
  - eexists. split; [reflexivity|]. cbn. by rewrite Hl.
  - eexists. split; [reflexivity|]. split; [done|]. by rewrite insert_id.
Qed.

(** The same for any client: without a map one is made. *)
Lemma with_content_type_any v c w :
  (forall l, Headers c = Some l -> is_Some (maps w !! l)) ->
  exists l w', with_content_type v c w = (MkClient (Method c) (Url c) (Data c) (Some l) (Timeout c), w') /\
    sent w' = sent w /\ maps w' = <[l := typed v c (deref w (Headers c))]> (maps w) /\
    (Headers c = Some l \/ Headers c = None /\ maps w !! l = None).
Proof.
  intros Hm. destruct (Headers c) as [l|] eqn:Hc.
  - destruct (Hm l eq_refl) as [h Hl]. exists l.
    destruct (with_content_type_run v c l h w Hc Hl) as (w' & E & Hs & Hmaps). exists w'. rewrite E.
    cbn [deref]. rewrite Hl. cbn [default]. split; [destruct c; cbn in *; by subst|]. auto.
  - exists (fresh (dom (maps w))). set (l := fresh (dom (maps w))).
    set (w1 := MkNet (<[l := ∅]> (maps w)) (sent w)).
    set (c1 := MkClient (Method c) (Url c) (Data c) (Some l) (Timeout c)).
    destruct (with_content_type_run v c1 l ∅ w1 eq_refl ltac:(apply lookup_insert_eq)) as (w' & E & Hs & Hmaps).
    exists w'. split; [|split; [done|]].
    + rewrite <- E. unfold with_content_type. by rewrite Hc.
    + split; [rewrite Hmaps; cbn; by rewrite insert_insert_eq|]. right. split; [done|].
      apply not_elem_of_dom, is_fresh.
Qed.

(** *** What is sent

    The headers of a call whose default type is [type]: those of the caller, and the type
    for the methods with a body, where the caller has none. *)
Definition headers_sent (type : bytes) (c : Client) (h : Header) : Header :=
  if decide (Method c ∈ [$"POST"; $"PUT"; $"PATCH"] /\ (h !! $"Content-Type" = None \/ h !! $"Content-Type" = Some []))
  then <[$"Content-Type" := type]> h else h.

(** [run] sends one request for [c] with these headers and returns what [Do] answers; the
    map of the caller, if there is one, has the type from then on. *)
Definition sends (run : State net (bytes * option error)) (type : bytes) (c : Client) (w : net) : Prop :=
  let h := headers_sent type c (deref w (Headers c)) in
  exists req w', run w = (match Do (sent w) req with Ok (data, err) => (data, err) | Err e => ([], Some e) end, w') /\
    sent w' = req :: sent w /\ (forall l, Headers c = Some l -> maps w' = <[l := h]> (maps w)) /\
    r_Method req = Method c /\ r_URL req = Url c /\ r_Timeout req = Timeout c /\
    r_Body req = (if bool_decide (Data c = []) then None else Some (Data c)) /\
    (forall K x, r_Header req !! K = Some x <-> exists k, h !! k = Some x /\ CanonicalHeaderKey k = K).

Lemma typed_sent v c h : Method c ∈ methods -> typed v c h = headers_sent v c h.
Proof.
  intros Hm. unfold typed, headers_sent. rewrite isBodyMethod_spec by done. fold ContentType.
  destruct (h !! ContentType) as [[|x t]|]; repeat case_bool_decide; try case_decide; naive_solver.
Qed.

Lemma typed_call_sends v c w :
  Method c ∈ methods -> url_Parse (Url c) = Ok tt -> (forall l, Headers c = Some l -> is_Some (maps w !! l)) ->
  distinct_headers (headers_sent v c (deref w (Headers c))) ->
  sends (c' ← with_content_type v c; Request c') v c w.
Proof.
  intros Hm Hu Hl Hd. unfold sends. rewrite <- typed_sent in * by done. set (h := typed v c _) in *.
  destruct (with_content_type_any v c w Hl) as (l & w1 & E1 & Hs & Hmaps & Hor). fold h in Hmaps.
  set (c1 := MkClient _ _ _ _ _) in E1.
  assert (deref w1 (Headers c1) = h) as Hder by (cbn; by rewrite Hmaps, lookup_insert_eq).
  exists (request_of c1 h), (MkNet (maps w1) (request_of c1 h :: sent w1)).
  rewrite (st_bind_run _ _ _ _ _ E1), Request_run, Hder by done.
  split; [unfold answer; by rewrite Hs|]. split; [cbn; by rewrite Hs|].
  split; [intros l' Hl'; cbn [maps]; destruct Hor as [Hor|[Hor _]]; congruence|].
  do 4 (split; [done|]). intros K x. by apply set_headers_spec.
Qed.

(** C26: What [JsonRequest] and [TextRequest] send: one request with the client's method,
    address, data and timeout; its headers are those of the client's map, whatever the
    order of the iteration, and for POST, PUT and PATCH the JSON type of the one, or the
    form type of the other, if the map has no content type.  That default is written into
    the map of the caller.  (The map must not have two spellings of one header: which of
    them is sent depends on the iteration.) *)
Theorem typed_request_sends c w :
  Method c ∈ methods -> url_Parse (Url c) = Ok tt -> (forall l, Headers c = Some l -> is_Some (maps w !! l)) ->
  (distinct_headers (headers_sent ($"application/json") c (deref w (Headers c))) ->
     sends (JsonRequest url_Parse Do order c) ($"application/json") c w) /\
  (distinct_headers (headers_sent ($"application/x-www-form-urlencoded") c (deref w (Headers c))) ->
     sends (TextRequest url_Parse Do order c) ($"application/x-www-form-urlencoded") c w).
Proof. intros Hm Hu Hl. split; intros Hd; by apply typed_call_sends. Qed.

(** Headers given to [JsonPost] keep the content type it has filled in: a [TextPost]
    with the same map afterwards sends its form as JSON. *)
Theorem shared_headers_keep_type {V : Type} (json_Marshal : V -> result bytes) url q data url' form l h w :
  url_Parse url = Ok tt -> url_Parse url' = Ok tt -> json_Marshal q = Ok data ->
  maps w !! l = Some h -> h !! ContentType = None -> distinct_headers (<[ContentType := json_type]> h) ->
  exists req w', snd ((JsonPost url_Parse Do order json_Marshal url q (Some l);;
                       TextPost url_Parse Do order url' form (Some l)) w) = w' /\
    head (sent w') = Some req /\ r_URL req = url' /\
    r_Header req !! CanonicalHeaderKey ContentType = Some json_type.
Proof.
  intros Hu Hu' Hq Hl Hnone Hd.
  assert ($"POST" ∈ methods) as Hm by (apply (bool_decide_unpack _); by vm_compute).
  set (c := MkClient ($"POST") url data (Some l) 0).
  set (c' := MkClient ($"POST") url' form (Some l) 0).
  assert (forall v d u h, h !! ContentType = None ->
    typed v (MkClient ($"POST") u d (Some l) 0) h = <[ContentType := v]> h) as Htyped
    by (intros v d u h' E; unfold typed; by rewrite E).
  destruct (with_content_type_run json_type c l h w eq_refl Hl) as (w1 & E1 & Hs1 & Hm1).
  unfold c in Hm1. rewrite Htyped in Hm1 by done. fold c in Hm1.
  set (req := request_of c (deref w1 (Headers c))).
  set (w2 := MkNet (maps w1) (req :: sent w1)).
  assert (JsonPost url_Parse Do order json_Marshal url q (Some l) w = (answer w1 req, w2)) as E2.
  { unfold JsonPost, json_call, JsonRequest. rewrite Hq. fold c.
    rewrite (st_bind_run _ _ _ _ _ E1). by rewrite Request_run. }
  assert (maps w2 !! l = Some (<[ContentType := json_type]> h)) as Hl2 by (cbn; by rewrite Hm1, lookup_insert_eq).
  destruct (with_content_type_run form_type c' l _ w2 eq_refl Hl2) as (w3 & E3 & Hs3 & Hm3).
  assert (typed form_type c' (<[ContentType := json_type]> h) = <[ContentType := json_type]> h) as Ht'
    by (unfold typed; rewrite lookup_insert_eq; by vm_compute).
  rewrite Ht' in Hm3.
  exists (request_of c' (deref w3 (Headers c'))). eexists. split; [reflexivity|].
  rewrite (st_bind_run _ _ _ _ _ E2). unfold TextPost, TextRequest. fold c'.
  rewrite (st_bind_run _ _ _ _ _ E3), Request_run by done. cbn [snd sent head].
  split; [done|]. split; [done|]. cbn [request_of r_Header].
  assert (deref w3 (Headers c') = <[ContentType := json_type]> h) as -> by (cbn; by rewrite Hm3, lookup_insert_eq).
  apply set_headers_spec; [done|done|]. exists ContentType. split; [apply lookup_insert_eq|done].
Qed.
End sending.

(** A caller's [content-type] is not seen, and the default is added beside it: which of
    the two is sent depends on the order of the iteration. *)
Lemma lower_case_type_is_random :
  exists h1 h2 : Header, let h := <[ContentType := json_type]> (<[$"content-type" := $"text/xml"]> ∅ : Header) in
    exists l1 l2, l1 ≡ₚ map_to_list h /\ l2 ≡ₚ map_to_list h /\
      h1 = set_headers l1 ∅ /\ h2 = set_headers l2 ∅ /\
      h1 !! ContentType = Some json_type /\ h2 !! ContentType = Some ($"text/xml").
Proof.
  set (a := (ContentType, json_type)). set (b := ($"content-type", $"text/xml")).
  exists (set_headers [b; a] ∅), (set_headers [a; b] ∅). cbn zeta. exists [b; a], [a; b].
  assert (map_to_list (<[ContentType := json_type]> (<[$"content-type" := $"text/xml"]> ∅ : Header)) ≡ₚ [a; b]) as E.
  { rewrite map_to_list_insert; [|by rewrite lookup_insert_ne by (by vm_compute)].
    rewrite map_to_list_insert by done. by rewrite map_to_list_empty. }
  rewrite E. split; [apply perm_swap|]. split; [done|]. split; [done|]. split; [done|].
  split; by vm_compute.
Qed.

(** ** Downloads *)

Section saving.
Variable CreateTemp : State os (result (bytes * fpath)).

(** [SaveStream] to a file, when no system call fails: the file has what the stream
    gave, also when an error of the stream ends it, which is then returned, and nothing
    else is changed. *)
Theorem SaveStream_saves r q w :
  tree_ok (nodes w) -> faults w = [] -> has_parent (nodes w) q -> dir_at (nodes w) q = false ->
  exists w' m, SaveStream CreateTemp r (abs q) w =
    (match s_err r with None => Ok (abs q) | Some e => Err e end, w') /\
    nodes w' !! q = Some (NFile (s_data r) m) /\ (forall k, k <> q -> nodes w' !! k = nodes w !! k).
Proof.
  intros Hok Hf Hp Hd.
  assert (Forall plain q) as Hq.
  { destruct Hp as (p & c & m & -> & Hc & Hm). apply Forall_app. split; [by eapply wf_plain; [apply Hok|]|].
    by apply Forall_singleton. }
  destruct (os_OpenFile_run q true 438 w Hok Hf Hp Hd) as [w1 E1].
  pose proof (os_OpenFile_abs q true 438 w Hok Hq) as H1. rewrite E1 in H1. destruct H1 as [H1 Hh].
  destruct (Hh q eq_refl) as (_ & _ & d & m & Hm & ->).
  pose proof (f_Write_change q (s_data r) w1 (fun k => k = q) (ch_ok _ _ _ H1) eq_refl) as H2.
  destruct (f_Write q (s_data r) w1) as [x w2] eqn:E2. destruct H2 as (H2 & Hdata & Hf2).
  rewrite (Hf2 (ch_faults _ _ _ H1 Hf)) in *. destruct (Hdata eq_refl _ _ Hm) as [m' Hm'].
  assert (io_Copy q r w1 = (match s_err r with None => Ok tt | Some e => Err e end, w2)) as Ec.
  { unfold io_Copy. rewrite (try_bind_ok _ _ _ _ _ E2). by destruct (s_err r). }
  exists w2, m'. split; [|split; [done|]].
  - unfold SaveStream. rewrite bool_decide_eq_false_2 by done.
    rewrite (try_bind_ok _ _ _ (abs q, q) w1) by by rewrite (try_bind_ok _ _ _ _ _ E1).
    cbn [snd fst]. destruct (s_err r) as [e|].
    + by rewrite (try_bind_err _ _ _ _ _ Ec).
    + by rewrite (try_bind_ok _ _ _ _ _ Ec).
  - intros k Hk. rewrite (ch_keep _ _ _ H2) by done. apply (ch_keep _ _ _ H1). by intros [? _].
Qed.
End saving.

(** ** Concrete runs *)

Module RequestDemo.

Definition parse (u : bytes) : result unit := Ok tt.
Definition serve (before : list http_request) (r : http_request) : result (bytes * option error) := Ok (r_Method r, None).
Definition order (h : Header) : list (bytes * bytes) := map_to_list h.
Definition agent : Header := {[ $"user-agent" := $"x" ]}.
Definition start : net := MkNet {[ 7%nat := agent ]} [].
Definition marshal (v : bool) : result bytes := Ok (if v then $"true" else $"false").

Lemma order_iterates : iterates order.
Proof. intros h. reflexivity. Defined.

Lemma distinct_pair (h : Header) : (forall k, k ∈ dom h -> k = ContentType \/ k = $"user-agent") -> distinct_headers h.
Proof.
  intros Hk k1 k2 H1 H2 E. apply elem_of_dom in H1, H2.
  destruct (Hk _ H1) as [->| ->], (Hk _ H2) as [->| ->]; try reflexivity; by vm_compute in E.
Defined.

Lemma agent_typed v : distinct_headers (<[ContentType := v]> agent).
Proof.
  apply distinct_pair. intros k. unfold agent. rewrite dom_insert, dom_singleton. set_solver.
Defined.

End RequestDemo.

Lemma typed_request_sends_witness :
  let c := MkClient ($"PUT") ($"u") ($"{}") (Some 7%nat) 0 in
  sends RequestDemo.serve (JsonRequest RequestDemo.parse RequestDemo.serve RequestDemo.order c) ($"application/json") c RequestDemo.start /\
  sends RequestDemo.serve (TextRequest RequestDemo.parse RequestDemo.serve RequestDemo.order c) ($"application/x-www-form-urlencoded") c
    RequestDemo.start.
Proof.
  intros c.
  destruct (typed_request_sends RequestDemo.parse RequestDemo.serve RequestDemo.order RequestDemo.order_iterates c RequestDemo.start)
    as [H1 H2]; [apply (bool_decide_unpack _); vm_compute; exact I|reflexivity|intros l [= <-]; exists RequestDemo.agent; reflexivity|].
  split; [apply H1; apply RequestDemo.agent_typed|apply H2; apply RequestDemo.agent_typed].
Defined.

Lemma shared_headers_keep_type_witness :
  exists req w', snd ((JsonPost RequestDemo.parse RequestDemo.serve RequestDemo.order RequestDemo.marshal ($"a") true (Some 7%nat);;
    TextPost RequestDemo.parse RequestDemo.serve RequestDemo.order ($"b") ($"x=1") (Some 7%nat)) RequestDemo.start) = w' /\
    head (sent w') = Some req /\ r_URL req = $"b" /\ r_Header req !! CanonicalHeaderKey ContentType = Some json_type.
Proof.
  apply (shared_headers_keep_type RequestDemo.parse RequestDemo.serve RequestDemo.order RequestDemo.order_iterates
    RequestDemo.marshal ($"a") true ($"true") ($"b") ($"x=1") 7 RequestDemo.agent RequestDemo.start);
    [reflexivity..|apply RequestDemo.agent_typed].
Defined.

Lemma SaveStream_saves_witness :
  exists w' m, SaveStream (mret (Err (EOther 0))) (MkStream ($"dat") (Some (EOther 104))) ($"/f")
    (Os (list_to_map [([], NDir (Meta 493 0 0 0))]) (Process [] 18 0 0 0) []) = (Err (EOther 104), w') /\
    nodes w' !! [$"f"] = Some (NFile ($"dat") m).
Proof.
  destruct (SaveStream_saves (mret (Err (EOther 0))) (MkStream ($"dat") (Some (EOther 104))) [$"f"]
    (Os (list_to_map [([], NDir (Meta 493 0 0 0))]) (Process [] 18 0 0 0) [])) as (w' & m & E & Hn & _);
    [apply tree_okb_ok; vm_compute; reflexivity|reflexivity| |reflexivity|].
  - exists [], ($"f"), (Meta 493 0 0 0). split; [reflexivity|]. split; [|reflexivity].
    unfold plain. apply (bool_decide_unpack _). vm_compute. exact I.
  - exists w', m. split; [exact E|exact Hn].
Defined.
