(* ===== verification/Certify.v ===== *)
(** * Package [certify]: certificates from an ACME server

    [manager.go], [cert.go], [challenge.go] and [pem.go].  The ACME client, the DNS
    provider, the cache, the clock and the cryptographic libraries are parameters; what
    the code asks of the first four is recorded as a trace of calls, and their answers
    may depend on the whole trace before.  A call in a goroutine of its own is recorded
    where it is started.  Log messages are left out. *)

From S2P Require Import Prelude GoStr GoText.

Local Open Scope Z_scope.

(** ** Names ([challenge.go], [manager.go]) *)

Definition isWildcard (domain : bytes) : bool :=
  match domain with
  | a :: b :: _ :: _ => bool_decide (a = "*"%char) && bool_decide (b = "."%char)
  | _ => false
  end.

Definition dotc : ascii := "."%char.
Definition acme_label : bytes := $"_acme-challenge".

Definition extractZoneAndRecordName (domain : bytes) : bytes * bytes :=
  let parts := Split domain dotc in
  if (length parts <=? 2)%nat then (domain, acme_label)
  else
    (Join (drop (length parts - 2) parts) [dotc],
     acme_label ++ [dotc] ++ Join (take (length parts - 2) parts) [dotc]).

(** ** Errors *)

Definition ErrNoDomains : error := ESentinel ($"no domains specified").
Definition ErrNoDNSProvider : error := ESentinel ($"DNS provider required for DNS-01 challenge").
Definition ErrNoDNSChallenge : error := ESentinel ($"no dns-01 challenge").
Definition ErrNoChallenge : error := ESentinel ($"no supported challenge").
Definition ErrCacheMiss : error := ESentinel ($"acme/autocert: certificate cache miss").

(** What the registration of an account may answer. *)
Inductive acme_error :=
  | AccountAlreadyExists
  | AcmeError (StatusCode : Z)
  | AcmeOther (e : error).

Definition isAccountExists (err : acme_error) : bool :=
  match err with
  | AccountAlreadyExists => true
  | AcmeError code => code =? 409
  | AcmeOther _ => false
  end.

Definition acme_err (err : acme_error) : error :=
  match err with
  | AccountAlreadyExists => ESentinel ($"acme: account already exists")
  | AcmeError code => EOther (Z.to_nat code)
  | AcmeOther e => e
  end.

(** ** Data *)

Record challenge := MkChallenge { ch_Type : bytes; ch_Token : bytes }.
Record authorization := MkAuthorization {
  a_URI : bytes; a_Pending : bool; a_Identifier : bytes; a_Challenges : list challenge
}.
Record order := MkOrder { o_URI : bytes; o_AuthzURLs : list bytes; o_FinalizeURL : bytes }.
Record dns_record := MkTXT { t_Name : bytes; t_Text : bytes }.

#[export] Instance dns_record_eq_dec : EqDecision dns_record.
Proof. solve_decision. Defined.

(** The records to publish, by zone. *)
Abbreviation zone_records := (gmap bytes (list dns_record)).

Definition findChallenge (authz : authorization) (challengeType : bytes) : option challenge :=
  List.find (fun c => bool_decide (ch_Type c = challengeType)) (a_Challenges authz).

Section certify.
Context {K L : Type}.                                 (* private keys and parsed certificates *)

Record tls_cert := MkCert { PrivateKey : K; Certificate : list bytes; Leaf : option L }.

(** ** PEM ([pem.go]) *)

Record pem_block := MkBlock { b_Type : bytes; b_Bytes : bytes }.

(** The cryptographic libraries. *)
Class Crypto := {
  pem_Encode : pem_block -> bytes;
  pem_Decode : bytes -> option (pem_block * bytes);
  MarshalECPrivateKey : K -> result bytes;
  is_ecdsa : K -> bool;
  ParseECPrivateKey : bytes -> result K;
  ParsePKCS8PrivateKey : bytes -> result K;
  X509KeyPair : bytes -> bytes -> result tls_cert;
  ParseCertificate : bytes -> result L;
  CreateCertificateRequest : list bytes -> K -> result bytes;
  NotAfter : L -> Z;
  VerifyHostname : L -> bytes -> bool;
  DNS01ChallengeRecord : K -> bytes -> result bytes
}.

Section pem.
Context `{Crypto}.

Definition ec_type : bytes := $"EC PRIVATE KEY".
Definition cert_type : bytes := $"CERTIFICATE".
Definition key_types : list bytes := [ec_type; $"RSA PRIVATE KEY"; $"PRIVATE KEY"].

Definition keyToPEM (key : K) : result bytes :=
  b ← MarshalECPrivateKey key; mret (pem_Encode (MkBlock ec_type b)).

Definition keyFromPEM (data : bytes) : result K :=
  match pem_Decode data with
  | None => Err (ENew ($"invalid PEM"))
  | Some (block, _) =>
      match ParseECPrivateKey (b_Bytes block) with
      | Ok key => Ok key
      | Err _ =>
          match ParsePKCS8PrivateKey (b_Bytes block) with
          | Ok key => Ok key
          | Err _ => Err (ENew ($"invalid private key"))
          end
      end
  end.

(** An error of [MarshalECPrivateKey] is ignored: the block is empty. *)
Definition certToPEM (cert : tls_cert) : bytes :=
  (if is_ecdsa (PrivateKey cert)
   then pem_Encode (MkBlock ec_type (match MarshalECPrivateKey (PrivateKey cert) with Ok b => b | Err _ => [] end))
   else []) ++
  flat_map (fun b => pem_Encode (MkBlock cert_type b)) (Certificate cert).

(** The loop over the blocks: the last key and all certificates. *)
Fixpoint pem_loop (fuel : nat) (data keyPEM certPEM : bytes) : bytes * bytes :=
  match fuel with
  | O => (keyPEM, certPEM)
  | S fuel' =>
      match pem_Decode data with
      | None => (keyPEM, certPEM)
      | Some (block, rest) =>
          if decide (b_Type block ∈ key_types) then pem_loop fuel' rest (pem_Encode block) certPEM
          else if decide (b_Type block = cert_type) then pem_loop fuel' rest keyPEM (certPEM ++ pem_Encode block)
          else pem_loop fuel' rest keyPEM certPEM
      end
  end.

Definition tlsCertFromPEM (data : bytes) : result tls_cert :=
  let '(keyPEM, certPEM) := pem_loop (S (length data)) data [] [] in
  if bool_decide (keyPEM = []) || bool_decide (certPEM = []) then
    Err (ENew ($"missing key or certificate"))
  else
    cert ← X509KeyPair certPEM keyPEM;
    match Leaf cert with
    | Some _ => mret cert
    | None =>
        leaf ← ParseCertificate (default [] (head (Certificate cert)));
        mret (MkCert (PrivateKey cert) (Certificate cert) (Some leaf))
    end.
End pem.

(** ** What is asked of the world *)

Inductive call :=
  | Emit (event : bytes) (domains : list bytes)
  | CacheGet (key : bytes)
  | CachePut (key data : bytes)
  | GenerateKey
  | Register (url : bytes)
  | Authorize (domain : bytes)
  | AuthorizeOrder (domains : list bytes)
  | GetAuthorization (url : bytes)
  | Accept (chal : challenge)
  | WaitAuthorization (uri : bytes)
  | WaitOrder (uri : bytes)
  | CreateOrderCert (url csr : bytes)
  | AppendRecords (zone : bytes) (records : list dns_record)
  | DeleteRecords (zone : bytes) (records : list dns_record)
  | Sleep (ns : Z)
  | RevokeCert (der : bytes)
  | GoDeleteRecords (zone : bytes) (records : list dns_record)
  | GoSaveCert (domains : list bytes) (cert : tls_cert).

(** The answers, after the calls made so far. *)
Class World := {
  w_Now : list call -> Z;
  w_CacheGet : list call -> bytes -> result bytes;
  w_GenerateKey : list call -> result K;
  w_Register : list call -> bytes -> option acme_error;
  w_Authorize : list call -> bytes -> result authorization;
  w_AuthorizeOrder : list call -> list bytes -> result order;
  w_GetAuthorization : list call -> bytes -> result authorization;
  w_Accept : list call -> challenge -> option error;
  w_WaitAuthorization : list call -> bytes -> option error;
  w_WaitOrder : list call -> bytes -> result order;
  w_CreateOrderCert : list call -> bytes -> bytes -> result (list bytes);
  w_AppendRecords : list call -> bytes -> list dns_record -> option error;
  w_RevokeCert : list call -> bytes -> option error
}.
End certify.
Arguments tls_cert K L : clear implicits.
Arguments call K L : clear implicits.
Arguments World K L : clear implicits.
Arguments Crypto K L : clear implicits.

(** ** The manager ([manager.go], [cert.go], [challenge.go]) *)

Section manager.
Context {K L : Type} `{!Crypto K L} `{!World K L}.
Local Abbreviation tls_cert := (tls_cert K L).
Local Abbreviation call := (call K L).

Definition LetsEncryptStaging : bytes := $"https://acme-staging-v02.api.letsencrypt.org/directory".
Definition LetsEncryptProduction : bytes := $"https://acme-v02.api.letsencrypt.org/directory".
Definition Buypass : bytes := $"https://api.buypass.com/acme/directory".
Definition ZeroSSL : bytes := $"https://acme.zerossl.com/v2/DV90".
Definition Google : bytes := $"https://dv.acme-v02.api.pki.goog/directory".

(** What a caller has configured, and the client once it is made, with the trace. *)
Record Manager := MkManager {
  Email : bytes; Cache : bool; ManagerURL : option bytes; DNSProvider : bool; OnEvent : bool
}.

Definition New (email : bytes) (cache : bool) : Manager := MkManager email cache None false false.
Definition NewWithDirectory (email : bytes) (cache : bool) (directoryURL : bytes) : Manager :=
  MkManager email cache (Some directoryURL) false false.

Record client := MkClient { Key : K; DirectoryURL : bytes }.
Record mstate := MkState { m_client : option client; trace : list call }.

(** A call, and its answer. *)
Definition ask {A : Type} (c : call) (reply : list call -> A) : State mstate A := fun s =>
  (reply (trace s), MkState (m_client s) (trace s ++ [c])).

Definition tell (c : call) : State mstate unit := ask c (fun _ => tt).

(** An error, if any, as the result of a call. *)
Definition ask_err (c : call) (reply : list call -> option error) : State mstate (result unit) :=
  ask c (fun t => match reply t with Some e => Err e | None => Ok tt end).

Definition now : State mstate Z := fun s => (w_Now (trace s), s).

Section methods.
Variable m : Manager.

Definition emitEvent (event : bytes) (domains : list bytes) : State mstate unit :=
  if OnEvent m then tell (Emit event domains) else mret tt.

(** *** [cert.go] *)

Definition account_key_name : bytes := $"account.key".

Definition accountKey : State mstate (result K) :=
  if negb (Cache m) then ask GenerateKey w_GenerateKey
  else
    data ← ask (CacheGet account_key_name) (fun t => w_CacheGet t account_key_name);
    match data with
    | Ok data => mret (keyFromPEM data)
    | Err e =>
        if decide (e = ErrCacheMiss) then
          key ←? ask GenerateKey w_GenerateKey;
          buf ←? mret (keyToPEM key);
          tell (CachePut account_key_name buf);;
          mret (Ok key)
        else mret (Err e)
    end.

(** Under the mutex. *)
Definition getClient : State mstate (result client) :=
  c ← gets m_client;
  match c with
  | Some c => mret (Ok c)
  | None =>
      key ←? accountKey;
      let url := match ManagerURL m with
                 | Some u => if bool_decide (u = []) then LetsEncryptProduction else u
                 | None => LetsEncryptProduction
                 end in
      let c := MkClient key url in
      err ← ask (Register url) (fun t => w_Register t url);
      match err with
      | Some e =>
          if isAccountExists e then modify (fun s => MkState (Some c) (trace s));; mret (Ok c)
          else mret (Err (acme_err e))
      | None => modify (fun s => MkState (Some c) (trace s));; mret (Ok c)
      end
  end.

(** An order that is issued has at least one certificate ([acme] fails on an empty chain);
    of an empty one, which panics in the code, [ParseCertificate] is given nothing. *)
Definition createCert (finalizeURL : bytes) (domains : list bytes) : State mstate (result tls_cert) :=
  key ←? ask GenerateKey w_GenerateKey;
  csr ←? mret (CreateCertificateRequest domains key);
  der ←? ask (CreateOrderCert finalizeURL csr) (fun t => w_CreateOrderCert t finalizeURL csr);
  leaf ←? mret (ParseCertificate (default [] (head der)));
  let cert := MkCert key der (Some leaf) in
  (if Cache m then tell (GoSaveCert domains cert) else mret tt);;
  mret (Ok cert).

Definition createCertFromAuthz (domain : bytes) : State mstate (result tls_cert) :=
  o ←? ask (AuthorizeOrder [domain]) (fun t => w_AuthorizeOrder t [domain]);
  o ←? ask (WaitOrder (o_URI o)) (fun t => w_WaitOrder t (o_URI o));
  createCert (o_FinalizeURL o) [domain].

Definition crt_key (domain : bytes) : bytes := domain ++ $".crt".

Definition loadCert (domain : bytes) : State mstate (result tls_cert) :=
  data ←? ask (CacheGet (crt_key domain)) (fun t => w_CacheGet t (crt_key domain));
  mret (tlsCertFromPEM data).

(** What runs in the goroutine; errors of [Put] are not looked at. *)
Fixpoint saveCert (domains : list bytes) (data : bytes) : State mstate unit :=
  match domains with
  | [] => mret tt
  | domain :: rest => tell (CachePut (crt_key domain) data);; saveCert rest data
  end.

(** *** [challenge.go] *)

(** 30 days before the end. *)
Definition expiry_margin : Z := 30 * 24 * 3600 * 1000000000.

Definition isCertExpired (cert : tls_cert) : State mstate bool :=
  t ← now;
  mret (match Leaf cert with None => true | Some leaf => NotAfter leaf <? t + expiry_margin end).

Definition certContainsAll (cert : tls_cert) (domains : list bytes) : bool :=
  match Leaf cert with None => false | Some leaf => forallb (VerifyHostname leaf) domains end.

Definition solveChallenge (authz : authorization) : State mstate (result unit) :=
  let chal := match findChallenge authz ($"http-01") with
              | Some c => Some c
              | None => findChallenge authz ($"tls-alpn-01")
              end in
  match chal with
  | None => mret (Err ErrNoChallenge)
  | Some chal =>
      _ ←? ask_err (Accept chal) (fun t => w_Accept t chal);
      ask_err (WaitAuthorization (a_URI authz)) (fun t => w_WaitAuthorization t (a_URI authz))
  end.

(** A failure is reported as an event before it is returned. *)
Definition or_failed {A : Type} (domains : list bytes) (p : State mstate (result A)) : State mstate (result A) :=
  r ← p;
  match r with
  | Ok a => mret (Ok a)
  | Err e => emitEvent ($"failed") domains;; mret (Err e)
  end.

(** A certificate of the cache, if it is good. *)
Definition cached_single (domain : bytes) : State mstate (option tls_cert) :=
  r ← loadCert domain;
  match r with
  | Err _ => mret None
  | Ok cert => expired ← isCertExpired cert; mret (if expired : bool then None else Some cert)
  end.

Definition getSingleCert (domain : bytes) : State mstate (result tls_cert) :=
  cached ← (if Cache m then cached_single domain else mret None);
  match cached with
  | Some cert => emitEvent ($"cached") [domain];; mret (Ok cert)
  | None =>
      emitEvent ($"obtaining") [domain];;
      _ ←? or_failed [domain] getClient;
      authz ←? or_failed [domain] (ask (Authorize domain) (fun t => w_Authorize t domain));
      _ ←? (if a_Pending authz then or_failed [domain] (solveChallenge authz) else mret (Ok tt));
      cert ←? or_failed [domain] (createCertFromAuthz domain);
      emitEvent ($"obtained") [domain];;
      mret (Ok cert)
  end.

(** The challenge record of a domain, which may be a wildcard. *)
Definition challenge_record (domain value : bytes) : bytes * dns_record :=
  let challengeDomain := if isWildcard domain then drop 2 domain else domain in
  let '(zone, recordName) := extractZoneAndRecordName challengeDomain in
  (zone, MkTXT recordName value).

Definition add_record (zones : zone_records) (zr : bytes * dns_record) : zone_records :=
  <[fst zr := default [] (zones !! fst zr) ++ [snd zr]]> zones.

Fixpoint collect (key : K) (urls : list bytes) (challenges : list challenge) (zones : zone_records)
    : State mstate (result (list challenge * zone_records)) :=
  match urls with
  | [] => mret (Ok (challenges, zones))
  | authzURL :: rest =>
      authz ←? ask (GetAuthorization authzURL) (fun t => w_GetAuthorization t authzURL);
      if negb (a_Pending authz) then collect key rest challenges zones
      else
        match findChallenge authz ($"dns-01") with
        | None => mret (Err ErrNoDNSChallenge)
        | Some chal =>
            value ←? mret (DNS01ChallengeRecord key (ch_Token chal));
            collect key rest (challenges ++ [chal])
              (add_record zones (challenge_record (a_Identifier authz) value))
        end
  end.

(** What is left of earlier attempts is deleted first; errors of that are not looked at. *)
Fixpoint publish (zones : list (bytes * list dns_record)) : State mstate (result unit) :=
  match zones with
  | [] => mret (Ok tt)
  | (zone, records) :: rest =>
      tell (DeleteRecords zone records);;
      _ ←? ask_err (AppendRecords zone records) (fun t => w_AppendRecords t zone records);
      publish rest
  end.

Fixpoint accept_all (challenges : list challenge) : State mstate (result unit) :=
  match challenges with
  | [] => mret (Ok tt)
  | chal :: rest => _ ←? ask_err (Accept chal) (fun t => w_Accept t chal); accept_all rest
  end.

Fixpoint cleanup (zones : list (bytes * list dns_record)) : State mstate unit :=
  match zones with
  | [] => mret tt
  | (zone, records) :: rest => tell (GoDeleteRecords zone records);; cleanup rest
  end.

(** A certificate of the cache that has all the domains. *)
Fixpoint cached_all (candidates domains : list bytes) : State mstate (option tls_cert) :=
  match candidates with
  | [] => mret None
  | domain :: rest =>
      r ← loadCert domain;
      match r with
      | Err _ => cached_all rest domains
      | Ok cert =>
          expired ← isCertExpired cert;
          if negb expired && certContainsAll cert domains then mret (Some cert) else cached_all rest domains
      end
  end.

Definition propagation : Z := 30 * 1000000000.

(** The orders in which the two loops iterate the map. *)
Variables range1 range2 : zone_records -> list (bytes * list dns_record).

(** From the records on; the deletion is deferred around it. *)
Definition dns_issue (o : order) (domains : list bytes) (challenges : list challenge) (zones : zone_records)
    : State mstate (result tls_cert) :=
  _ ←? publish (range1 zones);
  tell (Sleep propagation);;
  _ ←? accept_all challenges;
  o ←? ask (WaitOrder (o_URI o)) (fun t => w_WaitOrder t (o_URI o));
  cert ←? or_failed domains (createCert (o_FinalizeURL o) domains);
  emitEvent ($"obtained") domains;;
  mret (Ok cert).

Definition getCertDNS01 (domains : list bytes) : State mstate (result tls_cert) :=
  if negb (DNSProvider m) then mret (Err ErrNoDNSProvider)
  else
    cached ← (if Cache m then cached_all domains domains else mret None);
    match cached with
    | Some cert => emitEvent ($"cached") domains;; mret (Ok cert)
    | None =>
        emitEvent ($"obtaining") domains;;
        c ←? or_failed domains getClient;
        o ←? ask (AuthorizeOrder domains) (fun t => w_AuthorizeOrder t domains);
        cz ←? collect (Key c) (o_AuthzURLs o) [] ∅;
        r ← dns_issue o domains (fst cz) (snd cz);
        cleanup (range2 (snd cz));;
        mret r
    end.

(** *** [manager.go] *)

Definition GetCertificateForDomains (domains : list bytes) : State mstate (result tls_cert) :=
  match domains with
  | [] => mret (Err ErrNoDomains)
  | d :: rest =>
      if existsb isWildcard domains then getCertDNS01 domains
      else if bool_decide (rest = []) then getSingleCert d
      else getCertDNS01 domains
  end.

(** [autocert] answers for other names. *)
Variable autocert_GetCertificate : bytes -> State mstate (result tls_cert).

Definition GetCertificate (ServerName : bytes) : State mstate (result tls_cert) :=
  if isWildcard ServerName then getCertDNS01 [ServerName] else autocert_GetCertificate ServerName.

(** What a TLS server and an HTTP server are given. *)
Record tls_config := MkTLSConfig {
  tc_GetCertificate : bytes -> State mstate (result tls_cert); NextProtos : list bytes
}.

Definition TLSConfig : tls_config := MkTLSConfig GetCertificate [$"h2"; $"http/1.1"].

Definition HTTPHandler {handler : Type} (autocert_HTTPHandler : handler -> handler) (fallback : handler) : handler :=
  autocert_HTTPHandler fallback.

(** Without a cache the method of a nil interface is called. *)
Definition Revoke (domain : bytes) : State mstate (outcome (result unit)) :=
  c ← getClient;
  match c with
  | Err e => mret (Ret (Err e))
  | Ok _ =>
      if negb (Cache m) then mret Panic
      else
        r ← (cert ←? loadCert domain;
             let der := default [] (head (Certificate cert)) in
             ask_err (RevokeCert der) (fun t => w_RevokeCert t der));
        mret (Ret r)
  end.
End methods.
End manager.

(** ** Names of challenge records *)

Lemma Join_app ws vs sep : ws <> [] -> vs <> [] -> Join (ws ++ vs) sep = Join ws sep ++ sep ++ Join vs sep.
Proof.
  intros Hw Hv. induction ws as [|w ws IH]; [done|]. destruct ws as [|w' ws].
  - destruct vs; [done|]. reflexivity.
  - change (Join ((w :: w' :: ws) ++ vs) sep) with (w ++ sep ++ Join ((w' :: ws) ++ vs) sep).
    rewrite IH by done. change (Join (w :: w' :: ws) sep) with (w ++ sep ++ Join (w' :: ws) sep).
    by rewrite <- !app_assoc.
Qed.

Lemma challenge_parts domain :
  let '(zone, name) := extractZoneAndRecordName domain in
  name ++ [dotc] ++ zone = acme_label ++ [dotc] ++ domain.
Proof.
  unfold extractZoneAndRecordName. destruct (Nat.leb_spec (length (Split domain dotc)) 2) as [H|H]; [done|].
  set (parts := Split domain dotc) in *.
  assert (domain = Join parts [dotc]) as Hd by (symmetry; apply Join_Split).
  rewrite <- (take_drop (length parts - 2) parts) in Hd.
  rewrite Join_app in Hd.
  - by rewrite Hd, <- !app_assoc.
  - intros E. apply (f_equal length) in E. rewrite length_take in E. simpl in E. lia.
  - intros E. apply (f_equal length) in E. rewrite length_drop in E. simpl in E. lia.
Qed.

(** Zone and record name together are the name that the ACME server looks up for the
    domain, however many labels it has. *)
Theorem challenge_name domain :
  let '(zone, name) := extractZoneAndRecordName domain in
  name ++ [dotc] ++ zone = acme_label ++ [dotc] ++ domain.
Proof. apply challenge_parts. Qed.

(** A suffix of two labels under which names are registered is taken for the zone. *)
Example zone_of_public_suffix :
  extractZoneAndRecordName ($"www.example.co.uk") = ($"co.uk", $"_acme-challenge.www.example").
Proof. vm_compute. reflexivity. Qed.

(** ** Reasoning on traces *)

Section traces.
Context {K L : Type} `{!Crypto K L} `{!World K L}.
Local Abbreviation call := (call K L).

(** Whatever the world answers, the calls made and the result are as [Q] says. *)
Definition emits {A : Type} (p : State (mstate (K := K) (L := L)) A) (Q : A -> list call -> Prop) : Prop :=
  forall s, let '(a, s') := p s in exists new, trace s' = trace s ++ new /\ Q a new.

Lemma emits_ret {A} (a : A) (Q : A -> list call -> Prop) : Q a [] -> emits (mret a) Q.
Proof. intros H s. exists []. split; [cbn; by rewrite app_nil_r|done]. Qed.

Lemma emits_bind {A B} (p : State mstate A) (f : A -> State mstate B) Q1 (Q2 : A -> B -> list call -> Prop) :
  emits p Q1 -> (forall a, emits (f a) (Q2 a)) ->
  emits (p ≫= f) (fun b new => exists a n1 n2, new = n1 ++ n2 /\ Q1 a n1 /\ Q2 a b n2).
Proof.
  intros Hp Hf s. unfold mbind, State_bind. specialize (Hp s). destruct (p s) as [a s1].
  destruct Hp as (n1 & E1 & H1). specialize (Hf a s1). destruct (f a s1) as [b s2].
  destruct Hf as (n2 & E2 & H2). exists (n1 ++ n2). split; [by rewrite E2, E1, <- app_assoc|].
  by exists a, n1, n2.
Qed.

Lemma emits_mono {A} (p : State mstate A) (Q1 Q2 : A -> list call -> Prop) :
  emits p Q1 -> (forall a new, Q1 a new -> Q2 a new) -> emits p Q2.
Proof.
  intros Hp H s. specialize (Hp s). destruct (p s) as [a s1]. destruct Hp as (n & E & H1). eauto.
Qed.

Lemma emits_ask {A} c (reply : list call -> A) : emits (ask c reply) (fun _ new => new = [c]).
Proof. intros s. by exists [c]. Qed.

(** Calls that all satisfy [P]. *)
Definition only {A : Type} (P : call -> Prop) (p : State (mstate (K := K) (L := L)) A) : Prop :=
  emits p (fun _ new => Forall P new).

Lemma only_ret {A} P (a : A) : only P (mret a).
Proof. apply emits_ret. constructor. Qed.

Lemma only_bind {A B} P (p : State mstate A) (f : A -> State mstate B) :
  only P p -> (forall a, only P (f a)) -> only P (p ≫= f).
Proof.
  intros Hp Hf. eapply emits_mono; [exact (emits_bind p f _ (fun _ _ new => Forall P new) Hp Hf)|].
  intros b new (a & n1 & n2 & -> & H1 & H2).
  by apply Forall_app.
Qed.

Lemma only_try {A B} P (p : State mstate (result A)) (f : A -> State mstate (result B)) :
  only P p -> (forall a, only P (f a)) -> only P (try_bind p f).
Proof. intros Hp Hf. apply only_bind; [done|]. intros [a|e]; [apply Hf|apply only_ret]. Qed.

Lemma only_ask {A} (P : call -> Prop) c (reply : list call -> A) : P c -> only P (ask c reply).
Proof. intros H s. exists [c]. split; [done|]. by apply Forall_singleton. Qed.

Lemma only_modify P (f : mstate -> mstate) : (forall s, trace (f s) = trace s) -> only P (modify f).
Proof. intros H s. exists []. split; [cbn; by rewrite H, app_nil_r|constructor]. Qed.

Lemma only_gets {A} P (f : mstate -> A) : only P (gets f).
Proof. intros s. exists []. split; [cbn; by rewrite app_nil_r|constructor]. Qed.
End traces.

Create HintDb acme.
#[export] Hint Resolve only_ret only_gets : acme.
#[export] Hint Extern 2 (only _ (_ ≫= _)) => apply only_bind; intros : acme.
#[export] Hint Extern 2 (only _ (try_bind _ _)) => apply only_try; intros : acme.
#[export] Hint Extern 2 (only _ (ask _ _)) => apply only_ask; simpl : acme.
#[export] Hint Extern 2 (only _ (ask_err _ _)) => apply only_ask; simpl : acme.
#[export] Hint Extern 2 (only _ (tell _)) => apply only_ask; simpl : acme.
#[export] Hint Extern 2 (only _ (modify _)) => apply only_modify; intros : acme.
#[export] Hint Extern 3 (only _ (match ?x with _ => _ end)) => destruct x : acme.

(** Operations that leave the client alone. *)
Section keeps.
Context {K L : Type} `{!Crypto K L} `{!World K L}.

Definition keeps {A : Type} (p : State (mstate (K := K) (L := L)) A) : Prop :=
  forall s, m_client (snd (p s)) = m_client s.

Lemma keeps_ret {A} (a : A) : keeps (mret a).
Proof. by intros s. Qed.

Lemma keeps_bind {A B} (p : State mstate A) (f : A -> State mstate B) :
  keeps p -> (forall a, keeps (f a)) -> keeps (p ≫= f).
Proof.
  intros Hp Hf s. unfold mbind, State_bind. specialize (Hp s). destruct (p s) as [a s1]. cbn [snd] in Hp.
  by rewrite Hf.
Qed.

Lemma keeps_try {A B} (p : State mstate (result A)) (f : A -> State mstate (result B)) :
  keeps p -> (forall a, keeps (f a)) -> keeps (try_bind p f).
Proof. intros Hp Hf. apply keeps_bind; [done|]. intros [a|e]; [apply Hf|apply keeps_ret]. Qed.

Lemma keeps_ask {A} c (reply : list (call K L) -> A) : keeps (ask c reply).
Proof. by intros s. Qed.
End keeps.

#[export] Hint Resolve keeps_ret keeps_ask : acme.
#[export] Hint Extern 2 (keeps (_ ≫= _)) => apply keeps_bind; intros : acme.
#[export] Hint Extern 2 (keeps (try_bind _ _)) => apply keeps_try; intros : acme.
#[export] Hint Extern 2 (keeps (ask_err _ _)) => apply keeps_ask : acme.
#[export] Hint Extern 2 (keeps (tell _)) => apply keeps_ask : acme.
#[export] Hint Extern 3 (keeps (match ?x with _ => _ end)) => destruct x : acme.

Section flows.
Context {K L : Type} `{!Crypto K L} `{!World K L}.
Local Abbreviation call := (call K L).
Variable m : Manager.

(** Calls that neither publish nor delete records nor accept a challenge. *)
Definition quiet (c : call) : Prop :=
  match c with
  | AppendRecords _ _ | GoDeleteRecords _ _ | Accept _ | Sleep _ => False
  | _ => True
  end.

(** Calls of the issue proper, after the records are out. *)
Definition issuing (c : call) : Prop :=
  match c with AppendRecords _ _ | GoDeleteRecords _ _ => False | _ => True end.

Lemma only_emit (P : call -> Prop) (e : bytes) ds : P (Emit e ds) -> only P (emitEvent m e ds).
Proof. intros H. unfold emitEvent. destruct (OnEvent m); [by apply only_ask|apply only_ret]. Qed.

Lemma only_failed {A} (P : call -> Prop) ds (p : State mstate (result A)) :
  (forall e ds, P (Emit e ds)) -> only P p -> only P (or_failed m ds p).
Proof.
  intros He Hp. unfold or_failed. apply only_bind; [done|]. intros [a|e]; [apply only_ret|].
  apply only_bind; [by apply only_emit|intros; apply only_ret].
Qed.

Lemma accountKey_quiet : only quiet (accountKey m).
Proof. unfold accountKey. eauto 20 with acme. Qed.

Lemma getClient_quiet : only quiet (getClient m).
Proof. unfold getClient. pose proof accountKey_quiet. eauto 20 with acme. Qed.

Lemma createCert_quiet url ds : only quiet (createCert m url ds).
Proof. unfold createCert. eauto 20 with acme. Qed.

Lemma loadCert_quiet d : only quiet (loadCert d).
Proof. unfold loadCert. eauto 20 with acme. Qed.

Lemma isCertExpired_quiet c : only quiet (isCertExpired c).
Proof.
  unfold isCertExpired. apply only_bind; [|intros; apply only_ret].
  intros s. exists []. split; [cbn; by rewrite app_nil_r|constructor].
Qed.

Lemma cached_all_quiet cs ds : only quiet (cached_all cs ds).
Proof.
  pose proof loadCert_quiet. pose proof isCertExpired_quiet.
  induction cs as [|d cs IH]; cbn [cached_all]; eauto 20 with acme.
Qed.

Lemma collect_quiet key urls cs zs : only quiet (collect key urls cs zs).
Proof.
  revert cs zs. induction urls as [|u urls IH]; intros cs zs; cbn [collect]; eauto 20 with acme.
Qed.

Lemma only_mono {A} (P Q : call -> Prop) (p : State mstate A) : (forall c, P c -> Q c) -> only P p -> only Q p.
Proof. intros H Hp. eapply emits_mono; [exact Hp|]. intros a new Hn. exact (Forall_impl _ _ _ Hn H). Qed.

Lemma quiet_issuing c : quiet c -> issuing c.
Proof. by destruct c. Qed.

(** *** The records *)

(** The calls that publish the records of a zone. *)
Definition pub (zr : bytes * list dns_record) : list call :=
  [DeleteRecords (fst zr) (snd zr); AppendRecords (fst zr) (snd zr)].

Lemma publish_emits zs :
  emits (publish zs) (fun r new => exists l1 l2, zs = l1 ++ l2 /\ new = flat_map pub l1 /\ (r = Ok tt -> l2 = [])).
Proof.
  induction zs as [|[z rs] zs IH]; cbn [publish].
  - apply emits_ret. by exists [], [].
  - intros s. unfold tell, ask_err, ask, try_bind, mbind, State_bind. cbn.
    destruct (w_AppendRecords _ z rs) as [e|].
    + exists (pub (z, rs)). cbn. rewrite <- app_assoc. split; [done|]. by exists [(z, rs)], zs.
    + set (s1 := MkState _ _). specialize (IH s1). destruct (publish zs s1) as [r s2].
      destruct IH as (new & E & l1 & l2 & -> & -> & Hr). exists (pub (z, rs) ++ flat_map pub l1).
      rewrite E. cbn. rewrite <- !app_assoc. split; [done|]. by exists ((z, rs) :: l1), l2.
Qed.

Lemma cleanup_emits zs : emits (K := K) (L := L) (cleanup zs) (fun _ new => new = map (fun zr => GoDeleteRecords (fst zr) (snd zr)) zs).
Proof.
  induction zs as [|[z rs] zs IH]; cbn [cleanup]; [by apply emits_ret|].
  intros s. unfold mbind, State_bind, tell, ask. cbn.
  match goal with |- context [cleanup zs ?s1] => specialize (IH s1); destruct (cleanup zs s1) as [[] s2] end.
  destruct IH as (new & E & ->). eexists. rewrite E. cbn. by rewrite <- app_assoc.
Qed.

Lemma accept_all_issuing cs : only issuing (accept_all cs).
Proof. induction cs as [|c cs IH]; cbn [accept_all]; eauto 20 with acme. Qed.

Variables range1 range2 : zone_records -> list (bytes * list dns_record).
Local Abbreviation dns_issue := (dns_issue m range1).

(** The issue publishes records, and only when all are out waits, and only then does the
    rest. *)
Lemma dns_issue_emits o ds chals zones :
  emits (dns_issue o ds chals zones) (fun _ new =>
    exists l1 l2 rest, range1 zones = l1 ++ l2 /\ new = flat_map pub l1 ++ rest /\
      (rest = [] \/ l2 = [] /\ exists rest', rest = Sleep propagation :: rest' /\ Forall issuing rest')).
Proof.
  intros s. unfold Certify.dns_issue. pose proof (publish_emits (range1 zones) s) as Hp.
  destruct (publish (range1 zones) s) as [[u|e] s1] eqn:E1; destruct Hp as (n1 & T1 & l1 & l2 & Hz & -> & Hl).
  2: { rewrite (try_bind_err _ _ _ _ _ E1). exists (flat_map pub l1). split; [done|].
       exists l1, l2, []. rewrite app_nil_r. auto. }
  rewrite (try_bind_ok _ _ _ _ _ E1). destruct u. specialize (Hl eq_refl) as ->.
  assert (only issuing (_ ←? accept_all chals;
    o ←? ask (WaitOrder (o_URI o)) (fun t => w_WaitOrder t (o_URI o));
    cert ←? or_failed m ds (createCert m (o_FinalizeURL o) ds);
    emitEvent m ($"obtained") ds;; mret (Ok cert))) as Hrest.
  { pose proof (accept_all_issuing chals).
    assert (forall o', only issuing (or_failed m ds (createCert m (o_FinalizeURL o') ds))) as Hc.
    { intros o'. apply only_failed; [done|]. eapply only_mono; [apply quiet_issuing|apply createCert_quiet]. }
    assert (only issuing (emitEvent m ($"obtained") ds)) as He by by apply only_emit.
    eauto 20 with acme. }
  unfold mbind at 1, State_bind at 1, tell, ask at 1.
  match goal with |- context [try_bind (accept_all chals) ?f ?s1] => specialize (Hrest s1);
    destruct (try_bind (accept_all chals) f s1) as [r s2] end.
  destruct Hrest as (n2 & T2 & H2). exists (flat_map pub l1 ++ Sleep propagation :: n2).
  rewrite T2. cbn [trace]. rewrite T1, <- !app_assoc. split; [done|].
  exists l1, [], (Sleep propagation :: n2). split; [done|]. split; [done|]. right. split; [done|]. by exists n2.
Qed.

Definition go_delete (zr : bytes * list dns_record) : call := GoDeleteRecords (fst zr) (snd zr).

(** The calls of an attempt: quiet ones, then records out, the rest, and the deletion of
    all records. *)
Definition attempt (new : list call) : Prop :=
  exists pre mid, new = pre ++ mid /\ Forall quiet pre /\
    (mid = [] \/ exists zones l1 l2 rest, range1 zones = l1 ++ l2 /\
       mid = flat_map pub l1 ++ rest ++ map go_delete (range2 zones) /\
       (rest = [] \/ l2 = [] /\ exists rest', rest = Sleep propagation :: rest' /\ Forall issuing rest')).

Definition attempts {A : Type} (p : State mstate A) : Prop := emits p (fun _ new => attempt new).

Lemma attempts_quiet {A} (p : State mstate A) : only quiet p -> attempts p.
Proof.
  intros Hp. eapply emits_mono; [exact Hp|]. intros a new Hn. exists new, []. rewrite app_nil_r. auto.
Qed.

Lemma attempts_bind {A B} (p : State mstate A) (f : A -> State mstate B) :
  only quiet p -> (forall a, attempts (f a)) -> attempts (p ≫= f).
Proof.
  intros Hp Hf. eapply emits_mono; [exact (emits_bind p f _ (fun _ _ => attempt) Hp Hf)|].
  intros b new (a & n1 & n2 & -> & H1 & pre & mid & -> & H2 & Hmid).
  exists (n1 ++ pre), mid. split; [by rewrite app_assoc|]. split; [by apply Forall_app|done].
Qed.

Lemma attempts_try {A B} (p : State mstate (result A)) (f : A -> State mstate (result B)) :
  only quiet p -> (forall a, attempts (f a)) -> attempts (try_bind p f).
Proof.
  intros Hp Hf. apply attempts_bind; [done|]. intros [a|e]; [apply Hf|]. apply attempts_quiet, only_ret.
Qed.

Lemma getCertDNS01_attempts ds : attempts (getCertDNS01 m range1 range2 ds).
Proof.
  unfold getCertDNS01. destruct (negb (DNSProvider m)); [apply attempts_quiet, only_ret|].
  assert (forall e, only quiet (emitEvent m e ds)) as Hemit by (intros e; by apply only_emit).
  apply attempts_bind; [destruct (Cache m); [apply cached_all_quiet|apply only_ret]|].
  intros [cert|].
  { apply attempts_quiet, only_bind; [done|]. intros. apply only_ret. }
  apply attempts_bind; [done|]. intros _.
  apply attempts_try; [apply only_failed; [done|apply getClient_quiet]|]. intros c.
  apply attempts_try; [by apply only_ask|]. intros o.
  apply attempts_try; [apply collect_quiet|]. intros [chals zones]. cbn [fst snd].
  intros s. unfold mbind at 1, State_bind at 1.
  pose proof (dns_issue_emits o ds chals zones s) as H1.
  destruct (dns_issue o ds chals zones s) as [r s1]. destruct H1 as (n1 & T1 & l1 & l2 & rest & Hz & -> & Hr).
  unfold mbind, State_bind. pose proof (cleanup_emits (range2 zones) s1) as H2.
  destruct (cleanup (range2 zones) s1) as [u s2]. destruct H2 as (n2 & T2 & ->).
  exists (flat_map pub l1 ++ rest ++ map go_delete (range2 zones)). cbn. rewrite T2, T1, <- !app_assoc. split; [done|].
  exists [], (flat_map pub l1 ++ rest ++ map go_delete (range2 zones)). split; [done|]. split; [constructor|].
  right. by exists zones, l1, l2, rest.
Qed.

Hypothesis Hrange1 : forall zones, range1 zones ≡ₚ map_to_list zones.
Hypothesis Hrange2 : forall zones, range2 zones ≡ₚ map_to_list zones.

Lemma split_left {A} (xs ys t1 t2 : list A) c :
  xs ++ ys = t1 ++ c :: t2 -> c ∉ ys -> exists u, xs = t1 ++ c :: u /\ t2 = u ++ ys.
Proof.
  intros E Hc. apply app_eq_app in E as [l [[-> E]|[-> E]]].
  - destruct l as [|x l]; cbn in E; [exfalso; apply Hc; rewrite <- E; by left|]. injection E as <- ->. by exists l.
  - exfalso. apply Hc. rewrite E. set_solver.
Qed.

Lemma split_right {A} (xs ys t1 t2 : list A) c :
  xs ++ ys = t1 ++ c :: t2 -> c ∉ xs -> exists u, t1 = xs ++ u /\ ys = u ++ c :: t2.
Proof.
  intros E Hc. apply app_eq_app in E as [l [[-> E]|[-> E]]]; [|by exists l].
  destruct l as [|x l]; cbn in E.
  - exists []. rewrite !app_nil_r. split; [done|]. by rewrite <- E.
  - injection E as <- ->. exfalso. apply Hc. set_solver.
Qed.

Lemma not_in_Forall (P : call -> Prop) l c : Forall P l -> ~ P c -> c ∉ l.
Proof. intros Hl Hc Hin. rewrite Forall_forall in Hl. by apply Hc, Hl. Qed.

Lemma elem_of_pub z rs l : AppendRecords z rs ∈ flat_map pub l <-> (z, rs) ∈ l.
Proof.
  rewrite list_elem_of_In, in_flat_map. setoid_rewrite <- list_elem_of_In. split.
  - intros ([z' rs'] & Hin & Hc). unfold pub in Hc. cbn in Hc.
    rewrite !elem_of_cons in Hc. destruct Hc as [?|[[= <- <-]|Hc]]; [done|done|set_solver].
  - intros Hin. exists (z, rs). split; [done|]. unfold pub. set_solver.
Qed.

Lemma elem_of_go_delete z rs l : GoDeleteRecords z rs ∈ map go_delete l <-> (z, rs) ∈ l.
Proof.
  rewrite list_elem_of_In, in_map_iff. setoid_rewrite <- list_elem_of_In. split.
  - intros ([z' rs'] & [= -> ->] & H). done.
  - intros H. by exists (z, rs).
Qed.

Lemma no_pub_accept c l : Accept c ∉ flat_map pub l.
Proof.
  rewrite list_elem_of_In, in_flat_map. intros ([z rs] & _ & [?|[?|[]]]); done.
Qed.

Lemma go_deletes_only l : Forall (fun c => match c with GoDeleteRecords _ _ => True | _ => False end) (map go_delete l).
Proof. by induction l; constructor. Qed.

Lemma same_range zones zr : zr ∈ range1 zones <-> zr ∈ range2 zones.
Proof. by rewrite Hrange1, Hrange2. Qed.

(** Where the calls of an attempt can be. *)
Lemma attempt_append new t1 z rs t2 :
  attempt new -> new = t1 ++ AppendRecords z rs :: t2 -> GoDeleteRecords z rs ∈ t2.
Proof.
  intros (pre & mid & -> & Hq & Hmid) E.
  apply split_right in E as (u & -> & E); [|eapply not_in_Forall; [exact Hq|by intros []]].
  destruct Hmid as [->|(zones & l1 & l2 & rest & Hz & -> & Hrest)]; [by destruct u|].
  rewrite app_assoc in E.
  apply split_left in E as (u' & E & ->); [|eapply not_in_Forall; [apply go_deletes_only|by intros []]].
  apply elem_of_app. right. apply elem_of_go_delete, same_range. rewrite Hz. apply elem_of_app. left.
  apply elem_of_pub.
  assert (AppendRecords z rs ∉ rest) as Hn.
  { destruct Hrest as [->|(_ & rest' & -> & Hi)]; [by apply not_elem_of_nil|].
    apply not_elem_of_cons. split; [done|]. eapply not_in_Forall; [exact Hi|by intros []]. }
  apply split_left in E as (v & -> & _); [|done]. set_solver.
Qed.

Lemma attempt_accept new t1 c t2 :
  attempt new -> new = t1 ++ Accept c :: t2 ->
  Sleep propagation ∈ t1 /\ forall z rs, GoDeleteRecords z rs ∈ t2 -> AppendRecords z rs ∈ t1.
Proof.
  intros (pre & mid & -> & Hq & Hmid) E.
  apply split_right in E as (u & -> & E); [|eapply not_in_Forall; [exact Hq|by intros []]].
  destruct Hmid as [->|(zones & l1 & l2 & rest & Hz & -> & Hrest)]; [by destruct u|].
  apply split_right in E as (v & -> & E); [|apply no_pub_accept].
  apply split_left in E as (x & E & ->); [|eapply not_in_Forall; [apply go_deletes_only|by intros []]].
  destruct Hrest as [->|(-> & rest' & -> & Hi)]; [by destruct v|].
  destruct v as [|y v]; [done|]. injection E as <- ->. split; [set_solver|].
  intros z rs [H|H]%elem_of_app.
  - exfalso. apply Forall_app in Hi as [_ Hi]. inversion Hi as [|? ? _ Hi']. subst.
    exact (not_in_Forall issuing _ (GoDeleteRecords z rs) Hi' (fun f => f) H).
  - apply elem_of_go_delete, same_range in H. rewrite Hz, app_nil_r in H. apply elem_of_pub in H. set_solver.
Qed.

(** *** What the records are *)

(** [rec] in [zone] is the record that proves the control of the authorization's domain,
    for the holder of [key]: it has the name that is looked up for the domain, and the
    value of the dns-01 challenge. *)
Definition challenge_of (key : K) (authz : authorization) (zone : bytes) (rec : dns_record) : Prop :=
  a_Pending authz = true /\
  t_Name rec ++ $"." ++ zone =
    $"_acme-challenge." ++ (if isWildcard (a_Identifier authz) then drop 2 (a_Identifier authz) else a_Identifier authz) /\
  exists chal, chal ∈ a_Challenges authz /\ ch_Type chal = $"dns-01" /\
    DNS01ChallengeRecord key (ch_Token chal) = Ok (t_Text rec).

(** It was asked for: one of [urls] was looked up after [before], and the answer is an
    authorization whose challenge it is. *)
Definition answered (key : K) (urls : list bytes) (before t : list call) (zone : bytes) (rec : dns_record) : Prop :=
  exists url v1 v2 authz, t = before ++ v1 ++ GetAuthorization url :: v2 /\ url ∈ urls /\
    w_GetAuthorization (before ++ v1) url = Ok authz /\ challenge_of key authz zone rec.

(** The same of an order for [ds], by the account of the client. *)
Definition requested (ds : list bytes) (c : option client) (t : list call) (zone : bytes) (rec : dns_record) : Prop :=
  exists cl o u, c = Some cl /\ w_AuthorizeOrder u ds = Ok o /\
    answered (Key cl) (o_AuthzURLs o) (u ++ [AuthorizeOrder ds]) t zone rec.

Lemma challenge_record_of (key : K) authz chal value :
  a_Pending authz = true -> findChallenge authz ($"dns-01") = Some chal ->
  DNS01ChallengeRecord key (ch_Token chal) = Ok value ->
  let zr := challenge_record (a_Identifier authz) value in
  challenge_of key authz (fst zr) (snd zr) /\ t_Text (snd zr) = value.
Proof.
  intros Hp Hf Hv. unfold challenge_record. set (d := if isWildcard _ then _ else _).
  pose proof (challenge_parts d) as Hn. destruct (extractZoneAndRecordName d) as [zone name]. cbn [fst snd t_Text].
  split; [|done]. split; [done|]. split; [exact Hn|].
  apply List.find_some in Hf as [Hin Ht%bool_decide_eq_true]. exists chal. by rewrite list_elem_of_In.
Qed.

Lemma answered_mono key urls urls' before t t' zone rec :
  urls ⊆ urls' -> answered key urls before t zone rec -> answered key urls' before (t ++ t') zone rec.
Proof.
  intros Hu (url & v1 & v2 & authz & -> & Hin & Hw & Hc). exists url, v1, (v2 ++ t'), authz.
  split; [by rewrite <- !app_assoc|]. split; [by apply Hu|done].
Qed.

(** A record that is published for a challenge. *)
Definition has_record (key : K) (zones : zone_records) (chal : challenge) : Prop :=
  exists z rs rec, zones !! z = Some rs /\ rec ∈ rs /\ DNS01ChallengeRecord key (ch_Token chal) = Ok (t_Text rec).

Lemma add_record_lookup zones zr z rs :
  add_record zones zr !! z = Some rs ->
  forall rec, rec ∈ rs -> (exists rs0, zones !! z = Some rs0 /\ rec ∈ rs0) \/ (z = fst zr /\ rec = snd zr).
Proof.
  unfold add_record. intros Hl rec Hr. destruct (decide (z = fst zr)) as [->|Hne].
  - rewrite lookup_insert_eq in Hl. injection Hl as <-. apply elem_of_app in Hr as [Hr|Hr%list_elem_of_singleton]; [|by right].
    left. destruct (zones !! fst zr) as [rs0|]; [by exists rs0|by apply elem_of_nil in Hr].
  - rewrite lookup_insert_ne in Hl by done. left. by exists rs.
Qed.

Lemma has_record_add key zones zr chal : has_record key zones chal -> has_record key (add_record zones zr) chal.
Proof.
  intros (z & rs & rec & Hl & Hr & Hv). unfold has_record, add_record. destruct (decide (z = fst zr)) as [->|Hne].
  - exists (fst zr), (rs ++ [snd zr]), rec. rewrite lookup_insert_eq, Hl. split; [done|]. split; [|done]. apply elem_of_app. by left.
  - exists z, rs, rec. by rewrite lookup_insert_ne.
Qed.

Lemma add_record_has key zones zr chal :
  DNS01ChallengeRecord key (ch_Token chal) = Ok (t_Text (snd zr)) -> has_record key (add_record zones zr) chal.
Proof.
  intros Hv. exists (fst zr), (default [] (zones !! fst zr) ++ [snd zr]), (snd zr).
  unfold add_record. rewrite lookup_insert_eq. split; [done|]. split; [|done]. apply elem_of_app. right. by left.
Qed.

(** The records and the challenges that are collected. *)
Definition collected (key : K) (urls : list bytes) (before t : list call) (cs : list challenge) (zones : zone_records) : Prop :=
  (forall z rs rec, zones !! z = Some rs -> rec ∈ rs -> answered key urls before t z rec) /\
  (forall chal, chal ∈ cs -> has_record key zones chal).

Lemma collect_collected key all urls before cs zones v s :
  trace s = before ++ v -> urls ⊆ all -> collected key all before (trace s) cs zones ->
  let '(r, s') := collect key urls cs zones s in
  exists v', trace s' = before ++ v' /\
    forall cs' zones', r = Ok (cs', zones') -> collected key all before (trace s') cs' zones'.
Proof.
  revert cs zones v s. induction urls as [|url urls IH]; intros cs zones v s Ht Hsub Hc; cbn [collect].
  { exists v. split; [done|]. by intros cs' zones' [= <- <-]. }
  unfold try_bind at 1, mbind at 1, State_bind at 1, ask. set (s1 := MkState _ _).
  assert (trace s1 = before ++ (v ++ [GetAuthorization url])) as Ht1 by (cbn; by rewrite Ht, <- app_assoc).
  assert (url ∈ all /\ urls ⊆ all) as [Hu Hsub'] by set_solver.
  assert (collected key all before (trace s1) cs zones) as Hc1.
  { destruct Hc as [H1 H2]. split; [|done]. intros z rs rec Hl Hr. by eapply answered_mono, H1. }
  destruct (w_GetAuthorization (trace s) url) as [authz|e] eqn:Ew; [|by eexists].
  destruct (a_Pending authz) eqn:Ep; cbn [negb]; [|by eapply IH].
  destruct (findChallenge authz ($"dns-01")) as [chal|] eqn:Ef; [|by eexists].
  unfold try_bind, mbind, State_bind, mret, State_ret.
  destruct (DNS01ChallengeRecord key (ch_Token chal)) as [value|e] eqn:Ed; [|by eexists].
  destruct (challenge_record_of key authz chal value Ep Ef Ed) as [Hco Hval].
  eapply IH; [exact Ht1|done|]. destruct Hc1 as [H1 H2]. split.
  - intros z rs rec Hl Hr. destruct (add_record_lookup _ _ _ _ Hl rec Hr) as [(rs0 & Hl0 & Hr0)|[-> ->]]; [by eapply H1|].
    exists url, v, [], authz. rewrite Ht1. split; [done|]. by rewrite <- Ht.
  - intros c [Hin|Hin%list_elem_of_singleton]%elem_of_app; [by apply has_record_add, H2|].
    subst c. apply add_record_has. by rewrite Hval.
Qed.

(** A run that publishes only records that were asked for, and accepts only challenges
    whose records are published. *)
Definition proper (ds : list bytes) (s s' : mstate (K := K) (L := L)) : Prop :=
  exists new, trace s' = trace s ++ new /\
    (forall z rs rec, AppendRecords z rs ∈ new -> rec ∈ rs -> requested ds (m_client s') (trace s') z rec) /\
    (forall chal, Accept chal ∈ new -> exists cl z rs rec, m_client s' = Some cl /\
       AppendRecords z rs ∈ new /\ rec ∈ rs /\ DNS01ChallengeRecord (Key cl) (ch_Token chal) = Ok (t_Text rec)).

Lemma proper_quiet {A} ds (p : State mstate A) s : only quiet p -> proper ds s (snd (p s)).
Proof.
  intros Hp. specialize (Hp s). destruct (p s) as [a s1]. destruct Hp as (new & T & Hq). exists new. split; [done|]. cbn [snd].
  split; [intros z rs rec Hin|intros chal Hin]; exfalso; eapply (not_in_Forall quiet); [exact Hq| |exact Hin|exact Hq| |exact Hin];
    by intros [].
Qed.

Lemma proper_bind {A B} ds (p : State mstate A) (f : A -> State mstate B) s :
  only quiet p -> (forall a s1, p s = (a, s1) -> proper ds s1 (snd (f a s1))) -> proper ds s (snd ((p ≫= f) s)).
Proof.
  intros Hp Hf. unfold mbind, State_bind. specialize (Hp s). destruct (p s) as [a s1]. specialize (Hf a s1 eq_refl).
  destruct Hp as (n1 & T1 & Hq). destruct Hf as (n2 & T2 & H1 & H2). exists (n1 ++ n2). rewrite T2 at 1. rewrite T1.
  split; [by rewrite app_assoc|]. split.
  - intros z rs rec [Hin|Hin]%elem_of_app; [|by apply H1].
    exfalso. by eapply (not_in_Forall quiet); [exact Hq| |exact Hin]; intros [].
  - intros chal [Hin|Hin]%elem_of_app.
    + exfalso. by eapply (not_in_Forall quiet); [exact Hq| |exact Hin]; intros [].
    + destruct (H2 chal Hin) as (cl & z & rs & rec & ? & ? & ? & ?). exists cl, z, rs, rec. rewrite elem_of_app. auto.
Qed.

Lemma proper_try {A B} ds (p : State mstate (result A)) (f : A -> State mstate (result B)) s :
  only quiet p -> (forall a s1, p s = (Ok a, s1) -> proper ds s1 (snd (f a s1))) -> proper ds s (snd (try_bind p f s)).
Proof.
  intros Hp Hf. apply proper_bind; [done|]. intros [a|e] s1 E; [by apply Hf|]. apply (proper_quiet ds (mret (Err e))), only_ret.
Qed.

(** The challenges that the issue accepts are those it is given. *)
Lemma dns_issue_accepts o ds chals zones :
  only (fun c => match c with Accept chal => chal ∈ chals | _ => True end) (dns_issue o ds chals zones).
Proof.
  set (P := fun c : call => match c with Accept chal => chal ∈ chals | _ => True end).
  assert (forall c, quiet c -> P c) as Hq by (by intros []).
  assert (forall zs, only P (publish zs)) as H1 by (induction zs as [|[z rs] zs IH]; cbn [publish]; eauto 20 with acme).
  assert (only P (accept_all chals)) as H2.
  { assert (forall cs, cs ⊆ chals -> only P (accept_all cs)) as Ha; [|by apply Ha].
    induction cs as [|c cs IH]; intros Hs; cbn [accept_all]; [apply only_ret|].
    apply only_try; [apply only_ask; cbn; set_solver|]. intros _. apply IH. set_solver. }
  assert (forall o', only P (or_failed m ds (createCert m (o_FinalizeURL o') ds))) as H3.
  { intros o'. apply only_failed; [done|]. eapply only_mono; [exact Hq|apply createCert_quiet]. }
  assert (only P (emitEvent m ($"obtained") ds)) as H4 by by apply only_emit.
  unfold Certify.dns_issue. eauto 20 with acme.
Qed.

Lemma emitEvent_keeps e ds : keeps (K := K) (L := L) (emitEvent m e ds).
Proof. unfold emitEvent. eauto with acme. Qed.

Lemma dns_issue_keeps o ds chals zones : keeps (dns_issue o ds chals zones).
Proof.
  assert (forall zs, keeps (publish zs)) by (induction zs as [|[z rs] zs IH]; cbn [publish]; eauto 20 with acme).
  assert (forall cs, keeps (accept_all cs)) by (induction cs as [|c cs IH]; cbn [accept_all]; eauto 20 with acme).
  assert (forall url, keeps (createCert m url ds)) by (intros url; unfold createCert; eauto 20 with acme).
  pose proof emitEvent_keeps. unfold Certify.dns_issue, or_failed. eauto 20 with acme.
Qed.

Lemma cleanup_keeps zs : keeps (K := K) (L := L) (cleanup zs).
Proof. induction zs as [|[z rs] zs IH]; cbn [cleanup]; eauto 20 with acme. Qed.

Lemma collect_keeps key urls cs zones : keeps (collect key urls cs zones).
Proof. revert cs zones. induction urls as [|u urls IH]; intros cs zones; cbn [collect]; eauto 20 with acme. Qed.

Lemma or_failed_ok {A} ds (p : State (mstate (K := K) (L := L)) (result A)) s a s1 :
  or_failed m ds p s = (Ok a, s1) -> p s = (Ok a, s1).
Proof.
  unfold or_failed, mbind, State_bind. destruct (p s) as [[a'|e] s']; [done|]. by destruct (emitEvent _ _ _ s').
Qed.

Lemma getClient_client (s : mstate (K := K) (L := L)) c s1 : getClient m s = (Ok c, s1) -> m_client s1 = Some c.
Proof.
  unfold getClient. erewrite st_bind_run by reflexivity. destruct (m_client s) as [c0|] eqn:E; [by intros [= <- <-]|].
  destruct (accountKey m s) as [[key|e] s2] eqn:Ek; [|by rewrite (try_bind_err _ _ _ _ _ Ek)].
  rewrite (try_bind_ok _ _ _ _ _ Ek). unfold mbind, State_bind, ask, modify, mret, State_ret. cbv beta iota zeta.
  destruct (w_Register _ _) as [e|]; [destruct (isAccountExists e)|]; by intros [= <- <-].
Qed.

(** From the order on. *)
Lemma issue_proper ds (c : client) o before s :
  m_client s = Some c -> w_AuthorizeOrder before ds = Ok o -> trace s = before ++ [AuthorizeOrder ds] ->
  proper ds s (snd ((cz ←? collect (Key c) (o_AuthzURLs o) [] ∅;
    r ← dns_issue o ds (fst cz) (snd cz); cleanup (range2 (snd cz));; mret r) s)).
Proof.
  intros Hcl Ho Ht. apply proper_try; [apply collect_quiet|]. intros [chals zones] s1 E1. cbn [fst snd].
  assert (collected (Key c) (o_AuthzURLs o) (before ++ [AuthorizeOrder ds]) (trace s) [] ∅) as H0.
  { split; [intros z rs rec Hl; by rewrite lookup_empty in Hl|intros chal Hin; by apply elem_of_nil in Hin]. }
  pose proof (collect_collected (Key c) (o_AuthzURLs o) (o_AuthzURLs o) _ [] ∅ [] s
    ltac:(by rewrite app_nil_r) ltac:(done) H0) as Hcol.
  pose proof (collect_keeps (Key c) (o_AuthzURLs o) [] ∅ s) as Hk1. rewrite E1 in Hcol, Hk1. cbn [snd] in Hk1.
  destruct Hcol as (v & Ht1 & Hcol). destruct (Hcol chals zones eq_refl) as [Hrec Hchal].
  unfold mbind, State_bind.
  pose proof (dns_issue_emits o ds chals zones s1) as Hi. pose proof (dns_issue_accepts o ds chals zones s1) as Hacc.
  pose proof (dns_issue_keeps o ds chals zones s1) as Hk2. destruct (dns_issue o ds chals zones s1) as [r s2]. cbn [snd] in Hk2.
  destruct Hi as (n1 & T1 & l1 & l2 & rest & Hz & En & Hrest). destruct Hacc as (n1' & T1' & Hacc).
  assert (n1' = n1) as -> by (eapply app_inv_head; by rewrite <- T1', <- T1).
  pose proof (cleanup_emits (range2 zones) s2) as Hc. pose proof (cleanup_keeps (range2 zones) s2) as Hk3.
  destruct (cleanup (range2 zones) s2) as [u s3]. cbn [snd] in Hk3. destruct Hc as (n2 & T2 & En2).
  assert (m_client s3 = Some c) as Hcl3 by congruence.
  assert (forall c', c' ∈ n2 -> exists z rs, c' = GoDeleteRecords z rs) as Hdel.
  { intros c' Hin. rewrite En2 in Hin. apply list_elem_of_fmap in Hin as ([z rs] & -> & _). by exists z, rs. }
  cbn [snd mret State_ret]. exists (n1 ++ n2). split; [by rewrite T2, T1, app_assoc|]. split.
  - intros z rs rec [Hin|Hin]%elem_of_app Hr; [|by apply Hdel in Hin as (? & ? & ?)].
    rewrite En in Hin. apply elem_of_app in Hin as [Hin|Hin].
    + apply elem_of_pub in Hin. assert ((z, rs) ∈ range1 zones) as Hz' by (rewrite Hz; apply elem_of_app; by left).
      rewrite Hrange1 in Hz'. apply elem_of_map_to_list in Hz'.
      exists c, o, before. split; [done|]. split; [done|]. rewrite T2, T1, <- app_assoc. eapply answered_mono; [done|by eapply Hrec].
    + exfalso. destruct Hrest as [->|(_ & rest' & -> & Hi)]; [by apply elem_of_nil in Hin|].
      apply elem_of_cons in Hin as [?|Hin]; [done|]. by eapply (not_in_Forall issuing); [exact Hi| |exact Hin]; intros [].
  - intros chal [Hin|Hin]%elem_of_app; [|by apply Hdel in Hin as (? & ? & ?)].
    pose proof (proj1 (Forall_forall _ _) Hacc _ Hin) as Hch. cbn in Hch. destruct (Hchal chal Hch) as (z & rs & rec & Hl & Hr & Hv).
    exists c, z, rs, rec. split; [done|]. split; [|done]. apply elem_of_app. left.
    rewrite En in Hin |- *. apply elem_of_app in Hin as [Hin|Hin]; [by apply no_pub_accept in Hin|].
    destruct Hrest as [->|(-> & _)]; [by apply elem_of_nil in Hin|]. rewrite app_nil_r in Hz.
    apply elem_of_app. left. apply elem_of_pub. rewrite <- Hz, Hrange1. by apply elem_of_map_to_list.
Qed.

Lemma getCertDNS01_proper ds s : proper ds s (snd (getCertDNS01 m range1 range2 ds s)).
Proof.
  unfold getCertDNS01. destruct (negb (DNSProvider m)); [apply (proper_quiet ds (mret _)), only_ret|].
  assert (forall e, only quiet (emitEvent m e ds)) as Hemit by (intros e; by apply only_emit).
  apply proper_bind; [destruct (Cache m); [apply cached_all_quiet|apply only_ret]|].
  intros [cert|] s1 _.
  { apply (proper_quiet ds (_ ≫= _)), only_bind; [done|]. intros. apply only_ret. }
  apply proper_bind; [done|]. intros u s2 _.
  apply proper_try; [apply only_failed; [done|apply getClient_quiet]|]. intros c s3 E%or_failed_ok%getClient_client.
  apply proper_try; [by apply only_ask|]. intros o s4 [= Ho <-]. by eapply issue_proper.
Qed.

(** C14: Whatever the ACME server, the DNS provider and the cache answer, and in whichever
    orders the map of records is iterated: every record that [getCertDNS01] publishes is
    the challenge record, for the key of the account, of a pending authorization that the
    order for the domains lists; a zone's records are also deleted afterwards, on every
    path; and the server is let look for the records, by accepting a challenge, only when
    the record of that challenge and all the others have been published and the time for
    their propagation has passed. *)
Theorem getCertDNS01_records ds s :
  let '(_, s') := getCertDNS01 m range1 range2 ds s in
  exists new, trace s' = trace s ++ new /\
    (forall z rs rec, AppendRecords z rs ∈ new -> rec ∈ rs -> requested ds (m_client s') (trace s') z rec) /\
    (forall t1 z rs t2, new = t1 ++ AppendRecords z rs :: t2 -> GoDeleteRecords z rs ∈ t2) /\
    (forall chal, Accept chal ∈ new -> exists cl z rs rec, m_client s' = Some cl /\
       AppendRecords z rs ∈ new /\ rec ∈ rs /\ DNS01ChallengeRecord (Key cl) (ch_Token chal) = Ok (t_Text rec)) /\
    (forall t1 c t2, new = t1 ++ Accept c :: t2 ->
       Sleep propagation ∈ t1 /\ forall z rs, GoDeleteRecords z rs ∈ t2 -> AppendRecords z rs ∈ t1).
Proof.
  pose proof (getCertDNS01_attempts ds s) as H. pose proof (getCertDNS01_proper ds s) as Hp.
  destruct (getCertDNS01 m range1 range2 ds s) as [r s'].
  destruct H as (new & T & Ha). destruct Hp as (new' & T' & H1 & H2). cbn [snd] in *.
  assert (new' = new) as -> by (eapply app_inv_head; by rewrite <- T', <- T).
  exists new. split; [done|]. split; [done|]. split; [|split; [done|]].
  - intros t1 z rs t2. by apply attempt_append.
  - intros t1 c t2. by apply attempt_accept.
Qed.
End flows.

(** ** Events *)

Section events.
Context {K L : Type} `{!Crypto K L} `{!World K L}.
Local Abbreviation call := (call K L).
Variable m : Manager.
Hypothesis Hon : OnEvent m = true.

Definition event_of (c : call) : option bytes := match c with Emit e _ => Some e | _ => None end.
Definition events (t : list call) : list bytes := omap event_of t.
Definition silent (c : call) : Prop := event_of c = None.
#[local] Hint Extern 1 (silent _) => reflexivity : acme.

Lemma events_app t1 t2 : events (t1 ++ t2) = events t1 ++ events t2.
Proof. apply omap_app. Qed.

Lemma events_emit e ds t : events (Emit e ds :: t) = e :: events t.
Proof. done. Qed.

Lemma events_silent t : Forall silent t -> events t = [].
Proof. induction 1 as [|c t Hc _ IH]; [done|]. unfold events in *. cbn. by rewrite Hc. Qed.

Lemma getClient_silent : only silent (getClient m).
Proof.
  assert (only silent (accountKey m)) by (unfold accountKey; eauto 20 with acme).
  unfold getClient. eauto 20 with acme.
Qed.

Lemma createCert_silent d : only silent (createCertFromAuthz m d).
Proof.
  assert (forall url, only silent (createCert m url [d])) by (intros url; unfold createCert; eauto 20 with acme).
  unfold createCertFromAuthz. eauto 20 with acme.
Qed.

Lemma solveChallenge_silent a : only silent (solveChallenge a).
Proof. unfold solveChallenge. eauto 20 with acme. Qed.

Lemma cached_single_silent d : only silent (cached_single d).
Proof.
  assert (only silent (loadCert d)) by (unfold loadCert; eauto 20 with acme).
  assert (forall c, only silent (isCertExpired c)) as He.
  { intros c. unfold isCertExpired. apply only_bind; [|intros; apply only_ret].
    intros s. exists []. split; [cbn; by rewrite app_nil_r|constructor]. }
  unfold cached_single. eauto 20 with acme.
Qed.

(** The end of an attempt: success and the event of it, or failure and that of it. *)
Definition ended {A : Type} (r : result A) (t : list call) : Prop :=
  (is_ok r = true /\ events t = [$"obtained"]) \/ (is_ok r = false /\ events t = [$"failed"]).

Lemma emit_event (s : mstate (K := K) (L := L)) e ds :
  emitEvent m e ds s = (tt, MkState (m_client s) (trace s ++ [Emit e ds])).
Proof. unfold emitEvent. by rewrite Hon. Qed.

Lemma or_failed_ended {A B} ds (p : State mstate (result A)) (f : A -> State mstate (result B)) :
  only silent p -> (forall a, emits (f a) ended) -> emits (x ←? or_failed m ds p; f x) ended.
Proof.
  intros Hp Hf s. unfold or_failed, try_bind, mbind, State_bind. specialize (Hp s).
  destruct (p s) as [[a|e] s1]; destruct Hp as (n1 & T1 & H1); cbn.
  - specialize (Hf a s1). destruct (f a s1) as [b s2]. destruct Hf as (n2 & T2 & H2).
    exists (n1 ++ n2). rewrite T2, T1, <- app_assoc. split; [done|].
    unfold ended. by rewrite events_app, (events_silent n1).
  - rewrite emit_event. exists (n1 ++ [Emit ($"failed") ds]). cbn. rewrite T1, <- app_assoc. split; [done|].
    right. split; [done|]. by rewrite events_app, (events_silent n1).
Qed.

(** The events of [getSingleCert] tell its result: one of a certificate taken from
    the cache, or that it begins and then either that it has one or that it failed. *)
Theorem getSingleCert_events d s :
  let '(r, s') := getSingleCert m d s in
  exists new, trace s' = trace s ++ new /\
    ((is_ok r = true /\ events new = [$"cached"]) \/
     (is_ok r = true /\ events new = [$"obtaining"; $"obtained"]) \/
     (is_ok r = false /\ events new = [$"obtaining"; $"failed"])).
Proof.
  assert (emits (_ ←? or_failed m [d] (getClient m);
    authz ←? or_failed m [d] (ask (Authorize d) (fun t => w_Authorize t d));
    _ ←? (if a_Pending authz then or_failed m [d] (solveChallenge authz) else mret (Ok tt));
    cert ←? or_failed m [d] (createCertFromAuthz m d);
    emitEvent m ($"obtained") [d];; mret (Ok cert)) ended) as Hrest.
  { apply or_failed_ended; [apply getClient_silent|]. intros _.
    apply or_failed_ended; [by apply only_ask|]. intros authz.
    assert (emits (cert ←? or_failed m [d] (createCertFromAuthz m d); emitEvent m ($"obtained") [d];; mret (Ok cert)) ended) as Hc.
    { apply or_failed_ended; [apply createCert_silent|]. intros cert s0. unfold mbind, State_bind.
      rewrite emit_event. exists [Emit ($"obtained") [d]]. split; [done|]. by left. }
    destruct (a_Pending authz); [apply or_failed_ended; [apply solveChallenge_silent|done]|exact Hc]. }
  unfold getSingleCert.
  assert (only silent (if Cache m then cached_single d else mret None)) as H0
    by (destruct (Cache m); [apply cached_single_silent|apply only_ret]).
  unfold mbind at 1, State_bind at 1. specialize (H0 s).
  destruct ((if Cache m then cached_single d else mret None) s) as [[cert|] s1]; destruct H0 as (n0 & T0 & H0).
  - unfold mbind, State_bind. rewrite emit_event. exists (n0 ++ [Emit ($"cached") [d]]). cbn.
    rewrite T0, <- app_assoc. split; [done|]. left. split; [done|]. by rewrite events_app, (events_silent n0).
  - unfold mbind at 1, State_bind at 1. rewrite emit_event. set (s2 := MkState _ _). specialize (Hrest s2).
    destruct (try_bind (or_failed m [d] (getClient m)) _ s2) as [r s3]. destruct Hrest as (n & T & H).
    exists (n0 ++ Emit ($"obtaining") [d] :: n). rewrite T. cbn. rewrite T0, <- !app_assoc. split; [done|].
    rewrite events_app, (events_silent n0) by done. cbn [app].
    rewrite events_emit.
    destruct H as [[H1 ->]|[H1 ->]]; [right; left|right; right]; by split.
Qed.
End events.

(** ** The cache *)

(** What the cache promises: it keeps what was put last under a name. *)
Definition last_put {K L : Type} (k : bytes) (t : list (call K L)) : option bytes :=
  fold_left (fun acc c => match c with CachePut k' d => if decide (k' = k) then Some d else acc | _ => acc end) t None.

Class CacheLaws {K L : Type} (W : World K L) : Prop := {
  cache_keeps : forall t k, w_CacheGet t k = match last_put k t with Some d => Ok d | None => Err ErrCacheMiss end
}.

(** What the PEM encoding promises for blocks of the types used here. *)
Class PemLaws {K L : Type} (C : Crypto K L) : Prop := {
  pem_decode_encode : forall b rest, b_Type b ∈ cert_type :: key_types ->
    pem_Decode (pem_Encode b ++ rest) = Some (b, rest);
  pem_decode_nil : pem_Decode [] = None;
  pem_encode_some : forall b, pem_Encode b <> []
}.

(** What [X509KeyPair] promises for a chain and the key of its first certificate; the
    parsed certificate may be left out. *)
Class KeyPairLaws {K L : Type} (C : Crypto K L) (fits : K -> L -> Prop) : Prop := {
  key_pair : forall key raw der ders leaf,
    MarshalECPrivateKey key = Ok raw -> ParseCertificate der = Ok leaf -> fits key leaf ->
    exists lf, (lf = None \/ lf = Some leaf) /\
      X509KeyPair (flat_map (fun b => pem_Encode (MkBlock cert_type b)) (der :: ders)) (pem_Encode (MkBlock ec_type raw)) =
      Ok (MkCert key (der :: ders) lf)
}.

Section cache.
Context {K L : Type} `{C : !Crypto K L} `{W : !World K L} `{!PemLaws C} (fits : K -> L -> Prop) `{!KeyPairLaws C fits}.
Local Abbreviation enc := (fun b => pem_Encode (MkBlock cert_type b)).

Lemma pem_loop_certs ders fuel k c :
  (length ders < fuel)%nat -> pem_loop fuel (flat_map enc ders) k c = (k, c ++ flat_map enc ders).
Proof.
  revert fuel c. induction ders as [|der ders IH]; intros fuel c Hf; (destruct fuel as [|fuel]; [simpl in Hf; lia|]);
    cbn [pem_loop flat_map].
  - by rewrite pem_decode_nil, app_nil_r.
  - rewrite pem_decode_encode by (by left). cbn [b_Type].
    rewrite decide_False by (apply (bool_decide_unpack _); by vm_compute). rewrite decide_True by done.
    rewrite IH by (simpl in Hf; lia). by rewrite <- app_assoc.
Qed.

Lemma length_flat_map_enc ders : (length ders <= length (flat_map enc ders))%nat.
Proof.
  induction ders as [|der ders IH]; [done|]. cbn [flat_map]. rewrite length_app. cbn [length].
  pose proof (pem_encode_some (MkBlock cert_type der)) as H. destruct (pem_Encode (MkBlock cert_type der)); [done|].
  cbn [length]. lia.
Qed.

(** A certificate with the key of its leaf. *)
Definition good_cert (cert : tls_cert K L) : Prop :=
  exists raw der ders leaf, is_ecdsa (PrivateKey cert) = true /\
    MarshalECPrivateKey (PrivateKey cert) = Ok raw /\ Certificate cert = der :: ders /\
    Leaf cert = Some leaf /\ ParseCertificate der = Ok leaf /\ fits (PrivateKey cert) leaf.

Lemma PEM_roundtrip cert : good_cert cert -> tlsCertFromPEM (certToPEM cert) = Ok cert.
Proof.
  intros (raw & der & ders & leaf & Hec & Hm & Hc & Hl & Hp & Hfit).
  unfold tlsCertFromPEM, certToPEM. rewrite Hec, Hm, Hc.
  set (data := pem_Encode (MkBlock ec_type raw) ++ flat_map enc (der :: ders)).
  assert (pem_loop (S (length data)) data [] [] = (pem_Encode (MkBlock ec_type raw), flat_map enc (der :: ders))) as ->.
  { cbn [pem_loop].
    assert (pem_Decode data = Some (MkBlock ec_type raw, flat_map enc (der :: ders))) as ->
      by (apply pem_decode_encode; by right; left).
    cbn [b_Type].
    rewrite decide_True by (by left). rewrite pem_loop_certs; [done|].
    unfold data. rewrite length_app. pose proof (length_flat_map_enc (der :: ders)).
    pose proof (pem_encode_some (MkBlock ec_type raw)) as H'. destruct (pem_Encode (MkBlock ec_type raw)); [done|].
    cbn [length] in *. lia. }
  rewrite bool_decide_eq_false_2 by apply pem_encode_some.
  rewrite bool_decide_eq_false_2.
  2: { cbn [flat_map]. intros E. apply app_eq_nil in E as [E _]. by apply (pem_encode_some (MkBlock cert_type der)). }
  cbn [orb]. destruct (key_pair (PrivateKey cert) raw der ders leaf Hm Hp Hfit) as (lf & Hlf & ->).
  destruct cert as [key certs lf']. cbn in *. subst. destruct Hlf as [->| ->]; cbn; [by rewrite Hp|done].
Qed.

Lemma last_put_app k t1 t2 :
  last_put k (t1 ++ t2) = match @last_put K L k t2 with Some d => Some d | None => last_put k t1 end.
Proof.
  unfold last_put. rewrite fold_left_app. generalize (fold_left (fun acc (c : call K L) =>
    match c with CachePut k' d => if decide (k' = k) then Some d else acc | _ => acc end) t1 None).
  induction t2 as [|c t2 IH] using rev_ind; intros a; [done|]. rewrite !fold_left_app. cbn [fold_left].
  destruct c; try apply IH. destruct (decide (key = k)); [done|apply IH].
Qed.

Lemma saveCert_trace ds data (s : mstate (K := K) (L := L)) :
  exists s', saveCert ds data s = (tt, s') /\ trace s' = trace s ++ map (fun d => CachePut (crt_key d) data) ds.
Proof.
  revert s. induction ds as [|d ds IH]; intros s; cbn [saveCert].
  - exists s. by rewrite app_nil_r.
  - unfold mbind, State_bind, tell, ask.
    destruct (IH (MkState (m_client s) (trace s ++ [CachePut (crt_key d) data]))) as (s' & E & T).
    exists s'. split; [done|]. rewrite T. cbn. by rewrite <- app_assoc.
Qed.

Lemma last_put_saved d ds data :
  d ∈ ds -> last_put (crt_key d) (map (fun d => CachePut (K := K) (L := L) (crt_key d) data) ds) = Some data.
Proof.
  induction ds as [|d' ds IH] using rev_ind; [by intros ?%not_elem_of_nil|]. intros Hd.
  rewrite map_app, last_put_app. cbn. destruct (decide (crt_key d' = crt_key d)) as [E|Hne]; [done|].
  apply elem_of_app in Hd as [Hd|Hd]; [by apply IH|]. apply list_elem_of_singleton in Hd as ->. done.
Qed.

(** C30: What [saveCert] stores for a list of domains, [loadCert] returns for each of them:
    the same key, the same chain and the same leaf. *)
Theorem saveCert_loadCert `{!CacheLaws W} cert ds d s :
  good_cert cert -> d ∈ ds ->
  let s' := snd (saveCert ds (certToPEM cert) s) in fst (loadCert d s') = Ok cert.
Proof.
  intros Hg Hd. destruct (saveCert_trace ds (certToPEM cert) s) as (s' & E & T). rewrite E. cbn [snd].
  unfold loadCert, try_bind, mbind, State_bind, ask. rewrite cache_keeps, T, last_put_app, last_put_saved by done.
  cbn. by rewrite PEM_roundtrip.
Qed.
End cache.

(** ** Unhappy paths *)

Section unhappy.
Context {K L : Type} `{!Crypto K L} `{!World K L}.
Variable m : Manager.
Variables range1 range2 : zone_records -> list (bytes * list dns_record).

(** An error of the order is returned by [getCertDNS01] without an event: those who
    listen have seen it begin and never see it end. *)
Theorem getCertDNS01_silent_failure ds c e (s : mstate (K := K) (L := L)) :
  OnEvent m = true -> Cache m = false -> DNSProvider m = true -> m_client s = Some c ->
  (forall t, w_AuthorizeOrder t ds = Err e) ->
  exists new, getCertDNS01 m range1 range2 ds s = (Err e, MkState (Some c) (trace s ++ new)) /\
    events new = [$"obtaining"].
Proof.
  intros Ho Hc Hd Hcl He. unfold getCertDNS01. rewrite Hd, Hc. cbn [negb].
  exists [Emit ($"obtaining") ds; AuthorizeOrder ds]. split; [|done].
  unfold mbind at 1, State_bind at 1, mret at 1, State_ret at 1. unfold mbind at 1, State_bind at 1.
  rewrite (emit_event m Ho). rewrite Hcl.
  unfold or_failed, getClient, gets, ask, try_bind, mbind, State_bind, mret, State_ret. cbn.
  rewrite He. by rewrite <- app_assoc.
Qed.

(** Without a cache there is nothing to revoke from, and the method panics. *)
Lemma Revoke_without_cache d c (s : mstate (K := K) (L := L)) :
  Cache m = false -> m_client s = Some c -> Revoke m d s = (Panic, s).
Proof.
  intros Hc Hcl. unfold Revoke, getClient, gets, mbind, State_bind. rewrite Hcl. cbn. by rewrite Hc.
Qed.
End unhappy.

(** ** A concrete world *)

Module CertifyDemo.

Fixpoint payload (s : bytes) : bytes :=
  match s with [] => $"." | c :: s' => "+"%char :: c :: payload s' end.

Fixpoint unpack (s : bytes) : option (bytes * bytes) :=
  match s with
  | "."%char :: rest => Some ([], rest)
  | "+"%char :: c :: rest => match unpack rest with Some (p, rest') => Some (c :: p, rest') | None => None end
  | _ => None
  end.

Lemma unpack_payload s rest : unpack (payload s ++ rest) = Some (s, rest).
Proof. induction s as [|c s IH]; [done|]. cbn. by rewrite IH. Qed.

Definition types : list bytes := cert_type :: key_types.
Definition tag (ty : bytes) : ascii :=
  if bool_decide (ty = cert_type) then "0"%char else if bool_decide (ty = ec_type) then "1"%char
  else if bool_decide (ty = $"RSA PRIVATE KEY") then "2"%char else "3"%char.
Definition type_of (c : ascii) : bytes := nth (Z.to_nat (code c - 48)) types [].

Lemma type_of_tag ty : ty ∈ types -> type_of (tag ty) = ty.
Proof. revert ty. apply Forall_forall. apply (bool_decide_unpack _). by vm_compute. Qed.

Definition Encode (b : pem_block) : bytes := tag (b_Type b) :: payload (b_Bytes b).
Definition Decode (s : bytes) : option (pem_block * bytes) :=
  match s with
  | [] => None
  | c :: s' => match unpack s' with Some (p, rest) => Some (MkBlock (type_of c) p, rest) | None => None end
  end.

Fixpoint ders (fuel : nat) (s : bytes) : list bytes :=
  match fuel, Decode s with
  | S fuel', Some (b, rest) => b_Bytes b :: ders fuel' rest
  | _, _ => []
  end.

#[export] Instance crypto : Crypto unit unit := {|
  pem_Encode := Encode; pem_Decode := Decode;
  MarshalECPrivateKey := fun _ => Ok ($"k"); is_ecdsa := fun _ => true;
  ParseECPrivateKey := fun _ => Ok tt; ParsePKCS8PrivateKey := fun _ => Ok tt;
  X509KeyPair := fun certs key => Ok (MkCert tt (ders (length certs) certs) None);
  ParseCertificate := fun _ => Ok tt;
  CreateCertificateRequest := fun _ _ => Ok []; NotAfter := fun _ => 0; VerifyHostname := fun _ _ => true;
  DNS01ChallengeRecord := fun _ token => Ok token
|}.

#[export] Instance world : World unit unit := {|
  w_Now := fun _ => 0;
  w_CacheGet := fun t k => match last_put k t with Some d => Ok d | None => Err ErrCacheMiss end;
  w_GenerateKey := fun _ => Ok tt; w_Register := fun _ _ => None;
  w_Authorize := fun _ _ => Err (EOther 400); w_AuthorizeOrder := fun _ _ => Err (EOther 400);
  w_GetAuthorization := fun _ _ => Err (EOther 400); w_Accept := fun _ _ => None;
  w_WaitAuthorization := fun _ _ => None; w_WaitOrder := fun _ _ => Err (EOther 400);
  w_CreateOrderCert := fun _ _ _ => Err (EOther 400); w_AppendRecords := fun _ _ _ => None;
  w_RevokeCert := fun _ _ => None
|}.

#[export] Instance pem_laws : PemLaws crypto.
Proof.
  split.
  - intros [ty p] rest Hty. change (pem_Decode (pem_Encode (MkBlock ty p) ++ rest)) with
      (match unpack (payload p ++ rest) with Some (p, rest) => Some (MkBlock (type_of (tag ty)) p, rest) | None => None end).
    by rewrite unpack_payload, (type_of_tag ty Hty).
  - reflexivity.
  - discriminate.
Defined.

Lemma ders_encode l fuel :
  (length l <= fuel)%nat -> ders fuel (flat_map (fun b => Encode (MkBlock cert_type b)) l) = l.
Proof.
  revert fuel. induction l as [|d l IH]; intros fuel Hf; [by destruct fuel|].
  destruct fuel as [|fuel]; [simpl in Hf; lia|]. cbn [flat_map ders].
  change (Decode (Encode (MkBlock cert_type d) ++ ?r)) with
    (match unpack (payload d ++ r) with Some (p, rest) => Some (MkBlock (type_of (tag cert_type)) p, rest) | None => None end).
  rewrite unpack_payload. cbn [b_Bytes]. rewrite IH by (simpl in Hf; lia). done.
Qed.

#[export] Instance key_pair_laws : KeyPairLaws crypto (fun _ _ => True).
Proof.
  split. intros [] raw der l [] _ _ _. exists None. split; [by left|]. cbn [X509KeyPair crypto].
  rewrite ders_encode; [done|]. apply (length_flat_map_enc (C := crypto) (der :: l)).
Defined.

#[export] Instance cache_laws : CacheLaws world.
Proof. split. reflexivity. Defined.

Definition manager : Manager := MkManager ($"a@b") false None true true.
Definition cert : tls_cert unit unit := MkCert tt [$"d1"; $"d2"] (Some tt).
Definition start : mstate (K := unit) (L := unit) := MkState (Some (MkClient tt LetsEncryptProduction)) [].
Definition range (z : zone_records) : list (bytes * list dns_record) := map_to_list z.

End CertifyDemo.
Import CertifyDemo.

(** A server with one order, for a wildcard domain. *)
Definition ordering : World unit unit := {|
  w_Now := fun _ => 0;
  w_CacheGet := fun _ _ => Err ErrCacheMiss;
  w_GenerateKey := fun _ => Ok tt; w_Register := fun _ _ => None;
  w_Authorize := fun _ _ => Err (EOther 400); w_AuthorizeOrder := fun _ _ => Ok (MkOrder ($"o") [$"a1"] ($"f"));
  w_GetAuthorization := fun _ url => Ok (MkAuthorization url true ($"*.x.org")
    [MkChallenge ($"http-01") ($"t0"); MkChallenge ($"dns-01") ($"t1")]);
  w_Accept := fun _ _ => None; w_WaitAuthorization := fun _ _ => None; w_WaitOrder := fun _ _ => Err (EOther 400);
  w_CreateOrderCert := fun _ _ _ => Err (EOther 400); w_AppendRecords := fun _ _ _ => None;
  w_RevokeCert := fun _ _ => None
|}.

Lemma getCertDNS01_records_witness :
  let rec := MkTXT ($"_acme-challenge") ($"t1") in
  let '(_, s') := getCertDNS01 (World0 := ordering) manager range range [$"*.x.org"] start in
  trace s' = [Emit ($"obtaining") [$"*.x.org"]; AuthorizeOrder [$"*.x.org"]; GetAuthorization ($"a1");
    DeleteRecords ($"x.org") [rec]; AppendRecords ($"x.org") [rec]; Sleep propagation;
    Accept (MkChallenge ($"dns-01") ($"t1")); WaitOrder ($"o"); GoDeleteRecords ($"x.org") [rec]] /\
  requested (World0 := ordering) [$"*.x.org"] (m_client s') (trace s') ($"x.org") rec.
Proof.
  intros rec.
  pose proof (getCertDNS01_records (World0 := ordering) manager range range (fun z => Permutation_refl _) (fun z => Permutation_refl _)
    [$"*.x.org"] start) as H.
  destruct (getCertDNS01 (World0 := ordering) manager range range [$"*.x.org"] start) as [r s'] eqn:E.
  vm_compute in E. injection E as <- <-. split; [reflexivity|].
  destruct H as (new & T & H & _). cbn [trace start app] in T. subst new. apply (H ($"x.org") [rec] rec); vm_compute; set_solver.
Defined.

Lemma getSingleCert_events_witness :
  events (trace (snd (getSingleCert manager ($"x.org") start))) = [$"obtaining"; $"failed"].
Proof.
  pose proof (getSingleCert_events manager eq_refl ($"x.org") start) as H.
  assert (fst (getSingleCert manager ($"x.org") start) = Err (EOther 400)) as Hr by (vm_compute; reflexivity).
  destruct (getSingleCert manager ($"x.org") start) as [r s']. cbn [fst] in Hr. subst r.
  destruct H as (new & T & [[H _]|[[H _]|[_ H]]]); [discriminate H|discriminate H|].
  cbn [snd]. rewrite T. exact H.
Defined.

Lemma saveCert_loadCert_witness :
  fst (loadCert ($"b.org") (snd (saveCert [$"a.org"; $"b.org"] (certToPEM cert) start))) = Ok cert.
Proof.
  apply (saveCert_loadCert (fun _ _ => True) cert [$"a.org"; $"b.org"] ($"b.org") start).
  - exists ($"k"), ($"d1"), [$"d2"], tt. repeat split.
  - right. left.
Defined.

Lemma getCertDNS01_silent_failure_witness :
  exists new, getCertDNS01 manager range range [$"x.org"] start =
    (Err (EOther 400), MkState (Some (MkClient tt LetsEncryptProduction)) new) /\ events new = [$"obtaining"].
Proof.
  apply (getCertDNS01_silent_failure manager range range [$"x.org"] (MkClient tt LetsEncryptProduction) (EOther 400) start);
    reflexivity.
Defined.
