(* ===== verification/Psutil.v ===== *)
(** * Package [psutil]: addresses and system totals

    [ipaddr.go], [cloud.go], [systat.go] and [mstat.go], over [Request].  What [gopsutil]
    and the runtime report is an argument; of what cannot be looked at [gopsutil] reports
    nothing, and reading a field of that panics. *)

From S2P Require Import Prelude GoStr GoText Request.

Local Open Scope Z_scope.

(** ** Public addresses ([ipaddr.go]) *)

Record addresses := MkAddr { publicIPv4 : bytes; publicIPv6 : bytes; net_of : net }.

Section public.
Variable url_Parse : bytes -> result unit.
Variable Do : list http_request -> http_request -> result (bytes * option error).
Variable order : Header -> list (bytes * bytes).

Definition on_net {A : Type} (p : State net A) : State addresses A := fun s =>
  let '(a, w) := p (net_of s) in (a, MkAddr (publicIPv4 s) (publicIPv6 s) w).

(** [TimingGet] with a map of its own that has the given entries. *)
Definition timing_get (url : bytes) (entries : list (bytes * bytes)) (timeout : Z) : State net bytes :=
  l ← make_map;
  (fun w => (tt, MkNet (<[l := list_to_map entries]> (maps w)) (sent w)));;
  TimingGet url_Parse Do order url (Some l) timeout.

Definition ip_url (v : bytes) : bytes := $"http://ipv" ++ v ++ $".rehi.org/ip".

(** The lock is released while the addresses are asked for: reading and storing are two
    critical sections. *)
Definition store_addresses (newV4 newV6 : bytes) : State addresses (bytes * bytes) := fun s =>
  let s' := MkAddr (if bool_decide (newV4 = []) then publicIPv4 s else newV4)
                   (if bool_decide (newV6 = []) then publicIPv6 s else newV6) (net_of s) in
  ((publicIPv4 s', publicIPv6 s'), s').

Definition PublicAddress (force : bool) : State addresses (bytes * bytes) := fun s =>
  if negb force && negb (bool_decide (publicIPv4 s = [])) && negb (bool_decide (publicIPv6 s = [])) then
    ((publicIPv4 s, publicIPv6 s), s)
  else
    (v4 ← on_net (timing_get (ip_url ($"4")) [] 10);
     v6 ← on_net (timing_get (ip_url ($"6")) [] 10);
     store_addresses (TrimSpace v4) (TrimSpace v6)) s.

(** ** The identity of a cloud instance ([cloud.go]) *)

Definition metadata_services : list (bytes * list (bytes * bytes)) :=
  [($"http://100.100.100.200/latest/meta-data/instance-id", []);
   ($"http://metadata.tencentyun.com/latest/meta-data/instance-id", []);
   ($"http://169.254.169.254/latest/meta-data/instance-id", []);
   ($"http://169.254.169.254/metadata/instance/compute/vmId?api-version=2021-01-01", [($"Metadata", $"true")]);
   ($"http://metadata.google.internal/computeMetadata/v1/instance/id", [($"Metadata-Flavor", $"Google")]);
   ($"http://169.254.169.254/metadata/v1/id", [])].

Fixpoint first_answer (services : list (bytes * list (bytes * bytes))) : State net bytes :=
  match services with
  | [] => mret []
  | (url, headers) :: rest =>
      mid ← timing_get url headers 3;
      if bool_decide (mid <> []) then mret (TrimSpace mid) else first_answer rest
  end.

Definition CloudInstanceID : State net bytes := first_answer metadata_services.
End public.

(** ** Totals ([systat.go]) *)

Record io_counters := MkIO {
  io_Name : bytes; BytesRecv : Z; BytesSent : Z; Dropin : Z; Dropout : Z
}.
Record NetInterface := MkNetInterface { ni_counters : io_counters; Ipv4List : list bytes; Ipv6List : list bytes }.
Record partition := MkPartition { Device : bytes; Mountpoint : bytes; Fstype : bytes }.
Record DiskPartition := MkDiskPartition { dp_partition : partition; Total : Z; Used : Z }.

(** [InterfaceAddrs] sorts the global unicast addresses of an interface, or of all of them
    where it has no name, by version; an address is its text, whether it is global unicast,
    and whether it is of version 4.  What the operating system reports are [net_all], the
    addresses of the machine, and [net_named], an interface with its addresses. *)
Record ip_addr := MkIP { ip_String : bytes; ip_Global : bool; ip_4 : bool }.

Definition or_none (r : result (list ip_addr)) : list ip_addr := match r with Ok l => l | Err _ => [] end.

Definition InterfaceAddrs (net_all : result (list ip_addr)) (net_named : bytes -> result (result (list ip_addr)))
    (name : bytes) : list bytes * list bytes :=
  let addrs := if bool_decide (name = []) then or_none net_all
               else match net_named name with Ok l => or_none l | Err _ => [] end in
  let globals := List.filter ip_Global addrs in
  (map ip_String (List.filter ip_4 globals), map ip_String (List.filter (fun a => negb (ip_4 a)) globals)).

(** What [gopsutil] reports at a call: of the host, the processors, the memory, the swap,
    the interfaces and the disks.  [Usage] is asked per mount point. *)
Record host_info := MkHost {
  HostID : bytes; Hostname : bytes; h_Uptime : Z; h_OS : bytes; h_Platform : bytes; h_KernelArch : bytes
}.
Record machine (F : Type) := MkMachine {
  mc_Now : Z; mc_Host : option host_info; mc_Logic : Z; mc_Cores : Z; mc_Percent : list F;
  mc_Memory : option (Z * Z);                    (* total and used *)
  mc_Models : list bytes; mc_Nets : list io_counters; mc_Disks : list (Z * Z); mc_Partitions : list partition;
  mc_Swap : option (Z * Z)
}.
Arguments MkMachine {F}. Arguments mc_Now {F}. Arguments mc_Host {F}. Arguments mc_Logic {F}.
Arguments mc_Cores {F}. Arguments mc_Percent {F}. Arguments mc_Memory {F}. Arguments mc_Models {F}.
Arguments mc_Nets {F}. Arguments mc_Disks {F}. Arguments mc_Partitions {F}. Arguments mc_Swap {F}.

Record SummaryStat (F : Type) := MkSummary {
  CreateAt : Z; HostId : bytes; HostName : bytes; Uptime : Z; OS : bytes; Platform : bytes; KernelArch : bytes;
  CPUCore : Z; CPUCoreLogic : Z; CpuPercent : list F; MemoryTotal : Z; MemoryUsed : Z;
  s_PublicIPv4 : bytes; s_PublicIPv6 : bytes
}.
Arguments MkSummary {F}. Arguments s_PublicIPv4 {F}. Arguments s_PublicIPv6 {F}.

Section detail.
Variable net_all : result (list ip_addr).
Variable net_named : bytes -> result (result (list ip_addr)).
Variable Usage : bytes -> option (Z * Z).                  (* of a mount point *)
Variable withAddr : bool.
Context {F : Type}.
Variable url_Parse : bytes -> result unit.
Variable Do : list http_request -> http_request -> result (bytes * option error).
Variable order : Header -> list (bytes * bytes).

Definition Summary (m : machine F) : State addresses (outcome (SummaryStat F)) :=
  match mc_Host m, mc_Memory m with
  | Some hi, Some (total, used) =>
      let stat := MkSummary (mc_Now m) (HostID hi) (Hostname hi) (h_Uptime hi) (h_OS hi) (h_Platform hi)
                    (h_KernelArch hi) (mc_Cores m) (mc_Logic m) (mc_Percent m) total used in
      if withAddr then
        ips ← PublicAddress url_Parse Do order false;
        mret (Ret (stat (fst ips) (snd ips)))
      else mret (Ret (stat [] []))
  | _, _ => mret Panic
  end.

Record net_totals := MkNetTotals { netInterface : list NetInterface; netBytesRecv : Z; netBytesSent : Z }.

Definition net_step (acc : net_totals) (nio : io_counters) : net_totals :=
  let ips := if withAddr then InterfaceAddrs net_all net_named (io_Name nio) else ([], []) in
  MkNetTotals
    (if (0 <? BytesRecv nio) || (0 <? BytesSent nio)
     then netInterface acc ++ [MkNetInterface nio (fst ips) (snd ips)] else netInterface acc)
    (u64 (netBytesRecv acc + BytesRecv nio)) (u64 (netBytesSent acc + BytesSent nio)).

Definition net_loop (ni : list io_counters) : net_totals := fold_left net_step ni (MkNetTotals [] 0 0).

Record disk_totals := MkDiskTotals {
  diskPartition : list DiskPartition; diskTotaled : bytes; diskTotal : Z; diskUsed : Z
}.

Definition disk_start : disk_totals := MkDiskTotals [] ($",") 0 0.

Definition disk_step (acc : disk_totals) (dpi : partition) (total used : Z) : disk_totals :=
  let parts := if (0 <? total) || (0 <? used)
               then diskPartition acc ++ [MkDiskPartition dpi total used] else diskPartition acc in
  if negb (Contains (diskTotaled acc) (Device dpi)) then
    MkDiskTotals parts (diskTotaled acc ++ Device dpi ++ $",") (u64 (diskTotal acc + total)) (u64 (diskUsed acc + used))
  else MkDiskTotals parts (diskTotaled acc) (diskTotal acc) (diskUsed acc).

Fixpoint disk_loop (acc : disk_totals) (dp : list partition) : outcome disk_totals :=
  match dp with
  | [] => Ret acc
  | dpi :: rest =>
      match Usage (Mountpoint dpi) with
      | None => Panic
      | Some (total, used) => disk_loop (disk_step acc dpi total used) rest
      end
  end.

(** The sums over the counters of the disks. *)
Definition io_sum (f : Z * Z -> Z) (di : list (Z * Z)) : Z := fold_left (fun s d => u64 (s + f d)) di 0.

Record DetailStat := MkDetail {
  d_Summary : SummaryStat F; CpuModel : list bytes; d_Net : net_totals; d_Disk : disk_totals;
  DiskReadBytes : Z; DiskWriteBytes : Z; SwapTotal : Z; SwapUsed : Z
}.

Definition Detail (m : machine F) : State addresses (outcome DetailStat) :=
  match disk_loop disk_start (mc_Partitions m) with
  | Panic => mret Panic
  | Ret disk =>
      summary ← Summary m;
      mret (match summary, mc_Swap m with
            | Ret summary, Some (total, used) =>
                Ret (MkDetail summary (mc_Models m) (net_loop (mc_Nets m)) disk
                       (io_sum fst (mc_Disks m)) (io_sum snd (mc_Disks m)) total used)
            | _, _ => Panic
            end)
  end.

(** With everything reported, [Summary] has an answer. *)
Lemma Summary_returns m s : is_Some (mc_Host m) -> is_Some (mc_Memory m) -> exists stat, fst (Summary m s) = Ret stat.
Proof.
  intros [hi Hh] [[t u] Hm]. unfold Summary. rewrite Hh, Hm. destruct withAddr; [|by eexists].
  unfold mbind, State_bind. destruct (PublicAddress _ _ _ _ s) as [ips s']. by eexists.
Qed.
End detail.

(** ** The memory of the program ([mstat.go]) *)

(** The fields of [runtime.MemStats] that are read, in the order of [GoMemoryStat]; the
    time of the last collection is in nanoseconds. *)
Record GoMemoryStat := MkGoMemory {
  Alloc : Z; Sys : Z; HeapAlloc : Z; HeapInuse : Z; HeapIdle : Z; HeapReleased : Z; HeapObjects : Z; HeapSys : Z;
  StackInuse : Z; StackSys : Z; TotalAlloc : Z; LastGC : Z; NumGC : Z
}.

Definition GoMemory (mstat : GoMemoryStat) : GoMemoryStat :=
  MkGoMemory (Alloc mstat) (Sys mstat) (HeapAlloc mstat) (HeapInuse mstat) (HeapIdle mstat) (HeapReleased mstat)
    (HeapObjects mstat) (HeapSys mstat) (StackInuse mstat) (StackSys mstat) (TotalAlloc mstat)
    (LastGC mstat / 1000000000) (NumGC mstat).

(** ** Each device counts once *)

Definition comma : ascii := ","%char.

(** The partitions whose device has not been seen. *)
Fixpoint first_of_device (seen : list bytes) (dp : list partition) : list partition :=
  match dp with
  | [] => []
  | p :: rest =>
      if decide (Device p ∈ seen) then first_of_device seen rest
      else p :: first_of_device (seen ++ [Device p]) rest
  end.

Definition usage_total (Usage : bytes -> option (Z * Z)) (p : partition) : Z :=
  match Usage (Mountpoint p) with Some (t, _) => t | None => 0 end.

Definition sum_total (Usage : bytes -> option (Z * Z)) (l : list partition) : Z :=
  foldr (fun p s => usage_total Usage p + s) 0 l.

(** The text of the devices counted. *)
Definition totaled (seen : list bytes) : bytes := [comma] ++ flat_map (fun d => d ++ [comma]) seen.

Lemma HasPrefix_before_sep a b sub c :
  c ∉ sub -> HasPrefix (a ++ c :: b) sub = HasPrefix a sub.
Proof.
  revert a. unfold HasPrefix. induction sub as [|x sub IH]; intros a Hc; [by destruct a|].
  apply not_elem_of_cons in Hc as [Hx Hc]. destruct a as [|y a]; cbn.
  - by rewrite decide_False.
  - destruct (decide (x = y)); [|done]. by apply IH.
Qed.

Lemma Contains_sep a b sub c : c ∉ sub -> Contains (a ++ c :: b) sub = Contains a sub || Contains b sub.
Proof.
  intros Hc. induction a as [|x a IH]; cbn [app Contains].
  - change (c :: b) with ([] ++ c :: b). rewrite HasPrefix_before_sep by done. by rewrite orb_false_r.
  - change (x :: a ++ c :: b) with ((x :: a) ++ c :: b). rewrite HasPrefix_before_sep by done.
    by rewrite IH, orb_assoc.
Qed.

Lemma Contains_nil sub : sub <> [] -> Contains [] sub = false.
Proof. by destruct sub. Qed.

Lemma Contains_totaled seen d :
  comma ∉ d -> d <> [] -> Contains (totaled seen) d = existsb (fun x => Contains x d) seen.
Proof.
  intros Hc Hd. unfold totaled. change ([comma] ++ ?l) with ([] ++ comma :: l).
  rewrite Contains_sep, Contains_nil by done. cbn [orb].
  induction seen as [|x seen IH]; cbn [flat_map existsb]; [by apply Contains_nil|].
  rewrite <- app_assoc. change ([comma] ++ ?l) with (comma :: l). by rewrite Contains_sep, IH.
Qed.

Lemma Contains_self s : Contains s s = true.
Proof. pose proof (Contains_app_mid [] s []) as H. by rewrite app_nil_r in H. Qed.

Lemma u64_add x y : u64 (u64 x + y) = u64 (x + y).
Proof. unfold u64. by rewrite Z.add_mod_idemp_l by lia. Qed.

(** Devices whose names are apart: none has a comma, none is in another. *)
Definition apart (dp : list partition) : Prop :=
  (forall p, p ∈ dp -> (comma ∉ Device p) /\ Device p <> []) /\
  (forall p1 p2, p1 ∈ dp -> p2 ∈ dp -> Contains (Device p1) (Device p2) = true -> Device p1 = Device p2).

Definition apart_b (dp : list partition) : bool :=
  forallb (fun p => bool_decide (comma ∉ Device p) && negb (bool_decide (Device p = [])) &&
     forallb (fun q => negb (Contains (Device p) (Device q)) || bool_decide (Device p = Device q)) dp) dp.

Lemma apart_check dp : apart_b dp = true -> apart dp.
Proof.
  unfold apart_b. rewrite forallb_forall. intros H. split.
  - intros p Hp%list_elem_of_In. specialize (H p Hp). apply andb_true_iff in H as [[H1 H2]%andb_true_iff _].
    apply bool_decide_eq_true in H1. apply negb_true_iff, bool_decide_eq_false in H2. by split.
  - intros p q Hp%list_elem_of_In Hq%list_elem_of_In Hc. specialize (H p Hp).
    apply andb_true_iff in H as [_ H]. rewrite forallb_forall in H. specialize (H q Hq).
    rewrite Hc in H. by apply bool_decide_eq_true in H.
Qed.

Section totals.
Variable Usage : bytes -> option (Z * Z).
Variable all : list partition.
Hypothesis Hall : apart all.
Hypothesis Huse : forall p, p ∈ all -> is_Some (Usage (Mountpoint p)).

Lemma counted_iff seen p :
  p ∈ all -> (forall d, d ∈ seen -> exists q, q ∈ all /\ Device q = d) ->
  Contains (totaled seen) (Device p) = bool_decide (Device p ∈ seen).
Proof.
  intros Hp Hs. destruct Hall as [H1 H2]. destruct (H1 p Hp) as [Hc Hne].
  rewrite Contains_totaled by done. apply eq_true_iff_eq. rewrite existsb_exists, bool_decide_eq_true.
  setoid_rewrite <- list_elem_of_In. split.
  - intros (x & Hx & Hcon). destruct (Hs x Hx) as (q & Hq & <-). by rewrite <- (H2 q p Hq Hp Hcon).
  - intros Hin. exists (Device p). split; [done|apply Contains_self].
Qed.

Lemma disk_loop_spec dp seen acc T U :
  (forall p, p ∈ dp -> p ∈ all) -> (forall d, d ∈ seen -> exists q, q ∈ all /\ Device q = d) ->
  diskTotaled acc = totaled seen -> diskTotal acc = u64 T -> diskUsed acc = u64 U ->
  exists acc', disk_loop Usage acc dp = Ret acc' /\
    diskTotal acc' = u64 (T + foldr (fun p s => match Usage (Mountpoint p) with Some (t, _) => t | None => 0 end + s) 0
                              (first_of_device seen dp)) /\
    diskUsed acc' = u64 (U + foldr (fun p s => match Usage (Mountpoint p) with Some (_, u) => u | None => 0 end + s) 0
                              (first_of_device seen dp)).
Proof.
  revert seen acc T U. induction dp as [|p dp IH]; intros seen acc T U Hdp Hs Htd HT HU.
  - exists acc. cbn [disk_loop first_of_device foldr]. rewrite !Z.add_0_r. split; [done|]. by split.
  - assert (p ∈ all) as Hp by (apply Hdp; set_solver).
    cbn [disk_loop first_of_device]. destruct (Huse p Hp) as [[t u] Htu]. rewrite Htu.
    unfold disk_step at 1. rewrite Htd, counted_iff by done.
    destruct (decide (Device p ∈ seen)) as [Hin|Hin].
    + rewrite bool_decide_eq_true_2 by done. cbn [negb]. apply IH; try done. intros; apply Hdp; set_solver.
    + rewrite bool_decide_eq_false_2 by done. cbn [negb foldr]. rewrite Htu.
      destruct (IH (seen ++ [Device p]) (MkDiskTotals
        (if (0 <? t) || (0 <? u) then diskPartition acc ++ [MkDiskPartition p t u] else diskPartition acc)
        (totaled seen ++ Device p ++ $",") (u64 (diskTotal acc + t)) (u64 (diskUsed acc + u))) (T + t) (U + u))
        as (acc' & E & H1 & H2).
      * intros; apply Hdp; set_solver.
      * intros d [Hd|Hd]%elem_of_app; [by apply Hs|]. apply list_elem_of_singleton in Hd as ->. by exists p.
      * cbn. unfold totaled. rewrite flat_map_app. cbn. by rewrite app_nil_r.
      * cbn. by rewrite HT, u64_add.
      * cbn. by rewrite HU, u64_add.
      * exists acc'. split; [done|]. rewrite H1, H2. split; f_equal; lia.
Qed.
End totals.

(** When every mount point can be looked at and the names of the devices are apart,
    [Detail] sums the sizes of the first partition of each device, as 64-bit numbers:
    a device that is mounted twice counts once. *)
Theorem Detail_disk_totals {F} all named Usage withAddr url_Parse Do order (m : machine F) s :
  apart (mc_Partitions m) -> (forall p, p ∈ mc_Partitions m -> is_Some (Usage (Mountpoint p))) ->
  is_Some (mc_Host m) -> is_Some (mc_Memory m) -> is_Some (mc_Swap m) ->
  exists stat, fst (Detail all named Usage withAddr url_Parse Do order m s) = Ret stat /\
    diskTotal (d_Disk stat) = u64 (sum_total Usage (first_of_device [] (mc_Partitions m))).
Proof.
  intros Ha Hu Hh Hm [[t u] Hw].
  destruct (disk_loop_spec Usage (mc_Partitions m) Ha Hu (mc_Partitions m) [] disk_start 0 0) as (acc & E & HT & _);
    [done|by intros d ?%not_elem_of_nil|reflexivity..|].
  destruct (Summary_returns withAddr url_Parse Do order m s Hh Hm) as [sm Hs].
  unfold Detail. rewrite E, Hw. unfold mbind, State_bind. destruct (Summary _ _ _ _ m s) as [r s']. cbn in Hs. subst r.
  eexists. split; [reflexivity|]. cbn [d_Disk]. rewrite HT. f_equal.
Qed.

(** A machine with the given partitions. *)
Definition with_partitions (dp : list partition) : machine unit :=
  MkMachine 0 (Some (MkHost [] ($"web-1") 60 ($"linux") ($"debian") ($"x86_64"))) 4 2 [] (Some (8, 3)) [] [] [] dp (Some (0, 0)).
Definition detail_of (Usage : bytes -> option (Z * Z)) (dp : list partition) : outcome DetailStat :=
  fst (Detail (Ok []) (fun _ => Ok (Ok [])) Usage false (fun _ => Ok tt) (fun _ _ => Ok ([], None)) map_to_list (with_partitions dp)
         (MkAddr [] [] (MkNet ∅ []))).

Lemma Detail_disk_totals_witness :
  let u (m : bytes) := Some (if bool_decide (m = $"/boot") then (5, 1) else (100, 40)) in
  let dp := [MkPartition ($"/dev/sda1") ($"/") ($"ext4"); MkPartition ($"/dev/sdb1") ($"/boot") ($"ext4");
             MkPartition ($"/dev/sda1") ($"/home") ($"ext4")] in
  exists stat, detail_of u dp = Ret stat /\ diskTotal (d_Disk stat) = 105.
Proof.
  intros u dp. destruct (Detail_disk_totals (Ok []) (fun _ => Ok (Ok [])) u false (fun _ => Ok tt) (fun _ _ => Ok ([], None)) map_to_list
    (with_partitions dp) (MkAddr [] [] (MkNet ∅ []))) as (stat & E & H);
    [..|exists stat; split; [exact E|rewrite H; vm_compute; reflexivity]].
  - apply apart_check. vm_compute. reflexivity.
  - intros p _. by eexists.
  - by eexists.
  - by eexists.
  - by eexists.
Defined.

(** A device whose name begins the name of one before it is left out. *)
Example Detail_drops_device :
  let u (m : bytes) := Some (if bool_decide (m = $"/a") then (100, 1) else (7, 1)) in
  match detail_of u
    [MkPartition ($"/dev/sda10") ($"/a") ($"ext4"); MkPartition ($"/dev/sda1") ($"/b") ($"ext4")] with
  | Ret stat => diskTotal (d_Disk stat) = 100 /\ length (diskPartition (d_Disk stat)) = 2%nat
  | Panic => False
  end.
Proof. vm_compute. split; reflexivity. Qed.

(** One mount point that cannot be looked at makes [Detail] panic, before anything else is
    asked for. *)
Theorem Detail_panics {F} all named Usage withAddr url_Parse Do order (m : machine F) p s :
  p ∈ mc_Partitions m -> Usage (Mountpoint p) = None ->
  Detail all named Usage withAddr url_Parse Do order m s = (Panic, s).
Proof.
  intros Hp Hu. unfold Detail.
  assert (forall acc, disk_loop Usage acc (mc_Partitions m) = Panic) as ->; [|done].
  induction Hp as [p dp|p q dp _ IH]; intros acc; cbn [disk_loop]; [by rewrite Hu|].
  destruct (Usage (Mountpoint q)) as [[t u]|]; [by apply IH|done].
Qed.

Lemma Detail_panics_witness :
  detail_of (fun m => if bool_decide (m = $"/mnt/gone") then None else Some (1, 1))
    [MkPartition ($"/dev/sda1") ($"/") ($"ext4"); MkPartition ($"host:/x") ($"/mnt/gone") ($"nfs")] = Panic.
Proof.
  unfold detail_of. rewrite (Detail_panics _ _ _ _ _ _ _ _ (MkPartition ($"host:/x") ($"/mnt/gone") ($"nfs"))).
  - reflexivity.
  - right. left.
  - reflexivity.
Defined.

(** [Summary] reads the fields of what may be missing: without a report on the memory it
    panics, and so does [Detail]. *)
Lemma Summary_panics {F} withAddr url_Parse Do order (m : machine F) s :
  mc_Memory m = None -> Summary withAddr url_Parse Do order m s = (Panic, s).
Proof. intros H. unfold Summary. rewrite H. by destruct (mc_Host m). Qed.

(** ** The cache of addresses *)

(** [PublicAddress] never forgets an address: what it returns and keeps is not empty
    where an address was known, and with both known it asks nobody unless forced. *)
Theorem PublicAddress_keeps url_Parse Do order force s :
  let '(r, s') := PublicAddress url_Parse Do order force s in
  r = (publicIPv4 s', publicIPv6 s') /\
  (publicIPv4 s <> [] -> publicIPv4 s' <> []) /\ (publicIPv6 s <> [] -> publicIPv6 s' <> []) /\
  (force = false -> publicIPv4 s <> [] -> publicIPv6 s <> [] -> s' = s).
Proof.
  unfold PublicAddress. destruct (negb force && _ && _) eqn:E; [done|].
  assert (forall A (p : State net A), let '(_, s1) := on_net p s in
            publicIPv4 s1 = publicIPv4 s /\ publicIPv6 s1 = publicIPv6 s) as Hn.
  { intros A p. unfold on_net. by destruct (p (net_of s)). }
  unfold mbind, State_bind.
  destruct (on_net _ s) as [v4 s1] eqn:E1. pose proof (Hn _ (timing_get url_Parse Do order (ip_url ($"4")) [] 10)) as H1.
  rewrite E1 in H1. destruct H1 as [H14 H16].
  destruct (on_net _ s1) as [v6 s2] eqn:E2. unfold on_net in E2. destruct (timing_get _ _ _ _ _ _ (net_of s1)) as [a w].
  injection E2 as <- <-. unfold store_addresses. cbn [publicIPv4 publicIPv6 net_of]. split; [done|].
  rewrite H14, H16. split; [|split].
  - clear E. case_bool_decide; auto.
  - clear E. case_bool_decide; auto.
  - intros -> Hv4 Hv6. rewrite !bool_decide_eq_false_2 in E by done. done.
Qed.
