(* ===== verification/GoFloat.v ===== *)
(** * Binary floating point and [strconv.ParseFloat]

    A [float64] is a sign with a dyadic number [m * 2^e], an infinity or not a number.
    Every operation computes the exact rational and rounds it once, to the nearest value
    and to the even one of two; [ParseFloat] reads the decimal and hexadecimal syntax. *)

From S2P Require Import Prelude GoStr.

Local Open Scope Z_scope.

Inductive float64 :=
  | Finite (neg : bool) (m e : Z)
  | Inf (neg : bool)
  | NaN.

#[export] Instance float64_eq_dec : EqDecision float64.
Proof. solve_decision. Defined.

(** ** Rounding *)

(** The integer nearest to [n / d], the even one of two. *)
Definition round_half_even (n d : Z) : Z :=
  let q := n / d in
  let r := n mod d in
  if 2 * r <? d then q
  else if d <? 2 * r then q + 1
  else if Z.even q then q else q + 1.

(** The largest [k] with [2^k <= n / d]. *)
Definition exponent (n d : Z) : Z :=
  let k := Z.log2 n - Z.log2 d in
  if d * 2 ^ Z.max 0 k <=? n * 2 ^ Z.max 0 (- k) then k else k - 1.

(** The least exponent of a value, and the bits of a significand after the first. *)
Definition emin : Z := -1074.
Definition frac_bits : Z := 52.

Definition round64 (neg : bool) (n d : Z) : float64 :=
  if n =? 0 then Finite neg 0 0
  else
    let e := Z.max emin (exponent n d - frac_bits) in
    let m := round_half_even (n * 2 ^ Z.max 0 (- e)) (d * 2 ^ Z.max 0 e) in
    if 1024 <=? Z.log2 m + e then Inf neg else Finite neg m e.

Definition float_of_Z (z : Z) : float64 := round64 (z <? 0) (Z.abs z) 1.

(** ** Arithmetic, as far as the packages use it *)

(** A product with a positive integer that is a value itself. *)
Definition mul_Z (f : float64) (k : Z) : float64 :=
  match f with
  | Finite neg m e => round64 neg (m * k * 2 ^ Z.max 0 e) (2 ^ Z.max 0 (- e))
  | Inf neg => Inf neg
  | NaN => NaN
  end.

(** A quotient by such an integer. *)
Definition div_Z (f : float64) (k : Z) : float64 :=
  match f with
  | Finite neg m e => round64 neg (m * 2 ^ Z.max 0 e) (k * 2 ^ Z.max 0 (- e))
  | Inf neg => Inf neg
  | NaN => NaN
  end.

Definition ge_zero (f : float64) : bool :=
  match f with
  | Finite neg m _ => negb neg || (m =? 0)
  | Inf neg => negb neg
  | NaN => false
  end.

(** The integer part, towards zero. *)
Definition truncate (f : float64) : option Z :=
  match f with
  | Finite neg m e => Some ((if neg then Z.opp else id) (m * 2 ^ Z.max 0 e / 2 ^ Z.max 0 (- e)))
  | _ => None
  end.

(** The conversion to [uint64]: the language leaves the result open where the integer
    part is not one; [other] is what the machine gives there. *)
Definition to_uint64 (other : float64 -> Z) (f : float64) : Z :=
  match truncate f with
  | Some z => if decide (in_u64 z) then z else other f
  | None => other f
  end.

(** ** [strconv.ParseFloat] *)

Definition ErrSyntax : error := ESentinel ($"invalid syntax").
Definition ErrRange : error := ESentinel ($"value out of range").

Definition underscore : ascii := "_"%char.
Definition point : ascii := "."%char.

Definition hex_letter (c : ascii) : bool := (97 <=? code (lower1 c)) && (code (lower1 c) <=? 102).

Definition digit_of (hex : bool) (c : ascii) : option Z :=
  if is_digit c then Some (digit_val c)
  else if hex && hex_letter c then Some (code (lower1 c) - 87)
  else None.

Definition base_of (hex : bool) : Z := if hex then 16 else 10.

(** The digits of the mantissa, with at most one point: the number they make without it,
    how many follow it, whether there are any, and the rest of the text. *)
Fixpoint mantissa (hex sawdot sawdigits : bool) (m frac : Z) (s : bytes) : Z * Z * bool * bytes :=
  match s with
  | [] => (m, frac, sawdigits, [])
  | c :: s' =>
      if bool_decide (c = underscore) then mantissa hex sawdot sawdigits m frac s'
      else if bool_decide (c = point) then
        if sawdot then (m, frac, sawdigits, s) else mantissa hex true sawdigits m frac s'
      else
        match digit_of hex c with
        | Some v => mantissa hex sawdot true (base_of hex * m + v) (if sawdot then frac + 1 else frac) s'
        | None => (m, frac, sawdigits, s)
        end
  end.

(** The digits of the exponent; past 10000 they are not counted. *)
Fixpoint exp_digits (e : Z) (s : bytes) : Z * bytes :=
  match s with
  | [] => (e, [])
  | c :: s' =>
      if bool_decide (c = underscore) then exp_digits e s'
      else if is_digit c then exp_digits (if e <? 10000 then 10 * e + digit_val c else e) s'
      else (e, s)
  end.

(** An optional sign. *)
Definition split_sign (s : bytes) : bool * bytes :=
  match s with
  | c :: r =>
      if bool_decide (c = "-"%char) then (true, r)
      else if bool_decide (c = "+"%char) then (false, r)
      else (false, s)
  | [] => (false, [])
  end.

Definition exponent_part (s : bytes) : option (Z * bytes) :=
  let '(neg, r) := split_sign s in
  match r with
  | c :: _ =>
      if is_digit c then
        let '(e, rest) := exp_digits 0 r in Some (if neg then - e else e, rest)
      else None
  | [] => None
  end.

(** Underscores stand between digits, or after a base prefix. *)
Inductive previous := AtStart | Digit | Underscore | Other.

Fixpoint underscores_ok (hex : bool) (prev : previous) (s : bytes) : bool :=
  match s with
  | [] => match prev with Underscore => false | _ => true end
  | c :: s' =>
      if is_digit c || (hex && hex_letter c) then underscores_ok hex Digit s'
      else if bool_decide (c = underscore) then
        match prev with Digit => underscores_ok hex Underscore s' | _ => false end
      else
        match prev with Underscore => false | _ => underscores_ok hex Other s' end
  end.

(** The text after a base prefix. *)
Definition hex_prefix (s : bytes) : option bytes :=
  match s with
  | z :: x :: r =>
      if bool_decide (z = "0"%char) && bool_decide (lower1 x = "x"%char) then Some r else None
  | _ => None
  end.

(** The sign, with the magnitude as a fraction. *)
Definition read_float (s : bytes) : option (bool * Z * Z) :=
  let '(neg, r) := split_sign s in
  let '(hex, r) := match hex_prefix r with
                   | Some (c :: r') => (true, c :: r')
                   | _ => (false, r)
                   end in
  let '(m, frac, sawdigits, rest) := mantissa hex false false 0 0 r in
  if negb sawdigits || negb (underscores_ok hex (if hex then Digit else AtStart) r) then None
  else
    match rest with
    | [] =>
        if hex then None else Some (neg, m, 10 ^ frac)
    | c :: rest' =>
        if bool_decide (lower1 c = if hex then "p"%char else "e"%char) then
          match exponent_part rest' with
          | Some (e, []) =>
              if hex then
                let e := e - 4 * frac in Some (neg, m * 2 ^ Z.max 0 e, 2 ^ Z.max 0 (- e))
              else
                let e := e - frac in Some (neg, m * 10 ^ Z.max 0 e, 10 ^ Z.max 0 (- e))
          | _ => None
          end
        else None
    end.

Definition infinities : list bytes := [$"inf"; $"infinity"].

(** [inf], [infinity] and [nan], in any case. *)
Definition special (s : bytes) : option float64 :=
  let '(neg, r) := split_sign s in
  if decide (ToLower r ∈ infinities) then Some (Inf neg)
  else if bool_decide (ToLower s = $"nan") then Some NaN
  else None.

(** The value is meaningful with an error too: zero for another syntax, an infinity for
    a number too large. *)
Definition ParseFloat (s : bytes) : float64 * option error :=
  match special s with
  | Some f => (f, None)
  | None =>
      match read_float s with
      | None => (Finite false 0 0, Some ErrSyntax)
      | Some (neg, n, d) =>
          let f := round64 neg n d in
          (f, match f with Inf _ => Some ErrRange | _ => None end)
      end
  end.

Example parse_half : ParseFloat ($"-2.5e0") = (Finite true 5629499534213120 (-51), None). Proof. vm_compute. reflexivity. Qed.
Example parse_tie : fst (ParseFloat ($"9007199254740993")) = fst (ParseFloat ($"9007199254740992")). Proof. vm_compute. reflexivity. Qed.
Example parse_hex : truncate (fst (ParseFloat ($"0x1_8p1"))) = Some 48. Proof. vm_compute. reflexivity. Qed.
Example parse_inf : ParseFloat ($"1e400") = (Inf false, Some ErrRange). Proof. vm_compute. reflexivity. Qed.
Example parse_na : ParseFloat ($"[N/A]") = (Finite false 0 0, Some ErrSyntax). Proof. vm_compute. reflexivity. Qed.
Example parse_tiny : ParseFloat ($"5e-324") = (Finite false 1 (-1074), None). Proof. vm_compute. reflexivity. Qed.

(** ** What is represented is exact *)

Lemma round_half_even_exact q d : 0 < d -> round_half_even (q * d) d = q.
Proof.
  intros Hd. unfold round_half_even. rewrite Z.div_mul, Z_mod_mult by lia.
  destruct (Z.ltb_spec (2 * 0) d); [done|lia].
Qed.

Lemma pow2_pos k : 0 <= k -> 0 < 2 ^ k.
Proof. intros H. apply Z.pow_pos_nonneg; lia. Qed.

Lemma exponent_le n d : 0 < n -> 0 < d ->
  d * 2 ^ Z.max 0 (exponent n d) <= n * 2 ^ Z.max 0 (- exponent n d).
Proof.
  intros Hn Hd. unfold exponent. destruct (Z.leb_spec (d * 2 ^ Z.max 0 (Z.log2 n - Z.log2 d))
    (n * 2 ^ Z.max 0 (- (Z.log2 n - Z.log2 d)))) as [H|_]; [done|].
  destruct (Z.log2_spec n Hn) as [Hln _], (Z.log2_spec d Hd) as [_ Hld].
  pose proof (Z.log2_nonneg n). pose proof (Z.log2_nonneg d).
  set (a := Z.log2 n) in *. set (b := Z.log2 d) in *. set (k := a - b - 1).
  pose proof (pow2_pos (Z.max 0 k) ltac:(lia)). pose proof (pow2_pos (Z.max 0 (- k)) ltac:(lia)).
  transitivity (2 ^ Z.succ b * 2 ^ Z.max 0 k); [nia|].
  transitivity (2 ^ a * 2 ^ Z.max 0 (- k)); [|nia].
  rewrite <- !Z.pow_add_r by lia. apply Z.pow_le_mono_r; lia.
Qed.

(** The magnitude of a finite value, in units of the least positive one. *)
Definition units (m e : Z) : Z := m * 2 ^ (e - emin).

Lemma exact_exponent n d a k :
  0 < n -> 0 < d -> 0 <= a < 2 ^ 53 -> emin <= k -> n * 2 ^ (- emin) = units a k * d ->
  Z.max emin (exponent n d - frac_bits) <= k.
Proof.
  unfold units, frac_bits. intros Hn Hd Ha Hk Heq. pose proof (exponent_le n d Hn Hd) as HE.
  set (E := exponent n d) in *. destruct (Z.le_gt_cases E (k + 52)) as [|HEk]; [lia|exfalso].
  pose proof (pow2_pos (- emin) ltac:(by unfold emin)) as Hs.
  pose proof (pow2_pos (Z.max 0 (- E)) ltac:(lia)) as Hp.
  assert (d * 2 ^ Z.max 0 E * 2 ^ (- emin) <= units a k * d * 2 ^ Z.max 0 (- E)) as H1
    by (unfold units; rewrite <- Heq; nia).
  assert (2 ^ Z.max 0 E * 2 ^ (- emin) <= a * (2 ^ (k - emin) * 2 ^ Z.max 0 (- E))) as H2
    by (unfold units in H1; nia).
  rewrite <- !Z.pow_add_r in H2 by (unfold emin in *; lia).
  pose proof (pow2_pos (k - emin + Z.max 0 (- E)) ltac:(lia)) as Hq.
  assert (2 ^ (Z.max 0 E + - emin) < 2 ^ (53 + (k - emin + Z.max 0 (- E)))) as H3.
  { rewrite (Z.pow_add_r 2 53) by lia. nia. }
  apply Z.pow_lt_mono_r_iff in H3; unfold emin in *; lia.
Qed.

(** A fraction that is a value is not rounded. *)
Lemma round64_exact neg n d a k :
  0 <= n -> 0 < d -> 0 <= a < 2 ^ 53 -> emin <= k -> n * 2 ^ (- emin) = units a k * d ->
  units a k < 2 ^ (1024 - emin) ->
  exists m e, round64 neg n d = Finite neg m e /\ 0 <= m /\ emin <= e /\ units m e = units a k.
Proof.
  intros Hn Hd Ha Hk Heq Hmax. unfold round64.
  destruct (Z.eqb_spec n 0) as [->|Hne].
  { exists 0, 0. split; [done|]. split; [lia|]. split; [unfold emin; lia|]. unfold units in *. nia. }
  pose proof (exact_exponent n d a k ltac:(lia) Hd Ha Hk Heq) as He.
  set (e := Z.max emin _) in *. assert (emin <= e) as Hee by lia. clearbody e.
  assert (0 < a) as Ha0.
  { unfold units in Heq. pose proof (pow2_pos (- emin) ltac:(by unfold emin)). nia. }
  assert (n * 2 ^ Z.max 0 (- e) = a * 2 ^ (k - e) * (d * 2 ^ Z.max 0 e)) as ->.
  { apply (Z.mul_cancel_r _ _ (2 ^ (- emin))); [by unfold emin|].
    transitivity (units a k * d * 2 ^ Z.max 0 (- e)); [rewrite <- Heq; ring|]. unfold units.
    replace (k - emin) with (k - e + (e - emin)) by lia. rewrite Z.pow_add_r by lia.
    transitivity (a * 2 ^ (k - e) * d * (2 ^ (e - emin) * 2 ^ Z.max 0 (- e))); [ring|].
    transitivity (a * 2 ^ (k - e) * d * (2 ^ Z.max 0 e * 2 ^ (- emin))); [|ring].
    rewrite <- !Z.pow_add_r by (unfold emin in *; lia). do 2 f_equal. lia. }
  rewrite round_half_even_exact by (pose proof (pow2_pos (Z.max 0 e) ltac:(lia)); nia).
  assert (units (a * 2 ^ (k - e)) e = units a k) as Hu.
  { unfold units. rewrite <- Z.mul_assoc, <- Z.pow_add_r by lia. do 2 f_equal. lia. }
  destruct (Z.leb_spec 1024 (Z.log2 (a * 2 ^ (k - e)) + e)) as [Hbig|_].
  - exfalso. rewrite Z.log2_mul_pow2 in Hbig by lia. pose proof (proj1 (Z.log2_spec a Ha0)) as Hl.
    assert (2 ^ (1024 - emin) <= units a k); [|lia]. unfold units.
    transitivity (2 ^ Z.log2 a * 2 ^ (k - emin)).
    + rewrite <- Z.pow_add_r by (pose proof (Z.log2_nonneg a); lia). apply Z.pow_le_mono_r; lia.
    + pose proof (pow2_pos (k - emin) ltac:(lia)). nia.
  - exists (a * 2 ^ (k - e)), e. split; [done|]. split; [|done]. pose proof (pow2_pos (k - e) ltac:(lia)). nia.
Qed.

(** A float that is the non-negative integer [n]. *)
Definition is_value (f : float64) (n : Z) : Prop :=
  exists m e, f = Finite false m e /\ 0 <= m /\ emin <= e /\ units m e = n * 2 ^ (- emin).

Lemma is_value_round n d v a j :
  0 <= n -> 0 < d -> 0 <= a < 2 ^ 53 -> 0 <= j -> v = a * 2 ^ j -> n = v * d -> v < 2 ^ 1024 ->
  is_value (round64 false n d) v.
Proof.
  intros Hn Hd Ha Hj -> -> Hmax.
  assert (units a j = a * 2 ^ j * 2 ^ (- emin)) as Hu.
  { unfold units. rewrite <- Z.mul_assoc, <- Z.pow_add_r by (unfold emin; lia). done. }
  destruct (round64_exact false (a * 2 ^ j * d) d a j) as (m & e & -> & Hm & He & Hv); [done..|unfold emin; lia| | |].
  - rewrite Hu. ring.
  - rewrite Hu. unfold Z.sub. rewrite Z.pow_add_r by (unfold emin; lia).
    pose proof (pow2_pos (- emin) ltac:(by unfold emin)). nia.
  - exists m, e. by rewrite Hv.
Qed.

Lemma value_fraction m e n :
  emin <= e -> units m e = n * 2 ^ (- emin) -> m * 2 ^ Z.max 0 e = n * 2 ^ Z.max 0 (- e).
Proof.
  intros He H. apply (Z.mul_cancel_r _ _ (2 ^ (- emin))); [by unfold emin|].
  transitivity (units m e * 2 ^ Z.max 0 (- e)).
  - unfold units. rewrite <- !Z.mul_assoc, <- !Z.pow_add_r by (unfold emin in *; lia). do 2 f_equal. lia.
  - rewrite H. ring.
Qed.

Lemma truncate_value f n : is_value f n -> truncate f = Some n.
Proof.
  intros (m & e & -> & _ & He & Hu). cbn [truncate id]. rewrite (value_fraction _ _ _ He Hu).
  by rewrite Z.div_mul by (pose proof (pow2_pos (Z.max 0 (- e)) ltac:(lia)); lia).
Qed.

Lemma mul_Z_value f n a j i :
  is_value f n -> 0 <= a < 2 ^ 53 -> 0 <= j -> n = a * 2 ^ j -> 0 <= i -> n * 2 ^ i < 2 ^ 1024 ->
  is_value (mul_Z f (2 ^ i)) (n * 2 ^ i).
Proof.
  intros (m & e & -> & Hm & He & Hu) Ha Hj Hn Hi Hmax. cbn [mul_Z].
  pose proof (value_fraction _ _ _ He Hu) as Hf. pose proof (pow2_pos i Hi).
  pose proof (pow2_pos (Z.max 0 e) ltac:(lia)).
  apply (is_value_round _ _ _ a (j + i)); [nia|apply pow2_pos; lia|done|lia| |nia|done].
  rewrite Hn, Z.pow_add_r by lia. ring.
Qed.

(** ** Decimal integers *)

Definition all_digits (s : bytes) : Prop := Forall (fun c => is_digit c = true) s.

Definition dec_value (m : Z) (s : bytes) : Z := fold_left (fun m c => 10 * m + digit_val c) s m.

Lemma digit_spec n : 0 <= n < 10 -> is_digit (digit n) = true /\ digit_val (digit n) = n.
Proof. intros H. unfold is_digit, digit_val. rewrite code_digit by done. split; lia. Qed.

Lemma itoa_digits_spec fuel n acc :
  0 <= n < 2 ^ Z.of_nat fuel -> (0 < fuel)%nat ->
  exists ds, itoa_digits fuel n acc = ds ++ acc /\ all_digits ds /\ ds <> [] /\ dec_value 0 ds = n.
Proof.
  revert n acc. induction fuel as [|fuel IH]; intros n acc Hn Hf; [lia|]. cbn [itoa_digits].
  pose proof (digit_spec (n mod 10) (Z.mod_pos_bound n 10 ltac:(lia))) as [Hd Hv].
  destruct (Z.ltb_spec n 10) as [Hlt|Hge].
  - exists [digit (n mod 10)]. split; [done|]. split; [by repeat constructor|]. split; [done|].
    cbn. rewrite Hv, Z.mod_small by lia. lia.
  - rewrite Nat2Z.inj_succ, Z.pow_succ_r in Hn by lia.
    assert (0 <= n / 10 < 2 ^ Z.of_nat fuel) as Hq.
    { split; [apply Z.div_pos; lia|]. apply Z.div_lt_upper_bound; [lia|].
      pose proof (pow2_pos (Z.of_nat fuel) ltac:(lia)). lia. }
    destruct (IH (n / 10) (digit (n mod 10) :: acc) Hq) as (ds & E & Hds & Hne & Hval).
    { destruct fuel; [|lia]. cbn in Hq. assert (1 <= n / 10) by (apply Z.div_le_lower_bound; lia). lia. }
    exists (ds ++ [digit (n mod 10)]). split; [by rewrite E, <- app_assoc|].
    split; [apply Forall_app; split; [done|by repeat constructor]|].
    split; [by destruct ds|]. unfold dec_value in *. rewrite fold_left_app, Hval. cbn. rewrite Hv.
    pose proof (Z.div_mod n 10 ltac:(lia)). lia.
Qed.

Lemma Itoa_digits n :
  0 <= n -> all_digits (Itoa n) /\ Itoa n <> [] /\ dec_value 0 (Itoa n) = n.
Proof.
  intros Hn. unfold Itoa. destruct (Z.ltb_spec n 0) as [|_]; [lia|].
  destruct (itoa_digits_spec (S (Z.to_nat (Z.log2 (Z.abs n)))) n []) as (ds & -> & H1 & H2 & H3); [|lia|].
  - split; [done|]. rewrite Nat2Z.inj_succ, Z2Nat.id by apply Z.log2_nonneg. rewrite Z.abs_eq by done.
    destruct (Z.eq_dec n 0) as [->|]; [done|]. by apply Z.log2_spec; lia.
  - by rewrite app_nil_r.
Qed.

(** A digit is none of the other characters of the syntax. *)
Lemma digit_not c x : is_digit c = true -> is_digit x = false -> c <> x.
Proof. by intros H1 H2 ->; rewrite H1 in H2. Qed.

Lemma digit_lower c : is_digit c = true -> lower1 c = c.
Proof.
  unfold is_digit, lower1, is_upper. intros [H1 H2]%andb_true_iff.
  destruct (Z.leb_spec 65 (code c)); [lia|]. done.
Qed.

Lemma mantissa_digits sawdigits m s :
  all_digits s -> mantissa false false sawdigits m 0 s =
    (dec_value m s, 0, if bool_decide (s = []) then sawdigits else true, []).
Proof.
  intros Hs. revert sawdigits m. induction Hs as [|c s Hc Hs IH]; intros sawdigits m; [done|].
  cbn [mantissa]. rewrite !bool_decide_eq_false_2 by (by apply digit_not). unfold digit_of. rewrite Hc.
  rewrite IH. cbn [dec_value fold_left]. by destruct s.
Qed.

Lemma underscores_digits prev s :
  all_digits s -> prev <> Underscore -> underscores_ok false prev s = true.
Proof.
  intros Hs. revert prev. induction Hs as [|c s Hc Hs IH]; intros prev Hp; [by destruct prev|].
  cbn [underscores_ok]. rewrite Hc. cbn [orb]. by apply IH.
Qed.

Lemma split_sign_digits s : all_digits s -> split_sign s = (false, s).
Proof.
  intros Hs. destruct Hs as [|c s Hc Hs]; [done|]. unfold split_sign.
  by rewrite !bool_decide_eq_false_2 by (by apply digit_not).
Qed.

Lemma ToLower_digits s : all_digits s -> ToLower s = s.
Proof. intros Hs. induction Hs as [|c s Hc Hs IH]; [done|].
  change (ToLower (c :: s)) with (lower1 c :: ToLower s). by rewrite digit_lower, IH.
Qed.

Lemma special_digits s : all_digits s -> special s = None.
Proof.
  intros Hs. unfold special. rewrite split_sign_digits by done. cbv beta iota. rewrite ToLower_digits by done.
  assert (forall x t, is_digit x = false -> s <> x :: t) as H.
  { intros x t Hx ->. apply Forall_cons in Hs as [Hc _]. by rewrite Hc in Hx. }
  rewrite decide_False, bool_decide_eq_false_2; [done|by apply H|].
  unfold infinities. rewrite !not_elem_of_cons. repeat split; [by apply H..|by apply not_elem_of_nil].
Qed.

Lemma ParseFloat_digits s :
  all_digits s -> s <> [] -> ParseFloat s =
    (let f := round64 false (dec_value 0 s) 1 in (f, match f with Inf _ => Some ErrRange | _ => None end)).
Proof.
  intros Hs Hne. unfold ParseFloat, read_float. rewrite special_digits, split_sign_digits by done. cbv beta iota.
  assert (hex_prefix s = None) as ->.
  { destruct Hs as [|c s Hc Hs]; [done|]. destruct Hs as [|x s Hx Hs]; [done|]. cbn [hex_prefix].
    rewrite digit_lower by done. by rewrite (bool_decide_eq_false_2 (x = _)), andb_false_r by (by apply digit_not). }
  rewrite mantissa_digits, underscores_digits, bool_decide_eq_false_2 by done. done.
Qed.

(** The decimal text of an integer below 2^53 is read as that integer. *)
Lemma ParseFloat_Itoa n :
  0 <= n < 2 ^ 53 -> exists f, ParseFloat (Itoa n) = (f, None) /\ is_value f n.
Proof.
  intros Hn. destruct (Itoa_digits n) as (Hd & Hne & Hv); [lia|].
  rewrite ParseFloat_digits, Hv by done. cbv zeta.
  assert (is_value (round64 false n 1) n) as H.
  { apply (is_value_round _ _ _ n 0); [lia..| | |]; [lia|lia|]. transitivity (2 ^ 53); [lia|]. by apply Z.pow_lt_mono_r. }
  exists (round64 false n 1). split; [|done]. by destruct H as (m & e & -> & _).
Qed.
