(* ===== verification/GoCsv.v ===== *)
(** * Package [encoding/csv]: reading records

    [csv.Reader] with its defaults and [TrimLeadingSpace], as an automaton over the
    characters of a line; a quoted field goes on over the end of its line. *)

From S2P Require Import Prelude GoStr.

Definition comma : ascii := ","%char.
Definition dquote : ascii := "034"%char.

Definition ErrBareQuote : error := ESentinel ($"bare quote in non-quoted field").
Definition ErrQuote : error := ESentinel ($"extraneous or missing quote in quoted field").
Definition ErrFieldCount : error := ESentinel ($"wrong number of fields").
Definition ParseError (e : error) : error := EWrap ($"parse error") e.

(** The lines with whether a newline ends them; a carriage return before it, or before
    the end of the data, is dropped. *)
Definition csv_lines (data : bytes) : list (bytes * bool) :=
  let parts := Split data nl in
  let strip (l : bytes) := TrimSuffix l [cr] in
  map (fun l => (strip l, true)) (removelast parts) ++
  match default [] (last parts) with [] => [] | l => [(strip l, false)] end.

Inductive mode := FieldStart | Plain | Quoted | QuoteSeen.

Inductive scanned :=
  | Fields (fs : list bytes)
  | InQuotes (fs : list bytes) (cur : bytes)
  | Bad (e : error).

(** The fields of a line, of which [fs] are complete and [cur] is begun. *)
Fixpoint scan_line (st : mode) (fs : list bytes) (cur text : bytes) : scanned :=
  match text with
  | [] => match st with Quoted => InQuotes fs cur | _ => Fields (fs ++ [cur]) end
  | c :: rest =>
      match st with
      | FieldStart =>
          if decide (c ∈ white) then scan_line FieldStart fs [] rest
          else if bool_decide (c = dquote) then scan_line Quoted fs [] rest
          else if bool_decide (c = comma) then scan_line FieldStart (fs ++ [[]]) [] rest
          else scan_line Plain fs [c] rest
      | Plain =>
          if bool_decide (c = comma) then scan_line FieldStart (fs ++ [cur]) [] rest
          else if bool_decide (c = dquote) then Bad (ParseError ErrBareQuote)
          else scan_line Plain fs (cur ++ [c]) rest
      | Quoted =>
          if bool_decide (c = dquote) then scan_line QuoteSeen fs cur rest
          else scan_line Quoted fs (cur ++ [c]) rest
      | QuoteSeen =>
          if bool_decide (c = dquote) then scan_line Quoted fs (cur ++ [dquote]) rest
          else if bool_decide (c = comma) then scan_line FieldStart (fs ++ [cur]) [] rest
          else Bad (ParseError ErrQuote)
      end
  end.

(** All records: empty lines between them are skipped, and all have as many fields as
    the first. *)
Fixpoint read_records (width : option nat) (open : option (list bytes * bytes))
    (lines : list (bytes * bool)) : result (list (list bytes)) :=
  match lines with
  | [] => if open is Some _ then Err (ParseError ErrQuote) else Ok []
  | (text, ended) :: rest =>
      if bool_decide (open = None) && bool_decide (text = []) then read_records width None rest
      else
        match (match open with
               | None => scan_line FieldStart [] [] text
               | Some (fs, cur) => scan_line Quoted fs cur text
               end) with
        | Bad e => Err e
        | InQuotes fs cur => read_records width (Some (fs, if ended : bool then cur ++ [nl] else cur)) rest
        | Fields fs =>
            if bool_decide (default (length fs) width = length fs) then
              records ← read_records (Some (length fs)) None rest; mret (fs :: records)
            else Err (ParseError ErrFieldCount)
        end
  end.

Definition csv_ReadAll (data : bytes) : result (list (list bytes)) := read_records None None (csv_lines data).

Example csv_1 :
  csv_ReadAll ($"0, a b ,c" ++ [nl; nl; dquote] ++ $"x,y" ++ [dquote; dquote; nl; dquote] ++ $",  2,") =
    Ok [[$"0"; $"a b "; $"c"]; [$"x,y" ++ [dquote; nl]; $"2"; []]].
Proof. vm_compute. reflexivity. Qed.
Example csv_2 : csv_ReadAll ($"a,b" ++ [nl] ++ $"c") = Err (ParseError ErrFieldCount). Proof. reflexivity. Qed.
Example csv_3 : csv_ReadAll ($"a" ++ [dquote]) = Err (ParseError ErrBareQuote). Proof. reflexivity. Qed.
Example csv_4 : csv_ReadAll (dquote :: $"a" ++ [nl]) = Err (ParseError ErrQuote). Proof. reflexivity. Qed.

(** ** Reading what was written *)

Definition plain_field (f : bytes) : Prop :=
  (comma ∉ f) /\ (dquote ∉ f) /\ forall c r, f = c :: r -> c ∉ white.

Definition quote_field (f : bytes) : bytes :=
  dquote :: flat_map (fun c => if bool_decide (c = dquote) then [dquote; dquote] else [c]) f ++ [dquote].

(** A text of a field: spaces, then the field as it is, or in quotes. *)
Inductive field_text (f : bytes) : bytes -> Prop :=
  | text_plain sp : Forall (fun c => c ∈ white) sp -> plain_field f -> field_text f (sp ++ f)
  | text_quoted sp : Forall (fun c => c ∈ white) sp -> field_text f (sp ++ quote_field f).

Lemma dquote_not_white : dquote ∉ white.
Proof. by apply (bool_decide_eq_false (dquote ∈ white)). Qed.

Lemma scan_spaces fs sp rest :
  Forall (fun c => c ∈ white) sp -> scan_line FieldStart fs [] (sp ++ rest) = scan_line FieldStart fs [] rest.
Proof. induction 1 as [|c sp Hc _ IH]; [done|]. cbn [app scan_line]. by rewrite decide_True. Qed.

(** What follows a field: the next one, or the end of the line. *)

Definition next (fs : list bytes) (rest : bytes) : scanned :=
  match rest with
  | [] => Fields fs
  | _ :: r => scan_line FieldStart fs [] r
  end.

Definition stop (rest : bytes) : Prop := match rest with [] => True | c :: _ => c = comma end.

Lemma scan_plain fs cur f rest :
  comma ∉ f -> dquote ∉ f -> stop rest ->
  scan_line Plain fs cur (f ++ rest) = next (fs ++ [cur ++ f]) rest.
Proof.
  revert cur. induction f as [|c f IH]; intros cur Hc Hq Hr.
  - rewrite app_nil_r. destruct rest as [|x rest]; [done|]. cbn in Hr. subst x. done.
  - rewrite not_elem_of_cons in Hc, Hq. cbn [app scan_line].
    rewrite !bool_decide_eq_false_2 by naive_solver. rewrite IH by naive_solver. by rewrite <- app_assoc.
Qed.

Lemma scan_quoted fs cur f rest :
  stop rest ->
  scan_line Quoted fs cur
    (flat_map (fun c => if bool_decide (c = dquote) then [dquote; dquote] else [c]) f ++ dquote :: rest) =
  next (fs ++ [cur ++ f]) rest.
Proof.
  intros Hr. revert cur. induction f as [|c f IH]; intros cur.
  - cbn. rewrite app_nil_r. destruct rest as [|x rest]; [done|]. cbn in Hr. subst x. done.
  - cbn [flat_map]. case_bool_decide as Hc.
    + subst c. cbn [app scan_line]. rewrite !bool_decide_eq_true_2 by done.
      rewrite IH. by rewrite <- app_assoc.
    + cbn [app scan_line]. rewrite bool_decide_eq_false_2 by done. rewrite IH. by rewrite <- app_assoc.
Qed.

Lemma scan_field fs f t rest :
  field_text f t -> stop rest -> scan_line FieldStart fs [] (t ++ rest) = next (fs ++ [f]) rest.
Proof.
  intros [sp Hsp (Hc & Hq & Hw)|sp Hsp] Hr; rewrite <- app_assoc, scan_spaces by done.
  - destruct f as [|c f].
    + destruct rest as [|x rest]; [done|]. cbn in Hr. subst x. done.
    + rewrite not_elem_of_cons in Hc, Hq. specialize (Hw c f eq_refl). cbn [app scan_line].
      rewrite decide_False, !bool_decide_eq_false_2 by naive_solver. apply (scan_plain _ [c]); naive_solver.
  - unfold quote_field. cbn [app scan_line]. rewrite decide_False by apply dquote_not_white. rewrite bool_decide_eq_true_2, <- app_assoc by done. by apply (scan_quoted _ []).
Qed.

(** The texts of a row, with commas between. *)
Definition row_line (ts : list bytes) : bytes := Join ts [comma].

Lemma scan_row fs row ts :
  Forall2 field_text row ts -> row <> [] -> scan_line FieldStart fs [] (row_line ts) = Fields (fs ++ row).
Proof.
  intros H. revert fs. induction H as [|f t row ts Hf H IH]; intros fs Hne; [done|].
  destruct H as [|f' t' row ts Hf' H].
  - change (row_line [t]) with t. rewrite <- (app_nil_r t). by rewrite (scan_field _ f).
  - change (row_line (t :: t' :: ts)) with (t ++ comma :: row_line (t' :: ts)).
    rewrite (scan_field _ f) by done. cbn [next]. rewrite IH by done. by rewrite <- app_assoc.
Qed.

Definition csv_text (rows : list (list bytes)) : bytes := flat_map (fun ts => row_line ts ++ [nl]) rows.

Lemma csv_lines_cons l rest :
  nl ∉ l -> cr ∉ l -> csv_lines (l ++ nl :: rest) = (l, true) :: csv_lines rest.
Proof.
  intros Hn Hc. unfold csv_lines. rewrite Split_app by done.
  destruct (Split rest nl) as [|p ps] eqn:E; [by destruct (Split_nonempty rest nl)|].
  change (removelast (l :: p :: ps)) with (l :: removelast (p :: ps)).
  change (last (l :: p :: ps)) with (last (p :: ps)). cbn [map app]. do 2 f_equal.
  unfold TrimSuffix. destruct (strip_suffix [cr] l) as [x|] eqn:Es; [|done].
  apply strip_suffix_Some in Es. subst l. destruct Hc. apply elem_of_app. right. left.
Qed.

(** A row that is written on a line of its own. *)
Definition row_ok (row ts : list bytes) : Prop :=
  Forall2 field_text row ts /\ row_line ts <> [] /\ (nl ∉ row_line ts) /\ (cr ∉ row_line ts).

Lemma read_table width rows tss :
  Forall2 row_ok rows tss -> (forall row, row ∈ rows -> length row = width /\ row <> []) ->
  forall w, w = None \/ w = Some width -> read_records w None (csv_lines (csv_text tss)) = Ok rows.
Proof.
  induction 1 as [|row ts rows tss (Hts & Hne & Hn & Hc) H IH]; intros Hw w Hw'; [done|].
  cbn [csv_text flat_map]. rewrite <- app_assoc. cbn [app]. rewrite csv_lines_cons by done.
  destruct (Hw row) as [Hl Hrow]; [left|]. cbn [read_records].
  rewrite (bool_decide_eq_false_2 (row_line ts = [])), andb_false_r by done.
  rewrite (scan_row [] row) by done. cbn [app].
  rewrite bool_decide_eq_true_2 by (by destruct Hw' as [->| ->]).
  rewrite IH; [done|set_solver|right; by rewrite Hl].
Qed.
