(* ===== verification/GpuHelper.v ===== *)
(** * Package [gpu]: cards, statistics and the parsing of fields

    [helper.go] and the functions of [stats.go] on one card.  A card is what the library
    [ghw] reports, of which parts can be missing. *)

From S2P Require Import Prelude GoStr GoText GoFloat GoCsv.

Local Open Scope Z_scope.

(** ** Data ([stats.go]) *)

Record DeviceStat := MkStat {
  st_Address : bytes; Name : bytes; Vendor : bytes; MemoryUsed : Z; MemoryTotal : Z;
  Utilization : float64; Temperature : Z; PowerUsage : float64; FanSpeed : Z
}.

(** The vendor's number and the name of the product, each perhaps missing. *)
Record device_info := MkDevice { VendorID : option bytes; ProductName : option bytes }.
Record card := MkCard { c_Address : bytes; DeviceInfo : option device_info }.

Definition minus_one : float64 := float_of_Z (-1).
Definition zero : float64 := float_of_Z 0.

(** ** [helper.go] *)

Definition virtualVendorIDs : list bytes := [$"15ad"; $"1234"; $"1af4"; $"1b36"; $"1414"; $"80ee"].

Definition IGPUKeywords : list bytes :=
  [$"HD Graphics"; $"UHD Graphics"; $"Iris Graphics"; $"Iris Plus"; $"Iris Pro"; $"Iris Xe"; $"GMA"].

Definition colon : ascii := ":"%char.
Definition zero_char : ascii := "0"%char.

Definition normalizePCIAddress (addr : bytes) : bytes :=
  let addr := ToLower (TrimSpace addr) in
  if bool_decide (addr = []) then []
  else
    match Split addr colon with
    | [domain; bus; device] =>
        let domain := if (4 <? length domain)%nat then drop (length domain - 4) domain else domain in
        let domain := replicate (4 - length domain) zero_char ++ domain in
        domain ++ [colon] ++ bus ++ [colon] ++ device
    | _ => addr
    end.

Definition readCSVRecords (data : bytes) : result (list (list bytes)) := csv_ReadAll data.

Definition cardProductName (c : card) : bytes :=
  match DeviceInfo c with
  | Some d => default [] (ProductName d)
  | None => []
  end.

Definition cardAddress (c : card) : bytes := normalizePCIAddress (c_Address c).

(** A map to [true], as the set of its keys; the empty map and none are not told apart. *)
Definition addressSet (cards : list card) : gset bytes :=
  list_to_set (List.filter (fun a => negb (bool_decide (a = []))) (map cardAddress cards)).

Definition csvField (fields : list bytes) (colIdx : gmap bytes nat) (key : bytes) : bytes :=
  match colIdx !! key with
  | Some idx => default [] (TrimSpace <$> fields !! idx)
  | None => []
  end.

Definition not_available (s : bytes) : bool :=
  bool_decide (s = []) || bool_decide (s = $"[N/A]") || bool_decide (s = $"N/A").

Definition parseIntOrDefault (s : bytes) (def : Z) : Z :=
  let s := TrimSpace s in
  if not_available s then def else default def (Atoi s).

Definition parseFloatOrDefault (s : bytes) (def : float64) : float64 :=
  let s := TrimSpace s in
  if not_available s then def
  else match ParseFloat s with (v, None) => v | (_, Some _) => def end.

(** [strconv.ParseUint] in base 10, its error dropped: zero for another syntax, the
    largest number once the digits make more. *)
Fixpoint parse_uint (n : Z) (s : bytes) : Z :=
  match s with
  | [] => n
  | c :: r =>
      if negb (is_digit c) then 0
      else if (2 ^ 64 / 10 + 1 <=? n) || (2 ^ 64 <=? 10 * n + digit_val c) then 2 ^ 64 - 1
      else parse_uint (10 * n + digit_val c) r
  end.

Section conversion.
Variable other : float64 -> Z.          (* of floats that are not a [uint64] *)

Definition kib : Z := 1024.

Definition parseUint64Bytes (valStr unitStr : bytes) : Z :=
  let v := fst (ParseFloat (TrimSpace valStr)) in
  let unit := ToLower (TrimSpace unitStr) in
  to_uint64 other
    (if bool_decide (unit = $"gb") then mul_Z (mul_Z (mul_Z v kib) kib) kib
     else if bool_decide (unit = $"mb") then mul_Z (mul_Z v kib) kib
     else if bool_decide (unit = $"kb") then mul_Z v kib
     else v).
End conversion.

(** ** [stats.go] *)

Definition vendor_id (c : card) : option bytes := DeviceInfo c ≫= VendorID.

Definition isIntegratedGPU (c : card) : bool :=
  match vendor_id c with
  | None => false
  | Some id =>
      if negb (bool_decide (ToLower id = $"8086")) then false
      else
        let name := cardProductName c in
        if Contains name ($"Arc") then false
        else existsb (Contains name) IGPUKeywords
  end.

(** ** Reading tables *)

(** [readCSVRecords] gives back the rows of a table that was written with commas
    between the fields, each field as it is or in quotes, after any spaces. *)
Theorem readCSVRecords_table width rows tss :
  Forall2 row_ok rows tss -> (forall row, row ∈ rows -> length row = width /\ row <> []) ->
  readCSVRecords (csv_text tss) = Ok rows.
Proof. intros H Hw. apply (read_table width _ _ H Hw). by left. Qed.

(** ** PCI addresses *)

Definition no_white (s : bytes) : Prop := forall c, c ∈ s -> c ∉ white.

Lemma TrimSpace_id s : no_white s -> TrimSpace s = s.
Proof.
  intros H. unfold TrimSpace, TrimRight. rewrite (TrimLeft_id s), TrimLeft_id, reverse_involutive; [done|..].
  - intros c r Hr. apply H. rewrite <- elem_of_reverse, Hr. left.
  - intros c r ->. apply H. left.
Qed.

Lemma lower1_idem c : lower1 (lower1 c) = lower1 c.
Proof. by destruct c as [[] [] [] [] [] [] [] []]; vm_compute. Qed.

Lemma ToLower_idem s : ToLower (ToLower s) = ToLower s.
Proof. unfold ToLower. rewrite map_map. apply map_ext, lower1_idem. Qed.

Lemma ToLower_app s t : ToLower (s ++ t) = ToLower s ++ ToLower t.
Proof. apply map_app. Qed.

Lemma lower1_white c : lower1 c ∈ white -> c ∈ white.
Proof.
  intros H. apply (bool_decide_unpack _). apply (bool_decide_pack _) in H.
  revert H. by destruct c as [[] [] [] [] [] [] [] []]; vm_compute.
Qed.

Lemma lower1_colon c : lower1 c = colon -> c = colon.
Proof. by destruct c as [[] [] [] [] [] [] [] []]; vm_compute. Qed.

(** A domain as the system writes it: the last four digits, padded with zeros. *)
Definition short_domain (d : bytes) : bytes :=
  replicate (4 - length d) zero_char ++ drop (length d - 4) d.

Lemma short_domain_idem d : short_domain (short_domain d) = short_domain d.
Proof.
  assert (length (short_domain d) = 4%nat) as H.
  { unfold short_domain. rewrite length_app, length_replicate, length_drop. lia. }
  unfold short_domain at 1. by rewrite H.
Qed.

Lemma normalize_parts addr domain bus device :
  no_white addr -> ToLower addr = domain ++ colon :: bus ++ colon :: device ->
  colon ∉ domain -> colon ∉ bus -> colon ∉ device ->
  normalizePCIAddress addr = short_domain domain ++ colon :: bus ++ colon :: device.
Proof.
  intros Hw E Hd Hb Hv. unfold normalizePCIAddress. rewrite TrimSpace_id, E by done.
  rewrite bool_decide_eq_false_2 by (by destruct domain).
  rewrite !Split_app, Split_no_sep by done. unfold short_domain.
  destruct (Nat.ltb_spec 4 (length domain)) as [H|H].
  - rewrite length_drop. by replace (length domain - (length domain - 4))%nat with 4%nat by lia;
      replace (4 - length domain)%nat with 0%nat by lia.
  - by replace (length domain - 4)%nat with 0%nat by lia.
Qed.

(** However an address is written, with more digits of the domain or in capitals,
    [normalizePCIAddress] gives its form in lower case with four digits, which it leaves
    as it is. *)
Theorem normalizePCIAddress_canonical addr pad d bus device :
  no_white addr -> ToLower addr = (pad ++ d) ++ colon :: bus ++ colon :: device ->
  length d = 4%nat -> colon ∉ pad ++ d -> colon ∉ bus -> colon ∉ device ->
  normalizePCIAddress addr = d ++ colon :: bus ++ colon :: device /\
  normalizePCIAddress (normalizePCIAddress addr) = normalizePCIAddress addr.
Proof.
  intros Hw E Hd Hp Hb Hv. assert (forall pad, short_domain (pad ++ d) = d) as Hs.
  { intros p. unfold short_domain. rewrite length_app, Hd, drop_app_length'; [|lia].
    by replace (4 - _)%nat with 0%nat by lia. }
  assert (normalizePCIAddress addr = d ++ colon :: bus ++ colon :: device) as Hn.
  { by rewrite (normalize_parts _ _ _ _ Hw E), Hs. }
  split; [done|]. rewrite Hn. pose proof (ToLower_idem addr) as Hi. rewrite E, <- app_assoc, ToLower_app in Hi.
  apply app_inj_1 in Hi as [_ Hi]; [|by unfold ToLower; rewrite length_map].
  assert (colon ∉ d) by (by intros ?; apply Hp, elem_of_app; right).
  rewrite (normalize_parts _ d bus device); try done.
  - by rewrite <- (app_nil_l d), Hs.
  - intros c Hc Hcw. assert (c ∈ ToLower addr) as Hin.
    { rewrite E, <- app_assoc. apply elem_of_app. by right. }
    unfold ToLower in Hin. apply list_elem_of_fmap in Hin as (x & -> & Hx).
    apply (Hw x Hx). by apply lower1_white.
Qed.

Lemma normalizePCIAddress_canonical_witness :
  normalizePCIAddress ($"00000000:0A:00.0") = $"0000:0a:00.0" /\
  normalizePCIAddress (normalizePCIAddress ($"00000000:0A:00.0")) = normalizePCIAddress ($"00000000:0A:00.0").
Proof.
  apply (normalizePCIAddress_canonical _ ($"0000") ($"0000") ($"0a") ($"00.0"));
    try (apply (bool_decide_eq_false _); vm_compute; reflexivity); try reflexivity.
  intros c Hc Hw. apply (bool_decide_pack _) in Hc. apply (bool_decide_pack _) in Hw.
  revert Hc Hw. by destruct c as [[] [] [] [] [] [] [] []]; vm_compute.
Defined.

(** ** Sizes *)

(** The bytes of a unit. *)
Definition unit_factor (unit : bytes) : Z :=
  if bool_decide (unit = $"gb") then 2 ^ 30
  else if bool_decide (unit = $"mb") then 2 ^ 20
  else if bool_decide (unit = $"kb") then 2 ^ 10 else 1.

Lemma to_uint64_value other f n : is_value f n -> 0 <= n < 2 ^ 64 -> to_uint64 other f = n.
Proof. intros H Hn. unfold to_uint64. rewrite (truncate_value _ _ H). by rewrite decide_True. Qed.

Lemma kib_value f n j :
  is_value f (n * 2 ^ j) -> 0 <= n < 2 ^ 53 -> 0 <= j <= 20 -> is_value (mul_Z f kib) (n * 2 ^ (j + 10)).
Proof.
  intros Hf Hn Hj. rewrite Z.pow_add_r, Z.mul_assoc by lia. change kib with (2 ^ 10). apply (mul_Z_value _ _ n j); [done..|lia|done|done|].
  assert (n * 2 ^ j * 2 ^ 10 < 2 ^ 53 * 2 ^ 20 * 2 ^ 10).
  { apply Z.mul_lt_mono_pos_r; [done|]. assert (2 ^ j <= 2 ^ 20) by (apply Z.pow_le_mono_r; lia).
    pose proof (pow2_pos j ltac:(lia)). nia. }
  transitivity (2 ^ 53 * 2 ^ 20 * 2 ^ 10); [done|]. by vm_compute.
Qed.

(** C35: A whole number below 2^53 in any unit is converted to bytes exactly, as long as
    the bytes fit 64 bits: no digit is lost in the floating point between. *)
Theorem parseUint64Bytes_exact other n valStr unitStr :
  0 <= n < 2 ^ 53 -> TrimSpace valStr = Itoa n ->
  n * unit_factor (ToLower (TrimSpace unitStr)) < 2 ^ 64 ->
  parseUint64Bytes other valStr unitStr = n * unit_factor (ToLower (TrimSpace unitStr)).
Proof.
  intros Hn Hv Hmax. unfold parseUint64Bytes. rewrite Hv.
  destruct (ParseFloat_Itoa n Hn) as (f & -> & Hf). cbn [fst]. unfold unit_factor in *.
  assert (is_value f (n * 2 ^ 0)) as H0 by (by rewrite Z.mul_1_r).
  pose proof (kib_value _ n 0 H0 Hn ltac:(lia)) as H1. pose proof (kib_value _ n 10 H1 Hn ltac:(lia)) as H2.
  pose proof (kib_value _ n 20 H2 Hn ltac:(lia)) as H3.
  repeat case_bool_decide; rewrite ?Z.mul_1_r in *; apply to_uint64_value; try done; nia.
Qed.

Lemma parseUint64Bytes_exact_witness :
  parseUint64Bytes (fun _ => 0) ($" 24564") ($"MB ") = 24564 * 2 ^ 20.
Proof. apply (parseUint64Bytes_exact _ 24564); [lia|reflexivity|reflexivity]. Defined.

Lemma readCSVRecords_table_witness :
  readCSVRecords ($"0, NVIDIA A2, " ++ quote_field ($"a,b") ++ [nl] ++ $"1,,8" ++ [nl]) =
    Ok [[$"0"; $"NVIDIA A2"; $"a,b"]; [$"1"; []; $"8"]].
Proof.
  apply (readCSVRecords_table 3 _ [[$"0"; $" NVIDIA A2"; $" " ++ quote_field ($"a,b")]; [$"1"; []; $"8"]]).
  - assert (forall f, plain_field f -> field_text f f) as Hp by (intros f Hf; by apply (text_plain f [])).
    assert (forall f, forallb (fun c => bool_decide (c <> comma) && bool_decide (c <> dquote)) f &&
                      match f with [] => true | c :: _ => bool_decide (c ∉ white) end = true -> plain_field f) as Hf.
    { intros f [H1 H2]%andb_true_iff. rewrite forallb_forall in H1. split; [|split].
      - intros H%list_elem_of_In. specialize (H1 _ H). discriminate.
      - intros H%list_elem_of_In. specialize (H1 _ H). discriminate.
      - intros c r ->. by apply bool_decide_eq_true in H2. }
    assert (Forall (fun c => c ∈ white) ($" ")) as Hsp by (repeat constructor).
    repeat constructor; try (apply (bool_decide_unpack _); vm_compute; exact I); try (intros [=]; fail).
    all: first [apply Hp, Hf; reflexivity | apply (text_plain ($"NVIDIA A2") ($" ")); [done|apply Hf; reflexivity]
               | apply (text_quoted ($"a,b") ($" ")); done | done].
  - intros row [->|[->|[]%not_elem_of_nil]%elem_of_cons]%elem_of_cons; split; done.
Defined.

(** ** Numbers in fields *)

Lemma parse_digits_value acc s : all_digits s -> parse_digits acc s = Some (dec_value acc s).
Proof. intros Hs. revert acc. induction Hs as [|c s Hc Hs IH]; intros acc; [done|]. cbn [parse_digits]. by rewrite Hc, IH. Qed.

Lemma Atoi_Itoa n : 0 <= n < 2 ^ 63 -> Atoi (Itoa n) = Some n.
Proof.
  intros Hn. destruct (Itoa_digits n) as (Hd & Hne & Hv); [lia|].
  assert (parse_nat (Itoa n) = Some n) as Hp.
  { unfold parse_nat. destruct (Itoa n) eqn:E; [done|]. rewrite <- E in *. by rewrite parse_digits_value, Hv. }
  assert (Atoi (Itoa n) = z ← parse_nat (Itoa n); if decide (in_i64 z) then Some z else None) as ->.
  { unfold Atoi. destruct Hd as [|c s Hc Hs]; [done|].
    destruct c as [[] [] [] [] [] [] [] []]; try discriminate Hc; reflexivity. }
  rewrite Hp. cbn. rewrite decide_True; [done|unfold in_i64; lia].
Qed.

(** A field as a tool prints it: no spaces around it. *)
Lemma not_available_digits s : all_digits s -> s <> [] -> not_available s = false.
Proof.
  intros Hs Hne. unfold not_available. rewrite !bool_decide_eq_false_2; [done|..|done]; intros ->;
    by apply Forall_cons in Hs as [? _].
Qed.
