(* ===== verification/GpuApple.v ===== *)
(** * Package [gpu]: the output of [ioreg] ([apple.go]) *)

From S2P Require Import Prelude GoStr GoText GoFloat GpuHelper JsonlReader.

Local Open Scope Z_scope.

(** ** The pattern of a property

    A quoted key, an equals sign and a value, with spaces around the sign: the leftmost
    match of a line without newlines. *)

Definition dq : ascii := "034"%char.
Definition re_space : bytes := ["009"; "010"; "012"; "013"; " "]%char.

Fixpoint span_not (c : ascii) (s : bytes) : bytes * bytes :=
  match s with
  | [] => ([], [])
  | x :: r => if bool_decide (x = c) then ([], s) else let '(a, b) := span_not c r in (x :: a, b)
  end.

(** A match at the start of the text. *)
Definition kv_here (s : bytes) : option (bytes * bytes) :=
  match s with
  | q :: r =>
      if bool_decide (q = dq) then
        let '(key, r) := span_not dq r in
        if bool_decide (key = []) then None
        else
          match r with
          | _ :: r =>
              match TrimLeft r re_space with
              | e :: r =>
                  if bool_decide (e = "="%char) then
                    match TrimLeft r re_space with
                    | [] => match last r with Some sp => Some (key, [sp]) | None => None end
                    | v => Some (key, v)
                    end
                  else None
              | [] => None
              end
          | [] => None
          end
      else None
  | [] => None
  end.

Fixpoint find_kv (s : bytes) : option (bytes * bytes) :=
  match kv_here s with
  | Some kv => Some kv
  | None => match s with [] => None | _ :: r => find_kv r end
  end.

(** ** Values *)

Definition ioregUnquote (s : bytes) : bytes :=
  let s := TrimSpace s in
  match s with
  | a :: b :: r =>
      if bool_decide (a = dq) && bool_decide (last (b :: r) = Some dq) then removelast (b :: r) else s
  | _ => s
  end.

Definition ioregParseUint64 (s : bytes) : Z := parse_uint 0 (TrimSpace s).

Definition dict_pair (result : gmap bytes bytes) (pair : bytes) : gmap bytes bytes :=
  match cut pair "="%char with
  | Some (k, v) => <[ioregUnquote (TrimSpace k) := TrimSpace v]> result
  | None => result
  end.

Definition parseIORegDict (s : bytes) : gmap bytes bytes :=
  let s := TrimSuffix (TrimPrefix (TrimSpace s) ($"{")) ($"}") in
  fold_left dict_pair (Split s ","%char) ∅.

Definition entry (kv : gmap bytes bytes) (k : bytes) : bytes := default [] (kv !! k).

(** The map of no device yet is empty too. *)
Definition buildAppleStat (kv : gmap bytes bytes) : option DeviceStat :=
  if bool_decide (kv = ∅) then None
  else
    let name := ioregUnquote (entry kv ($"model")) in
    if bool_decide (name = []) then None
    else
      let perfRaw := entry kv ($"PerformanceStatistics") in
      if bool_decide (perfRaw = []) then Some (MkStat [] name ($"apple") 0 0 zero (-1) minus_one (-1))
      else
        let perf := parseIORegDict perfRaw in
        Some (MkStat [] name ($"apple")
          (ioregParseUint64 (entry perf ($"In use system memory")))
          (ioregParseUint64 (entry perf ($"Alloc system memory")))
          (parseFloatOrDefault (entry perf ($"Device Utilization %")) zero) (-1) minus_one (-1)).

(** ** The loop over the lines *)

Record ioreg_state := MkIoreg { stats : list DeviceStat; current : option (gmap bytes bytes) }.

Definition flush (st : ioreg_state) : list DeviceStat :=
  stats st ++ option_list (buildAppleStat (default ∅ (current st))).

Definition ioreg_line (st : ioreg_state) (text : bytes) : ioreg_state :=
  let line := TrimSpace text in
  if HasPrefix line ($"+-o ") then MkIoreg (flush st) (Some ∅)
  else
    match find_kv line, current st with
    | Some (k, v), Some kv => MkIoreg (stats st) (Some (<[k := v]> kv))
    | _, _ => st
    end.

(** The lines that a scanner with its first buffer yields: a line that does not fit it
    ends the scan, and its error is not asked for. *)
Definition MaxScanTokenSize : N := 65536.

Fixpoint scanned_lines (lines : list bytes) : list bytes :=
  match lines with
  | [] => []
  | l :: rest => if (MaxScanTokenSize <=? N.of_nat (length l))%N then [] else dropCR l :: scanned_lines rest
  end.

Definition parseIORegGPUs (data : bytes) : list DeviceStat :=
  flush (fold_left ioreg_line (scanned_lines (raw_lines data)) (MkIoreg [] None)).

Definition lf (s : bytes) : bytes := s ++ [nl].
Definition quoted (s : bytes) : bytes := dq :: s ++ [dq].

Example apple_1 :
  parseIORegGPUs (lf ($"+-o AGXAcceleratorG14  <class AGXAcceleratorG14>") ++ lf ($"    {") ++
    lf ($"  " ++ quoted ($"model") ++ $" = " ++ quoted ($"Apple M2")) ++
    lf ($"  " ++ quoted ($"PerformanceStatistics") ++ $" = {" ++ quoted ($"In use system memory") ++ $"=401," ++
        quoted ($"Device Utilization %") ++ $"=7}") ++ lf ($"    }")) =
  [MkStat [] ($"Apple M2") ($"apple") 401 0 (float_of_Z 7) (-1) minus_one (-1)].
Proof. vm_compute. reflexivity. Qed.

(** ** Trimming and quotes *)

(** A text that starts and ends with characters that are no spaces. *)
Definition tight (s : bytes) : Prop :=
  (forall c r, s = c :: r -> c ∉ white) /\ (forall c r, s = r ++ [c] -> c ∉ white).

Lemma TrimSpace_tight s : tight s -> TrimSpace s = s.
Proof.
  intros [H1 H2]. unfold TrimSpace, TrimRight. rewrite (TrimLeft_id s), TrimLeft_id, reverse_involutive; [done| |done].
  intros c r Hr. apply (H2 c (reverse r)). apply (f_equal reverse) in Hr. by rewrite reverse_involutive, reverse_cons in Hr.
Qed.

Lemma TrimSpace_indent ind s : Forall (fun c => c ∈ white) ind -> s <> [] -> tight s -> TrimSpace (ind ++ s) = s.
Proof.
  intros Hi Hne Ht. assert (TrimLeft (ind ++ s) white = TrimLeft s white) as E.
  { induction Hi as [|c ind Hc _ IH]; [done|]. cbn [app TrimLeft]. by rewrite decide_True. }
  unfold TrimSpace. rewrite E. by apply TrimSpace_tight.
Qed.

Lemma tight_ends a b s : a ∉ white -> b ∉ white -> tight (a :: s ++ [b]).
Proof.
  intros Ha Hb. split.
  - by intros c r [= <- _].
  - intros c r H. rewrite app_comm_cons in H. by apply app_inj_tail in H as [_ <-].
Qed.

Lemma dq_not_white : dq ∉ white.
Proof. by apply (bool_decide_eq_false (dq ∈ white)). Qed.

Lemma tight_quoted s : tight (quoted s).
Proof. apply tight_ends; apply dq_not_white. Qed.

Lemma ioregUnquote_quoted s : ioregUnquote (quoted s) = s.
Proof.
  unfold ioregUnquote. rewrite TrimSpace_tight by apply tight_quoted. unfold quoted.
  destruct s as [|x s]; [done|]. cbn [app].
  change (x :: s ++ [dq]) with ((x :: s) ++ [dq]). rewrite last_snoc, removelast_last.
  by rewrite !bool_decide_eq_true_2.
Qed.

Lemma parse_uint_digits n s :
  0 <= n -> all_digits s -> dec_value n s < 2 ^ 64 -> parse_uint n s = dec_value n s.
Proof.
  intros Hn Hs. revert n Hn. induction Hs as [|c s Hc Hs IH]; intros n Hn Hv; [done|].
  assert (0 <= digit_val c) as Hd.
  { unfold is_digit in Hc. unfold digit_val. lia. }
  assert (forall m, 0 <= m -> m <= dec_value m s) as Hmono.
  { clear -Hs. induction Hs as [|x s Hx Hs IH]; intros m Hm; [cbn; lia|]. cbn [dec_value fold_left].
    assert (0 <= digit_val x) by (unfold is_digit in Hx; unfold digit_val; lia).
    specialize (IH (10 * m + digit_val x) ltac:(lia)). unfold dec_value in IH. lia. }
  change (dec_value n (c :: s)) with (dec_value (10 * n + digit_val c) s) in *.
  specialize (Hmono (10 * n + digit_val c) ltac:(lia)). cbn [parse_uint]. rewrite Hc. cbn [negb].
  destruct (Z.leb_spec (2 ^ 64 / 10 + 1) n) as [H|_].
  { exfalso. change (2 ^ 64 / 10 + 1) with 1844674407370955162 in H. lia. }
  destruct (Z.leb_spec (2 ^ 64) (10 * n + digit_val c)) as [H|_]; [lia|]. apply IH; [lia|done].
Qed.

Lemma digits_tight s : all_digits s -> tight s.
Proof.
  intros Hs. assert (forall c, is_digit c = true -> c ∉ white) as H.
  { intros c Hc Hw. apply (bool_decide_pack _) in Hw. revert Hc Hw.
    by destruct c as [[] [] [] [] [] [] [] []]; vm_compute. }
  split; intros c r ->.
  - apply H. by apply Forall_cons in Hs as [? _].
  - apply H. apply Forall_app in Hs as [_ Hs]. by rewrite Forall_singleton in Hs.
Qed.

Lemma ioregParseUint64_Itoa n : 0 <= n < 2 ^ 64 -> ioregParseUint64 (Itoa n) = n.
Proof.
  intros Hn. destruct (Itoa_digits n) as (Hd & _ & Hv); [lia|]. unfold ioregParseUint64.
  rewrite TrimSpace_tight by by apply digits_tight. rewrite parse_uint_digits by (done || lia). done.
Qed.

(** ** Dictionaries *)

Definition comma_c : ascii := ","%char.
Definition eq_c : ascii := "="%char.

Definition pair_text (kv : bytes * bytes) : bytes := quoted (fst kv) ++ eq_c :: snd kv.
Definition dict_text (kvs : list (bytes * bytes)) : bytes := $"{" ++ Join (map pair_text kvs) [comma_c] ++ $"}".

Definition pair_ok (kv : bytes * bytes) : Prop :=
  (comma_c ∉ fst kv) /\ (eq_c ∉ fst kv) /\ (comma_c ∉ snd kv) /\ tight (snd kv).

Lemma dict_pair_text m kv : pair_ok kv -> dict_pair m (pair_text kv) = <[fst kv := snd kv]> m.
Proof.
  destruct kv as [k v]. intros (_ & Hk & _ & Hv). cbn [fst snd] in *. unfold dict_pair, pair_text. cbn [fst snd].
  replace (cut (quoted k ++ eq_c :: v) "="%char) with (Some (quoted k, v)).
  - rewrite TrimSpace_tight by apply tight_quoted. by rewrite ioregUnquote_quoted, TrimSpace_tight.
  - symmetry. apply cut_Some. split; [done|]. unfold quoted.
    rewrite elem_of_cons, elem_of_app, list_elem_of_singleton. intros [H|[H|H]]; [discriminate|done|discriminate].
Qed.

Lemma fold_dict kvs m :
  Forall pair_ok kvs -> NoDup (map fst kvs) -> fold_left dict_pair (map pair_text kvs) m = list_to_map kvs ∪ m.
Proof.
  intros Hok. revert m. induction Hok as [|[k v] kvs Hkv Hok IH]; intros m.
  { intros _. change (list_to_map []) with (∅ : gmap bytes bytes). by rewrite (left_id_L ∅ (∪)). }
  cbn [map fst]. intros [Hk Hnd]%NoDup_cons. cbn [fold_left list_to_map foldr fst snd]. rewrite dict_pair_text by done.
  cbn [fst snd]. rewrite IH by done. rewrite <- insert_union_r, insert_union_l by (by apply not_elem_of_list_to_map_1). done.
Qed.

(** [parseIORegDict] reads back what was written as a dictionary. *)
Lemma parseIORegDict_roundtrip kvs :
  Forall pair_ok kvs -> NoDup (map fst kvs) -> parseIORegDict (dict_text kvs) = list_to_map kvs.
Proof.
  intros Hok Hnd. unfold parseIORegDict, dict_text. rewrite TrimSpace_tight.
  2: { apply tight_ends; by apply (bool_decide_eq_false (_ ∈ white)). }
  rewrite TrimPrefix_app, TrimSuffix_app.
  pose proof (fold_dict kvs ∅ Hok Hnd) as Hf. rewrite (right_id_L ∅ (∪)) in Hf.
  destruct kvs as [|kv kvs]; [done|].
  rewrite Split_Join; [done|done|]. apply Forall_forall. intros t Ht.
  apply list_elem_of_fmap in Ht as ([k v] & -> & Hkv).
  rewrite Forall_forall in Hok. destruct (Hok _ Hkv) as (H1 & _ & H2 & _). cbn [fst snd] in *.
  unfold pair_text, quoted. cbn [fst snd]. rewrite elem_of_app, !elem_of_cons, elem_of_app, list_elem_of_singleton.
  intros [[H|[H|H]]|[H|H]]; first [done|discriminate].
Qed.

Lemma parseIORegDict_roundtrip_witness :
  parseIORegDict (dict_text [($"Device Utilization %", $"12"); ($"In use system memory", $"4096")]) =
    list_to_map [($"Device Utilization %", $"12"); ($"In use system memory", $"4096")].
Proof.
  apply parseIORegDict_roundtrip.
  - assert (forall s, forallb is_digit s = true -> tight s) as Hd.
    { intros s Hs. apply digits_tight. unfold all_digits. rewrite Forall_forall. intros c Hc.
      rewrite forallb_forall in Hs. by apply Hs, list_elem_of_In. }
    repeat apply Forall_cons_2; [..|apply Forall_nil_2]; (split; [|split; [|split]]);
      try (apply Hd; reflexivity); apply (bool_decide_unpack _); vm_compute; exact I.
  - apply (bool_decide_unpack _). vm_compute. exact I.
Defined.

(** ** What [ioreg] prints *)

Record apple_device := MkApple { ad_Header : bytes; ad_Model : bytes; ad_Used : Z; ad_Total : Z; ad_Util : Z }.

Definition performance (d : apple_device) : list (bytes * bytes) :=
  [($"Alloc system memory", Itoa (ad_Total d)); ($"Device Utilization %", Itoa (ad_Util d));
   ($"In use system memory", Itoa (ad_Used d))].

Definition property (k v : bytes) : bytes := quoted k ++ $" = " ++ v.
Definition indent : bytes := $"      ".

Definition device_lines (d : apple_device) : list bytes :=
  [$"+-o " ++ ad_Header d; $"    {";
   indent ++ property ($"model") (quoted (ad_Model d));
   indent ++ property ($"PerformanceStatistics") (dict_text (performance d)); $"    }"].

Definition device_stat (d : apple_device) : DeviceStat :=
  MkStat [] (ad_Model d) ($"apple") (ad_Used d) (ad_Total d) (fst (ParseFloat (Itoa (ad_Util d)))) (-1) minus_one (-1).

(** Sizes that fit 64 bits, and lines that the scanner yields as they are. *)
Definition scans (l : bytes) : Prop := (nl ∉ l) /\ (cr ∉ l) /\ (N.of_nat (length l) < MaxScanTokenSize)%N.

Definition device_ok (d : apple_device) : Prop :=
  Forall scans (device_lines d) /\ (exists h c, ad_Header d = h ++ [c] /\ c ∉ white) /\ ad_Model d <> [] /\
  0 <= ad_Used d < 2 ^ 64 /\ 0 <= ad_Total d < 2 ^ 64 /\ 0 <= ad_Util d < 2 ^ 53.

Lemma span_not_app c a r : c ∉ a -> span_not c (a ++ c :: r) = (a, c :: r).
Proof.
  induction a as [|x a IH]; intros Ha; cbn [app span_not]; [by rewrite bool_decide_eq_true_2|].
  rewrite not_elem_of_cons in Ha. rewrite bool_decide_eq_false_2 by naive_solver. by rewrite IH by naive_solver.
Qed.

Lemma find_property k c v : k <> [] -> dq ∉ k -> c ∉ re_space -> find_kv (property k (c :: v)) = Some (k, c :: v).
Proof.
  intros Hk Hq Hc. assert (kv_here (property k (c :: v)) = Some (k, c :: v)) as H.
  { unfold property, quoted. cbn [app kv_here]. rewrite <- app_assoc. cbn [app].
    rewrite span_not_app by done. cbv beta iota.
    rewrite bool_decide_eq_true_2, bool_decide_eq_false_2 by done.
    change (TrimLeft ($" = " ++ c :: v) re_space) with (eq_c :: " "%char :: c :: v).
    cbv beta iota. rewrite bool_decide_eq_true_2 by done.
    change (TrimLeft (" "%char :: c :: v) re_space) with (TrimLeft (c :: v) re_space).
    by rewrite TrimLeft_id by (by intros ? ? [= <- _]). }
  unfold property in *. destruct (quoted k ++ _) eqn:E; cbn [find_kv]; by rewrite H.
Qed.

Lemma ioreg_property sts m ind k c v :
  Forall (fun c => c ∈ white) ind -> k <> [] -> dq ∉ k -> c ∉ re_space -> tight (property k (c :: v)) ->
  ioreg_line (MkIoreg sts (Some m)) (ind ++ property k (c :: v)) = MkIoreg sts (Some (<[k := c :: v]> m)).
Proof.
  intros Hi Hk Hq Hc Ht. unfold ioreg_line. rewrite TrimSpace_indent by done.
  by rewrite find_property.
Qed.

Lemma ioreg_other sts m ind s :
  Forall (fun c => c ∈ white) ind -> s <> [] -> tight s -> HasPrefix s ($"+-o ") = false -> find_kv s = None ->
  ioreg_line (MkIoreg sts m) (ind ++ s) = MkIoreg sts m.
Proof. intros Hi Hs Ht Hp Hf. unfold ioreg_line. rewrite TrimSpace_indent by done. by rewrite Hp, Hf. Qed.

Lemma ioreg_header st h c :
  c ∉ white -> ioreg_line st ($"+-o " ++ h ++ [c]) = MkIoreg (flush st) (Some ∅).
Proof.
  intros Hc. unfold ioreg_line. rewrite TrimSpace_tight; [done|]. apply (tight_ends _ _ ($"-o " ++ h)); [|done].
  by apply (bool_decide_eq_false (_ ∈ white)).
Qed.

Lemma plain_key (k : bytes) : forallb (fun c => bool_decide (c <> dq)) k = true -> dq ∉ k.
Proof. rewrite forallb_forall. intros H Hd%list_elem_of_In. specialize (H _ Hd). by apply bool_decide_eq_true in H. Qed.

Lemma Itoa_tight n : 0 <= n -> tight (Itoa n).
Proof. intros Hn. apply digits_tight. by apply Itoa_digits. Qed.

Lemma Itoa_no_comma n : 0 <= n -> comma_c ∉ Itoa n.
Proof.
  intros Hn Hc. destruct (Itoa_digits n Hn) as (Hd & _). unfold all_digits in Hd. rewrite Forall_forall in Hd.
  by specialize (Hd _ Hc).
Qed.

Lemma performance_ok d : device_ok d -> Forall pair_ok (performance d) /\ NoDup (map fst (performance d)).
Proof.
  intros (_ & _ & _ & Hu & Ht & Hx). split; [|apply (bool_decide_unpack _); vm_compute; exact I].
  repeat apply Forall_cons_2; [..|apply Forall_nil_2]; (split; [|split; [|split]]); cbn [fst snd];
    try (apply Itoa_no_comma; lia); try (apply Itoa_tight; lia); apply (bool_decide_unpack _); vm_compute; exact I.
Qed.

Definition device_map (d : apple_device) : gmap bytes bytes :=
  <[$"PerformanceStatistics" := dict_text (performance d)]> (<[$"model" := quoted (ad_Model d)]> ∅).

Lemma build_device d : device_ok d -> buildAppleStat (device_map d) = Some (device_stat d).
Proof.
  intros Hd. pose proof (performance_ok d Hd) as [Hp Hn]. destruct Hd as (_ & _ & Hm & Hu & Ht & Hx).
  unfold buildAppleStat. rewrite bool_decide_eq_false_2 by apply insert_non_empty.
  assert (entry (device_map d) ($"model") = quoted (ad_Model d)) as ->.
  { unfold entry, device_map. by rewrite lookup_insert_ne, lookup_insert by done. }
  assert (entry (device_map d) ($"PerformanceStatistics") = dict_text (performance d)) as ->.
  { unfold entry, device_map. by rewrite lookup_insert. }
  rewrite ioregUnquote_quoted, !bool_decide_eq_false_2 by done. rewrite parseIORegDict_roundtrip by done.
  unfold device_stat. do 2 f_equal.
  - change (entry _ _) with (Itoa (ad_Used d)). by apply ioregParseUint64_Itoa.
  - change (entry _ _) with (Itoa (ad_Total d)). by apply ioregParseUint64_Itoa.
  - change (entry _ _) with (Itoa (ad_Util d)). unfold parseFloatOrDefault.
    rewrite TrimSpace_tight by (apply Itoa_tight; lia).
    destruct (Itoa_digits (ad_Util d)) as (Hdig & Hne & _); [lia|].
    assert (not_available (Itoa (ad_Util d)) = false) as ->.
    { unfold not_available. rewrite !bool_decide_eq_false_2; [done|..|done]; intros E; rewrite E in Hdig;
        by apply Forall_cons in Hdig as [? _]. }
    destruct (ParseFloat_Itoa (ad_Util d) Hx) as (f & -> & _). done.
Qed.

Lemma white_indent : Forall (fun c => c ∈ white) indent.
Proof. apply (bool_decide_unpack _). vm_compute. exact I. Qed.

Lemma ioreg_indented sts m k c v :
  k <> [] -> dq ∉ k -> c ∉ re_space -> (exists v' b, c :: v = v' ++ [b] /\ b ∉ white) ->
  ioreg_line (MkIoreg sts (Some m)) (indent ++ property k (c :: v)) = MkIoreg sts (Some (<[k := c :: v]> m)).
Proof.
  intros Hk Hq Hc (v' & b & E & Hb). apply ioreg_property; try done; [apply white_indent|].
  rewrite E. unfold property, quoted. cbn [app]. rewrite <- !app_assoc, !app_assoc. apply tight_ends; [apply dq_not_white|done].
Qed.

Lemma device_fold d st :
  device_ok d -> fold_left ioreg_line (device_lines d) st = MkIoreg (flush st) (Some (device_map d)).
Proof.
  intros (_ & (h & c & Hh & Hc) & Hm & _). unfold device_lines. cbn [fold_left]. rewrite Hh, ioreg_header by done.
  assert (forall sts m s, s = $"{" \/ s = $"}" -> ioreg_line (MkIoreg sts m) ($"    " ++ s) = MkIoreg sts m) as Hb.
  { intros sts m s Hs. apply ioreg_other; [apply (bool_decide_unpack _); vm_compute; exact I|..];
      destruct Hs as [-> | ->]; try done; split; intros x r E;
      apply (f_equal (fun l => bool_decide (x ∈ l))) in E as E'; destruct r as [|? [|]]; try done;
      injection E as <-; by apply (bool_decide_eq_false (_ ∈ white)). }
  change ($"    {") with ($"    " ++ $"{"). change ($"    }") with ($"    " ++ $"}"). rewrite Hb by by left.
  unfold quoted at 1. rewrite ioreg_indented; [|done|by apply plain_key|by apply (bool_decide_eq_false (_ ∈ re_space))|].
  2: { exists (dq :: ad_Model d), dq. split; [done|apply dq_not_white]. }
  unfold dict_text. change ($"{" ++ ?x) with ("{"%char :: x).
  rewrite ioreg_indented; [|done|by apply plain_key|by apply (bool_decide_eq_false (_ ∈ re_space))|].
  2: { eexists ("{"%char :: _), "}"%char. split; [reflexivity|by apply (bool_decide_eq_false (_ ∈ white))]. }
  by rewrite Hb by by right.
Qed.

Lemma scanned_lines_id ls : Forall scans ls -> scanned_lines ls = ls.
Proof.
  induction 1 as [|l ls (Hn & Hc & Hl) _ IH]; [done|]. cbn [scanned_lines].
  destruct (N.leb_spec MaxScanTokenSize (N.of_nat (length l))); [lia|]. by rewrite dropCR_id, IH.
Qed.

Lemma devices_fold devs st :
  Forall device_ok devs ->
  flush (fold_left ioreg_line (flat_map device_lines devs) st) = flush st ++ map device_stat devs.
Proof.
  intros H. revert st. induction H as [|d devs Hd _ IH]; intros st; [by rewrite app_nil_r|].
  cbn [flat_map map]. rewrite fold_left_app, device_fold, IH by done. unfold flush at 1. cbn [stats current from_option id].
  rewrite build_device by done. cbn [option_list]. by rewrite <- app_assoc.
Qed.

(** C32: From what [ioreg] prints for its devices, [parseIORegGPUs] reads each of them, in
    order, with its name, its memory and its load. *)
Theorem parseIORegGPUs_roundtrip devs :
  Forall device_ok devs -> parseIORegGPUs (flat_map lf (flat_map device_lines devs)) = map device_stat devs.
Proof.
  intros H. unfold parseIORegGPUs. assert (Forall scans (flat_map device_lines devs)) as Hs.
  { rewrite Forall_flat_map. eapply Forall_impl; [exact H|]. by intros d [Hl _]. }
  assert (raw_lines (flat_map lf (flat_map device_lines devs)) = flat_map device_lines devs) as ->.
  { apply raw_lines_lines. eapply Forall_impl; [exact Hs|]. by intros l [Hl _]. }
  rewrite scanned_lines_id, devices_fold by done. done.
Qed.

Lemma parseIORegGPUs_roundtrip_witness :
  let m2 := MkApple ($"AGXAcceleratorG14G  <class AGXAcceleratorG14G>") ($"Apple M2") 401408 (2 ^ 33) 7 in
  parseIORegGPUs (flat_map lf (flat_map device_lines [m2])) =
    [MkStat [] ($"Apple M2") ($"apple") 401408 (2 ^ 33) (float_of_Z 7) (-1) minus_one (-1)].
Proof.
  intros m2. rewrite (parseIORegGPUs_roundtrip [m2]); [by vm_compute|].
  apply Forall_singleton. split; [|split; [|split; [done|cbn; lia]]].
  - assert (forall l, forallb (fun c => negb (bool_decide (c = nl)) && negb (bool_decide (c = cr))) l &&
                      (N.of_nat (length l) <? MaxScanTokenSize)%N = true -> scans l) as Hs.
    { intros l [Hl Hn]%andb_true_iff. rewrite forallb_forall in Hl. apply N.ltb_lt in Hn.
      split; [|split; [|done]]; intros Hc%list_elem_of_In; by specialize (Hl _ Hc). }
    repeat apply Forall_cons_2; [..|apply Forall_nil_2]; apply Hs; vm_compute; reflexivity.
  - exists ($"AGXAcceleratorG14G  <class AGXAcceleratorG14G"), ">"%char.
    split; [reflexivity|]. by apply (bool_decide_eq_false (_ ∈ white)).
Defined.
