(* ===== verification/Gpu.v ===== *)
(** * Package [gpu]: collecting the statistics

    [sysfs.go], [nvidia.go], [amd.go], [intel.go] and [GetGPUStats] of [stats.go], over the
    file system of [GoTree].  The library that lists the cards and the tools that are run
    are variables; a collection ends before their time is over. *)

From S2P Require Import Prelude GoStr GoText GoPath GoTree GoGlob GoFloat GoCsv GpuHelper GpuApple.

Local Open Scope Z_scope.

(** ** The kernel's files ([sysfs.go]) *)

(** Errors of [Glob] are not looked at. *)
Definition glob_or_none (pattern : bytes) : State os (list bytes) :=
  r ← Glob pattern; mret (match r with Ok l => l | Err _ => [] end).

Fixpoint find_card (pciAddr : bytes) (entries : list bytes) : State os bytes :=
  match entries with
  | [] => mret []
  | entry :: rest =>
      if Contains (Base entry) ($"-") then find_card pciAddr rest
      else
        l ← os_Readlink entry;
        let link := match l with Ok link => link | Err _ => entry end in
        if Contains (ToLower link) pciAddr then mret entry
        else
          d ← os_Readlink (JoinPath [entry; $"device"]);
          match d with
          | Ok devLink => if Contains (ToLower devLink) pciAddr then mret entry else find_card pciAddr rest
          | Err _ => find_card pciAddr rest
          end
  end.

Definition drm_pattern : bytes := $"/sys/class/drm/card[0-9]*".

Definition findDRMCardDir (pciAddr : bytes) : State os bytes :=
  entries ← glob_or_none drm_pattern;
  find_card (normalizePCIAddress pciAddr) entries.

Definition readSysfsStr (path : bytes) : State os bytes :=
  r ← os_ReadFile path; mret (match r with Ok data => TrimSpace data | Err _ => [] end).

Definition parseSysfsUint64 (path : bytes) : State os Z :=
  s ← readSysfsStr path; mret (parse_uint 0 s).

Definition hwmons (cardDir : bytes) : State os (list bytes) :=
  glob_or_none (JoinPath [cardDir; $"device"; $"hwmon"; $"hwmon*"]).

(** [strings.Replace] of the first occurrence. *)
Fixpoint replace_first (s old new : bytes) : bytes :=
  match strip_prefix old s with
  | Some r => new ++ r
  | None => match s with [] => [] | c :: r => c :: replace_first r old new end
  end.

(** The first value that [f] finds. *)
Fixpoint first_some {S A B : Type} (f : A -> State S (option B)) (l : list A) : State S (option B) :=
  match l with
  | [] => mret None
  | x :: rest => r ← f x; match r with Some v => mret (Some v) | None => first_some f rest end
  end.

(** A temperature input: of the label, if one is asked for, and a number. *)
Definition temp_input (label input : bytes) : State os (option Z) :=
  skip ← (if bool_decide (label = []) then mret false
          else l ← readSysfsStr (replace_first input ($"_input") ($"_label")); mret (negb (EqualFold l label)));
  if skip : bool then mret None
  else s ← readSysfsStr input; mret (v ← Atoi s; Some (Z.quot v 1000)).

Definition readHwmonTemp (cardDir label : bytes) : State os Z :=
  hws ← hwmons cardDir;
  r ← first_some (fun hw => inputs ← glob_or_none (JoinPath [hw; $"temp*_input"]); first_some (temp_input label) inputs) hws;
  mret (default (-1) r).

Definition power_input (input : bytes) : State os (option float64) :=
  s ← readSysfsStr input;
  mret (if bool_decide (s = []) then None
        else match ParseFloat s with (v, None) => Some (div_Z v 1000000) | (_, Some _) => None end).

Definition readHwmonPower (cardDir : bytes) : State os float64 :=
  hws ← hwmons cardDir;
  r ← first_some (fun hw => inputs ← glob_or_none (JoinPath [hw; $"power*_average"]); first_some power_input inputs) hws;
  mret (default minus_one r).

Definition fan_input (hw : bytes) : State os (option Z) :=
  s ← readSysfsStr (JoinPath [hw; $"pwm1"]);
  mret (v ← Atoi s; Some (Z.quot (i64 (v * 100)) 255)).

Definition readHwmonFanPercent (cardDir : bytes) : State os Z :=
  hws ← hwmons cardDir;
  r ← first_some fan_input hws;
  mret (default (-1) r).

(** ** Cards by the kernel's files ([amd.go], [intel.go]) *)

Definition card_name (c : card) (deviceDir fallback : bytes) : State os bytes :=
  if bool_decide (cardProductName c = []) then
    name ← readSysfsStr (JoinPath [deviceDir; $"product_name"]);
    mret (if bool_decide (name = []) then fallback else name)
  else mret (cardProductName c).

Definition or_minus_one (z : Z) : Z := if 0 <=? z then z else -1.

Definition amd_card (c : card) : State os (option DeviceStat) :=
  cardDir ← findDRMCardDir (c_Address c);
  if bool_decide (cardDir = []) then mret None
  else
    let deviceDir := JoinPath [cardDir; $"device"] in
    name ← card_name c deviceDir ($"AMD GPU");
    memTotal ← parseSysfsUint64 (JoinPath [deviceDir; $"mem_info_vram_total"]);
    if memTotal =? 0 then mret None
    else
      busy ← readSysfsStr (JoinPath [deviceDir; $"gpu_busy_percent"]);
      memUsed ← parseSysfsUint64 (JoinPath [deviceDir; $"mem_info_vram_used"]);
      temp ← readHwmonTemp cardDir ($"edge");
      power ← readHwmonPower cardDir;
      fan ← readHwmonFanPercent cardDir;
      mret (Some (MkStat (cardAddress c) name ($"amd") memUsed memTotal (parseFloatOrDefault busy zero)
                    (or_minus_one temp) (if ge_zero power then power else minus_one) (or_minus_one fan))).

Fixpoint collect_each (f : card -> State os (option DeviceStat)) (cards : list card) : State os (list DeviceStat) :=
  match cards with
  | [] => mret []
  | c :: rest => s ← f c; ss ← collect_each f rest; mret (option_list s ++ ss)
  end.

Definition collectAMDSysfs (cards : list card) : State os (list DeviceStat) := collect_each amd_card cards.

Definition intel_card (c : card) : State os (option DeviceStat) :=
  cardDir ← findDRMCardDir (c_Address c);
  if bool_decide (cardDir = []) then mret None
  else
    let deviceDir := JoinPath [cardDir; $"device"] in
    name ← card_name c deviceDir ($"Intel GPU");
    busy ← readSysfsStr (JoinPath [deviceDir; $"gpu_busy_percent"]);
    memUsed ← parseSysfsUint64 (JoinPath [deviceDir; $"mem_info_vram_used"]);
    memTotal ← parseSysfsUint64 (JoinPath [deviceDir; $"mem_info_vram_total"]);
    temp ← readHwmonTemp cardDir [];
    power ← readHwmonPower cardDir;
    mret (Some (MkStat (cardAddress c) name ($"intel") memUsed memTotal (parseFloatOrDefault busy zero)
                  (or_minus_one temp) (if ge_zero power then power else minus_one) (-1))).

Definition collectIntelCards (cards : list card) : State os (list DeviceStat) := collect_each intel_card cards.

(** ** Tools ([nvidia.go], [amd.go], [apple.go]) *)

Section tools.
Variable LookPath : bytes -> result bytes.
Variable Output : bytes -> list bytes -> result bytes.    (* of a command, within its time *)
Variable other : float64 -> Z.                            (* of a float that is not a [uint64] *)
Variable darwin : bool.                                   (* [runtime.GOOS] *)

(** The path of a tool that is installed. *)
Definition tool (name : bytes) : option bytes :=
  match LookPath name with
  | Ok path => if bool_decide (path = []) then None else Some path
  | Err _ => None
  end.

Definition nvidia_query : list bytes :=
  [$"--query-gpu=index,pci.bus_id,name,memory.used,memory.total,utilization.gpu,temperature.gpu,power.draw,fan.speed";
   $"--format=csv,noheader,nounits"].

(** A field, trimmed; and its number, zero if it is none. *)
Definition field (fields : list bytes) (i : nat) : bytes := TrimSpace (default [] (fields !! i)).
Definition number (s : bytes) : float64 := fst (ParseFloat s).

Definition mebibytes (v : float64) : Z := to_uint64 other (mul_Z (mul_Z v kib) kib).

Definition nvidia_stat (fields : list bytes) : DeviceStat :=
  MkStat (normalizePCIAddress (field fields 1)) (field fields 2) ($"nvidia")
    (mebibytes (number (field fields 3))) (mebibytes (number (field fields 4))) (number (field fields 5))
    (parseIntOrDefault (field fields 6) (-1)) (parseFloatOrDefault (field fields 7) minus_one)
    (parseIntOrDefault (field fields 8) (-1)).

(** A row of a card that is asked for; without addresses every one is. *)
Definition nvidia_row (allowed : gset bytes) (fields : list bytes) : option DeviceStat :=
  if (length fields <? 9)%nat then None
  else
    let busID := normalizePCIAddress (field fields 1) in
    if negb (bool_decide (allowed = ∅)) && negb (bool_decide (busID ∈ allowed)) then None
    else Some (nvidia_stat fields).

Definition collectNvidiaSMI (cards : list card) : result (list DeviceStat) :=
  match tool ($"nvidia-smi") with
  | None => Ok []
  | Some path =>
      out ← Output path nvidia_query;
      records ← readCSVRecords out;
      Ok (omap (M := list) (nvidia_row (addressSet cards)) records)
  end.

Definition collectNvidiaCards (cards : list card) : result (list DeviceStat) := collectNvidiaSMI cards.

Definition rocm_query : list bytes :=
  [$"--showid"; $"--showuse"; $"--showmeminfo"; $"vram"; $"--showtemp"; $"--showpower"; $"--csv"].

(** The columns by their names; the last of a name counts. *)
Fixpoint columns (i : nat) (header : list bytes) (colIdx : gmap bytes nat) : gmap bytes nat :=
  match header with
  | [] => colIdx
  | h :: rest => columns (S i) rest (<[TrimSpace (ToLower h) := i]> colIdx)
  end.

Definition or_else (a b : bytes) : bytes := if bool_decide (a = []) then b else a.

(** A row for the card of that number; nothing if it has no memory of its own. *)
Definition rocm_row (cards : list card) (colIdx : gmap bytes nat) (cardIdx : nat) (fields : list bytes)
    : option DeviceStat :=
  let col k := csvField fields colIdx k in
  let memTotal := parseUint64Bytes other (col ($"vram total")) (col ($"vram total unit")) in
  if memTotal =? 0 then None
  else
    Some (MkStat
      (match cards !! cardIdx with Some c => cardAddress c | None => [] end)
      (TrimSpace (or_else (col ($"card series")) (or_else (col ($"name"))
         (or_else (match cards !! cardIdx with Some c => cardProductName c | None => [] end) ($"AMD GPU")))))
      ($"amd")
      (parseUint64Bytes other (col ($"vram used")) (col ($"vram used unit"))) memTotal
      (parseFloatOrDefault (col ($"gpu use (%)")) zero)
      (parseIntOrDefault (col ($"temperature (sensor edge) (c)"))
         (parseIntOrDefault (col ($"temperature (sensor junction) (c)")) (-1)))
      (parseFloatOrDefault (col ($"average graphics package power (w)")) minus_one) (-1)).

Fixpoint rocm_rows (cards : list card) (colIdx : gmap bytes nat) (cardIdx : nat) (rows : list (list bytes))
    : list DeviceStat :=
  match rows with
  | [] => []
  | fields :: rest =>
      if bool_decide (fields = []) then rocm_rows cards colIdx cardIdx rest
      else option_list (rocm_row cards colIdx cardIdx fields) ++ rocm_rows cards colIdx (S cardIdx) rest
  end.

Definition collectAMDRocmSMI (cards : list card) : result (list DeviceStat) :=
  match tool ($"rocm-smi") with
  | None => Ok []
  | Some path =>
      out ← Output path rocm_query;
      records ← readCSVRecords out;
      Ok (match records with
            | header :: (_ :: _) as rows => rocm_rows cards (columns 0 header ∅) 0 rows
            | _ => []
            end)
  end.

Definition collectAMDCards (cards : list card) : State os (result (list DeviceStat)) :=
  stats ← (if bool_decide (cards = []) then mret [] else collectAMDSysfs cards);
  mret (if bool_decide (stats = []) then collectAMDRocmSMI cards else Ok stats).

Definition collectAppleGPUs : result (list DeviceStat) :=
  if negb darwin then Ok []
  else
    match tool ($"ioreg") with
    | None => Ok []
    | Some path =>
        out ← Output path [$"-r"; $"-c"; $"AGXAccelerator"; $"-d"; $"1"];
        Ok (parseIORegGPUs out)
    end.

(** ** All of them ([stats.go]) *)

Variable ghw_GPU : option (list card) * option error.

Inductive vendor := Nvidia | Amd | Intel.

#[export] Instance vendor_eq_dec : EqDecision vendor.
Proof. solve_decision. Defined.

(** The collector of a card, if it has one. *)
Definition vendor_of (c : card) : option vendor :=
  match vendor_id c with
  | None => None
  | Some id =>
      let vid := ToLower id in
      if decide (vid ∈ virtualVendorIDs) then None
      else if isIntegratedGPU c then None
      else if bool_decide (vid = $"10de") then Some Nvidia
      else if bool_decide (vid = $"1002") then Some Amd
      else if bool_decide (vid = $"8086") then Some Intel
      else None
  end.

Definition cards_of (v : vendor) (cards : list card) : list card :=
  List.filter (fun c => bool_decide (vendor_of c = Some v)) cards.

Definition stats_of (r : result (list DeviceStat)) : list DeviceStat := match r with Ok l => l | Err _ => [] end.
Definition errs_of {A : Type} (r : result A) : list error := match r with Ok _ => [] | Err e => [e] end.

(** The statistics and the errors that are joined; no error is no error. *)
Definition GetGPUStats : State os (list DeviceStat * list error) :=
  let '(info, err) := ghw_GPU in
  let cards := match err, info with None, Some l => l | _, _ => [] end in
  let nvidia := collectNvidiaCards (cards_of Nvidia cards) in
  amd ← collectAMDCards (cards_of Amd cards);
  intel ← collectIntelCards (cards_of Intel cards);
  let apple := collectAppleGPUs in
  mret (stats_of nvidia ++ stats_of amd ++ intel ++ stats_of apple,
        option_list err ++ errs_of nvidia ++ errs_of amd ++ errs_of apple).
End tools.

(** ** Collecting only reads *)

Definition reads {A : Type} (m : State os A) : Prop := forall w, nodes (snd (m w)) = nodes w.

Lemma reads_ret {A : Type} (a : A) : reads (mret a).
Proof. by intros w. Qed.

Lemma reads_bind {A B : Type} (m : State os A) (f : A -> State os B) :
  reads m -> (forall a, reads (f a)) -> reads (m ≫= f).
Proof.
  intros Hm Hf w. unfold mbind, State_bind. specialize (Hm w). destruct (m w) as [a w1]. cbn [snd] in Hm.
  by rewrite Hf.
Qed.

Lemma reads_try {A B : Type} (m : State os (result A)) (f : A -> State os (result B)) :
  reads m -> (forall a, reads (f a)) -> reads (try_bind m f).
Proof. intros Hm Hf. apply reads_bind; [done|]. intros [a|e]; [done|apply reads_ret]. Qed.

Lemma reads_gets {A : Type} (f : os -> A) : reads (gets f).
Proof. by intros w. Qed.

Lemma reads_fault : reads fault.
Proof. by intros w. Qed.

Lemma reads_syscall {A : Type} (f : State os (result A)) : reads f -> reads (syscall nothing f).
Proof.
  intros Hf. apply reads_bind; [apply reads_fault|]. intros [[n e]|]; [|done].
  apply reads_bind; [|intros _]; apply reads_ret.
Qed.

Lemma reads_look {A : Type} (p : bytes) (follow : bool) (f : fpath -> node -> tree -> result A) : reads (look p follow f).
Proof.
  apply reads_syscall. intros w. destruct (locate _ _ _ _) as [q|e]; [|done].
  destruct (nodes w !! q) as [n|]; [|done]. by destruct (f q n (nodes w)).
Qed.

Create HintDb reads.
#[local] Hint Constants Opaque : reads.
#[local] Hint Resolve reads_ret reads_gets reads_fault reads_look : reads.

Ltac reads_step :=
  match goal with
  | |- reads (match ?x with _ => _ end) => destruct x
  | |- reads (let '(_, _) := ?x in _) => destruct x
  | |- reads (mbind _ _) => apply reads_bind; [|intros ?]
  | |- reads (try_bind _ _) => apply reads_try; [|intros ?]
  | |- reads _ => solve [typeclasses eauto with reads nocore]
  end.

Ltac reads := repeat (cbv beta zeta; reads_step).

Lemma os_Readlink_reads p : reads (os_Readlink p).
Proof. apply reads_look. Qed.
Lemma os_Stat_reads p : reads (os_Stat p).
Proof. apply reads_look. Qed.
Lemma os_Lstat_reads p : reads (os_Lstat p).
Proof. apply reads_look. Qed.
Lemma os_Open_reads p : reads (os_Open p).
Proof. apply reads_look. Qed.
#[local] Hint Resolve os_Readlink_reads os_Stat_reads os_Lstat_reads os_Open_reads : reads.

Lemma os_ReadFile_reads p : reads (os_ReadFile p).
Proof.
  unfold os_ReadFile. reads. apply reads_syscall. intros w. by destruct (nodes w !! _) as [[]|].
Qed.

Lemma glob_in_reads dir pattern : reads (glob_in dir pattern).
Proof. unfold glob_in, f_Readdirnames. reads. Qed.
#[local] Hint Resolve os_ReadFile_reads glob_in_reads : reads.

Lemma glob_dirs_reads dirs pattern : reads (glob_dirs dirs pattern).
Proof. induction dirs as [|d dirs IH]; cbn [glob_dirs]; reads. Qed.
#[local] Hint Resolve glob_dirs_reads : reads.

Lemma Glob_reads pattern : reads (Glob pattern).
Proof.
  unfold Glob. generalize (S (length pattern)). intros n. revert pattern.
  induction n as [|n IH]; intros pattern; cbn [glob_from]; reads.
Qed.
#[local] Hint Resolve Glob_reads : reads.

Lemma first_some_reads {A B : Type} (f : A -> State os (option B)) l :
  (forall x, reads (f x)) -> reads (first_some f l).
Proof. intros Hf. induction l as [|x l IH]; cbn [first_some]; [apply reads_ret|]. apply reads_bind; [done|]. intros []; reads. Qed.
#[local] Hint Resolve first_some_reads : reads.

Lemma find_card_reads a entries : reads (find_card a entries).
Proof. induction entries as [|e entries IH]; cbn [find_card]; reads. Qed.
#[local] Hint Resolve find_card_reads : reads.

Lemma readSysfsStr_reads p : reads (readSysfsStr p).
Proof. unfold readSysfsStr. reads. Qed.
#[local] Hint Resolve readSysfsStr_reads : reads.

Lemma hwmons_reads d : reads (hwmons d).
Proof. unfold hwmons, glob_or_none. reads. Qed.
#[local] Hint Resolve hwmons_reads : reads.

Lemma hwmon_reads d l : reads (readHwmonTemp d l) /\ reads (readHwmonPower d) /\ reads (readHwmonFanPercent d).
Proof.
  unfold readHwmonTemp, readHwmonPower, readHwmonFanPercent, glob_or_none.
  split; [|split]; reads; apply first_some_reads; intros x.
  - reads. apply first_some_reads. intros y. unfold temp_input. reads.
  - reads. apply first_some_reads. intros y. unfold power_input. reads.
  - unfold fan_input. reads.
Qed.

Lemma card_reads c : reads (amd_card c) /\ reads (intel_card c).
Proof.
  unfold amd_card, intel_card, findDRMCardDir, glob_or_none, card_name, parseSysfsUint64.
  split; reads; try (by apply hwmon_reads).
Qed.

Lemma collect_each_reads f cards : (forall c, reads (f c)) -> reads (collect_each f cards).
Proof. intros Hf. induction cards as [|c cards IH]; cbn [collect_each]; [apply reads_ret|]. apply reads_bind; [done|]. intros s. reads. Qed.

(** Collecting the statistics changes no file, whatever it finds and whatever fails. *)
Theorem GetGPUStats_reads LookPath Output other darwin ghw w :
  nodes (snd (GetGPUStats LookPath Output other darwin ghw w)) = nodes w.
Proof.
  revert w. change (reads (GetGPUStats LookPath Output other darwin ghw)). unfold GetGPUStats.
  destruct ghw as [info err]. unfold collectAMDCards, collectAMDSysfs, collectIntelCards. reads;
    apply collect_each_reads; intros c; apply card_reads.
Qed.

(** ** What the driver's tool prints is what is reported *)

Record smi_card := MkSmi {
  smi_Index : Z; smi_Bus : bytes; smi_Name : bytes; smi_Used : Z; smi_Total : Z;
  smi_Util : bytes; smi_Temp : Z; smi_Power : bytes; smi_Fan : bytes
}.

Definition smi_fields (g : smi_card) : list bytes :=
  [Itoa (smi_Index g); smi_Bus g; smi_Name g; Itoa (smi_Used g); Itoa (smi_Total g); smi_Util g;
   Itoa (smi_Temp g); smi_Power g; smi_Fan g].

Definition smi_stat (g : smi_card) : DeviceStat :=
  MkStat (normalizePCIAddress (smi_Bus g)) (smi_Name g) ($"nvidia") (smi_Used g * 2 ^ 20) (smi_Total g * 2 ^ 20)
    (number (smi_Util g)) (smi_Temp g) (parseFloatOrDefault (smi_Power g) minus_one)
    (parseIntOrDefault (smi_Fan g) (-1)).

Definition smi_ok (g : smi_card) : Prop :=
  tight (smi_Bus g) /\ tight (smi_Name g) /\ tight (smi_Util g) /\ tight (smi_Power g) /\ tight (smi_Fan g) /\
  0 <= smi_Used g < 2 ^ 44 /\ 0 <= smi_Total g < 2 ^ 44 /\ 0 <= smi_Temp g < 2 ^ 63.

(** The card is one of those asked for, or all are. *)
Definition asked (cards : list card) (g : smi_card) : bool :=
  bool_decide (addressSet cards = ∅) || bool_decide (normalizePCIAddress (smi_Bus g) ∈ addressSet cards).

Lemma mebibytes_Itoa other n : 0 <= n < 2 ^ 44 -> mebibytes other (number (Itoa n)) = n * 2 ^ 20.
Proof.
  intros Hn. unfold mebibytes, number. destruct (ParseFloat_Itoa n) as (f & -> & Hf); [lia|]. cbn [fst].
  assert (is_value f (n * 2 ^ 0)) as H0 by (by rewrite Z.mul_1_r).
  pose proof (kib_value _ n 0 H0 ltac:(lia) ltac:(lia)) as H1.
  pose proof (kib_value _ n 10 H1 ltac:(lia) ltac:(lia)) as H2.
  apply to_uint64_value; [done|]. change (10 + 10) with 20. lia.
Qed.

Lemma nvidia_row_spec other cards g :
  smi_ok g -> nvidia_row other (addressSet cards) (smi_fields g) = if asked cards g then Some (smi_stat g) else None.
Proof.
  intros (Hb & Hn & Hu & Hp & Hf & Hused & Htot & Htemp). unfold nvidia_row, asked. cbn [length smi_fields Nat.ltb Nat.leb].
  change (field (smi_fields g) 1) with (TrimSpace (smi_Bus g)). rewrite TrimSpace_tight by done.
  assert (nvidia_stat other (smi_fields g) = smi_stat g) as ->.
  { unfold nvidia_stat, smi_stat, field, smi_fields. cbn [lookup list_lookup default from_option id].
    rewrite !TrimSpace_tight by (done || (apply Itoa_tight; lia)). rewrite !mebibytes_Itoa by done. f_equal.
    unfold parseIntOrDefault. rewrite TrimSpace_tight by (apply Itoa_tight; lia).
    destruct (Itoa_digits (smi_Temp g)) as (Hd & Hne & _); [lia|].
    by rewrite not_available_digits, Atoi_Itoa. }
  by destruct (bool_decide (addressSet cards = ∅)), (bool_decide (_ ∈ _)).
Qed.

Lemma omap_nvidia other cards gs :
  Forall smi_ok gs ->
  omap (nvidia_row other (addressSet cards)) (map smi_fields gs) = map smi_stat (List.filter (asked cards) gs).
Proof.
  induction 1 as [|g gs Hg _ IH]; [done|]. cbn [map List.filter]. change (omap ?f (?x :: ?l)) with
    (match f x with Some y => y :: omap f l | None => omap f l end).
  rewrite nvidia_row_spec, IH by done. by destruct (asked cards g).
Qed.

(** C31: [collectNvidiaSMI] reports the cards that [nvidia-smi] prints and that were asked
    for, in its order, with their memory in bytes exactly and their address in the form
    of the system. *)
Theorem collectNvidiaSMI_reports LookPath Output other cards path gs tss :
  LookPath ($"nvidia-smi") = Ok path -> path <> [] -> Output path nvidia_query = Ok (csv_text tss) ->
  Forall2 row_ok (map smi_fields gs) tss -> Forall smi_ok gs ->
  collectNvidiaSMI LookPath Output other cards = Ok (map smi_stat (List.filter (asked cards) gs)).
Proof.
  intros HL Hp HO Ht Hok. unfold collectNvidiaSMI, tool. rewrite HL, bool_decide_eq_false_2, HO by done.
  cbn [mbind result_bind]. unfold readCSVRecords, csv_ReadAll.
  rewrite (read_table 9 (map smi_fields gs) tss Ht) by first [by left | by intros row (g & -> & _)%list_elem_of_fmap].
  cbn [mbind result_bind]. by rewrite omap_nvidia.
Qed.

(** ** Examples *)

Module GpuDemo.
Definition mt : meta := Meta 493 0 0 0.
Definition file (s : bytes) : node := NFile (s ++ [nl]) mt.
Definition dev : list bytes := [$"sys"; $"devices"; $"0000:03:00.0"].
Definition mon : list bytes := dev ++ [$"hwmon"; $"hwmon2"].

Definition sysfs : tree := list_to_map
  [([], NDir mt); ([$"sys"], NDir mt); ([$"sys"; $"devices"], NDir mt); (dev, NDir mt);
   ([$"sys"; $"class"], NDir mt); ([$"sys"; $"class"; $"drm"], NDir mt);
   ([$"sys"; $"class"; $"drm"; $"card1"], NLink ($"/sys/devices/0000:03:00.0/drm/card1") mt);
   ([$"sys"; $"class"; $"drm"; $"card1-DP-1"], NDir mt);
   (dev ++ [$"drm"], NDir mt); (dev ++ [$"drm"; $"card1"], NDir mt);
   (dev ++ [$"drm"; $"card1"; $"device"], NLink ($"../..") mt);
   (dev ++ [$"mem_info_vram_total"], file ($"17163091968")); (dev ++ [$"mem_info_vram_used"], file ($"1048576"));
   (dev ++ [$"gpu_busy_percent"], file ($"42")); (dev ++ [$"hwmon"], NDir mt); (mon, NDir mt);
   (mon ++ [$"temp1_input"], file ($"91000")); (mon ++ [$"temp1_label"], file ($"junction"));
   (mon ++ [$"temp2_input"], file ($"51000")); (mon ++ [$"temp2_label"], file ($"edge"));
   (mon ++ [$"power1_average"], file ($"36000000")); (mon ++ [$"pwm1"], file ($"102"))].

Definition world : os := Os sysfs (Process [] 18 0 0 0) [].
Definition radeon (address : bytes) : card :=
  MkCard address (Some (MkDevice (Some ($"1002")) (Some ($"Radeon RX 7800 XT")))).

(** A card is found by its address, and its files are read. *)
Example amd_sysfs :
  fst (collectAMDSysfs [radeon ($"0000:03:00.0")] world) =
    [MkStat ($"0000:03:00.0") ($"Radeon RX 7800 XT") ($"amd") 1048576 17163091968 (float_of_Z 42) 51 (float_of_Z 36) 40].
Proof. vm_compute. reflexivity. Qed.

(** A card without an address gets the files of the first one there is. *)
Example empty_address : fst (findDRMCardDir [] world) = $"/sys/class/drm/card1".
Proof. vm_compute. reflexivity. Qed.

Definition a2 : smi_card :=
  MkSmi 0 ($"00000000:0A:00.0") ($"NVIDIA A2") 3 15356 ($"7") 41 ($"18.53") ($"[N/A]").
End GpuDemo.

Lemma collectNvidiaSMI_reports_witness :
  collectNvidiaSMI (fun _ => Ok ($"/usr/bin/nvidia-smi"))
    (fun _ _ => Ok ($"0, 00000000:0A:00.0, NVIDIA A2, 3, 15356, 7, 41, 18.53, [N/A]" ++ [nl])) (fun _ => 0)
    [MkCard ($"0000:0a:00.0") None] =
  Ok [MkStat ($"0000:0a:00.0") ($"NVIDIA A2") ($"nvidia") 3145728 16101933056 (float_of_Z 7) 41
        (fst (ParseFloat ($"18.53"))) (-1)].
Proof.
  rewrite (collectNvidiaSMI_reports _ _ _ _ ($"/usr/bin/nvidia-smi") [GpuDemo.a2]
    [[$"0"; $" 00000000:0A:00.0"; $" NVIDIA A2"; $" 3"; $" 15356"; $" 7"; $" 41"; $" 18.53"; $" [N/A]"]]);
    [by vm_compute|reflexivity|done|reflexivity| |].
  - assert (forall f, forallb (fun c => bool_decide (c <> comma) && bool_decide (c <> dquote)) f &&
                      match f with [] => true | c :: _ => bool_decide (c ∉ white) end = true -> plain_field f) as Hf.
    { intros f [H1 H2]%andb_true_iff. rewrite forallb_forall in H1. split; [|split].
      - intros H%list_elem_of_In. by specialize (H1 _ H).
      - intros H%list_elem_of_In. by specialize (H1 _ H).
      - intros c r ->. by apply bool_decide_eq_true in H2. }
    apply Forall2_cons. split; [|apply Forall2_nil; exact I]. split; [|split; [done|split]].
    + repeat apply Forall2_cons_2; [..|apply Forall2_nil_2];
        first [apply (text_plain _ []); [done|apply Hf; vm_compute; reflexivity]
              |apply (text_plain _ ($" ")); [by repeat constructor|apply Hf; vm_compute; reflexivity]].
    + apply (bool_decide_unpack _). vm_compute. exact I.
    + apply (bool_decide_unpack _). vm_compute. exact I.
  - apply Forall_singleton.
    assert (forall s, match s with [] => false | c :: _ => bool_decide (c ∉ white) end &&
                      match last s with Some c => bool_decide (c ∉ white) | None => false end = true -> tight s) as Hs.
    { intros s [H1 H2]%andb_true_iff. split.
      - intros c r ->. by apply bool_decide_eq_true in H1.
      - intros c r ->. rewrite last_snoc in H2. by apply bool_decide_eq_true in H2. }
    repeat split; try (apply Hs; vm_compute; reflexivity); vm_compute; congruence.
Defined.
