(* ===== verification/Logman.v ===== *)
(** * Package [logman]: loggers and where they write

    [logger.go], [setter.go] and the leveled functions of [global.go], over the part of
    [log/slog] that they use: a text handler with a level, whose attributes go through
    [replaceAttr].  The encoding of a record as text is left out: what a handler writes
    is the list of its attributes.  The package [lumberjack] is its settings. *)

From S2P Require Import Prelude GoStr GoText GoPath GoTime GoTree GoTreeFacts.

Local Open Scope Z_scope.

(** ** [log/slog] *)

Definition LevelDebug : Z := -4.
Definition LevelInfo : Z := 0.
Definition LevelWarn : Z := 4.
Definition LevelError : Z := 8.

(** An attribute: its key and the text of its value. *)
Record attr := MkAttr { Key : bytes; Value : bytes }.

(** An argument of a log call: an attribute, a string or another value, with its text. *)
Inductive arg := AAttr (a : attr) | AString (s : bytes) | AOther (s : bytes).

Definition arg_text (a : arg) : bytes := match a with AAttr a => Value a | AString s | AOther s => s end.

Definition badKey : bytes := $"!BADKEY".

(** Keys and values in turn; what is no key stands under a key that says so. *)
Fixpoint attrs (args : list arg) : list attr :=
  match args with
  | [] => []
  | AAttr a :: rest => a :: attrs rest
  | AOther s :: rest => MkAttr badKey s :: attrs rest
  | AString k :: rest =>
      match rest with
      | [] => [MkAttr badKey k]
      | v :: rest => MkAttr k (arg_text v) :: attrs rest
      end
  end.

(** [Level.UnmarshalText]: a name and an offset; another text leaves the level zero. *)
Definition level_names : list (bytes * Z) :=
  [($"DEBUG", LevelDebug); ($"INFO", LevelInfo); ($"WARN", LevelWarn); ($"ERROR", LevelError)].

Fixpoint split_level (s : bytes) : bytes * bytes :=
  match s with
  | [] => ([], [])
  | c :: r =>
      if bool_decide (c = "+"%char) || bool_decide (c = "-"%char) then ([], s)
      else let '(a, b) := split_level r in (c :: a, b)
  end.

Definition parse_level (s : bytes) : Z :=
  let '(name, offset) := split_level s in
  match List.find (fun nl => bool_decide (fst nl = ToUpper name)) level_names with
  | None => LevelInfo
  | Some (_, l) =>
      if bool_decide (offset = []) then l
      else match Atoi offset with Some o => i64 (l + o) | None => LevelInfo end
  end.

(** ** Configuration and writers ([setter.go]) *)

Record Config := MkConfig { Level : bytes; Target : bytes; Storage : bytes; Filename : bytes }.

Record lumberjack := MkLumberjack {
  Compress : bool; lj_Filename : bytes; MaxSize : Z; MaxBackups : Z; MaxAge : Z
}.

Inductive writer := Stdout | Stderr | Discard | ToFile (l : lumberjack) | Multi (ws : list writer).

(** [slog.Logger] with a text handler. *)
Record slogger := MkSlog { s_level : Z; s_out : writer }.

(** What was written: where to, for which context, and the attributes. *)
Record record := MkRecord { r_out : writer; r_ctx : nat; r_attrs : list attr }.

(** The package, the loggers it made (by number), the default one, and the world. *)
Record named := MkNamed { n_name : bytes; n_logger : slogger; n_ctx : nat }.
Record lstate := MkState {
  config : Config; loggers : gmap nat named; default_log : slogger; output : list record; disk : os
}.

(** The context of package [context] that is never done. *)
Definition Background : nat := 0.

(** [time.Now] as the handler prints it: local date and time of day. *)
Definition clock_text (loc : location) (unix : Z) : bytes :=
  let s := wall loc unix mod 86400 in
  format_day (local_day loc unix) ++ $" " ++ dec_digits 2 (s / 3600) ++ $":" ++
  dec_digits 2 (s / 60 mod 60) ++ $":" ++ dec_digits 2 (s mod 60).

Section logman.
Variable now : bytes.                                (* the time of a record, as text *)
Variable level_text : Z -> bytes.                    (* [Level.String] *)

Definition TimeKey : bytes := $"time".
Definition LevelKey : bytes := $"level".
Definition MessageKey : bytes := $"msg".

Definition replaceAttr (a : attr) : attr :=
  if bool_decide (Key a = TimeKey) then MkAttr (Key a) now
  else if bool_decide (Key a = $"Logger") then MkAttr (Key a) (TrimLeft (Value a) ($"./"))
  else a.

Definition on_disk {A : Type} (p : State os A) : State lstate A := fun s =>
  let '(a, d) := p (disk s) in (a, MkState (config s) (loggers s) (default_log s) (output s) d).

(** Its error is dropped. *)
Definition FileWriter (name : bytes) : State lstate lumberjack :=
  c ← gets config;
  let f := name ++ $".log" in
  let f := if HasPrefix name ($"/") then f else JoinPath [Storage c; f] in
  let d := Dir f in
  (if negb (bool_decide (d = [])) && negb (bool_decide (d = dot))
   then _ ← on_disk (os_MkdirAll d 493); mret tt else mret tt);;
  mret (MkLumberjack true f 100 21 7).

Definition AutoWriter (name : bytes) : State lstate writer :=
  c ← gets config;
  if bool_decide (Target c = $"file") then l ← FileWriter name; mret (ToFile l)
  else if bool_decide (Target c = $"both") then l ← FileWriter name; mret (Multi [Stdout; ToFile l])
  else if bool_decide (Target c = $"null") then mret Discard
  else if bool_decide (Target c = $"stderr") then mret Stderr
  else mret Stdout.

Definition NewLogger (name : bytes) : State lstate slogger :=
  c ← gets config;
  w ← AutoWriter name;
  mret (MkSlog (parse_level (Level c)) w).

(** [Filename] of the configuration is not stored. *)
Definition SetDefault (args : Config) : State lstate unit :=
  modify (fun s => MkState (MkConfig (Level args) (Target args) (Storage args) (Filename (config s)))
                     (loggers s) (default_log s) (output s) (disk s));;
  l ← NewLogger (Filename args);
  modify (fun s => MkState (config s) (loggers s) l (output s) (disk s)).

Definition Default : State lstate slogger := gets default_log.

(** [slog.Logger.Log]: nothing below the level of the handler. *)
Definition slog_Log (l : slogger) (ctx : nat) (level : Z) (msg : bytes) (args : list arg) : State lstate unit :=
  if level <? s_level l then mret tt
  else
    let all := MkAttr TimeKey now :: MkAttr LevelKey (level_text level) :: MkAttr MessageKey msg :: attrs args in
    modify (fun s => MkState (config s) (loggers s) (default_log s)
                       (output s ++ [MkRecord (s_out l) ctx (map replaceAttr all)]) (disk s)).

(** ** Named loggers ([logger.go]); a logger is the number of the object *)

Definition new_logger (o : named) : State lstate nat := fun s =>
  let n := fresh (dom (loggers s)) in
  (n, MkState (config s) (<[n := o]> (loggers s)) (default_log s) (output s) (disk s)).

Definition NamedWithContext (name : bytes) (ctx : nat) : State lstate nat :=
  l ← NewLogger name; new_logger (MkNamed name l ctx).

Definition Named (name : bytes) : State lstate nat := NamedWithContext name Background.

Definition log (l : nat) (level : Z) (msg : bytes) (args : list arg) : State lstate unit :=
  o ← gets (fun s => loggers s !! l);
  match o with
  | None => mret tt
  | Some l => slog_Log (n_logger l) (n_ctx l) level msg (AString ($"Logger") :: AString (n_name l) :: args)
  end.

(** The object is changed, and it is the result. *)
Definition WithContext (l : nat) (ctx : nat) : State lstate nat := fun s =>
  (l, MkState (config s) (alter (fun o => MkNamed (n_name o) (n_logger o) ctx) l (loggers s))
        (default_log s) (output s) (disk s)).

Definition Debug (l : nat) := log l LevelDebug.
Definition Info (l : nat) := log l LevelInfo.
Definition Warn (l : nat) := log l LevelWarn.
Definition Error (l : nat) := log l LevelError.

(** Of the default logger ([global.go]). *)
Definition global (level : Z) (msg : bytes) (args : list arg) : State lstate unit :=
  l ← Default; slog_Log l Background level msg args.

(** The variants that format their message. *)
Variable Sprintf : bytes -> list arg -> bytes.

Definition Debugf (l : nat) (msg : bytes) (args : list arg) := log l LevelDebug (Sprintf msg args) [].
Definition Infof (l : nat) (msg : bytes) (args : list arg) := log l LevelInfo (Sprintf msg args) [].
Definition Warnf (l : nat) (msg : bytes) (args : list arg) := log l LevelWarn (Sprintf msg args) [].
Definition Errorf (l : nat) (msg : bytes) (args : list arg) := log l LevelError (Sprintf msg args) [].

Definition globalf (level : Z) (msg : bytes) (args : list arg) := global level (Sprintf msg args) [].

(** [Fatal]: the callbacks of package [signal], then the record; the value is the status
    with which the process exits. *)
Variable CallQuitFuncs : State lstate unit.

Definition Fatal (l : nat) (msg : bytes) (args : list arg) : State lstate Z :=
  CallQuitFuncs;; Error l msg args;; mret 1.
Definition Fatalf (l : nat) (msg : bytes) (args : list arg) : State lstate Z := Fatal l (Sprintf msg args) [].

Definition global_Fatal (msg : bytes) (args : list arg) : State lstate Z :=
  CallQuitFuncs;; global LevelError msg args;; mret 1.
Definition global_Fatalf (msg : bytes) (args : list arg) : State lstate Z := global_Fatal (Sprintf msg args) [].
End logman.


(** ** One record for a call at the level or above *)

Lemma TrimLeft_subseteq s cutset : exists p, s = p ++ TrimLeft s cutset.
Proof. destruct (TrimLeft_spec s cutset) as (p & H & _). by exists p. Qed.

(** A call of a logger writes one record, to the writer and for the context of the
    logger, if its level is the configured one or above, else none: the time, the level,
    the message, the name of the logger without leading dots and slashes, and the
    attributes of the call. *)
Lemma log_spec now level_text l level msg args o s :
  loggers s !! l = Some o ->
  let record := MkRecord (s_out (n_logger o)) (n_ctx o)
    (MkAttr TimeKey now :: MkAttr LevelKey (level_text level) :: MkAttr MessageKey msg ::
     MkAttr ($"Logger") (TrimLeft (n_name o) ($"./")) :: map (replaceAttr now) (attrs args)) in
  log now level_text l level msg args s =
    (tt, MkState (config s) (loggers s) (default_log s)
           (output s ++ if s_level (n_logger o) <=? level then [record] else []) (disk s)).
Proof.
  intros Hl record. unfold log, gets, mbind, State_bind. rewrite Hl. unfold slog_Log.
  destruct (Z.ltb_spec level (s_level (n_logger o))), (Z.leb_spec (s_level (n_logger o)) level); try lia.
  - rewrite app_nil_r. by destruct s.
  - reflexivity.
Qed.

(** An attribute of a caller whose key is [time] is replaced by the time of the
    record, like the time of the record itself. *)
Theorem replaceAttr_overwrites_time now level_text l level msg t args o s :
  loggers s !! l = Some o -> s_level (n_logger o) <= level ->
  exists r, output (snd (log now level_text l level msg (AString TimeKey :: AString t :: args) s)) = output s ++ [r] /\
    forall t', output (snd (log now level_text l level msg (AString TimeKey :: AString t' :: args) s)) = output s ++ [r].
Proof.
  intros Hl Hlev. eexists. unfold log, gets, mbind, State_bind. rewrite Hl. unfold slog_Log.
  destruct (Z.ltb_spec level (s_level (n_logger o))); [lia|]. split; [reflexivity|]. by intros t'.
Qed.

(** [WithContext] changes the logger it is called on: who keeps the logger of one
    context logs for another one as soon as somebody asks for that. *)
Theorem WithContext_shared now level_text l c1 c2 level msg args o s :
  loggers s !! l = Some o -> s_level (n_logger o) <= level ->
  let '(l1, s1) := WithContext l c1 s in
  let '(l2, s2) := WithContext l c2 s1 in
  exists r, output (snd (log now level_text l1 level msg args s2)) = output s ++ [r] /\ r_ctx r = c2.
Proof.
  intros Hl Hlev. unfold WithContext. cbn [loggers config default_log output disk].
  set (o2 := MkNamed (n_name o) (n_logger o) c2).
  unfold log, gets, mbind, State_bind. cbn [loggers].
  rewrite (lookup_alter_eq _ (alter _ l (loggers s))), lookup_alter_eq, Hl. cbn [fmap option_fmap option_map].
  unfold slog_Log. cbn [n_logger n_ctx n_name].
  destruct (Z.ltb_spec level (s_level (n_logger o))); [lia|]. cbn [snd modify output].
  eexists. by split.
Qed.

(** ** The file of a logger *)

Lemma plain_log n : plain n -> plain (n ++ $".log").
Proof.
  intros (H1 & _ & _ & Hs). unfold plain, dot, dotdot. split_and!.
  - by destruct n.
  - intros E. apply (f_equal length) in E. rewrite length_app in E. simpl in E. lia.
  - intros E. apply (f_equal length) in E. rewrite length_app in E. simpl in E. lia.
  - rewrite elem_of_app. intros [H|H]; [done|]. revert H. by apply (bool_decide_unpack _).
Qed.

Lemma plain_not_rooted ns : Forall plain ns -> ns <> [] -> HasPrefix (Join ns [slash]) ($"/") = false.
Proof.
  intros H Hne. destruct H as [|n ns (Hn & _ & _ & Hs) H]; [done|].
  apply not_true_iff_false. intros [r Hr]%HasPrefix_spec. destruct n as [|c n]; [done|].
  assert (c = slash) as -> by (destruct ns; cbn in Hr; by injection Hr as -> _). apply Hs. left.
Qed.

(** The file of a logger whose name is a path of plain names is at that path under
    the storage directory; of the disk, whatever fails, only directories above it are
    made, and nothing that is there is changed. *)
Theorem FileWriter_stays q ns n s :
  tree_ok (nodes (disk s)) -> Forall plain q -> Forall plain ns -> plain n -> q ++ ns <> [] ->
  Storage (config s) = abs q ->
  let '(l, s') := FileWriter (Join (ns ++ [n]) [slash]) s in
  lj_Filename l = abs (q ++ ns ++ [n ++ $".log"]) /\
  grow (fun k => k `prefix_of` q ++ ns) (disk s) (disk s') /\
  config s' = config s /\ loggers s' = loggers s /\ output s' = output s.
Proof.
  intros Hok Hq Hns Hn Hne Hst. unfold FileWriter, gets, mbind, State_bind.
  assert (Forall plain (ns ++ [n])) as Hall by (apply Forall_app; split; [done|by apply Forall_singleton]).
  rewrite plain_not_rooted by (done || by destruct ns). rewrite Hst.
  assert (Join (ns ++ [n]) [slash] ++ $".log" = Join (ns ++ [n ++ $".log"]) [slash]) as ->.
  { destruct ns as [|x ns]; [done|]. rewrite !Join_snoc by done. by rewrite <- !app_assoc. }
  pose proof (plain_log n Hn) as Hl.
  rewrite JoinPath_abs, walk_names_rel; [|done|apply Forall_app; split; [done|by apply Forall_singleton]|by destruct ns|done].
  assert (Forall plain (q ++ ns)) as Hqn by (by apply Forall_app).
  rewrite app_assoc, Dir_abs by done.
  assert (abs (q ++ ns) <> dot) as Hd by (unfold abs; intros [=]).
  rewrite (bool_decide_eq_false_2 (abs (q ++ ns) = [])), (bool_decide_eq_false_2 _ Hd) by done. cbn [negb andb].
  unfold on_disk. pose proof (os_MkdirAll_change 493 (q ++ ns) (disk s) Hok Hqn) as H.
  destruct (os_MkdirAll (abs (q ++ ns)) 493 (disk s)) as [r d]. destruct H as [H _].
  cbn [lj_Filename disk config loggers output]. by rewrite <- app_assoc.
Qed.

(** ** Examples *)

Module LogmanDemo.
Definition mt : meta := Meta 493 0 0 0.
Definition tree0 : tree := list_to_map [([], NDir mt); ([$"var"], NDir mt)].
Definition start : lstate :=
  MkState (MkConfig ($"warn") ($"file") ($"/var/log") []) ∅ (MkSlog 0 Stdout) [] (Os tree0 (Process [] 18 0 0 0) []).

Lemma tree0_ok : tree_ok tree0.
Proof. apply tree_okb_ok. vm_compute. reflexivity. Qed.

Lemma plain_check (s : bytes) : forallb (fun c => negb (bool_decide (c = slash))) s &&
  negb (bool_decide (s = [])) && negb (bool_decide (s = dot)) && negb (bool_decide (s = dotdot)) = true -> plain s.
Proof.
  rewrite !andb_true_iff, forallb_forall, !negb_true_iff, !bool_decide_eq_false. intros [[[H1 H2] H3] H4].
  split_and!; try done. intros Hs%list_elem_of_In. by specialize (H1 _ Hs).
Qed.

(** A name with dots leaves the storage directory. *)
Example FileWriter_leaves : lj_Filename (fst (FileWriter ($"../../etc/cron.d/x") start)) = $"/etc/cron.d/x.log".
Proof. vm_compute. reflexivity. Qed.

Definition with_logger : lstate := snd (NamedWithContext ($"./gorm") 7 start).
End LogmanDemo.

Lemma log_spec_witness :
  exists r, output (snd (log ($"now") (fun _ => $"ERROR") 0 LevelError ($"m") [AString ($"k"); AOther ($"1")] LogmanDemo.with_logger)) = [r] /\
    r_ctx r = 7%nat /\ r_attrs r = [MkAttr TimeKey ($"now"); MkAttr LevelKey ($"ERROR"); MkAttr MessageKey ($"m");
                               MkAttr ($"Logger") ($"gorm"); MkAttr ($"k") ($"1")].
Proof.
  eexists. rewrite (log_spec _ _ 0 _ _ _ (default (MkNamed [] (MkSlog 0 Stdout) 0) (loggers LogmanDemo.with_logger !! 0%nat))).
  - vm_compute. repeat split.
  - vm_compute. reflexivity.
Defined.

Lemma replaceAttr_overwrites_time_witness :
  exists r, output (snd (log ($"now") (fun _ => $"WARN") 0 LevelWarn ($"m") [AString TimeKey; AString ($"42ms")] LogmanDemo.with_logger)) = [r] /\
    r_attrs r !! 4%nat = Some (MkAttr TimeKey ($"now")).
Proof.
  destruct (replaceAttr_overwrites_time ($"now") (fun _ => $"WARN") 0 LevelWarn ($"m") ($"42ms") []
    (default (MkNamed [] (MkSlog 0 Stdout) 0) (loggers LogmanDemo.with_logger !! 0%nat)) LogmanDemo.with_logger) as (r & H & _);
    [vm_compute; reflexivity|vm_compute; congruence|].
  exists r. split; [exact H|]. revert H. vm_compute. by intros [= <-].
Defined.

Lemma WithContext_shared_witness :
  exists r, output (snd (log ($"now") (fun _ => []) 0 LevelError ($"m") [] (snd (WithContext 0 2 (snd (WithContext 0 1 LogmanDemo.with_logger)))))) = [r] /\
    r_ctx r = 2%nat.
Proof.
  apply (WithContext_shared ($"now") (fun _ => []) 0 1 2 LevelError ($"m") []
    (default (MkNamed [] (MkSlog 0 Stdout) 0) (loggers LogmanDemo.with_logger !! 0%nat)) LogmanDemo.with_logger);
    [vm_compute; reflexivity|vm_compute; congruence].
Defined.

Lemma FileWriter_stays_witness :
  lj_Filename (fst (FileWriter ($"app/access") LogmanDemo.start)) = $"/var/log/app/access.log".
Proof.
  pose proof (FileWriter_stays [$"var"; $"log"] [$"app"] ($"access") LogmanDemo.start LogmanDemo.tree0_ok) as H.
  change (Join ([$"app"] ++ [$"access"]) [slash]) with ($"app/access") in H.
  destruct (FileWriter ($"app/access") LogmanDemo.start) as [l s']. apply H; try done;
    repeat constructor; by apply LogmanDemo.plain_check.
Defined.
