(* ===== verification/Quit.v ===== *)
(** * Leaving the process: [signal], [httpd/server.go] and [logman.Fatal]

    [OnQuit] keeps callbacks that a goroutine calls when a signal arrives, [Server]
    registers the shutdown of the HTTP server as one of them, and [Fatal] calls them too.
    The process is a step relation, each step with the goroutine that takes it: that of
    the signal, the main one, or others (signals, and connections of the server); the main
    goroutine may register callbacks, run the server, fail or, if the program is written
    so, return.  A callback begins and, if it is one that returns, returns. *)

From stdpp Require Import relations.
From S2P Require Import Prelude.

(** ** Options of the server ([server.go]) *)

Record Config := MkConfig { Debug : bool; ReadTimeout : Z; WriteTimeout : Z }.

Definition Option : Type := Config -> Config.

Definition WithDebug (debug : bool) : Option := fun cfg => MkConfig debug (ReadTimeout cfg) (WriteTimeout cfg).
Definition WithReadTimeout (d : Z) : Option := fun cfg => MkConfig (Debug cfg) d (WriteTimeout cfg).
Definition WithWriteTimeout (d : Z) : Option := fun cfg => MkConfig (Debug cfg) (ReadTimeout cfg) d.

Definition default_timeout : Z := 300 * 1000000000.

Definition server_config (options : list Option) : Config :=
  fold_left (fun cfg opt => opt cfg) options (MkConfig false default_timeout default_timeout).

(** ** The process *)

(** A callback: a function of the program, by number, or the shutdown of the server. *)
Inductive callback := Func (n : nat) | Shutdown.

#[export] Instance callback_eq_dec : EqDecision callback.
Proof. solve_decision. Defined.

Inductive server_state := NotStarted | Listening | ShuttingDown | Closed.
Inductive thread := Worker | Main.

#[export] Instance server_state_eq_dec : EqDecision server_state.
Proof. solve_decision. Defined.

#[export] Instance thread_eq_dec : EqDecision thread.
Proof. solve_decision. Defined.
Inductive reason := ByWorker | ByMain | ByFatal | ByDefault.

(** [CallQuitFuncs] of a goroutine: the callbacks there were, those that have not returned,
    and whether the first of these has begun. *)
Record loop := MkLoop { taken : list callback; rest : list callback; busy : bool }.

Inductive main_state := Running | Starting | Serving | Failing.

(** The server's own connections are [active]; a handler may take one over, and from then
    on the server does not know of it. *)
Record process := MkProcess {
  quitCallbacks : list callback;
  quitSignalChan : option bool;                 (* none, or whether it holds a signal *)
  waiting : bool;                               (* the goroutine waits for a signal *)
  loop_of : thread -> option loop;
  main : main_state;
  server : server_state; active : nat; hijacked : nat;
  calls : list (thread * callback);             (* that have returned *)
  exit : option reason
}.

Definition start : process := MkProcess [] None false (fun _ => None) Running NotStarted 0 0 [] None.

(** *** [handler.go] *)

Definition OnQuit (fn : callback) (p : process) : process :=
  MkProcess (quitCallbacks p ++ [fn])
    (match quitSignalChan p with None => Some false | c => c end)
    (match quitSignalChan p with None => true | Some _ => waiting p end)
    (loop_of p) (main p) (server p) (active p) (hijacked p) (calls p) (exit p).

Definition set_loop (t : thread) (l : loop) (p : process) : thread -> option loop :=
  fun u => if decide (u = t) then Some l else loop_of p u.

(** [CallQuitFuncs] begins: the slice is read once. *)
Definition CallQuitFuncs (t : thread) (p : process) : process :=
  MkProcess (quitCallbacks p) (quitSignalChan p) (waiting p)
    (set_loop t (MkLoop (quitCallbacks p) (quitCallbacks p) false) p)
    (main p) (server p) (active p) (hijacked p) (calls p) (exit p).

(** The first callback that is left begins, with the server as it is then. *)
Definition begun (t : thread) (l : loop) (sv : server_state) (p : process) : process :=
  MkProcess (quitCallbacks p) (quitSignalChan p) (waiting p) (set_loop t (MkLoop (taken l) (rest l) true) p)
    (main p) sv (active p) (hijacked p) (calls p) (exit p).

(** It returns. *)
Definition called (t : thread) (l : loop) (fn : callback) (sv : server_state) (n : nat) (p : process) : process :=
  MkProcess (quitCallbacks p) (quitSignalChan p) (waiting p) (set_loop t (MkLoop (taken l) (tail (rest l)) false) p)
    (main p) sv n (hijacked p) (calls p ++ [(t, fn)]) (exit p).

Definition set_signal (c : option bool) (w : bool) (p : process) : process :=
  MkProcess (quitCallbacks p) c w (loop_of p) (main p) (server p) (active p) (hijacked p) (calls p) (exit p).

Definition set_exit (r : reason) (p : process) : process :=
  MkProcess (quitCallbacks p) (quitSignalChan p) (waiting p) (loop_of p) (main p) (server p) (active p) (hijacked p) (calls p) (Some r).

Definition set_server (m : main_state) (sv : server_state) (n h : nat) (p : process) : process :=
  MkProcess (quitCallbacks p) (quitSignalChan p) (waiting p) (loop_of p) m sv n h (calls p) (exit p).

(** The server does not accept connections any more. *)
Definition stopping (p : process) : Prop := server p = ShuttingDown \/ server p = Closed.

(** The server once [Shutdown] has begun: its listener is closed. *)
Definition shut (sv : server_state) : server_state := match sv with Closed => Closed | _ => ShuttingDown end.

Inductive actor := Act (t : thread) | Others.

(** [main_returns]: whether the program ends when its main function is through; [returns]:
    the functions that return once they are called. *)
Inductive move (main_returns : bool) (returns : nat -> bool) (p : process) : actor -> process -> Prop :=
  (* the main goroutine registers a callback *)
  | m_OnQuit n : main p = Running -> move main_returns returns p (Act Main) (OnQuit (Func n) p)
  (* a signal: kept by the channel, which holds one; without a channel it ends the process *)
  | m_signal b : quitSignalChan p = Some b -> move main_returns returns p Others (set_signal (Some true) (waiting p) p)
  | m_default : quitSignalChan p = None -> move main_returns returns p Others (set_exit ByDefault p)
  (* the goroutine of [OnQuit] *)
  | m_receive : waiting p = true -> quitSignalChan p = Some true ->
      move main_returns returns p (Act Worker) (CallQuitFuncs Worker (set_signal (Some false) false p))
  | m_exit l : loop_of p Worker = Some l -> rest l = [] -> move main_returns returns p (Act Worker) (set_exit ByWorker p)
  (* a function begins, and returns if it does *)
  | m_func t l n fns : loop_of p t = Some l -> rest l = Func n :: fns -> busy l = false ->
      move main_returns returns p (Act t) (begun t l (server p) p)
  | m_func_end t l n fns : loop_of p t = Some l -> rest l = Func n :: fns -> busy l = true -> returns n = true ->
      move main_returns returns p (Act t) (called t l (Func n) (server p) (active p) p)
  (* the callback of the server closes the listener and waits for the connections; after
     nine seconds it closes those that are left; it returns either way, and those that have
     been taken over stay *)
  | m_shutdown t l fns : loop_of p t = Some l -> rest l = Shutdown :: fns -> busy l = false ->
      move main_returns returns p (Act t) (begun t l (shut (server p)) p)
  | m_drained t l fns : loop_of p t = Some l -> rest l = Shutdown :: fns -> busy l = true -> active p = 0 ->
      move main_returns returns p (Act t) (called t l Shutdown Closed (active p) p)
  | m_forced t l fns : loop_of p t = Some l -> rest l = Shutdown :: fns -> busy l = true ->
      move main_returns returns p (Act t) (called t l Shutdown Closed 0 p)
  (* [Server]: it registers its shutdown, listens, and returns once it is shut down *)
  | m_Server : main p = Running -> server p = NotStarted ->
      move main_returns returns p (Act Main) (OnQuit Shutdown (set_server Starting NotStarted (active p) (hijacked p) p))
  | m_listen : main p = Starting -> server p = NotStarted ->
      move main_returns returns p (Act Main) (set_server Serving Listening (active p) (hijacked p) p)
  | m_returned : main p = Starting \/ main p = Serving -> stopping p ->
      move main_returns returns p (Act Main) (set_server Running (server p) (active p) (hijacked p) p)
  (* connections *)
  | m_accept : server p = Listening ->
      move main_returns returns p Others (set_server (main p) Listening (S (active p)) (hijacked p) p)
  | m_finish n : active p = S n -> move main_returns returns p Others (set_server (main p) (server p) n (hijacked p) p)
  | m_hijack n : active p = S n -> move main_returns returns p Others (set_server (main p) (server p) n (S (hijacked p)) p)
  | m_released n : hijacked p = S n -> move main_returns returns p Others (set_server (main p) (server p) (active p) n p)
  (* [Fatal]: the callbacks, the message, the end *)
  | m_Fatal : main p = Running ->
      move main_returns returns p (Act Main) (CallQuitFuncs Main (set_server Failing (server p) (active p) (hijacked p) p))
  | m_fatal_exit l : main p = Failing -> loop_of p Main = Some l -> rest l = [] ->
      move main_returns returns p (Act Main) (set_exit ByFatal p)
  | m_return : main p = Running -> main_returns = true -> move main_returns returns p (Act Main) (set_exit ByMain p).

(** A process that has ended does nothing. *)
Definition step (main_returns : bool) (returns : nat -> bool) (p : process) (w : actor) (q : process) : Prop :=
  exit p = None /\ move main_returns returns p w q.

Definition next (main_returns : bool) (returns : nat -> bool) (p q : process) : Prop :=
  exists w, step main_returns returns p w q.

Definition reachable (main_returns : bool) (returns : nat -> bool) (p : process) : Prop :=
  rtc (next main_returns returns) start p.

(** ** What a process that was told to quit has done *)

Definition calls_of (t : thread) (p : process) : list callback :=
  map snd (List.filter (fun c => bool_decide (fst c = t)) (calls p)).

(** Each goroutine calls, in order, the callbacks there were; the shutdown among them
    leaves no connections. *)
Record quit_inv (p : process) : Prop := {
  qi_loop : forall t l, loop_of p t = Some l -> calls_of t p ++ rest l = taken l;
  qi_none : forall t, loop_of p t = None -> calls_of t p = [];
  qi_wait : waiting p = true -> loop_of p Worker = None;
  qi_main : main p <> Failing -> loop_of p Main = None;
  qi_shut : forall t, (t, Shutdown) ∈ calls p -> server p = Closed;
  qi_closed : server p = Closed -> active p = 0;
  qi_chan : quitSignalChan p = None -> loop_of p Worker = None;
  qi_worker : exit p = Some ByWorker -> exists l, loop_of p Worker = Some l /\ rest l = [];
}.

Lemma calls_of_snoc (t u : thread) (fn : callback) cs :
  map snd (List.filter (fun c => bool_decide (fst c = t)) (cs ++ [(u, fn)])) =
  map snd (List.filter (fun c => bool_decide (fst c = t)) cs) ++ (if decide (u = t) then [fn] else []).
Proof.
  rewrite List.filter_app, map_app. cbn [List.filter fst]. f_equal.
  case_bool_decide; by case_decide.
Qed.

Lemma inv_start : quit_inv start.
Proof. by split; cbn; try done; intros ? ?%not_elem_of_nil. Qed.

(** A callback called by a goroutine keeps the invariant. *)
Lemma inv_called t l fn fns sv n p :
  quit_inv p -> loop_of p t = Some l -> rest l = fn :: fns -> exit p = None ->
  (server p = Closed -> sv = Closed) -> (fn = Shutdown -> sv = Closed) -> (sv = Closed -> n = 0) ->
  quit_inv (called t l fn sv n p).
Proof.
  intros [H1 H2 H3 H4 H5 H6 H8 H7] Hl Hr He Hsv Hfn Hn. split; cbn.
  - intros u k. unfold calls_of, set_loop. cbn [calls called]. rewrite calls_of_snoc.
    pose proof (H1 t l Hl) as Hc. case_decide as Hu.
    + subst u. intros [= <-]. cbn [taken rest]. rewrite decide_True by done.
      rewrite Hr in *. cbn [tail]. by rewrite <- Hc, <- app_assoc.
    + intros Hk. rewrite decide_False, app_nil_r by congruence. by apply H1.
  - intros u. unfold calls_of, set_loop. cbn [calls called]. rewrite calls_of_snoc. case_decide as Hu; [done|].
    intros Hk. rewrite decide_False, app_nil_r by congruence. by apply H2.
  - intros Hw. unfold set_loop. case_decide as Hu; [|by apply H3]. subst t. apply H3 in Hw. congruence.
  - intros Hm. unfold set_loop. case_decide as Hu; [|by apply H4]. subst t. apply H4 in Hm. congruence.
  - intros u [Hin|Hin]%elem_of_app; [by eapply Hsv, H5|].
    apply list_elem_of_singleton in Hin as [= _ <-]. by apply Hfn.
  - done.
  - intros Hc. unfold set_loop. case_decide as Hu; [|by apply H8]. subst t. apply H8 in Hc. congruence.
  - congruence.
Qed.

(** A callback that begins, too. *)
Lemma inv_begun t l sv p :
  quit_inv p -> loop_of p t = Some l -> exit p = None -> (sv = Closed <-> server p = Closed) -> quit_inv (begun t l sv p).
Proof.
  intros [H1 H2 H3 H4 H5 H6 H8 H7] Hl He Hsv. unfold begun, set_loop.
  split; unfold calls_of; cbn; try done; try (intros; case_decide; subst; naive_solver); try congruence.
  - intros u Hin. by apply Hsv, (H5 u).
  - intros Hc. by apply H6, Hsv.
Qed.

(** A goroutine that had called nothing begins. *)
Lemma inv_begin t p w m :
  quit_inv p -> loop_of p t = None -> exit p = None -> (t = Worker -> w = false) -> (t = Main -> m = Failing) ->
  (m <> Failing -> main p <> Failing) -> (w = true -> waiting p = true) ->
  forall c, (c = None -> t <> Worker /\ quitSignalChan p = None) ->
  quit_inv (CallQuitFuncs t (MkProcess (quitCallbacks p) c w (loop_of p) m (server p) (active p) (hijacked p) (calls p) (exit p))).
Proof.
  intros [H1 H2 H3 H4 H5 H6 H8 H7] Hl He Hw Hm Hmain Hwait c Hc. split; cbn; try done.
  - intros u k. unfold set_loop. case_decide as Hu; [|by apply H1].
    subst u. intros [= <-]. cbn [taken rest]. change (calls_of t p ++ quitCallbacks p = quitCallbacks p).
    by rewrite H2.
  - intros u. unfold set_loop. case_decide; [done|]. by apply H2.
  - intros ->. unfold set_loop. case_decide as Hu; [|by apply H3, Hwait]. by specialize (Hw (eq_sym Hu)).
  - intros Hne. unfold set_loop. case_decide as Hu; [|by apply H4, Hmain]. by specialize (Hm (eq_sym Hu)).
  - intros Hn. destruct (Hc Hn) as [Hu Hq]. unfold set_loop. rewrite decide_False by done. by apply H8.
  - intros Hx. congruence.
Qed.

(** Steps that leave goroutines and calls alone. *)
Lemma inv_quiet p q :
  quit_inv p -> loop_of q = loop_of p -> calls q = calls p ->
  (waiting q = true -> waiting p = true \/ loop_of p Worker = None) -> (main q <> Failing -> main p <> Failing) ->
  (server p = Closed -> server q = Closed) -> (server q = Closed -> server p = Closed) ->
  (active p = 0 -> server q = Closed -> active q = 0) -> (quitSignalChan q = None -> quitSignalChan p = None) ->
  (exit q = Some ByWorker -> exists l, loop_of p Worker = Some l /\ rest l = []) -> quit_inv q.
Proof.
  intros [H1 H2 H3 H4 H5 H6 H8 H7] El Ec Hw Hm Hs Hs' Ha Hch Hx.
  split; unfold calls_of; rewrite ?El, ?Ec; try done.
  - intros Hwq. destruct (Hw Hwq) as [|]; auto.
  - auto.
  - intros t Hin. eauto.
  - auto.
  - auto.
Qed.

Ltac quiet H8 :=
  eapply inv_quiet; [eassumption|..]; cbn; try done; try congruence; try (by eexists); auto;
  try (destruct (quitSignalChan _) eqn:?; auto; done).

Lemma shut_closed sv : shut sv = Closed <-> sv = Closed.
Proof. by destruct sv. Qed.

Lemma inv_step b r p w q : quit_inv p -> step b r p w q -> quit_inv q.
Proof.
  intros Hi [He Hm]. pose proof Hi as [H1 H2 H3 H4 H5 H6 H8 H7].
  assert (forall q, exit q = exit p -> exit q = Some ByWorker -> exists l, loop_of p Worker = Some l /\ rest l = []) as Hx
    by (intros ? ?; congruence).
  destruct Hm as [n Hr|c Hc|Hc|Hw Hc|l Hl Hr|t l n fns Hl Hr Hb|t l n fns Hl Hr Hb Hret|t l fns Hl Hr Hb|t l fns Hl Hr Hb Ha
                 |t l fns Hl Hr Hb|Hr Hs|Hr Hs|Hr Hs|Hs|n Ha|n Ha|n Ha|Hr|l Hm Hl Hr|Hr Hb].
  - quiet H8.
  - quiet H8.
  - quiet H8.
  - apply (inv_begin Worker p false (main p)); try done; auto.
  - quiet H8.
  - by apply inv_begun.
  - eapply inv_called; eauto; done.
  - apply inv_begun; try done. apply shut_closed.
  - by eapply inv_called.
  - by eapply inv_called.
  - quiet H8.
  - quiet H8.
  - quiet H8. destruct Hr as [-> | ->]; done.
  - quiet H8.
  - quiet H8.
  - quiet H8.
  - quiet H8.
  - apply (inv_begin Main p (waiting p) Failing); try done; auto. apply H4. by rewrite Hr.
  - quiet H8.
  - quiet H8.
Qed.

Lemma inv_next b r p q : quit_inv p -> rtc (next b r) p q -> quit_inv q.
Proof. intros Hp H. induction H as [|p q s [w Hq] _ IH]; [done|]. by eapply IH, inv_step. Qed.

Lemma inv_reachable b r p : reachable b r p -> quit_inv p.
Proof. apply inv_next, inv_start. Qed.

(** *** The goroutine of a signal *)

(** Its callbacks: a step of its own finishes one part of them; any other leaves them as
    they are. *)
Lemma worker_step b r p w q l :
  quit_inv p -> step b r p w q -> loop_of p Worker = Some l ->
  match w with
  | Act Worker =>
      (rest l = [] /\ exit q = Some ByWorker /\ loop_of q Worker = Some l) \/
      (exists fn fns, rest l = fn :: fns /\ exit q = None /\
         ((busy l = false /\ loop_of q Worker = Some (MkLoop (taken l) (rest l) true)) \/
          (busy l = true /\ (forall n, fn = Func n -> r n = true) /\ loop_of q Worker = Some (MkLoop (taken l) fns false))))
  | _ => loop_of q Worker = Some l /\ exit q <> Some ByWorker
  end.
Proof.
  intros [H1 H2 H3 H4 H5 H6 H8 H7] [He Hm] Hl.
  destruct Hm as [n Hr|c Hc|Hc|Hw Hc|l' Hl' Hr|t l' n fns Hl' Hr Hb|t l' n fns Hl' Hr Hb Hret|t l' fns Hl' Hr Hb|t l' fns Hl' Hr Hb Ha
                 |t l' fns Hl' Hr Hb|Hr Hs|Hr Hs|Hr Hs|Hs|n Ha|n Ha|n Ha|Hr|l' Hm Hl' Hr|Hr Hb];
    cbn; rewrite ?He; try (by split); try (exfalso; specialize (H3 Hw); congruence);
    try (destruct t; unfold set_loop; cbn; [|by split]); try (replace l' with l in * by congruence).
  - by left.
  - right. exists (Func n), fns. split; [done|]. split; [done|]. by left.
  - right. exists (Func n), fns. split; [done|]. split; [done|]. right. rewrite Hr. split; [done|]. split; [by intros ? [= <-]|done].
  - right. exists Shutdown, fns. split; [done|]. split; [done|]. by left.
  - right. exists Shutdown, fns. split; [done|]. split; [done|]. right. rewrite Hr. by split.
  - right. exists Shutdown, fns. split; [done|]. split; [done|]. right. rewrite Hr. by split.
Qed.

(** What it has taken stays. *)
Lemma worker_taken b r p q l :
  quit_inv p -> rtc (next b r) p q -> loop_of p Worker = Some l ->
  exists l', loop_of q Worker = Some l' /\ taken l' = taken l.
Proof.
  intros Hi H. revert l Hi. induction H as [|p q s [w Hs] _ IH]; intros l Hi Hl; [by exists l|].
  pose proof (worker_step _ _ _ _ _ _ Hi Hs Hl) as Hw. pose proof (inv_step _ _ _ _ _ Hi Hs) as Hq.
  destruct w as [[|]|]; [|by eapply IH, Hw..].
  destruct Hw as [(_ & _ & Hw)|(fn & fns & _ & _ & [[_ Hw]|(_ & _ & Hw)])]; by destruct (IH _ Hq Hw) as (l' & ? & ?); exists l'.
Qed.

(** C27: Let the goroutine of [OnQuit] receive a signal, and the process go on in any way:
    if that goroutine ends it, it has called every callback that was registered when the
    signal was received, each once and in the order of their registration; and if the
    shutdown of the server was one, the server has no connection left (those that handlers
    have taken over are not the server's). *)
Theorem quit_complete b r p0 p1 p :
  reachable b r p0 -> waiting p0 = true -> step b r p0 (Act Worker) p1 -> rtc (next b r) p1 p ->
  exit p = Some ByWorker ->
  calls_of Worker p = quitCallbacks p0 /\ (Shutdown ∈ quitCallbacks p0 -> active p = 0).
Proof.
  intros Hp0%inv_reachable Hw Hs Hp Hx. pose proof (inv_step _ _ _ _ _ Hp0 Hs) as Hp1.
  pose proof (qi_wait _ Hp0 Hw) as Hn.
  assert (loop_of p1 Worker = Some (MkLoop (quitCallbacks p0) (quitCallbacks p0) false)) as Hl1.
  { destruct Hs as [_ Hm]. inversion Hm; subst; try congruence. done. }
  destruct (worker_taken _ _ _ _ _ Hp1 Hp Hl1) as (l & Hl & Ht). cbn [taken] in Ht.
  destruct (inv_next _ _ _ _ Hp1 Hp) as [H1 _ _ _ H5 H6 _ H7].
  destruct (H7 Hx) as (l' & Hl' & Hr). replace l' with l in * by congruence.
  pose proof (H1 Worker l Hl) as Hc. rewrite Hr, app_nil_r, Ht in Hc. split; [done|].
  intros Hs'. apply H6, (H5 Worker). rewrite <- Hc in Hs'.
  unfold calls_of in Hs'. apply list_elem_of_fmap in Hs' as ([t fn] & Hfn & Hin%list_elem_of_In). cbn in Hfn. subst fn.
  apply filter_In in Hin as [Hin%list_elem_of_In Ht']. by apply bool_decide_eq_true in Ht' as <-.
Qed.

(** *** It ends *)

(** The process handles a signal with callbacks that return, or has ended. *)
Definition handling (returns : nat -> bool) (p : process) : Prop :=
  exit p <> None \/ exists l, loop_of p Worker = Some l /\ forall n, Func n ∈ rest l -> returns n = true.

(** The steps that are left to the goroutine: two for each callback, less one that has
    begun, and the exit. *)
Definition steps_left (p : process) : nat :=
  match exit p, loop_of p Worker with
  | None, Some l => 2 * length (rest l) + 1 - (if busy l && negb (bool_decide (rest l = [])) then 1 else 0)
  | _, _ => 0
  end.

Lemma steps_left_step b r p w q :
  quit_inv p -> step b r p w q -> handling r p ->
  handling r q /\ steps_left q <= steps_left p /\ (w = Act Worker -> steps_left q < steps_left p).
Proof.
  intros Hi Hs [Hx|(l & Hl & Hret)]; [by destruct Hs|]. pose proof (worker_step _ _ _ _ _ _ Hi Hs Hl) as Hw.
  assert (exit p = None) as He by apply Hs. unfold steps_left, handling. rewrite He, Hl.
  destruct w as [[|]|].
  - destruct Hw as [(Hr & Hx & _)|(fn & fns & Hr & Hx & [[Hb Hq]|(Hb & _ & Hq)])]; rewrite Hx, ?Hq, Hr, ?Hb in *.
    + split; [by left|]. cbn. rewrite andb_false_r. lia.
    + split; [right; eexists; by rewrite <- Hr in *|]. cbn. rewrite ?andb_false_r. lia.
    + split; [right; eexists; split; [done|]; intros n Hn; apply Hret; by right|]. cbn. lia.
  - destruct Hw as [-> Hx]. split; [destruct (exit q); [by left|right; by exists l]|]. split; [|done].
    destruct (exit q); lia.
  - destruct Hw as [-> Hx]. split; [destruct (exit q); [by left|right; by exists l]|]. split; [|done].
    destruct (exit q); lia.
Qed.

(** It can always take a step. *)
Lemma worker_goes b r p :
  exit p = None -> handling r p -> exists q, step b r p (Act Worker) q.
Proof.
  intros He [Hx|([tk rs bs] & Hl & Hret)]; [done|]. destruct rs as [|fn fns].
  { eexists. split; [done|]. by eapply m_exit. }
  destruct bs; cycle 1.
  { destruct fn as [n|]; eexists; (split; [done|]); [by eapply m_func|by eapply m_shutdown]. }
  destruct fn as [n|]; eexists; (split; [done|]); [eapply m_func_end; try done; apply Hret; by left|by eapply m_forced].
Qed.

(** C28: A process that handles a signal, with callbacks left that all return, ends by the
    steps of that goroutine alone, whatever the rest of the program does or does not do:
    they lead to its exit; no other step puts it off, and each of its own brings it
    nearer, so that there are at most two for each callback and the exit. *)
Theorem quit_ends b r p l :
  reachable b r p -> exit p = None -> loop_of p Worker = Some l -> (forall n, Func n ∈ rest l -> r n = true) ->
  (exists q, rtc (fun x y => step b r x (Act Worker) y) p q /\ exit q = Some ByWorker) /\
  steps_left p <= 2 * length (rest l) + 1 /\
  forall w q, step b r p w q ->
    handling r q /\ steps_left q <= steps_left p /\ (w = Act Worker -> steps_left q < steps_left p).
Proof.
  intros Hi%inv_reachable He Hl Hret. assert (handling r p) as Hh by (right; by exists l). split; [|split].
  - clear Hret. remember (steps_left p) as n eqn:Hn. assert (steps_left p <= n) as Hle by lia. clear Hn.
    revert p l Hi He Hl Hh Hle. induction n as [|n IH]; intros p l Hi He Hl Hh Hle;
      (destruct (worker_goes b r p He Hh) as [q Hs]; destruct (steps_left_step _ _ _ _ _ Hi Hs Hh) as (Hh' & _ & Hlt);
       specialize (Hlt eq_refl)); [lia|].
    pose proof (worker_step _ _ _ _ _ _ Hi Hs Hl) as Hw. cbn in Hw.
    destruct Hw as [(_ & Hx & _)|(fn & fns & _ & Hx & Hw)]; [exists q; split; [by eapply rtc_once|done]|].
    assert (exists l', loop_of q Worker = Some l') as [l' Hl'] by (destruct Hw as [[_ ?]|(_ & _ & ?)]; by eexists).
    destruct (IH q l') as (q' & Hq & Hx'); [by eapply inv_step|done|done|done|lia|].
    exists q'. split; [by eapply rtc_l|done].
  - unfold steps_left. rewrite He, Hl. lia.
  - intros w q Hs. by apply (steps_left_step _ _ _ _ _ Hi Hs Hh).
Qed.

Tactic Notation "next_by" uconstr(c) := eapply rtc_l; [eexists; split; [|by eapply c]; done|].

Module QuitDemo.
Definition returns (n : nat) : bool := n <? 7.

Definition told : process := Eval cbn in
  set_signal (Some true) true (set_server Serving Listening 2 1 (OnQuit Shutdown (OnQuit (Func 0) start))).

Lemma told_reachable : reachable false returns told.
Proof.
  unfold reachable. next_by (m_OnQuit false returns start 0). next_by m_Server. next_by m_listen.
  do 3 next_by m_accept. next_by m_hijack. next_by m_signal. apply rtc_refl.
Defined.
End QuitDemo.

Lemma quit_ends_witness :
  let p := CallQuitFuncs Worker (set_signal (Some false) false QuitDemo.told) in
  (exists q, rtc (fun x y => step false QuitDemo.returns x (Act Worker) y) p q /\ exit q = Some ByWorker) /\ steps_left p = 5.
Proof.
  intros p. split; [|reflexivity].
  destruct (quit_ends false QuitDemo.returns p (MkLoop [Func 0; Shutdown] [Func 0; Shutdown] false)) as (H & _ & _);
    [|reflexivity|reflexivity| |exact H].
  - eapply rtc_r; [apply QuitDemo.told_reachable|]. exists (Act Worker). split; [reflexivity|]. by apply m_receive.
  - intros n [[= ->]|[?|?]%elem_of_cons]%elem_of_cons; [reflexivity|done|by apply elem_of_nil in H].
Defined.

(** A callback that does not return holds the end up for good: whatever else happens, the
    goroutine of the signal does not end the process; and further signals do nothing, as
    the channel holds one that nobody receives. *)
Lemma blocked_callback b r p q l n fns :
  reachable b r p -> exit p = None -> loop_of p Worker = Some l -> rest l = Func n :: fns -> busy l = true -> r n = false ->
  rtc (next b r) p q -> exit q <> Some ByWorker /\ loop_of q Worker = Some l.
Proof.
  intros Hi%inv_reachable He Hl Hr Hb Hn H. assert (exit p <> Some ByWorker) as Hx by congruence. clear He.
  induction H as [|p q s [w Hs] _ IH]; [done|]. pose proof (worker_step _ _ _ _ _ _ Hi Hs Hl) as Hw.
  assert (exit q <> Some ByWorker /\ loop_of q Worker = Some l) as [? ?].
  { destruct w as [[|]|]; [|by destruct Hw..]. rewrite Hr, Hb in Hw. exfalso.
    destruct Hw as [(? & _)|(fn & fns' & [= <- <-] & _ & [[? _]|(_ & Hret & _)])]; [done|done|].
    specialize (Hret n eq_refl). congruence. }
  apply IH; [by eapply inv_step|done|done].
Qed.

(** ** The server returns before its connections are closed *)

(** If the main function ends with [Server], a process told to quit can end while the
    shutdown still waits for a connection: [Server] returns as soon as the shutdown has
    begun. *)
Theorem Server_cuts_connections :
  exists p, reachable true (fun _ => true) p /\ exit p = Some ByMain /\ server p = ShuttingDown /\ active p = 1 /\
    exists l, loop_of p Worker = Some l /\ rest l = [Shutdown].
Proof.
  eexists. split.
  - unfold reachable. next_by m_Server. next_by m_listen. next_by m_accept. next_by m_signal. next_by m_receive.
    next_by (m_shutdown true (fun _ => true) _ Worker).
    eapply rtc_l; [eexists; split; [|apply m_returned; [by right|by left]]; done|].
    next_by m_return. apply rtc_refl.
  - cbn. repeat split. eexists. by split.
Qed.

(** [Fatal] and the goroutine of a signal do not know of each other: a callback can be
    called by both. *)
Theorem Fatal_calls_twice :
  exists p, reachable false (fun _ => true) p /\ exit p = Some ByFatal /\ calls_of Worker p = [Func 0] /\ calls_of Main p = [Func 0].
Proof.
  eexists. split.
  - unfold reachable. next_by (m_OnQuit false (fun _ => true) start 0). next_by m_signal. next_by m_receive. next_by m_Fatal.
    next_by (m_func false (fun _ => true) _ Worker). next_by (m_func_end false (fun _ => true) _ Worker).
    next_by (m_func false (fun _ => true) _ Main). next_by (m_func_end false (fun _ => true) _ Main).
    next_by m_fatal_exit. apply rtc_refl.
  - by repeat split.
Qed.

(** Where the main function does not end with [Server], the goroutine alone ends the
    process after a signal. *)
Lemma quit_without_return r p : reachable false r p -> exit p <> Some ByMain.
Proof.
  intros H. unfold reachable in H. remember start as s eqn:E. assert (exit s <> Some ByMain) as Hs by by subst.
  clear E. induction H as [|s q t [w [He Hm]] _ IH]; [done|]. apply IH. destruct Hm; cbn; congruence.
Qed.

(** A connection of three is left to a handler that took it over; the other two are closed. *)
Lemma quit_complete_witness :
  exists p, rtc (next false QuitDemo.returns) (CallQuitFuncs Worker (set_signal (Some false) false QuitDemo.told)) p /\
    exit p = Some ByWorker /\ hijacked p = 1 /\
    calls_of Worker p = [Func 0; Shutdown] /\ (Shutdown ∈ [Func 0; Shutdown] -> active p = 0).
Proof.
  assert (exists p, rtc (next false QuitDemo.returns) (CallQuitFuncs Worker (set_signal (Some false) false QuitDemo.told)) p /\
    exit p = Some ByWorker /\ hijacked p = 1) as (p & Hp & Hx & Hh).
  { eexists. split.
    - next_by (m_func false QuitDemo.returns _ Worker). next_by (m_func_end false QuitDemo.returns _ Worker).
      next_by (m_shutdown false QuitDemo.returns _ Worker). next_by (m_forced false QuitDemo.returns _ Worker).
      next_by m_exit. apply rtc_refl.
    - by split. }
  exists p. split; [exact Hp|]. split; [exact Hx|]. split; [exact Hh|].
  refine (quit_complete false QuitDemo.returns QuitDemo.told _ p QuitDemo.told_reachable eq_refl _ Hp Hx).
  split; [reflexivity|]. by apply m_receive.
Defined.
