(* ===== verification/Dborm.v ===== *)
(** * Package [dborm]: connecting to a database

    [db.go], [driver.go], [logger.go] and [unsafe.go], over [Logman].  The library [gorm]
    and its drivers are variables: opening a database may fail; a driver is the name of
    its kind with its connection string. *)

From S2P Require Import Prelude GoStr GoText GoPath GoTree Logman.

Local Open Scope Z_scope.

(** ** Connection strings ([driver.go], [db.go]) *)

Record Config := MkConfig {
  Type_ : bytes; Host : bytes; User : bytes; Password : bytes; DbName : bytes; Option_ : bytes
}.

Inductive Dialector := Sqlite (dsn : bytes) | Mysql (dsn : bytes) | Postgres (dsn : bytes).

Definition or_default (option default : bytes) : bytes := if bool_decide (option = []) then default else option.

Definition sqlite_name (args : Config) : bytes :=
  if negb (bool_decide (Host args = [])) && negb (IsAbs (DbName args)) then JoinPath [Host args; DbName args]
  else DbName args.

(** The error of [MkdirAll] is dropped. *)
Definition useSqlite (args : Config) : State os Dialector :=
  let dbname := sqlite_name args in
  _ ← os_MkdirAll (Dir dbname) 493;
  mret (Sqlite (dbname ++ or_default (Option_ args) ($"?_pragma=busy_timeout(5000)&_pragma=journal_mode(WAL)"))).

Definition useMysql (args : Config) : Dialector :=
  Mysql (User args ++ $":" ++ Password args ++ $"@tcp(" ++ Host args ++ $")/" ++ DbName args ++
         or_default (Option_ args) ($"?charset=utf8mb4&parseTime=True&loc=Local")).

Definition usePgsql (args : Config) : Dialector :=
  Postgres ($"postgres://" ++ User args ++ $":" ++ Password args ++ $"@" ++ Host args ++ $"/" ++ DbName args ++
            or_default (Option_ args) ($"?sslmode=disable&TimeZone=Asia/Shanghai")).

(** What goes on, or ends the process by [logman.Fatal]. *)
Inductive ended (A : Type) := Goes (a : A) | Exits (msg : bytes).
Arguments Goes {A} a.
Arguments Exits {A} msg.

Definition postgres_names : list bytes := [$"pgsql"; $"postgres"; $"postgresql"].

Definition dialector (args : Config) : State os (ended Dialector) :=
  if bool_decide (Type_ args = $"sqlite") then d ← useSqlite args; mret (Goes d)
  else if bool_decide (Type_ args = $"mysql") then mret (Goes (useMysql args))
  else if decide (Type_ args ∈ postgres_names) then mret (Goes (usePgsql args))
  else mret (Exits ($"database type error")).

Section db.
Context {H : Type}.                                        (* handles of open databases *)
Variable gorm_Open : Dialector -> nat -> result H.          (* with the logger of that number *)
Variable db_Close : H -> option error.

Record dstate := MkD { DB : option H; RawLogger : option nat; logs : lstate }.

(** The logger is made once. *)
Definition Connect (args : Config) : State dstate (ended H) := fun s =>
  let '(l, lg) := match RawLogger s with
                  | Some l => (l, logs s)
                  | None => Named ($"gorm") (logs s)
                  end in
  let '(d, w) := dialector args (disk lg) in
  let lg := Logman.MkState (config lg) (loggers lg) (default_log lg) (output lg) w in
  match d with
  | Exits m => (Exits m, MkD (DB s) (Some l) lg)
  | Goes d =>
      match gorm_Open d l with
      | Err _ => (Exits ($"connect to databse failed"), MkD (DB s) (Some l) lg)
      | Ok h => (Goes h, MkD (Some h) (Some l) lg)
      end
  end.

(** Before a connection the method of a nil handle is called.  The handle stays. *)
Definition Destroy (s : dstate) : outcome (option error) :=
  match DB s with
  | None => Panic
  | Some h => Ret (db_Close h)
  end.
End db.

(** ** The logger of the library ([logger.go]) *)

Definition ErrRecordNotFound : error := ESentinel ($"record not found").

(** The settings are shared by all copies of the logger. *)
Record log_config := MkLogConfig {
  SlowThreshold : Z; IgnoreRecordNotFoundError : bool; LogLevel : Z
}.
Record Logger := MkLogger { l_config : log_config; l_logger : nat }.

Definition NewLogger (l : nat) : Logger := MkLogger (MkLogConfig (5 * 1000000000) false 0) l.

Definition LogMode (level : Z) (l : Logger) : Logger :=
  MkLogger (MkLogConfig (SlowThreshold (l_config l)) (IgnoreRecordNotFoundError (l_config l)) level) (l_logger l).

Section trace.
Variable now : bytes.
Variable level_text : Z -> bytes.
Variable err_text : error -> bytes.
Variable duration_text : Z -> bytes.
Variable int_text : Z -> bytes.

(** The level and the message of a statement that took [elapsed]. *)
Definition trace_kind (cfg : log_config) (elapsed : Z) (err : option error) : Z * bytes :=
  let slow :=
    if (SlowThreshold cfg <? elapsed) && negb (SlowThreshold cfg =? 0) then
      (LevelWarn, $"trace slow sql >= " ++ duration_text (SlowThreshold cfg))
    else (LevelInfo, $"trace query") in
  match err with
  | Some e =>
      if negb (errors_Is e ErrRecordNotFound) || negb (IgnoreRecordNotFoundError cfg)
      then (LevelError, $"trace error") else slow
  | None => slow
  end.

Definition trace_args (sql : bytes) (rows elapsed : Z) (err : option error) (level : Z) : list arg :=
  (if level =? LevelError then
     match err with Some e => [AString ($"error"); AOther (err_text e)] | None => [] end
   else []) ++
  [AString ($"sql"); AString sql; AString ($"rows"); AOther (int_text rows);
   AString ($"elapsed"); AOther (duration_text elapsed)].

Definition Trace (l : Logger) (ctx : nat) (elapsed : Z) (fc : bytes * Z) (err : option error) : State lstate unit :=
  let '(sql, rows) := fc in
  let '(level, msg) := trace_kind (l_config l) elapsed err in
  n ← WithContext (l_logger l) ctx;
  log now level_text n level msg (trace_args sql rows elapsed err level).

(** [Info], [Warn] and [Error], of a message already formatted. *)
Definition leveled (level : Z) (l : Logger) (ctx : nat) (msg : bytes) : State lstate unit :=
  n ← WithContext (l_logger l) ctx; log now level_text n level msg [].
End trace.

(** ** Sorting fields ([unsafe.go]) *)

Definition word_char (c : ascii) : bool :=
  is_digit c || is_upper c || is_lower c || bool_decide (c = "_"%char).

Definition word (s : bytes) : bool := negb (bool_decide (s = [])) && forallb word_char s.

Definition desc : bytes := $" DESC".

(** The pattern [^(\w+)( DESC)?$]. *)
Definition safe_field (v : bytes) : bool := word v || (HasSuffix v desc && word (TrimSuffix v desc)).

Definition OrderSafe (data : bytes) : option error :=
  if forallb safe_field (Split data ","%char) then None else Some (ENew ($"unsafe sorting field")).

Example order_1 : OrderSafe ($"id DESC,created_at") = None. Proof. reflexivity. Qed.
Example order_2 : OrderSafe ($"id;DROP TABLE x") = Some (ENew ($"unsafe sorting field")). Proof. reflexivity. Qed.
Example order_3 : OrderSafe ($"id, name") = Some (ENew ($"unsafe sorting field")). Proof. reflexivity. Qed.
Example order_4 : OrderSafe ($"id ASC") = Some (ENew ($"unsafe sorting field")). Proof. reflexivity. Qed.

(** A sorting clause: columns with whether they are descending. *)
Definition field_text (f : bytes * bool) : bytes := fst f ++ if snd f then desc else [].

Lemma comma_not_word c : word_char c = true -> c <> ","%char.
Proof. intros H ->. discriminate. Qed.

Lemma safe_field_spec v : safe_field v = true <-> exists w d, word w = true /\ v = field_text (w, d).
Proof.
  unfold safe_field, field_text. rewrite orb_true_iff, andb_true_iff. split.
  - intros [Hw|[Hs Hw]].
    + exists v, false. cbn. by rewrite app_nil_r.
    + apply HasSuffix_spec in Hs as [r ->]. rewrite TrimSuffix_app in Hw. by exists r, true.
  - intros (w & [] & Hw & ->); cbn [fst snd].
    + right. rewrite TrimSuffix_app. split; [|done]. apply HasSuffix_spec. by exists w.
    + left. by rewrite app_nil_r.
Qed.

Lemma word_no_comma w : word w = true -> ","%char ∉ w.
Proof.
  intros [_ Hw]%andb_true_iff Hc%list_elem_of_In. rewrite forallb_forall in Hw. by specialize (Hw _ Hc).
Qed.

(** C33: [OrderSafe] accepts exactly the lists, with commas between and nothing else, of
    columns of letters, digits and underscores, each perhaps followed by [ DESC]: nothing
    that it accepts has another statement, a comment, a quote or a call in it. *)
Theorem OrderSafe_spec data :
  OrderSafe data = None <->
  exists cols, cols <> [] /\ Forall (fun f => word (fst f) = true) cols /\ data = Join (map field_text cols) [","%char].
Proof.
  unfold OrderSafe. destruct (forallb safe_field (Split data ","%char)) eqn:E; (split; [|try done]).
  - intros _. rewrite forallb_forall in E.
    assert (forall vs, (forall v, In v vs -> safe_field v = true) -> exists cols, Forall (fun f => word (fst f) = true) cols /\ vs = map field_text cols) as Hc.
    { induction vs as [|v vs IH]; intros Hv; [by exists []|].
      destruct (proj1 (safe_field_spec v) (Hv v (or_introl eq_refl))) as (w & d & Hw & ->).
      destruct IH as (cols & Hcols & ->); [intros; apply Hv; by right|]. exists ((w, d) :: cols). split; [by constructor|done]. }
    destruct (Hc _ E) as (cols & Hcols & Hsplit). exists cols. split; [|split; [done|]].
    + intros ->. by apply (Split_nonempty data ","%char).
    + rewrite <- Hsplit. symmetry. apply Join_Split.
  - done.
  - intros (cols & Hne & Hcols & ->). exfalso. apply not_true_iff_false in E. apply E.
    rewrite (Split_Join (map field_text cols) ","%char).
    + apply forallb_forall. intros v Hv%list_elem_of_In. apply list_elem_of_fmap in Hv as ([w d] & -> & Hin).
      rewrite Forall_forall in Hcols. apply safe_field_spec. exists w, d. split; [by apply (Hcols _ Hin)|done].
    + by destruct cols.
    + apply Forall_forall. intros v Hv. apply list_elem_of_fmap in Hv as ([w d] & -> & Hin).
      rewrite Forall_forall in Hcols. specialize (Hcols _ Hin). cbn in Hcols. unfold field_text. cbn [fst snd].
      rewrite elem_of_app. intros [Hc|Hc]; [by eapply word_no_comma|]. destruct d; [|by apply not_elem_of_nil in Hc].
      revert Hc. by apply (bool_decide_eq_false (","%char ∈ desc)).
Qed.

(** ** What is logged *)

(** [Trace] writes one record for a statement, for the context of the statement: an
    error record if it failed, a warning if it took longer than the threshold, else one
    that says what was asked, whatever the mode that [LogMode] set. *)
Theorem Trace_writes now level_text err_text duration_text int_text l ctx elapsed sql rows err mode o s :
  loggers s !! l_logger l = Some o -> IgnoreRecordNotFoundError (l_config l) = false ->
  0 < SlowThreshold (l_config l) ->
  let level := match err with
               | Some _ => LevelError
               | None => if SlowThreshold (l_config l) <? elapsed then LevelWarn else LevelInfo
               end in
  exists r,
    output (snd (Trace now level_text err_text duration_text int_text (LogMode mode l) ctx elapsed (sql, rows) err s)) =
      output s ++ (if s_level (n_logger o) <=? level then [r] else []) /\
    r_ctx r = ctx /\ r_out r = s_out (n_logger o) /\ MkAttr LevelKey (level_text level) ∈ r_attrs r /\
    MkAttr ($"sql") sql ∈ r_attrs r.
Proof.
  intros Hl Hi Hs level.
  assert (exists msg, trace_kind duration_text (l_config (LogMode mode l)) elapsed err = (level, msg)) as [msg Hk].
  { unfold trace_kind, level. cbn [LogMode l_config SlowThreshold IgnoreRecordNotFoundError]. rewrite Hi.
    destruct err as [e|]; [rewrite orb_true_r; by eexists|].
    destruct (Z.eqb_spec (SlowThreshold (l_config l)) 0); [lia|]. rewrite andb_true_r.
    destruct (_ <? elapsed); by eexists. }
  unfold Trace. rewrite Hk. unfold WithContext, mbind, State_bind. cbn [LogMode l_logger].
  erewrite log_spec by (cbn [loggers]; by rewrite lookup_alter_eq, Hl).
  cbn [snd output n_logger n_ctx n_name]. eexists. split; [reflexivity|]. cbn [r_ctx r_out r_attrs].
  split; [done|]. split; [done|]. split; [right; left|].
  do 4 right. apply list_elem_of_fmap. exists (MkAttr ($"sql") sql). split; [done|].
  unfold trace_args, level. destruct err as [e|]; cbn; [right; left|].
  destruct (SlowThreshold _ <? elapsed); cbn; left.
Qed.

(** Two configurations of different users with one connection string. *)
Example dsn_ambiguous :
  useMysql (MkConfig ($"mysql") ($"db") ($"a") ($"b:c") ($"x") []) =
  useMysql (MkConfig ($"mysql") ($"db") ($"a:b") ($"c") ($"x") []).
Proof. reflexivity. Qed.

(** A slash in the password ends the address of the server. *)
Example dsn_password :
  usePgsql (MkConfig ($"pgsql") ($"db:5432") ($"app") ($"s3/cret") ($"x") ($"?a=b")) =
    Postgres ($"postgres://" ++ $"app:s3" ++ $"/cret@db:5432/x?a=b").
Proof. reflexivity. Qed.

Lemma OrderSafe_spec_witness : exists cols, cols <> [] /\ Forall (fun f => word (fst f) = true) cols /\
  $"id DESC,name" = Join (map field_text cols) [","%char].
Proof. apply OrderSafe_spec. reflexivity. Defined.

Lemma Trace_writes_witness :
  exists r,
    output (snd (Trace ($"now") (fun _ => $"WARN") (fun _ => []) (fun _ => $"6s") Itoa (LogMode 1 (NewLogger 0)) 5 6000000000
                   ($"SELECT 1", 1) None LogmanDemo.with_logger)) = [r] /\ r_ctx r = 5%nat.
Proof.
  destruct (Trace_writes ($"now") (fun _ => $"WARN") (fun _ => []) (fun _ => $"6s") Itoa (NewLogger 0) 5 6000000000
    ($"SELECT 1") 1 None 1 (default (Logman.MkNamed [] (MkSlog 0 Stdout) 0) (loggers LogmanDemo.with_logger !! 0%nat))
    LogmanDemo.with_logger) as (r & H & Hc & _); [vm_compute; reflexivity|reflexivity|reflexivity|].
  exists r. split; [exact H|exact Hc].
Defined.
