(* ===== verification/CloudAlibaba.v ===== *)
(** * Package [cloud/alibaba]

    [client.go] and [endpoint.go].  The vendor's library is what answers a request after
    those sent before; decoding its answers and the message of its errors are variables. *)

From S2P Require Import Prelude GoStr.

Local Open Scope Z_scope.

Section alibaba.
Context {V : Type}.                                            (* structured data, [any] *)

Record RequestParam := MkParam {
  Service : bytes; Version : bytes; Action : bytes; Query : option V; Payload : option V;
  RegionId : bytes; Endpoint : bytes; SecretId : bytes; SecretKey : bytes
}.

Record EndpointItem := MkItem {
  Id : bytes; i_Endpoint : bytes; Namespace : bytes; Protocols : list bytes; SerivceCode : bytes; Type_ : bytes
}.

(** What is sent: the settings of the client and the request. *)
Record api_call := MkCall {
  AccessKeyId : bytes; AccessKeySecret : bytes; c_RegionId : bytes; c_Endpoint : bytes;
  c_Action : bytes; c_Version : bytes; Body : option V; c_Query : option V
}.

(** The cache of endpoints, and the requests sent, the last first. *)
Record state := MkState { endpointData : gmap bytes bytes; sent : list api_call }.

Variable CallApi : list api_call -> api_call -> result V.        (* the body of the answer *)
Variable sdk_message : error -> option bytes.                   (* the message of an error of the library *)
Variable decode_endpoints : V -> result (list EndpointItem).
Variable query_map : list (bytes * bytes) -> V.                 (* a map of strings as data *)

Definition newClient (rq : RequestParam) : State state (result V) := fun s =>
  let c := MkCall (SecretId rq) (SecretKey rq) (RegionId rq) (Endpoint rq) (Action rq) (Version rq)
             (Payload rq) (Query rq) in
  (CallApi (sent s) c, MkState (endpointData s) (c :: sent s)).

(** *** The message of an error

    The pattern [^code: \d+, (.+) request id.+$], and its group. *)

Fixpoint digits_then (s : bytes) : bytes * bytes :=
  match s with
  | c :: r => if is_digit c then let '(a, b) := digits_then r in (c :: a, b) else ([], s)
  | [] => ([], [])
  end.

Definition id_mark : bytes := $" request id".

(** The longest non-empty text before a mark that something follows. *)
Fixpoint before_mark (s : bytes) : option bytes :=
  match s with
  | [] => None
  | c :: r =>
      match before_mark r with
      | Some a => Some (c :: a)
      | None =>
          match strip_prefix id_mark r with
          | Some (_ :: _) => Some [c]
          | _ => None
          end
      end
  end.

Definition message_text (s : bytes) : bytes :=
  match strip_prefix ($"code: ") s with
  | None => s
  | Some r =>
      let '(ds, r) := digits_then r in
      match ds, strip_prefix ($", ") r with
      | _ :: _, Some m => if decide (nl ∈ m) then s else default s (before_mark m)
      | _, _ => s
      end
  end.

Definition getSDKError (e : error) : error :=
  match sdk_message e with
  | None => e
  | Some m => ENew (message_text m)
  end.

(** *** [endpoint.go] *)

Definition location_endpoint : bytes := $"location-readonly.aliyuncs.com".
Definition ErrSolve : error := ENew ($"solve endpoint failed").

Definition requestEndpoint (rq : RequestParam) : State state (result EndpointItem) :=
  resp ← newClient (MkParam [] ($"2015-06-12") ($"DescribeEndpoints")
    (Some (query_map [($"Id", RegionId rq); ($"ServiceCode", ToLower (Service rq)); ($"Type", $"openAPI")]))
    None [] location_endpoint (SecretId rq) (SecretKey rq));
  mret (match resp with
        | Err e => Err (getSDKError e)
        | Ok body =>
            match decode_endpoints body with
            | Err e => Err e
            | Ok [] => Err ErrSolve
            | Ok (item :: _) => Ok item
            end
        end).

Definition cached (key : bytes) (s : state) : bytes := default [] (endpointData s !! key).

Definition endpoint_key (rq : RequestParam) : bytes := RegionId rq ++ Service rq.

Definition solveEndpoint (rq : RequestParam) : State state (result bytes) :=
  if bool_decide (RegionId rq = []) then mret (Ok (Service rq ++ $".aliyuncs.com"))
  else
    let key := endpoint_key rq in
    ep ← gets (cached key);
    if negb (bool_decide (ep = [])) then mret (Ok ep)
    else
      item ←? requestEndpoint rq;
      modify (fun s => MkState (<[key := i_Endpoint item]> (endpointData s)) (sent s));;
      ep ← gets (cached key);
      mret (if negb (bool_decide (ep = [])) then Ok ep else Err ErrSolve).

(** *** [client.go]: the endpoint that was asked for is replaced *)

Definition set_endpoint (ep : bytes) (rq : RequestParam) : RequestParam :=
  MkParam (Service rq) (Version rq) (Action rq) (Query rq) (Payload rq) (RegionId rq) ep (SecretId rq) (SecretKey rq).

Definition Request (rq : RequestParam) : State state (result V) :=
  ep ← solveEndpoint rq;
  match ep with
  | Err e => mret (Err e)
  | Ok ep =>
      if bool_decide (ep = []) then mret (Err ErrSolve)
      else
        resp ← newClient (set_endpoint ep rq);
        mret (match resp with Ok v => Ok v | Err e => Err (getSDKError e) end)
  end.

(** ** The cache *)

(** What is known for a key. *)
Lemma solveEndpoint_hit rq s ep :
  RegionId rq <> [] -> ep <> [] -> endpointData s !! endpoint_key rq = Some ep ->
  solveEndpoint rq s = (Ok ep, s).
Proof.
  intros Hr Hne Hep. unfold solveEndpoint. rewrite bool_decide_eq_false_2 by done.
  unfold gets, mbind, State_bind, cached. rewrite Hep. cbn [default from_option id].
  by rewrite bool_decide_eq_false_2.
Qed.

Lemma solveEndpoint_known rq s ep s1 :
  RegionId rq <> [] -> solveEndpoint rq s = (Ok ep, s1) -> endpointData s1 !! endpoint_key rq = Some ep /\ ep <> [].
Proof.
  intros Hr. unfold solveEndpoint. rewrite (bool_decide_eq_false_2 (RegionId rq = [])) by done.
  unfold gets, mbind, State_bind.
  destruct (decide (cached (endpoint_key rq) s = [])) as [He|He].
  - rewrite bool_decide_eq_true_2 by done. cbn [negb]. unfold try_bind, mbind, State_bind.
    destruct (requestEndpoint rq s) as [[item|x] s2]; [|done].
    unfold modify, cached. cbn [endpointData]. rewrite lookup_insert_eq. cbn [default from_option id].
    case_bool_decide as Hi; [done|]. cbn [negb]. intros [= <- <-]. cbn [endpointData]. by rewrite lookup_insert_eq.
  - rewrite bool_decide_eq_false_2 by done. cbn [negb]. intros [= <- <-]. split; [|done].
    unfold cached in *. by destruct (endpointData s !! endpoint_key rq).
Qed.

(** An endpoint that was found is found again without asking anybody, whoever asks:
    also for another service of another region, if the names of region and service put
    together are the same text. *)
Theorem solveEndpoint_cached rq rq' s ep s1 :
  RegionId rq <> [] -> RegionId rq' <> [] -> solveEndpoint rq s = (Ok ep, s1) ->
  RegionId rq ++ Service rq = RegionId rq' ++ Service rq' -> solveEndpoint rq' s1 = (Ok ep, s1).
Proof.
  intros Hr Hr' Hs Hk. destruct (solveEndpoint_known _ _ _ _ Hr Hs) as [He Hne].
  apply solveEndpoint_hit; [done|done|]. unfold endpoint_key in *. by rewrite <- Hk.
Qed.

(** [Request] does not read the endpoint that its caller set: it sends the same with
    any other. *)
Theorem Request_ignores_Endpoint rq ep s : Request (set_endpoint ep rq) s = Request rq s.
Proof.
  unfold Request. change (solveEndpoint (set_endpoint ep rq)) with (solveEndpoint rq).
  unfold mbind, State_bind. by destruct (solveEndpoint rq s) as [[e|x] s1].
Qed.
End alibaba.
Arguments RequestParam V : clear implicits.
Arguments state V : clear implicits.
Arguments api_call V : clear implicits.

Example message_1 :
  message_text ($"code: 404, No such region. request id: 7F-01") = $"No such region.". Proof. reflexivity. Qed.
Example message_2 : message_text ($"timeout") = $"timeout". Proof. reflexivity. Qed.

Module AlibabaDemo.
Definition param (region service : bytes) : RequestParam unit :=
  MkParam service ($"2014-05-26") ($"DescribeInstances") None None region [] ($"id") ($"key").
Definition api (before : list (api_call unit)) (c : api_call unit) : result unit := Ok tt.
Definition decode (v : unit) : result (list EndpointItem) := Ok [MkItem [] ($"ecs.cn-a.aliyuncs.com") [] [] [] []].
Definition solve (rq : RequestParam unit) := solveEndpoint api (fun _ => None) decode (fun _ => tt) rq.
End AlibabaDemo.

(** Of two regions, one the beginning of the other, the second gets the first's endpoint. *)
Lemma solveEndpoint_cached_witness :
  let s1 := snd (AlibabaDemo.solve (AlibabaDemo.param ($"cn-a") ($"xecs")) (MkState ∅ [])) in
  AlibabaDemo.solve (AlibabaDemo.param ($"cn-ax") ($"ecs")) s1 = (Ok ($"ecs.cn-a.aliyuncs.com"), s1).
Proof.
  intros s1. apply (solveEndpoint_cached _ _ _ _ (AlibabaDemo.param ($"cn-a") ($"xecs")) _ (MkState ∅ [])); done.
Defined.
