(* ===== verification/CloudCloudflare.v ===== *)
(** * Package [cloud/cloudflare]

    [client.go] over [Request]; decoding JSON is a variable. *)

From S2P Require Import Prelude GoStr Request.

Local Open Scope Z_scope.

Definition endpoint : bytes := $"https://api.cloudflare.com/client/v4".

Record RequestParam := MkParam { Token : bytes; p_Method : bytes; Path : bytes; p_Query : bytes; p_Payload : bytes }.

Record ResponseInfo := MkInfo { Code : Z; Message : bytes }.

Section cloudflare.
Context {V : Type}.                                            (* data of any kind *)

(** The fields of the answer that are read. *)
Record ResponseData := MkData {
  Success : bool; Errors : list ResponseInfo; Messages : list ResponseInfo; Result : V;
  Page : Z; PerPage : Z; Total : Z
}.

Record Output := MkOutput { Datasets : V; o_Messages : bytes }.
Record OutputInfo := MkOutputInfo { i_Page : Z; i_PerPage : Z; i_Total : Z }.

(** The output, with what is known of the pages if there are pages. *)
Record parsed := MkParsed { out : Output; DataInfo : option OutputInfo }.

Variable json_Unmarshal : bytes -> result ResponseData.
Variable url_Parse : bytes -> result unit.
Variable Do : list http_request -> http_request -> result (bytes * option error).
Variable order : Header -> list (bytes * bytes).

(** The data and the error are independent of each other. *)
Definition parseBody (body : bytes) : option parsed * option error :=
  match json_Unmarshal body with
  | Err e => (None, Some e)
  | Ok res =>
      let o := MkOutput (Result res) (match Messages res with m :: _ => Message m | [] => [] end) in
      let err := match Errors res with e :: _ => Some (ENew (Message e)) | [] => None end in
      (Some (MkParsed o (if PerPage res =? 0 then None else Some (MkOutputInfo (Page res) (PerPage res) (Total res)))), err)
  end.

Definition Authorization : bytes := $"Authorization".

(** The headers of the request, in a map of its own. *)
Definition headers_of (rq : RequestParam) : Header :=
  {[ ContentType := json_type; Authorization := $"Bearer " ++ Token rq ]}.

Definition new_headers (h : Header) : State net nat := fun w =>
  let l := fresh (dom (maps w)) in (l, MkNet (<[l := h]> (maps w)) (sent w)).

Definition url_of (rq : RequestParam) : bytes :=
  endpoint ++ Path rq ++ (if bool_decide (p_Query rq = []) then [] else $"?" ++ p_Query rq).

Definition Request (rq : RequestParam) : State net (option parsed * option error) :=
  l ← new_headers (headers_of rq);
  r ← JsonRequest url_Parse Do order (MkClient (p_Method rq) (url_of rq) (p_Payload rq) (Some l) 0);
  mret (match snd r with
        | Some e => (None, Some e)
        | None => parseBody (fst r)
        end).

(** ** What is sent and what is returned *)

Hypothesis Horder : iterates order.

Lemma distinct_of rq : distinct_headers (headers_of rq).
Proof.
  intros k1 k2 [v1 H1] [v2 H2] E. unfold headers_of in *.
  apply lookup_insert_Some in H1 as [[<- _]|[_ H1]]; [|apply lookup_singleton_Some in H1 as [<- _]];
    (apply lookup_insert_Some in H2 as [[<- _]|[_ H2]]; [|apply lookup_singleton_Some in H2 as [<- _]]);
    try done; by vm_compute in E.
Qed.

(** The map of the request has a content type: nothing is filled in. *)
Lemma typed_headers rq c : typed json_type c (headers_of rq) = headers_of rq.
Proof.
  unfold typed. assert (default [] (headers_of rq !! ContentType) = json_type) as ->.
  { unfold headers_of. by rewrite lookup_insert_eq. }
  rewrite bool_decide_eq_false_2 by done. by rewrite andb_false_r.
Qed.

(** What the caller gets for an answer that decodes to [res]: its data with the first
    message; the pages only where there are some; and the first error message, if any. *)
Definition returned (res : ResponseData) (r : option parsed * option error) : Prop :=
  (exists p, fst r = Some p /\ Datasets (out p) = Result res /\
     match Messages res with
     | [] => o_Messages (out p) = []
     | m :: _ => o_Messages (out p) = Message m
     end /\
     (PerPage res = 0 -> DataInfo p = None) /\
     (PerPage res <> 0 -> DataInfo p = Some (MkOutputInfo (Page res) (PerPage res) (Total res)))) /\
  match Errors res with
  | [] => snd r = None
  | e :: _ => snd r = Some (ENew (Message e))
  end.

(** C34: [Request] sends one request: to the service with the path of its caller, and
    after a question mark the query if there is one; with the token of its caller and its
    data as JSON.  It returns an error of the connection or of the decoding, and otherwise
    what the answer says: the data with the first message and the pages, together with the
    first error message if there is one. *)
Theorem Request_sends rq w :
  p_Method rq ∈ methods ->
  let url := $"https://api.cloudflare.com/client/v4" ++ Path rq ++
               match p_Query rq with [] => [] | q => $"?" ++ q end in
  url_Parse url = Ok tt ->
  exists req r w',
    Request rq w = (r, w') /\ sent w' = req :: sent w /\ r_Method req = p_Method rq /\ r_URL req = url /\
    r_Body req = (if bool_decide (p_Payload rq = []) then None else Some (p_Payload rq)) /\
    (forall K x, r_Header req !! K = Some x <->
       (K = $"Content-Type" /\ x = $"application/json") \/ (K = $"Authorization" /\ x = $"Bearer " ++ Token rq)) /\
    match Do (sent w) req with
    | Err e | Ok (_, Some e) => r = (None, Some e)
    | Ok (data, None) =>
        match json_Unmarshal data with
        | Err e => r = (None, Some e)
        | Ok res => returned res r
        end
    end.
Proof.
  intros Hm url Hu. assert (url_of rq = url) as Eurl by (unfold url_of, url; by destruct (p_Query rq)).
  unfold Request, new_headers. unfold mbind at 1, State_bind at 1.
  set (l := fresh (dom (maps w))). set (w0 := MkNet (<[l := headers_of rq]> (maps w)) (sent w)).
  set (c := MkClient (p_Method rq) (url_of rq) (p_Payload rq) (Some l) 0).
  destruct (with_content_type_run json_type c l (headers_of rq) w0) as (w1 & E1 & Hs & Hmaps);
    [done|apply lookup_insert_eq|].
  rewrite typed_headers in Hmaps.
  assert (deref w1 (Headers c) = headers_of rq) as Hder by (cbn; by rewrite Hmaps, lookup_insert_eq).
  set (req := request_of order c (headers_of rq)). set (w2 := MkNet (maps w1) (req :: sent w1)).
  assert (JsonRequest url_Parse Do order c w0 = (answer Do w1 req, w2)) as E2.
  { unfold JsonRequest. rewrite (st_bind_run _ _ _ _ _ E1), Request_run by (done || (unfold c; cbn [Url]; by rewrite Eurl)). by rewrite Hder. }
  rewrite (st_bind_run _ _ _ _ _ E2). exists req. do 2 eexists. split; [reflexivity|].
  split; [cbn; by rewrite Hs|]. split; [done|]. split; [exact Eurl|]. split; [done|]. split; [|].
  - intros K x. cbn [req request_of r_Header]. rewrite set_headers_spec by (done || apply distinct_of).
    unfold headers_of. setoid_rewrite lookup_insert_Some. setoid_rewrite lookup_singleton_Some. split.
    + intros (k & [[<- <-]|[_ [<- <-]]] & <-); [by left|by right].
    + intros [[-> ->]|[-> ->]]; [exists ContentType|exists Authorization]; (split; [|done]); [by left|right].
      split; [done|done].
  - unfold answer. rewrite Hs. cbn [sent w0]. destruct (Do (sent w) req) as [[data [e|]]|e]; [done| |done].
    cbn [fst snd]. unfold parseBody. destruct (json_Unmarshal data) as [res|e]; [|done]. split.
    + eexists. split; [done|]. cbn. split; [done|]. split; [by destruct (Messages res)|].
      destruct (Z.eqb_spec (PerPage res) 0); by split; intros.
    + by destruct (Errors res).
Qed.

(** An answer that says it is no success, and does not say why, is returned as one. *)
Lemma failure_without_message body r p n t :
  json_Unmarshal body = Ok (MkData false [] [] r p n t) -> snd (parseBody body) = None.
Proof. unfold parseBody. by intros ->. Qed.
End cloudflare.
Arguments ResponseData V : clear implicits.

Module CloudflareDemo.
Definition rq : RequestParam := MkParam ($"t0k") ($"PUT") ($"/zones/1") ($"page=2") ($"{}").
Definition decode (b : bytes) : result (ResponseData bytes) := Ok (MkData true [] [] b 0 0 0).
Definition Do (before : list http_request) (r : http_request) : result (bytes * option error) := Ok (r_URL r, None).
End CloudflareDemo.

Lemma Request_sends_witness :
  exists w', Request CloudflareDemo.decode (fun _ => Ok tt) CloudflareDemo.Do map_to_list CloudflareDemo.rq (MkNet ∅ []) =
    ((Some (MkParsed (MkOutput ($"https://api.cloudflare.com/client/v4/zones/1?page=2") []) None), None), w') /\
    length (sent w') = 1%nat.
Proof.
  destruct (Request_sends CloudflareDemo.decode (fun _ => Ok tt) CloudflareDemo.Do map_to_list (fun h => Permutation_refl _)
    CloudflareDemo.rq (MkNet ∅ [])) as (req & r & w' & E & Hs & _ & Hu & _ & _ & Hr).
  - apply (bool_decide_unpack _). vm_compute. exact I.
  - reflexivity.
  - exists w'. rewrite E, Hs. split; [|reflexivity]. unfold CloudflareDemo.Do in Hr. rewrite Hu in Hr.
    destruct Hr as [([o i] & Hp & Ho & Hm & Hi & _) He]. destruct r as [p e]. cbn in Hp, He. subst p e.
    destruct o as [ds ms]. cbn in Ho, Hm, Hi. subst ds ms. rewrite (Hi eq_refl). reflexivity.
Defined.
