(* ===== verification/CloudTencent.v ===== *)
(** * Package [cloud/tencent]

    [client.go].  The vendor's library is what answers a request after those sent before;
    decoding its answers and the message of its errors are variables. *)

From S2P Require Import Prelude GoStr.

Local Open Scope Z_scope.

Section tencent.
Context {V : Type}.                                            (* structured data, [any] *)

Record RequestParam := MkParam {
  Service : bytes; Version : bytes; Action : bytes; Payload : option V;
  Region : bytes; Endpoint : bytes; SecretId : bytes; SecretKey : bytes; Debug : bool
}.

(** The settings of the client; without an endpoint the library makes one of the service. *)
Record profile := MkProfile {
  p_Debug : bool; NetworkFailureMaxRetries : Z; RateLimitExceededMaxRetries : Z;
  DisableRegionBreaker : bool; BackupEndpoint : bytes; p_Endpoint : option bytes
}.

Record api_call := MkCall {
  c_Profile : profile; c_Region : bytes; c_SecretId : bytes; c_SecretKey : bytes;
  c_Service : bytes; c_Version : bytes; c_Action : bytes; c_Payload : option V
}.

Variable RootDomain : bytes.                                   (* of the library *)
Variable Send : list api_call -> api_call -> result bytes.      (* the body of the answer *)
Variable sdk_message : error -> option bytes.
Variable json_Unmarshal : bytes -> result V.                    (* the field [Response] *)

Definition edge_suffix : bytes := $"-ec".

(** The endpoint that is set: the one asked for, else that of the region, but for the
    regions of edge computing. *)
Definition endpoint_of (rq : RequestParam) : option bytes :=
  if negb (bool_decide (Endpoint rq = [])) then Some (Endpoint rq)
  else if negb (bool_decide (Region rq = [])) && negb (HasSuffix (Region rq) edge_suffix) then
    Some (Service rq ++ $"." ++ Region rq ++ $"." ++ RootDomain)
  else None.

Definition newClient (rq : RequestParam) : State (list api_call) (result bytes) := fun s =>
  let cpf := MkProfile (Debug rq) 2 2 false ($"ap-hongkong." ++ RootDomain) (endpoint_of rq) in
  let c := MkCall cpf (Region rq) (SecretId rq) (SecretKey rq) (Service rq) (Version rq) (Action rq) (Payload rq) in
  (Send s c, c :: s).

(** *** The message of an error: without [[request id:.+]], and its first line *)

Definition id_mark : bytes := $"[request id:".

(** What follows the last bracket of the line, if anything is before the bracket. *)
Fixpoint after_last_bracket (s : bytes) : option bytes :=
  match s with
  | [] => None
  | c :: r =>
      if bool_decide (c = nl) then None
      else
        match after_last_bracket r with
        | Some t => Some t
        | None => match r with d :: t => if bool_decide (d = "]"%char) then Some t else None | [] => None end
        end
  end.

(** Each turn passes a character or a match. *)
Fixpoint remove_ids (fuel : nat) (s : bytes) : bytes :=
  match fuel with
  | O => s
  | S fuel' =>
      match s with
      | [] => []
      | c :: r =>
          match strip_prefix id_mark s ≫= after_last_bracket with
          | Some t => remove_ids fuel' t
          | None => c :: remove_ids fuel' r
          end
      end
  end.

Definition message_text (s : bytes) : bytes :=
  default [] (head (Split (remove_ids (length s) s) nl)).

Definition getSDKError (e : error) : error :=
  match sdk_message e with
  | None => e
  | Some m => if bool_decide (m = []) then e else ENew (message_text m)
  end.

Definition Request (rq : RequestParam) : State (list api_call) (result V) :=
  resp ← newClient rq;
  mret (match resp with
        | Err e => Err (getSDKError e)
        | Ok body => json_Unmarshal body
        end).

(** ** Facts *)

Lemma after_last_bracket_length s t : after_last_bracket s = Some t -> (length t < length s)%nat.
Proof.
  revert t. induction s as [|c s IH]; intros t; [done|]. cbn [after_last_bracket length].
  case_bool_decide; [done|]. destruct (after_last_bracket s) as [t'|].
  - intros [= <-]. specialize (IH t' eq_refl). lia.
  - destruct s as [|d s]; [done|]. case_bool_decide; [|done]. intros [= <-]. cbn. lia.
Qed.

(** More turns than characters change nothing. *)
Lemma remove_ids_enough n s : (length s <= n)%nat -> remove_ids n s = remove_ids (length s) s.
Proof.
  remember (length s) as k eqn:Hk. revert n s Hk. induction (lt_wf k) as [k _ IH]. intros n s -> Hn.
  destruct s as [|c s]; [by destruct n|]. cbn [length] in *. destruct n as [|n]; [lia|]. cbn [remove_ids].
  destruct (strip_prefix id_mark (c :: s) ≫= after_last_bracket) as [t|] eqn:E.
  - assert (length t < length s)%nat as Ht.
    { destruct (strip_prefix id_mark (c :: s)) as [r|] eqn:Er; [|done]. apply strip_prefix_Some in Er.
      apply after_last_bracket_length in E. apply (f_equal length) in Er. rewrite length_app in Er. cbn in Er. lia. }
    rewrite (IH (length t) ltac:(lia) n t eq_refl ltac:(lia)).
    symmetry. by apply (IH (length t) ltac:(lia) (length s) t eq_refl ltac:(lia)).
  - f_equal. by rewrite (IH (length s) ltac:(lia) n s eq_refl ltac:(lia)).
Qed.

(** An error of the library is returned with the first line of its message, and no
    line ends are left in it. *)
Theorem getSDKError_line rq s e m :
  Send s (MkCall (MkProfile (Debug rq) 2 2 false ($"ap-hongkong." ++ RootDomain) (endpoint_of rq)) (Region rq)
            (SecretId rq) (SecretKey rq) (Service rq) (Version rq) (Action rq) (Payload rq)) = Err e ->
  sdk_message e = Some m -> m <> [] ->
  exists msg rest, fst (Request rq s) = Err (ENew msg) /\ (nl ∉ msg) /\
    (remove_ids (length m) m = msg \/ remove_ids (length m) m = msg ++ nl :: rest).
Proof.
  intros Hs Hm Hne. unfold Request, newClient, mbind, State_bind. rewrite Hs. cbn [fst mret State_ret].
  unfold getSDKError. rewrite Hm, bool_decide_eq_false_2 by done. unfold message_text.
  set (x := remove_ids (length m) m). pose proof (Join_Split x nl) as Hj.
  pose proof (Split_elem x nl) as He.
  destruct (Split x nl) as [|msg [|r rest]] eqn:E; [by destruct (Split_nonempty x nl)|..]; cbn [head default from_option id].
  - exists msg, []. split; [done|]. split; [apply He; left|]. left. by rewrite <- Hj.
  - exists msg, (Join (r :: rest) [nl]). split; [done|]. split; [apply He; left|]. right. by rewrite <- Hj.
Qed.
End tencent.

Example message_without_id :
  message_text ($"[TencentCloudSDKError] Code=X, Message=no such id[request id:7f-01]" ++ [nl] ++ $"more") =
    $"[TencentCloudSDKError] Code=X, Message=no such id".
Proof. reflexivity. Qed.
