(* ===== verification/GoMd5.v ===== *)
(** * Package [crypto/md5]

    The digest of RFC 1321; numbers are 32-bit words, the first byte the lowest. *)

From S2P Require Import Prelude GoHash.

Local Open Scope Z_scope.

(** The constants of the standard: the first 32 bits of the sines of 1 to 64. *)
Definition sines : list Z :=
  [3614090360; 3905402710; 606105819; 3250441966; 4118548399; 1200080426; 2821735955; 4249261313;
   1770035416; 2336552879; 4294925233; 2304563134; 1804603682; 4254626195; 2792965006; 1236535329;
   4129170786; 3225465664; 643717713; 3921069994; 3593408605; 38016083; 3634488961; 3889429448;
   568446438; 3275163606; 4107603335; 1163531501; 2850285829; 4243563512; 1735328473; 2368359562;
   4294588738; 2272392833; 1839030562; 4259657740; 2763975236; 1272893353; 4139469664; 3200236656;
   681279174; 3936430074; 3572445317; 76029189; 3654602809; 3873151461; 530742520; 3299628645;
   4096336452; 1126891415; 2878612391; 4237533241; 1700485571; 2399980690; 4293915773; 2240044497;
   1873313359; 4264355552; 2734768916; 1309151649; 4149444226; 3174756917; 718787259; 3951481745].

Definition shifts : list Z :=
  flat_map (fun r => concat (replicate 4 r)) [[7; 12; 17; 22]; [5; 9; 14; 20]; [4; 11; 16; 23]; [6; 10; 15; 21]].

(** The message word of each step. *)
Definition word_index (i : Z) : Z :=
  if i <? 16 then i
  else if i <? 32 then (5 * i + 1) mod 16
  else if i <? 48 then (3 * i + 5) mod 16
  else (7 * i) mod 16.

Definition not32 (x : Z) : Z := 2 ^ 32 - 1 - x.

Definition mix (i x y z : Z) : Z :=
  if i <? 16 then Z.lor (Z.land x y) (Z.land (not32 x) z)
  else if i <? 32 then Z.lor (Z.land x z) (Z.land y (not32 z))
  else if i <? 48 then Z.lxor (Z.lxor x y) z
  else Z.lxor y (Z.lor x (not32 z)).

Definition rotl (n x : Z) : Z := Z.lor (w32 (Z.shiftl x n)) (Z.shiftr x (32 - n)).

Fixpoint le_bytes (n : nat) (z : Z) : bytes :=
  match n with
  | O => []
  | S n' => chr (z mod 256) :: le_bytes n' (z / 256)
  end.

Definition le_word (bs : bytes) : Z := foldr (fun b acc => code b + 256 * acc) 0 bs.

Fixpoint le_words (n : nat) (bs : bytes) : list Z :=
  match n with
  | O => []
  | S n' => le_word (take 4 bs) :: le_words n' (drop 4 bs)
  end.

Definition md5_step (block : list Z) (st : Z * Z * Z * Z) (i : Z) : Z * Z * Z * Z :=
  let '(a, b, c, d) := st in
  let f := w32 (mix i b c d + a + nth (Z.to_nat i) sines 0 + nth (Z.to_nat (word_index i)) block 0) in
  (d, w32 (b + rotl (nth (Z.to_nat i) shifts 0) f), b, c).

Definition md5_block (st : Z * Z * Z * Z) (block : bytes) : Z * Z * Z * Z :=
  let '(a, b, c, d) := st in
  let '(a', b', c', d') := fold_left (md5_step (le_words 16 block)) (seqZ 0 64) st in
  (w32 (a + a'), w32 (b + b'), w32 (c + c'), w32 (d + d')).

Definition md5_pad (msg : bytes) : bytes :=
  let n := length msg in
  let zeros := Z.to_nat ((55 - Z.of_nat n) mod 64) in
  msg ++ [chr 128] ++ replicate zeros (chr 0) ++ le_bytes 8 (8 * Z.of_nat n).

(** Each turn takes a block. *)
Fixpoint md5_blocks (fuel : nat) (st : Z * Z * Z * Z) (bs : bytes) : Z * Z * Z * Z :=
  match fuel with
  | O => st
  | S fuel' => match bs with [] => st | _ => md5_blocks fuel' (md5_block st (take 64 bs)) (drop 64 bs) end
  end.

Definition md5_start : Z * Z * Z * Z := (1732584193, 4023233417, 2562383102, 271733878).

Definition md5 (msg : bytes) : bytes :=
  let p := md5_pad msg in
  let '(a, b, c, d) := md5_blocks (length p) md5_start p in
  flat_map (le_bytes 4) [a; b; c; d].

Example md5_empty : EncodeToString (md5 []) = $"d41d8cd98f00b204e9800998ecf8427e".
Proof. vm_compute. reflexivity. Qed.
Example md5_abc : EncodeToString (md5 ($"abc")) = $"900150983cd24fb0d6963f7d28e17f72".
Proof. vm_compute. reflexivity. Qed.
Example md5_long :
  EncodeToString (md5 ($"12345678901234567890123456789012345678901234567890123456789012345678901234567890")) =
  $"57edf4a22be3c955ac49da2e2107b67a".
Proof. vm_compute. reflexivity. Qed.

Lemma length_le_bytes n z : length (le_bytes n z) = n.
Proof. revert z. induction n as [|n IH]; intros z; [done|]. cbn. by rewrite IH. Qed.

Lemma length_md5 msg : length (md5 msg) = 16%nat.
Proof.
  unfold md5. destruct (md5_blocks _ _ _) as [[[a b] c] d]. cbn [flat_map].
  by rewrite !length_app, !length_le_bytes.
Qed.
