(* ===== verification/Secure.v ===== *)
(** * Package [secure]: passwords, digests and keys

    [bcrypt.go], [des3.go], [md5.go] and [ssh.go].  The digest is that of [GoMd5]; the
    other algorithms are variables, and what their documentation promises is a class. *)

From S2P Require Import Prelude GoStr GoPath GoTree GoTreeFacts GoHash GoMd5.

Local Open Scope Z_scope.

(** ** Digests ([md5.go]) *)

Definition MD5sum (s : bytes) : bytes := EncodeToString (md5 s).

Definition FileMD5sum (path : bytes) : State os (result bytes) :=
  b ←? os_ReadFile path; mret (Ok (MD5sum b)).

(** ** Libraries *)

(** Hashing may fail, for example for passwords that are too long; [cost] and the random
    salt are behind the number of the call. *)
Class Bcrypt := {
  GenerateFromPassword : nat -> bytes -> result bytes;
  CompareHashAndPassword : bytes -> bytes -> bool           (* no error *)
}.

Class BcryptLaws `{Bcrypt} := {
  bcrypt_verifies n p h : GenerateFromPassword n p = Ok h -> CompareHashAndPassword h p = true;
  bcrypt_hash n p h : GenerateFromPassword n p = Ok h -> h <> []
}.

(** Triple DES in CBC mode with the padding of PKCS 7: key, initial vector, data. *)
Class Des3 := {
  Md5ToString : bytes -> bytes;
  Des3CBCEncrypt : bytes -> bytes -> bytes -> result bytes;
  Des3CBCDecrypt : bytes -> bytes -> bytes -> result bytes
}.

Class Des3Laws `{Des3} := {
  md5_text s : length (Md5ToString s) = 32%nat;
  des3_encrypts key iv s : length key = 24%nat -> length iv = 8%nat -> exists c, Des3CBCEncrypt key iv s = Ok c;
  des3_decrypts key iv s c : Des3CBCEncrypt key iv s = Ok c -> Des3CBCDecrypt key iv c = Ok s
}.

(** ** Passwords ([bcrypt.go]) *)

Section bcrypt.
Context `{Bcrypt}.

(** The number of the call. *)
Definition BcryptHash (n : nat) (password : bytes) : result bytes :=
  if bool_decide (password = []) then Ok []
  else match GenerateFromPassword n password with
       | Ok hash => Ok hash
       | Err err => Err (EWrap ($"密码加密失败") err)
       end.

Definition BcryptVerify (password hashedPassword : bytes) : bool :=
  if bool_decide (hashedPassword = []) || bool_decide (password = []) then bool_decide (hashedPassword = password)
  else CompareHashAndPassword hashedPassword password.
End bcrypt.

Definition IsBcrypt (password : bytes) : bool :=
  match password with
  | a :: b :: _ :: d :: _ =>
      bool_decide (a = "$"%char) && bool_decide (b = "2"%char) && bool_decide (d = "$"%char)
  | _ => false
  end.

(** A password verifies against its own hash, also the empty one, whose hash is empty;
    with an empty hash nothing but the empty password does, and the empty password with
    nothing else. *)
Theorem BcryptVerify_hash `{BcryptLaws} n password hash :
  BcryptHash n password = Ok hash ->
  BcryptVerify password hash = true /\ (hash = [] <-> password = []) /\
  (forall p, BcryptVerify p [] = bool_decide (p = [])) /\ (forall h, BcryptVerify [] h = bool_decide (h = [])).
Proof.
  intros Hh. assert (password = [] /\ hash = [] \/ password <> [] /\ GenerateFromPassword n password = Ok hash) as Hc.
  { unfold BcryptHash in Hh. destruct (decide (password = [])) as [Hp|Hp].
    - rewrite bool_decide_eq_true_2 in Hh by done. left. split; congruence.
    - rewrite bool_decide_eq_false_2 in Hh by done. right. split; [done|].
      by destruct (GenerateFromPassword n password). }
  unfold BcryptVerify. split; [|split; [|split]].
  - destruct Hc as [[-> ->]|[Hp Hg]]; [done|]. rewrite (bool_decide_eq_false_2 (hash = [])) by (by eapply bcrypt_hash).
    rewrite (bool_decide_eq_false_2 (password = [])) by done.
    by eapply bcrypt_verifies.
  - destruct Hc as [[-> ->]|[Hp Hg]]; [done|]. split; [|done]. intros ->. by apply bcrypt_hash in Hg.
  - intros p. by destruct p.
  - intros h. by destruct h.
Qed.

(** ** Encryption ([des3.go]) *)

Section des3.
Context `{Des3}.

(** A slice past the end of the digest panics. *)
Definition key_iv (p : bytes) : option (bytes * bytes) :=
  let pb := Md5ToString p in
  if (24 <=? length pb)%nat then Some (take 24 pb, drop 24 pb) else None.

Definition Des3Encrypt (s p : bytes) : outcome (result bytes) :=
  match key_iv p with
  | None => Panic
  | Some (key, iv) =>
      Ret (match Des3CBCEncrypt key iv s with Ok secret => Ok (EncodeToString secret) | Err e => Err e end)
  end.

Definition Des3Decrypt (s p : bytes) : outcome (result bytes) :=
  match DecodeString s with
  | Err e => Ret (Err e)
  | Ok sb =>
      match key_iv p with
      | None => Panic
      | Some (key, iv) => Ret (Des3CBCDecrypt key iv sb)
      end
  end.
End des3.

(** Every text is encrypted, under every password, and decrypted to itself with the
    same password. *)
Theorem Des3_roundtrip `{Des3Laws} s p :
  exists c, Des3Encrypt s p = Ret (Ok c) /\ Des3Decrypt c p = Ret (Ok s).
Proof.
  unfold Des3Encrypt, Des3Decrypt. pose proof (md5_text p) as Hl.
  assert (key_iv p = Some (take 24 (Md5ToString p), drop 24 (Md5ToString p))) as ->.
  { unfold key_iv. by rewrite Hl. }
  destruct (des3_encrypts (take 24 (Md5ToString p)) (drop 24 (Md5ToString p)) s) as [c Hc].
  { rewrite length_take. lia. }
  { rewrite length_drop. lia. }
  exists (EncodeToString c). rewrite Hc. split; [done|]. rewrite DecodeString_Encode. f_equal. by apply des3_decrypts.
Qed.

(** The digest of a file is that of what it holds. *)
Lemma FileMD5sum_run q data m w :
  tree_ok (nodes w) -> faults w = [] -> nodes w !! q = Some (NFile data m) ->
  fst (FileMD5sum (abs q) w) = Ok (MD5sum data).
Proof.
  intros Hok Hf Hq. unfold FileMD5sum. unfold try_bind, mbind, State_bind.
  by rewrite (os_ReadFile_run q w data m).
Qed.

(** ** Keys ([ssh.go]) *)

Section ssh.
Context {Priv Pub : Type}.
Variable GenerateKey : result Priv.
Variable public : Priv -> Pub.
Variable pem_Encode : bytes -> bytes -> bytes.
Variable MarshalPKCS1PrivateKey : Priv -> bytes.
Variable NewPublicKey : Pub -> result bytes.
Variable MarshalAuthorizedKey : bytes -> bytes.

Definition NewSSHPublicKey (key : Pub) : result bytes :=
  k ← NewPublicKey key; mret (MarshalAuthorizedKey k).

Definition NewSSHKeypair : result (bytes * bytes) :=
  k ← GenerateKey;
  let privateKeyBytes := pem_Encode ($"RSA PRIVATE KEY") (MarshalPKCS1PrivateKey k) in
  pub ← NewSSHPublicKey (public k);
  mret (privateKeyBytes, pub).
End ssh.

(** ** Witnesses *)

Module SecureDemo.
(** A reversible scheme in place of the real ones. *)
#[export] Instance bcrypt : Bcrypt := {
  GenerateFromPassword n p := Ok ($"$2a$10$" ++ p);
  CompareHashAndPassword h p := bool_decide (h = $"$2a$10$" ++ p)
}.
#[export] Instance bcrypt_laws : BcryptLaws.
Proof. split; intros n p h [= <-]; [by apply bool_decide_eq_true|done]. Qed.

#[export] Instance des3 : Des3 := {
  Md5ToString := MD5sum;
  Des3CBCEncrypt key iv s := Ok (reverse s);
  Des3CBCDecrypt key iv s := Ok (reverse s)
}.
Lemma length_hex bs : length (EncodeToString bs) = (2 * length bs)%nat.
Proof. unfold EncodeToString. induction bs as [|b bs IH]; [done|]. cbn [flat_map length app]. rewrite IH. lia. Qed.
#[export] Instance des3_laws : Des3Laws.
Proof.
  split.
  - intros s. unfold Md5ToString, des3, MD5sum. by rewrite length_hex, length_md5.
  - intros. by eexists.
  - intros key iv s c [= <-]. cbn. by rewrite reverse_involutive.
Qed.
End SecureDemo.

Lemma BcryptVerify_hash_witness :
  BcryptVerify (H := SecureDemo.bcrypt) ($"secret") ($"$2a$10$secret") = true /\ IsBcrypt ($"$2a$10$secret") = true.
Proof.
  pose proof SecureDemo.bcrypt_laws as laws. split; [|reflexivity]. exact (proj1 (BcryptVerify_hash (H := SecureDemo.bcrypt) 0 ($"secret") ($"$2a$10$secret") eq_refl)).
Defined.

Lemma Des3_roundtrip_witness :
  exists c, Des3Encrypt (H := SecureDemo.des3) ($"text") ($"key") = Ret (Ok c) /\
    Des3Decrypt (H := SecureDemo.des3) c ($"key") = Ret (Ok ($"text")).
Proof. pose proof SecureDemo.des3_laws as laws. exact (Des3_roundtrip (H := SecureDemo.des3) ($"text") ($"key")). Defined.
