(* ===== verification/HttpStatic.v ===== *)
(** * Package [httpd]: static files and recovery

    [static.go] and [recovery.go].  A file system is what can be opened in it; the file
    server of the library serves the file of a path.  Requests have no escaped path. *)

From S2P Require Import Prelude GoStr GoPath.

Inductive answer :=
  | Served (path : bytes)                        (* by the file server, for that path *)
  | Status (code : Z).

Definition StatusNotFound : Z := 404.
Definition StatusInternalServerError : Z := 500.

Section static.
Variable Open : bytes -> bool.                   (* whether a path of the file system opens *)

(** [http.StripPrefix] before the file server. *)
Definition fileHandler (prefix path : bytes) : answer :=
  if bool_decide (prefix = []) then Served path
  else if HasPrefix path prefix then Served (TrimPrefix path prefix)
  else Status StatusNotFound.

Definition index_html : bytes := $"index.html".

Definition StaticServe (prefix path : bytes) : answer :=
  if Open path then fileHandler prefix path
  else if HasSuffix path ($"/") && Open (path ++ index_html) then fileHandler prefix path
  else if negb (bool_decide (Ext path = [])) then Status StatusNotFound
  else fileHandler prefix ($"/").
End static.

(** The handlers that are installed: over a directory, with a listing or without, and over
    an embedded tree or a part of it. *)
Section install.
Variable gin_Dir : bytes -> bool -> bytes -> bool.
Variable FS : Type.
Variable http_FS : FS -> bytes -> bool.
Variable fs_Sub : FS -> bytes -> FS.

Definition Static (root prefix : bytes) : bytes -> answer := StaticServe (gin_Dir root false) prefix.
Definition StaticIndex (root prefix : bytes) : bytes -> answer := StaticServe (gin_Dir root true) prefix.
Definition StaticEmbed (efs : FS) (prefix subdir : bytes) : bytes -> answer :=
  StaticServe (if bool_decide (subdir = []) then http_FS efs else http_FS (fs_Sub efs subdir)) prefix.
End install.

(** [recovery.go]: what the rest of the chain does, with the paths that are logged. *)
Definition Recovery (next : bytes -> outcome answer) (path : bytes) : answer * list bytes :=
  match next path with
  | Ret a => (a, [])
  | Panic => (Status StatusInternalServerError, [path])
  end.

(** Without a prefix a path is answered by its file, or by its directory if that has
    an index; a missing file with an extension is not found; every other path is answered
    by the index of the root, for an application that routes in the browser. *)
Theorem StaticServe_spec Open path :
  StaticServe Open [] path =
    if Open path || (HasSuffix path ($"/") && Open (path ++ index_html)) then Served path
    else if bool_decide (Ext path = []) then Served ($"/") else Status StatusNotFound.
Proof.
  unfold StaticServe, fileHandler. rewrite !bool_decide_eq_true_2 by done.
  destruct (Open path); [done|]. cbn [orb]. destruct (HasSuffix _ _ && _); [done|].
  by case_bool_decide.
Qed.

(** C36: With a prefix the files are looked for with the prefix and served without it: a
    file under the root with an extension is not found at its address, and the index of
    the root is never the answer, unless the prefix is a slash. *)
Theorem StaticServe_prefix_unreachable Open prefix name :
  prefix <> [] -> prefix <> $"/" -> Open (prefix ++ name) = false ->
  (HasSuffix (prefix ++ name) ($"/") = true -> Open (prefix ++ name ++ index_html) = false) ->
  StaticServe Open prefix (prefix ++ name) = Status StatusNotFound.
Proof.
  intros Hne Hs Ho Hi. unfold StaticServe. rewrite Ho, <- app_assoc.
  destruct (HasSuffix (prefix ++ name) ($"/")) eqn:E; [rewrite (Hi eq_refl)|]; cbn [andb];
    (case_bool_decide; cbn [negb]; [|done]); unfold fileHandler; rewrite bool_decide_eq_false_2 by done;
    (destruct (HasPrefix ($"/") prefix) eqn:Ep; [|done]); apply HasPrefix_spec in Ep as [r Hr];
    exfalso; (destruct prefix as [|c prefix]; [done|]); injection Hr as <- Hr;
    by destruct prefix; [destruct Hs|].
Qed.

(** A file of the root that is opened for no address, with the prefix of the application. *)
Lemma StaticServe_prefix_unreachable_witness :
  let root (p : bytes) := bool_decide (p = $"/app.js") || bool_decide (p = $"/index.html") || bool_decide (p = $"/") in
  StaticServe root ($"/ui") ($"/ui" ++ $"/app.js") = Status StatusNotFound.
Proof. intros root. by apply (StaticServe_prefix_unreachable root ($"/ui") ($"/app.js")). Defined.
