(* ===== verification/HttpEngine.v ===== *)
(** * Package [httpd]: the engine

    [engine.go] and its use by [Server].  The library [gin] is a variable: the engine that
    [gin.Default] makes of the settings of the package [gin] at that time. *)

From S2P Require Import Prelude GoStr Logman Quit.

Inductive gin_mode := DebugMode | ReleaseMode.

(** The variables of [gin] and [mime] that are set. *)
Record settings := MkSettings {
  DefaultWriter : writer; DefaultErrorWriter : writer; gin_Mode : gin_mode;
  mime_types : list (bytes * bytes)
}.

Section engine.
Context {E : Type}.
Variable gin_Default : settings -> E.

Record httpd := MkHttpd { engine : option E; gin : settings; logman : lstate }.

(** A call of package [logman]. *)
Definition with_logman {A : Type} (m : State lstate A) : State httpd A := fun s =>
  let '(a, l) := m (logman s) in (a, MkHttpd (engine s) (gin s) l).

Definition set_gin (g : settings) : State httpd unit := modify (fun s => MkHttpd (engine s) g (logman s)).
Definition set_engine (e : E) : State httpd unit := modify (fun s => MkHttpd (Some e) (gin s) (logman s)).

(** [mime.AddExtensionType]: the last type of an extension counts. *)
Definition AddExtensionType (ext typ : bytes) (g : settings) : settings :=
  MkSettings (DefaultWriter g) (DefaultErrorWriter g) (gin_Mode g) ((ext, typ) :: mime_types g).

Definition SetMode (m : gin_mode) (g : settings) : settings :=
  MkSettings (DefaultWriter g) (DefaultErrorWriter g) m (mime_types g).

Definition Engine (debug : bool) : State httpd E :=
  e ← gets engine;
  match e with
  | Some e => mret e
  | None =>
      access ← with_logman (AutoWriter ($"gin-access"));
      error ← with_logman (AutoWriter ($"gin-error"));
      g ← gets gin;
      let g := MkSettings access error (gin_Mode g) (mime_types g) in
      let g := AddExtensionType ($".css") ($"text/css; charset=utf-8") g in
      let g := AddExtensionType ($".js") ($"text/javascript; charset=utf-8") g in
      let g := SetMode (if debug then DebugMode else ReleaseMode) g in
      set_gin g;;
      let e := gin_Default g in
      set_engine e;;
      mret e
  end.

(** Routes.  A method of the engine is a function of the library, and a call of it without
    an engine panics, as [engine] is nil then. *)
Definition on_engine {A : Type} (method : E -> A * E) : State httpd (outcome A) := fun s =>
  match engine s with
  | None => (Panic, s)
  | Some e => let '(a, e) := method e in (Ret a, MkHttpd (Some e) (gin s) (logman s))
  end.

Section routes.
Context {handler group : Type}.
Variable gin_NoRoute : list handler -> E -> E.
Variable gin_Group : bytes -> list handler -> E -> group * E.
Variable gin_Use : list handler -> E -> E.

Definition NoRoute (handlers : list handler) : State httpd (outcome E) :=
  on_engine (fun e => let e := gin_NoRoute handlers e in (e, e)).

Definition Group (relativePath : bytes) (handlers : list handler) : State httpd (outcome group) :=
  on_engine (gin_Group relativePath handlers).

Definition Use (middleware : list handler) : State httpd (outcome E) :=
  on_engine (fun e => let e := gin_Use middleware e in (e, e)).
End routes.

(** [Server] up to [ListenAndServe]: the engine, and the server that is made of it; its
    shutdown, and its end, are in [Quit]. *)
Record http_server := MkServer { Addr : bytes; Handler : E; srv_ReadTimeout : Z; srv_WriteTimeout : Z }.

Definition Server (addr : bytes) (options : list Option) : State httpd http_server :=
  let cfg := server_config options in
  e ← Engine (Debug cfg);
  mret (MkServer addr e (ReadTimeout cfg) (WriteTimeout cfg)).

(** ** One engine for the process *)

Lemma Engine_known debug s e : engine s = Some e -> Engine debug s = (e, s).
Proof. intros H. unfold Engine. rewrite (st_bind_run (gets engine) _ s (Some e) s); [done|]. unfold gets. by rewrite H. Qed.

Lemma Engine_engine debug s : engine (snd (Engine debug s)) = Some (fst (Engine debug s)).
Proof.
  destruct s as [[e|] g l]; [by rewrite (Engine_known debug _ e)|].
  cbv [Engine mbind State_bind gets with_logman]. cbn [engine gin logman]. destruct (AutoWriter _ l) as [w1 l1]. cbn [fst snd logman engine gin].
  by destruct (AutoWriter _ l1).
Qed.

(** The first call makes the engine, in the mode it asks for and with the log files of
    [logman]; every later call, whatever it asks for, returns that engine and changes
    nothing. *)
Theorem Engine_once debug debug' s :
  Engine debug' (snd (Engine debug s)) = Engine debug s.
Proof.
  rewrite (Engine_known debug' _ (fst (Engine debug s))) by apply Engine_engine. by destruct (Engine debug s).
Qed.

(** A program that has an engine when it calls [Server], to have routes, gets neither the
    debug mode nor the release mode that its options ask for. *)
Lemma WithDebug_ignored addr options s e :
  engine s = Some e ->
  Server addr options s =
    (MkServer addr e (ReadTimeout (server_config options)) (WriteTimeout (server_config options)), s).
Proof. intros H. unfold Server. by rewrite (st_bind_run _ _ _ _ _ (Engine_known _ _ _ H)). Qed.

(** Routes need an engine. *)
Lemma routes_panic {A} (method : E -> A * E) s : engine s = None -> on_engine method s = (Panic, s).
Proof. intros H. unfold on_engine. by rewrite H. Qed.
End engine.
Arguments MkHttpd {E}. Arguments engine {E}. Arguments gin {E}.

(** ** Example *)

Module EngineDemo.
Definition start : httpd (E := settings) :=
  MkHttpd None (MkSettings Stdout Stderr DebugMode []) LogmanDemo.start.
Definition with_routes := snd (Engine id false start).

(** Routes first, then [Server] with the debug option. *)
Example debug_stays_off :
  engine start = None /\
  (gin_Mode <$> engine (snd (Server id ($":80") [WithDebug true] with_routes))) = Some ReleaseMode /\
  (gin_Mode <$> engine (snd (Server id ($":80") [WithDebug true] start))) = Some DebugMode.
Proof. vm_compute. repeat split. Qed.
End EngineDemo.
